(* ===== verification/_CoqProject ===== *)
-Q . S2P
Prelude.v
F64.v
Utf8.v
Errors.v
Clock.v
External.v
Transport.v
Toy.v
Wire.v
Config.v
Frag.v
Compress.v
Fuzz.v
Relay.v
Channels.v
Store.v
Identity.v
Noise.v
Payloads.v
Node.v
NodeFrame.v
Demo.v
NodeInvariants.v
NodeRelay.v
NodeTalk.v
NodeCommands.v
NodeHandshake.v
NodeContact.v
NodeHeld.v
NodeRecovery.v
NodeGlare.v
NodeFlood.v
NodeSync.v
Sqlite.v
SqlTables.v
SqliteProps.v
SqliteRefines.v
SqliteSim.v
SqliteReopen.v
NodeStores.v
Ffi.v
FfiProps.v
Topology.v
TopologyProps.v
Sim.v
SimProps.v
SimDelivery.v
Scenarios.v
ScenarioProps.v
SimHop.v
Cli.v
