(* ===== verification/Prelude.v ===== *)
(** * Cockroach: a verification development for the mesh messaging core

    The program is an offline mesh messenger. Phones exchange signed packets over Bluetooth links;
    every node floods what it hears to its neighbours, keeps channel history, reconciles it with
    peers, and talks to contacts over Noise sessions. The core is [src/crates/meshcore]: a
    sans-IO state machine, [MeshNode], which is told of transport events, commands and ticks and
    answers with calls on a transport and a list of events for the user interface. Around it are a
    persistent store in SQLite ([src/crates/meshcore-store]), the surface the phone applications call
    ([src/crates/meshcore-ffi]) and a deterministic simulator of whole meshes ([src/crates/sim]). This
    development models all four crates and proves what makes them correct.

    ** The parts, and where they are modelled

    - [wire.rs]: [Wire]. Packets and their codec. A decoder that slices and indexes keeps each slice
      and index as a possible [Panic], so that the absence of panics is a theorem.
    - [error.rs]: [Errors]; [clock.rs]: [Clock] (time is a number that a step is given);
      [config.rs]: [Config]; [transport.rs]: [Transport] (the calls on a transport are a log).
    - [frag.rs]: [Frag]. Cutting packets into frames and the bounded reassembler.
    - [compress.rs]: [Compress]. The size-prefixed LZ4 wrapper and its output cap.
    - [relay.rs]: [Relay]. The dedup cache, the token bucket per sender (in binary64 arithmetic, [F64]),
      the scheduler of rebroadcasts, the density-adaptive coin.
    - [channels.rs]: [Channels]. Channel names and set reconciliation.
    - [store.rs]: [Store]. The trait as a class [Store] with laws [StoreLaws] and, for how far an operation
      reaches, [StoreScope]; and [MemoryStore], which is proved to satisfy them. [MeshNode] is modelled
      against the class, and so serves both stores.
    - [identity.rs]: [Identity]. Keys, wire ids, the hashcash.
    - [noise.rs]: [Noise]. The session state machine around the Noise library.
    - [node.rs]: [Payloads] (the codecs at the end of the file) and [Node]: the record [MeshNode] has
      every field of the struct and there is one definition per method, in state-passing style.
      [node_op] lists everything the platform can do to a node; [node_run] is a run.

    - [meshcore-store/src/lib.rs]: [Sqlite]. The same trait over an encrypted database: one definition per
      method, statement by statement, over tables that are maps from keys to rows. The engine is a
      class [SqlEngine]: in which order it scans, which statement or query fails, how many rows can be
      read, which key text opens which file. Opening is the statements of [SqliteStore::open] in their
      order ([OPEN]) over a connection that carries its key: [PRAGMA key] only sets it, and the first
      statement that needs the pages makes the file under that key or fails. The file behind a
      connection ([conn_file]) is what the next opening is given. [SqlTables] has the lemmas on
      sorting, limits and trims, [SqliteProps] the laws of the trait, [SqliteRefines] and [SqliteSim] the
      refinement of [MemoryStore], [SqliteReopen] the life of the file.
    - [meshcore-ffi/src/lib.rs]: [Ffi]. The node behind a mutex, with the poisoning of the lock explicit,
      and the hexadecimal codec with its string slices; [FfiProps] its theorems.
    - [sim/src/topology.rs]: [Topology], [TopologyProps]. Random geometric graphs and the union-find.
    - [sim/src/lib.rs]: [Sim]. The world: nodes, links, frames in flight, virtual time. The nodes are the
      [MeshNode] above, over [MemoryStore]. [SimProps], [SimDelivery] and [SimHop] have its theorems.
    - [sim/src/scenarios.rs]: [Scenarios], [ScenarioProps]. Every scenario runner, as a program over the world.
    - [sim/src/main.rs]: [Cli]. The arguments, the choice of a scenario, the exit codes.
    - [meshcore/fuzz/fuzz_targets]: [Fuzz]. The three targets, as functions of the fuzzer's input.

    [Prelude] holds what all of them share: bytes and fixed-width integers, outcomes (a Rust
    [Result] with the panic made explicit), stable sorting, ordered maps, the eviction of the
    oldest entry, and the lemmas on them. [Utf8] is the byte view of Rust strings, and the parser of
    numbers that the command line and the hexadecimal codec share.

    Code outside the repository is a parameter ([External]): SHA-256, Ed25519, X25519, Noise, LZ4, the
    random generator, the Unicode case tables, each a class with the operations the core calls and
    a class of documented laws; the iteration order of a [HashMap] is a parameter too. [Toy] has a
    small executable instance of each, which shows the laws consistent and lets the witnesses
    run; [Demo] connects two concrete nodes with it, and [ScenarioProps] runs scenarios of the simulator.

    ** What is proved

    About every reachable state of a node ([NodeInvariants], by one induction over the methods that
    [NodeFrame] carries out once for any relation its updates respect): nothing panics; petnames and
    verified marks change by the user's commands only; every ready session belongs to a key its
    peer announced under a valid signature; every event in the queue is backed by a signature or
    by an authenticated ciphertext; buffers are bounded.

    About flooding ([NodeRelay]): a broadcast arrives across a hop as the same packet in whatever
    order its frames come; duplicates are only counted; a rebroadcast goes out once, later, with
    one hop less, unless it was heard often enough; redundant links are pruned to one per peer.

    About conversations ([NodeTalk], with both nodes in the statement): a sync request is answered
    with exactly what is missing; a direct message arrives once and as written; a verification is
    confirmed both ways and stops there. About the commands and the timer ([NodeCommands]): taking
    trust back has its effect at once and reaches nothing of any other peer; stalled handshakes are
    retried within a budget.

    About the composition of nodes: the three messages of a handshake carry the texts that wait for
    it, in their order, also when ciphertexts overtake the last of them. [NodeHandshake] proves this
    once, and four theorems rest on it: the first message to a new contact arrives ([NodeContact]);
    texts written while the contact was out of reach are held and released by its next announce
    ([NodeHeld]); and after one end has lost its session its timer and the resync counter of the other
    replace it, and the text that waited arrives ([NodeRecovery]); and when both ends have started at
    once, the one of the higher fingerprint gives way and the texts of both arrive over the session
    of the other ([NodeGlare]). Along a line of nodes that have room, rate and luck for it, a channel
    message is stored, shown and passed on by every node its hop counter reaches, whatever order
    the frames come in, and by none beyond ([NodeFlood]); one exchange of anti-entropy gives the
    requester the union of both stores, if it can take the whole answer in ([NodeSync], which also
    has a run where its rate limiter cuts the answer). A node cannot tell its stores apart: the same run over [MemoryStore] and over
    [SqliteStore] makes the same calls and reports the same events ([NodeStores], where every method
    is shown to commute with a map of stores).

    About the components: the codec is a bijection between canonical packets and accepted byte
    strings and a relay preserves signature and digest ([Wire]); [split] and the reassembler are
    inverse in any order and bounded ([Frag]); decompression is bounded and inverts compression up to
    the cap ([Compress]); the dedup cache, the rate limiter and the scheduler ([Relay]); the store's
    invariant and its lookups ([Store]); minting returns the least nonce ([Identity]); no replay, and
    delivery across losses ([Noise]); the payload codecs ([Payloads]).

    About the database ([SqliteProps], [SqliteSim], [SqliteReopen]): whatever statements, queries and
    cursors fail, it answers only with what was written; a file opened under a key and used in any
    way does not open under another, and under the same one the store answers as before; when no
    statement fails it answers as [MemoryStore] does - but for [has_message], where [stores_differ] shows
    the difference - over any run that stays within the 63-bit range, puts messages once and gives
    those of a channel distinct timestamps.

    About the surface ([FfiProps]): no call poisons the lock, and a call panics only for a fingerprint whose
    text is cut inside a character; a poll reports every waiting event once, in order and with its
    values, and what it reports is genuine; a restart finds the contacts, the trust and the
    conversations again.

    About the simulator: every operation of a world within its bounds succeeds and [run_for] ends on time
    ([world_runs], by an invariant that the frame of [NodeFrame] carries through every node: calls
    name only links the node is an end of); the first step at or after the time of a frame in flight
    delivers exactly the frames that are due, in the order they went on the air
    ([frames_are_delivered]); without loss, routing carries exactly what was sent; the graphs are
    connected by bridges none of which is redundant; a packet broadcast over a lossless link with no
    other traffic to its end is handled there as the same packet once the latency of the link has
    passed, and not before ([packet_crosses_link]); every scenario ends, and
    with it every run of the command line ([main_exits]). The assertions of the fuzz targets hold of
    every input ([fuzz_targets_hold]).

    ** Fuel and bounds

    [mint] searches nonces without an end; it is given a number of rounds as fuel, and
    [mint_returns_least] says how many are enough. [chunks_fuel] takes the length of its list as fuel,
    which is enough because each piece takes an element. [find_root] and [compress] take the number of nodes,
    [bridge] one more than it: a path visits a node once and each bridge removes a component. [run_until]
    takes the duration in milliseconds: a step advances the clock by one or more. Out of fuel is an
    error value, and the theorems show it does not occur. Everything else is structural. Integers
    are [Z] with the wrap-around or saturation of their width written out where the source can reach
    it. In a debug build an overflow would panic; the additions that wrap here ([send_at_ms], the
    attempt and resync counters) are those whose overflow needs a clock near the end of its range
    or is excluded by the bounds around them.

    ** What is not modelled

    The module roots have nothing to state. What the command line prints is modelled as the values
    its format strings take; the decimal rendering of a [f64] and the text around it are not. The
    Noise handshake is a parameter like the rest of the library: [SnowXX] says how a run of the pattern
    goes, and [SnowPaired] how two transport states agree. SQLite and its encryption are a parameter: the statements
    are modelled by what SQL says of them. The reentrancy of the platform's transport callbacks is
    not modelled; they are called with the lock held and the model logs them. The Android application,
    [Debug] and [Display] output, the constant-time properties of the libraries and memory
    zeroization are out of reach of this model. *)
From Stdlib Require Export ZArith Lia.
From Stdlib Require Export Strings.Byte.
From stdpp Require Export base tactics numbers list gmap sorting.

Declare Scope mesh_scope.
Delimit Scope mesh_scope with mesh.
#[global] Open Scope Z_scope.

(** ** Bytes and machine integers *)

Abbreviation byte := Byte.byte.
Abbreviation bytes := (list Byte.byte).

Definition b2z (b : byte) : Z := Z.of_N (Byte.to_N b).

Definition z2b (z : Z) : byte :=
  match Byte.of_N (Z.to_N (z mod 256)) with
  | Some b => b
  | None => Byte.x00
  end.

#[export] Instance byte_eq_dec : EqDecision byte := Byte.byte_eq_dec.

(** A [w]-bit unsigned addition or cast keeps the low [w] bits. *)
Definition wrap (w z : Z) : Z := z mod 2 ^ w.

(** [u64::saturating_sub]. *)
Definition sat_sub (a b : Z) : Z := Z.max 0 (a - b).

(** [saturating_add] at width [w]. *)
Definition sat_add (w a b : Z) : Z := Z.min (2 ^ w - 1) (a + b).

Definition in_width (w z : Z) : Prop := 0 <= z < 2 ^ w.

Definition zlen {A} (l : list A) : Z := Z.of_nat (length l).

(** Big-endian integers: [to_be_bytes] and [from_be_bytes]. *)
Fixpoint be_bytes (n : nat) (z : Z) : bytes :=
  match n with
  | O => []
  | S k => z2b (z / 256 ^ Z.of_nat k) :: be_bytes k z
  end.

Fixpoint be_int (l : bytes) : Z :=
  match l with
  | [] => 0
  | b :: l' => b2z b * 256 ^ zlen l' + be_int l'
  end.

(** Little-endian, for [to_le_bytes]. *)
Definition le_bytes (n : nat) (z : Z) : bytes := rev (be_bytes n z).

(** ** Outcomes: a Rust [Result], with the panic of an out-of-range index made explicit *)

Inductive outcome (E A : Type) : Type :=
  | Ok (a : A)
  | Err (e : E)
  | Panic.
Arguments Ok {E A} a.
Arguments Err {E A} e.
Arguments Panic {E A}.

Definition obind {E A B} (m : outcome E A) (k : A → outcome E B) : outcome E B :=
  match m with
  | Ok a => k a
  | Err e => Err e
  | Panic => Panic
  end.

(** A loop whose body can fail. *)
Fixpoint ofold {E A B} (f : A → B → outcome E A) (a : A) (l : list B) : outcome E A :=
  match l with
  | [] => Ok a
  | x :: l => obind (f a x) (λ a, ofold f a l)
  end.

(** A slice or index expression, which panics out of range. *)
Definition expect {E A} (o : option A) : outcome E A :=
  match o with
  | Some a => Ok a
  | None => Panic
  end.

Definition is_ok {E A} (m : outcome E A) : bool :=
  match m with Ok _ => true | _ => false end.

Notation "'let*' x ':=' m 'in' k" := (obind m (λ x, k))
  (at level 10, x pattern, m at level 100, k at level 200) : mesh_scope.
#[global] Open Scope mesh_scope.

#[export] Instance outcome_eq_dec `{EqDecision E, EqDecision A} : EqDecision (outcome E A).
Proof. solve_decision. Defined.

(** [&l[a..b]] and [l[i]]. *)
Definition slice {A} (a b : Z) (l : list A) : option (list A) :=
  if (0 <=? a) && (a <=? b) && (b <=? zlen l)
  then Some (take (Z.to_nat (b - a)) (drop (Z.to_nat a) l))
  else None.

Definition index {A} (i : Z) (l : list A) : option A :=
  if 0 <=? i then l !! Z.to_nat i else None.

(** Copy into a fixed-size array of [n] zeroes, [a[..k].copy_from_slice(&v[..k])]. *)
Definition zeroes (n : nat) : bytes := replicate n Byte.x00.

(** ** Orderings: the [Ord] instances that fix the iteration order of a [BTreeMap] *)

Class KeyOrd (K : Type) := key_leb : K → K → bool.

Class KeyOrdLaws (K : Type) `{KeyOrd K} : Prop := {
  key_leb_refl x : key_leb x x = true;
  key_leb_trans x y z : key_leb x y = true → key_leb y z = true → key_leb x z = true;
  key_leb_antisym x y : key_leb x y = true → key_leb y x = true → x = y;
  key_leb_total x y : key_leb x y = true ∨ key_leb y x = true;
}.

#[export] Instance Z_KeyOrd : KeyOrd Z := Z.leb.

(** Lexicographic order of byte strings: [Ord] of arrays, [Vec<u8>] and [String]. *)
Fixpoint bytes_leb (l1 l2 : bytes) : bool :=
  match l1, l2 with
  | [], _ => true
  | _ :: _, [] => false
  | x :: l1', y :: l2' =>
      if b2z x <? b2z y then true
      else if b2z y <? b2z x then false
      else bytes_leb l1' l2'
  end.

#[export] Instance bytes_KeyOrd : KeyOrd bytes := bytes_leb.

Definition bytes_ltb (l1 l2 : bytes) : bool := negb (bytes_leb l2 l1).

(** ** Stable sorting and selection *)

Section isort.
Context {A : Type} (leb : A → A → bool).

Fixpoint isort_insert (x : A) (l : list A) : list A :=
  match l with
  | [] => [x]
  | y :: l' => if leb x y then x :: l else y :: isort_insert x l'
  end.

(** Stable: an element goes before the later ones it is equivalent to. *)
Definition isort (l : list A) : list A := foldr isort_insert [] l.
End isort.

(** [slice::sort_by_key]. *)
Definition sort_by_key {A} (key : A → Z) (l : list A) : list A :=
  isort (λ x y, key x <=? key y) l.

(** [Vec::dedup]: drops an element equal to the one kept before it. *)
Fixpoint dedup {A} `{EqDecision A} (l : list A) : list A :=
  match l with
  | [] => []
  | x :: l' =>
      match l' with
      | [] => [x]
      | y :: _ => if decide (x = y) then dedup l' else x :: dedup l'
      end
  end.

(** [Iterator::min_by_key]: the first minimum in iteration order. *)
Fixpoint min_by_key {A} (key : A → Z) (l : list A) : option A :=
  match l with
  | [] => None
  | x :: l' =>
      match min_by_key key l' with
      | None => Some x
      | Some y => if key x <=? key y then Some x else Some y
      end
  end.

(** [slice::chunks]: pieces of [n] elements, the last one shorter. Each piece takes an element or
    more, so the length is enough fuel. *)
Fixpoint chunks_fuel {A} (fuel n : nat) (l : list A) : list (list A) :=
  match fuel, l with
  | S k, _ :: _ => take n l :: chunks_fuel k n (drop n l)
  | _, _ => []
  end.

Definition chunks_of {A} (n : nat) (l : list A) : list (list A) := chunks_fuel (length l) n l.

(** [slice::chunks_exact]: a shorter last piece is left out. *)
Definition chunks_exact {A} (n : nat) (l : list A) : list (list A) :=
  List.filter (λ c, (length c =? n)%nat) (chunks_of n l).

(** ** Maps *)

(** A [BTreeMap] is a finite map iterated in ascending key order. *)
Definition btree_iter {K V} `{Countable K, KeyOrd K} (m : gmap K V) : list (K * V) :=
  isort (λ x y, key_leb x.1 y.1) (map_to_list m).

Definition btree_set_iter {K} `{Countable K, KeyOrd K} (s : gset K) : list K :=
  isort key_leb (elements s).

(** A [HashMap] is a finite map iterated in an order the standard library leaves open. *)
Class HashIter := hash_iter : ∀ {K V} `{Countable K}, gmap K V → list (K * V).

Class HashIterLaws `{HashIter} : Prop :=
  hash_iter_perm : ∀ {K V} `{Countable K} (m : gmap K V), hash_iter m ≡ₚ map_to_list m.

(** [BTreeMap::retain] and [HashMap::retain]. *)
Definition map_retain {K V} `{Countable K} (p : K → V → bool) (m : gmap K V) : gmap K V :=
  filter (λ kv, p kv.1 kv.2 = true) m.

Definition msize {K V} `{Countable K} (m : gmap K V) : Z := Z.of_nat (size m).

(** Removes the entry with the smallest age stamp, the first one in key order:
    [iter().min_by_key(..)] followed by [remove]. *)
Definition evict_min {K V} `{Countable K, KeyOrd K} (age : V → Z) (m : gmap K V) : gmap K V :=
  match min_by_key (λ kv : K * V, age kv.2) (btree_iter m) with
  | Some (k, _) => delete k m
  | None => m
  end.

#[export] Program Instance byte_countable : Countable byte :=
  {| encode b := encode (Byte.to_N b); decode p := decode p ≫= Byte.of_N |}.
Next Obligation. intros b. cbv beta. rewrite decode_encode. apply Byte.of_to_N. Qed.

(** ** Lemmas: bytes and integers *)

Lemma b2z_range b : 0 <= b2z b < 256.
Proof. unfold b2z. pose proof (Byte.to_N_bounded b). lia. Qed.

Lemma b2z_z2b z : b2z (z2b z) = z mod 256.
Proof.
  unfold z2b. pose proof (Z.mod_pos_bound z 256).
  destruct (Byte.of_N _) as [b|] eqn:E.
  - apply Byte.to_of_N in E. unfold b2z. rewrite E. lia.
  - exfalso. apply Byte.of_N_None_iff in E. lia.
Qed.

Lemma z2b_b2z b : z2b (b2z b) = b.
Proof.
  unfold z2b. pose proof (b2z_range b). rewrite Z.mod_small by lia.
  unfold b2z. rewrite N2Z.id, Byte.of_to_N. done.
Qed.

Lemma b2z_inj b1 b2 : b2z b1 = b2z b2 → b1 = b2.
Proof. intros E. rewrite <- (z2b_b2z b1), <- (z2b_b2z b2), E. done. Qed.

Lemma zlen_nonneg {A} (l : list A) : 0 <= zlen l.
Proof. unfold zlen. lia. Qed.

Lemma zlen_nil {A} : zlen (@nil A) = 0.
Proof. done. Qed.

Lemma zlen_cons {A} (x : A) l : zlen (x :: l) = 1 + zlen l.
Proof. unfold zlen. cbn [length]. lia. Qed.

Lemma zlen_app {A} (l1 l2 : list A) : zlen (l1 ++ l2) = zlen l1 + zlen l2.
Proof. unfold zlen. rewrite length_app. lia. Qed.

Lemma length_be_bytes n z : length (be_bytes n z) = n.
Proof. induction n; cbn; congruence. Qed.

Lemma zlen_be_bytes n z : zlen (be_bytes n z) = Z.of_nat n.
Proof. unfold zlen. by rewrite length_be_bytes. Qed.

Lemma be_int_range l : 0 <= be_int l < 256 ^ zlen l.
Proof.
  induction l as [|b l IH]; cbn [be_int].
  - unfold zlen. cbn. lia.
  - rewrite zlen_cons, Z.pow_add_r, Z.pow_1_r by (pose proof (zlen_nonneg l); lia).
    pose proof (b2z_range b). nia.
Qed.

Lemma be_int_be_bytes n z : be_int (be_bytes n z) = z mod 256 ^ Z.of_nat n.
Proof.
  induction n as [|n IH]; cbn [be_bytes be_int].
  - by rewrite Z.pow_0_r, Z.mod_1_r.
  - rewrite b2z_z2b, zlen_be_bytes, IH, Nat2Z.inj_succ, Z.pow_succ_r by lia.
    rewrite (Z.mul_comm 256 (256 ^ Z.of_nat n)), Z.rem_mul_r by lia. lia.
Qed.

Lemma be_int_be_bytes_small n z :
  0 <= z < 256 ^ Z.of_nat n → be_int (be_bytes n z) = z.
Proof. intros. rewrite be_int_be_bytes, Z.mod_small; lia. Qed.

Lemma be_bytes_mod n k z : Z.of_nat n <= k → be_bytes n (z mod 256 ^ k) = be_bytes n z.
Proof.
  induction n as [|n IH]; intros Hk; cbn [be_bytes]; [done|].
  f_equal; [|apply IH; lia].
  apply b2z_inj. rewrite !b2z_z2b.
  assert (256 ^ k = 256 ^ Z.of_nat n * (256 * 256 ^ (k - Z.of_nat n - 1))) as ->.
  { rewrite <- Z.pow_succ_r, <- Z.pow_add_r by lia. f_equal. lia. }
  rewrite Z.rem_mul_r, Z.add_comm, (Z.mul_comm (256 ^ _)), Z.div_add_l by lia.
  rewrite (Z.div_small (z mod _)), Z.add_0_r by (apply Z.mod_pos_bound; lia).
  rewrite Z.rem_mul_r, (Z.mul_comm 256 (_ `mod` _)), Z.mod_add, Z.mod_mod by lia. done.
Qed.

Lemma be_bytes_be_int l : be_bytes (length l) (be_int l) = l.
Proof.
  induction l as [|b l IH]; cbn [be_bytes be_int length]; [done|].
  pose proof (be_int_range l) as Hr. fold (zlen l). f_equal.
  - rewrite Z.div_add_l, Z.div_small, Z.add_0_r by lia. apply z2b_b2z.
  - transitivity (be_bytes (length l) (be_int l)); [|exact IH].
    rewrite <- (be_bytes_mod _ (zlen l)) by (unfold zlen; lia).
    by rewrite Z.add_comm, Z.mod_add, Z.mod_small by lia.
Qed.

(** ** Lemmas: slices *)

Lemma slice_app {A} a b (l1 l2 l3 : list A) :
  a = zlen l1 → b = zlen l1 + zlen l2 → slice a b (l1 ++ l2 ++ l3) = Some l2.
Proof.
  intros -> ->. unfold slice. rewrite !zlen_app.
  pose proof (zlen_nonneg l1). pose proof (zlen_nonneg l2). pose proof (zlen_nonneg l3).
  rewrite !(proj2 (Z.leb_le _ _)) by lia. cbn [andb]. f_equal.
  replace (Z.to_nat (zlen l1)) with (length l1) by (unfold zlen; lia).
  rewrite drop_app_length.
  replace (Z.to_nat _) with (length l2) by (unfold zlen; lia).
  by rewrite take_app_length.
Qed.

Lemma slice_Some {A} a b (l l' : list A) :
  slice a b l = Some l' →
  ∃ l1 l3, l = l1 ++ l' ++ l3 ∧ zlen l1 = a ∧ zlen l' = b - a ∧ 0 <= a <= b ∧ b <= zlen l.
Proof.
  unfold slice. intros H. destruct (_ && _) eqn:E; [|done]. simplify_eq.
  apply andb_true_iff in E as [E ?%Z.leb_le].
  apply andb_true_iff in E as [?%Z.leb_le ?%Z.leb_le].
  exists (take (Z.to_nat a) l), (drop (Z.to_nat (b - a)) (drop (Z.to_nat a) l)).
  rewrite !take_drop. split; [done|].
  unfold zlen in *. rewrite !length_take, length_drop. lia.
Qed.

Lemma slice_in_range {A} a b (l : list A) :
  0 <= a <= b → b <= zlen l → slice a b l = Some (take (Z.to_nat (b - a)) (drop (Z.to_nat a) l)).
Proof. intros. unfold slice. by rewrite !(proj2 (Z.leb_le _ _)) by lia. Qed.

Lemma slice_Some_zlen {A} a b (l l' : list A) : slice a b l = Some l' → zlen l' = b - a.
Proof. intros (?&?&?&?&?&?)%slice_Some. lia. Qed.

Lemma index_app {A} i (l1 : list A) x l2 : i = zlen l1 → index i (l1 ++ x :: l2) = Some x.
Proof.
  intros ->. unfold index. rewrite (proj2 (Z.leb_le _ _)) by apply zlen_nonneg.
  replace (Z.to_nat (zlen l1)) with (length l1) by (unfold zlen; lia).
  by apply list_lookup_middle.
Qed.

Lemma index_in_range {A} i (l : list A) : 0 <= i < zlen l → is_Some (index i l).
Proof.
  intros. unfold index. rewrite (proj2 (Z.leb_le _ _)) by lia.
  apply lookup_lt_is_Some_2. unfold zlen in *. lia.
Qed.

(** The bytes from one offset to the end split off the front. *)
Lemma index_Some_split {A} i (l : list A) x :
  index i l = Some x → ∃ l1 l2, l = l1 ++ x :: l2 ∧ zlen l1 = i.
Proof.
  unfold index. destruct (0 <=? i) eqn:E; [|done]. intros H.
  exists (take (Z.to_nat i) l), (drop (S (Z.to_nat i)) l).
  rewrite take_drop_middle by done. split; [done|].
  apply lookup_lt_Some in H. unfold zlen. rewrite length_take. lia.
Qed.

Lemma slice_full {A} (l : list A) : slice 0 (zlen l) l = Some l.
Proof.
  rewrite slice_in_range by (pose proof (zlen_nonneg l); lia). f_equal.
  rewrite take_ge; [done|]. rewrite length_drop. unfold zlen. lia.
Qed.

(** Adjacent slices join, so a parser that reads a buffer front to back rebuilds it. *)
Lemma slice_join {A} a b c (l x y : list A) :
  slice a b l = Some x → slice b c l = Some y → slice a c l = Some (x ++ y).
Proof.
  intros (l1&l3&->&H1&H2&?&?)%slice_Some (k1&k3&E&K1&K2&?&?)%slice_Some.
  assert (k1 = l1 ++ x ∧ l3 = y ++ k3) as [-> ->].
  { rewrite app_assoc in E. apply app_inj_1 in E as [-> ->]; [done|].
    rewrite length_app. unfold zlen in *. lia. }
  rewrite (app_assoc x y k3). apply slice_app; [lia|]. rewrite zlen_app. lia.
Qed.

Lemma index_slice {A} i (l : list A) x : index i l = Some x → slice i (i + 1) l = Some [x].
Proof.
  intros (l1&l2&->&<-)%index_Some_split. change (x :: l2) with ([x] ++ l2).
  apply slice_app; [done|]. by rewrite zlen_cons.
Qed.

Lemma index_app_l {A} i (l1 l2 : list A) x : index i l1 = Some x → index i (l1 ++ l2) = Some x.
Proof.
  unfold index. case_match; [|done]. intros E.
  rewrite lookup_app_l; [done|]. by eapply lookup_lt_Some.
Qed.

Lemma expect_index {E A} i (l : list A) :
  0 <= i < zlen l → ∃ x, expect (E:=E) (index i l) = Ok x.
Proof. intros [x Hx]%index_in_range. rewrite Hx. by eexists. Qed.

Lemma expect_slice {E A} a b (l : list A) :
  0 <= a <= b → b <= zlen l →
  ∃ x, expect (E:=E) (slice a b l) = Ok x ∧ zlen x = b - a.
Proof.
  intros H1 H2. pose proof (slice_in_range _ _ _ H1 H2) as Hs.
  rewrite Hs. eexists. split; [done|]. by eapply slice_Some_zlen.
Qed.

(** A decidable fact about [u8] values is checked on all 256 of them. *)
Lemma forall_u8 (P : Z → bool) :
  forallb P (seqZ 0 256) = true → ∀ z, in_width 8 z → P z = true.
Proof.
  unfold in_width. intros H z Hz. rewrite forallb_forall in H.
  apply H, list_elem_of_In, elem_of_seqZ. lia.
Qed.

Lemma b2z_u8 b : in_width 8 (b2z b).
Proof. apply b2z_range. Qed.

Lemma b2z_z2b_u8 z : in_width 8 z → b2z (z2b z) = z.
Proof. intros. rewrite b2z_z2b. by apply Z.mod_small. Qed.

(** ** Lemmas: orderings and sorting *)

#[export] Instance Z_KeyOrdLaws : KeyOrdLaws Z.
Proof. split; unfold key_leb, Z_KeyOrd; intros; lia. Qed.

Lemma bytes_leb_refl l : bytes_leb l l = true.
Proof. induction l as [|b l IH]; cbn; [done|]. by rewrite Z.ltb_irrefl. Qed.

#[export] Instance bytes_KeyOrdLaws : KeyOrdLaws bytes.
Proof.
  unfold key_leb, bytes_KeyOrd. split.
  - apply bytes_leb_refl.
  - induction x as [|a x IH]; intros [|b y] [|c z]; cbn; try done.
    repeat case_match; try done; try lia. eauto.
  - induction x as [|a x IH]; intros [|b y]; cbn; try done.
    repeat case_match; try done; try lia. intros. f_equal; [|by apply IH].
    apply b2z_inj. lia.
  - induction x as [|a x IH]; intros [|b y]; cbn; [tauto..|].
    repeat case_match; try tauto; try lia. apply IH.
Qed.

(** Folds, maps and concatenations of a list of one. *)
Lemma foldl_nil {A B : Type} (f : A → B → A) (x : A) : foldl f x [] = x.
Proof. done. Qed.
Lemma foldl_one {A B : Type} (f : A → B → A) (x : A) (y : B) : foldl f x [y] = f x y.
Proof. done. Qed.
Lemma map_one {A B : Type} (f : A → B) (x : A) : map f [x] = [f x].
Proof. done. Qed.
Lemma concat_one {A : Type} (l : list A) : concat [l] = l.
Proof. apply app_nil_r. Qed.

Lemma bytes_ltb_spec x y : bytes_ltb x y = true ↔ bytes_leb x y = true ∧ x ≠ y.
Proof.
  unfold bytes_ltb. rewrite negb_true_iff. split.
  - intros E. split.
    + destruct (key_leb_total (K:=bytes) x y) as [|H]; [done|].
      unfold key_leb, bytes_KeyOrd in H. congruence.
    + intros ->. by rewrite bytes_leb_refl in E.
  - intros [H1 H2]. destruct (bytes_leb y x) eqn:E; [|done].
    destruct H2. by apply (key_leb_antisym (K:=bytes)).
Qed.

(** Of two distinct keys exactly one is the smaller: what a tie-break relies on. *)
Lemma bytes_ltb_trichotomy x y : x ≠ y → bytes_ltb x y = negb (bytes_ltb y x).
Proof.
  intros Hne. destruct (bytes_ltb x y) eqn:E1, (bytes_ltb y x) eqn:E2; try done; exfalso.
  - apply bytes_ltb_spec in E1 as [E1 _], E2 as [E2 _].
    by apply Hne, (key_leb_antisym (K:=bytes)).
  - unfold bytes_ltb in *. apply negb_false_iff in E1, E2.
    by apply Hne, (key_leb_antisym (K:=bytes)).
Qed.

Section isort_lemmas.
Context {A : Type} (leb : A → A → bool).

Definition sorted_by : list A → Prop := StronglySorted (λ x y, leb x y = true).

Lemma isort_insert_perm x l : isort_insert leb x l ≡ₚ x :: l.
Proof.
  induction l as [|y l IH]; cbn; [done|]. case_match; [done|].
  rewrite IH. apply Permutation_swap.
Qed.

Lemma isort_perm l : isort leb l ≡ₚ l.
Proof. induction l as [|x l IH]; cbn; [done|]. by rewrite isort_insert_perm, IH. Qed.

Lemma isort_elem_of x l : x ∈ isort leb l ↔ x ∈ l.
Proof. apply elem_of_Permutation_proper, isort_perm. Qed.

Lemma length_isort l : length (isort leb l) = length l.
Proof. apply Permutation_length, isort_perm. Qed.

Context (leb_total : ∀ x y, leb x y = true ∨ leb y x = true).
Context (leb_trans : ∀ x y z, leb x y = true → leb y z = true → leb x z = true).

Lemma isort_insert_sorted x l : sorted_by l → sorted_by (isort_insert leb x l).
Proof.
  unfold sorted_by. induction 1 as [|y l Hl IH Hy]; cbn.
  - by repeat constructor.
  - destruct (leb x y) eqn:E.
    + constructor; [by constructor|]. constructor; [done|].
      eapply Forall_impl; [exact Hy|]. cbn. eauto.
    + constructor; [done|]. rewrite isort_insert_perm. constructor; [|done].
      destruct (leb_total x y); congruence.
Qed.

Lemma isort_sorted l : sorted_by (isort leb l).
Proof. induction l; cbn; [constructor|]. by apply isort_insert_sorted. Qed.

Lemma isort_id l : sorted_by l → isort leb l = l.
Proof.
  induction 1 as [|x l Hl IH Hx]; [done|].
  change (isort_insert leb x (isort leb l) = x :: l). rewrite IH.
  destruct l as [|y l]; cbn; [done|]. apply Forall_cons in Hx as [-> _]. done.
Qed.

(** Stability: equivalent elements keep their order, whatever the class. *)
Lemma isort_stable (p : A → bool) l :
  (∀ x y, p x = true → p y = true → leb x y = true) →
  List.filter p (isort leb l) = List.filter p l.
Proof.
  intros Hp. induction l as [|x l IH]; [done|].
  change (isort leb (x :: l)) with (isort_insert leb x (isort leb l)). cbn [List.filter].
  rewrite <- IH. generalize (isort leb l) as k. clear IH.
  induction k as [|y k IHk]; cbn; [done|].
  destruct (leb x y) eqn:E; cbn; [done|]. rewrite IHk.
  destruct (p x) eqn:Ex, (p y) eqn:Ey; try done.
  rewrite (Hp x y) in E; done.
Qed.

(** Sorting what is left of a list is what is left of the sorted list. *)
Lemma isort_filter (p : A → bool) l : List.filter p (isort leb l) = isort leb (List.filter p l).
Proof.
  induction l as [|x l IH]; [done|].
  change (isort leb (x :: l)) with (isort_insert leb x (isort leb l)). cbn [List.filter].
  assert (List.filter p (isort_insert leb x (isort leb l))
    = if p x then isort_insert leb x (List.filter p (isort leb l)) else List.filter p (isort leb l)) as ->.
  2: { rewrite IH. by destruct (p x). }
  generalize (isort_sorted l). generalize (isort leb l) as k. clear IH.
  induction 1 as [|y k Hk IHk Hy]; cbn; [by destruct (p x)|].
  destruct (leb x y) eqn:E; cbn; [|rewrite IHk; destruct (p x), (p y); cbn; by rewrite ?E].
  destruct (p x); [|done]. assert (Forall (λ z, leb x z = true) (y :: k)) as Hall.
  { constructor; [done|]. eapply Forall_impl; [exact Hy|]. cbn. eauto. }
  assert (Forall (λ z, leb x z = true) (List.filter p (y :: k))) as Hf.
  { apply Forall_forall. intros z [Hz _]%list_elem_of_In%List.filter_In.
    by apply (proj1 (Forall_forall _ _) Hall), list_elem_of_In. }
  cbn [List.filter] in Hf. destruct (if p y then _ else _) as [|z r]; [done|].
  cbn. by rewrite (proj1 (proj1 (Forall_cons _ _ _) Hf)).
Qed.
End isort_lemmas.

Lemma sorted_by_app_r {A} leb (l1 l2 : list A) : sorted_by leb (l1 ++ l2) → sorted_by leb l2.
Proof. unfold sorted_by. induction l1; cbn; [done|]. inversion 1; eauto. Qed.

Lemma sort_by_key_perm {A} (f : A → Z) l : sort_by_key f l ≡ₚ l.
Proof. apply isort_perm. Qed.

Lemma sort_by_key_sorted {A} (f : A → Z) l : sorted_by (λ x y, f x <=? f y) (sort_by_key f l).
Proof. apply isort_sorted; intros; lia. Qed.

Lemma sort_by_key_filter {A} (f : A → Z) (p : A → bool) l :
  List.filter p (sort_by_key f l) = sort_by_key f (List.filter p l).
Proof. apply isort_filter; intros; lia. Qed.

Lemma sort_by_key_id {A} (f : A → Z) l :
  sorted_by (λ x y, f x <=? f y) l → sort_by_key f l = l.
Proof. apply isort_id. Qed.

Lemma sorted_by_filter {A} leb (p : A → bool) l :
  sorted_by leb l → sorted_by leb (List.filter p l).
Proof.
  unfold sorted_by. induction 1 as [|x l Hl IH Hx]; cbn; [constructor|].
  case_match; [|done]. constructor; [done|].
  rewrite Forall_forall in Hx |- *. intros y Hy. apply Hx.
  rewrite list_elem_of_In in Hy |- *. by apply List.filter_In in Hy as [??].
Qed.

Lemma elem_of_map_list {A B} (f : A → B) l y : y ∈ map f l ↔ ∃ x, x ∈ l ∧ y = f x.
Proof. rewrite list_elem_of_In, in_map_iff. setoid_rewrite <- list_elem_of_In. naive_solver. Qed.

Lemma map_list_elem {A B} (f : A → B) l x : x ∈ l → f x ∈ map f l.
Proof. intros Hx. apply elem_of_map_list. by exists x. Qed.

Lemma take_elem {A} n (l : list A) x : x ∈ take n l → x ∈ l.
Proof. rewrite <- (take_drop n l) at 2. rewrite elem_of_app. by left. Qed.

Lemma take_NoDup {A} n (l : list A) : NoDup l → NoDup (take n l).
Proof. rewrite <- (take_drop n l) at 1. by intros (? & _)%NoDup_app. Qed.

Lemma NoDup_map_filter {A B} (f : A → B) (p : A → bool) l :
  NoDup (map f l) → NoDup (map f (List.filter p l)).
Proof.
  induction l as [|x l IH]; [done|]. change (map f (x :: l)) with (f x :: map f l).
  intros [Hx Hl]%NoDup_cons. cbn [List.filter]. destruct (p x); [|auto].
  change (map f (x :: List.filter p l)) with (f x :: map f (List.filter p l)).
  apply NoDup_cons. split; [|auto]. contradict Hx.
  rewrite list_elem_of_In, in_map_iff in Hx |- *. destruct Hx as (y & <- & Hy).
  apply List.filter_In in Hy as [Hy _]. by exists y.
Qed.

Lemma filter_filter_and {A} (p q : A → bool) l :
  List.filter q (List.filter p l) = List.filter (λ x, p x && q x) l.
Proof.
  induction l as [|x l IH]; [done|]. cbn [List.filter].
  destruct (p x); cbn [List.filter andb]; by rewrite IH.
Qed.

Lemma sorted_by_drop {A} leb n (l : list A) : sorted_by leb l → sorted_by leb (drop n l).
Proof. rewrite <- (take_drop n l) at 1. apply sorted_by_app_r. Qed.

Lemma min_by_key_elem {A} (f : A → Z) l x : min_by_key f l = Some x → x ∈ l.
Proof.
  revert x. induction l as [|y l IH]; cbn; [done|]. intros x H.
  destruct (min_by_key f l) as [z|]; [|simplify_eq; apply list_elem_of_here].
  case_match; simplify_eq; [apply list_elem_of_here|].
  apply list_elem_of_further. eauto.
Qed.

Lemma min_by_key_min {A} (f : A → Z) l x :
  min_by_key f l = Some x → Forall (λ y, f x <= f y) l.
Proof.
  revert x. induction l as [|y l IH]; cbn; [done|]. intros x H.
  destruct (min_by_key f l) as [z|] eqn:E.
  - specialize (IH z eq_refl).
    destruct (f y <=? f z) eqn:Ef; simplify_eq; constructor; try lia; [|done].
    eapply Forall_impl; [exact IH|]. cbn. lia.
  - simplify_eq. constructor; [lia|]. destruct l; [done|]. cbn in E.
    repeat case_match; done.
Qed.

Lemma min_by_key_None {A} (f : A → Z) l : min_by_key f l = None ↔ l = [].
Proof. destruct l; cbn; [done|]. split; [|done]. repeat case_match; done. Qed.

Lemma dedup_elem_of {A} `{EqDecision A} (x : A) l : x ∈ dedup l ↔ x ∈ l.
Proof.
  induction l as [|y l IH]; [done|]. destruct l as [|z l]; [done|].
  change (dedup (y :: z :: l)) with (if decide (y = z) then dedup (z :: l) else y :: dedup (z :: l)).
  case_decide as E.
  - subst. rewrite IH, !elem_of_cons. tauto.
  - by rewrite !(elem_of_cons _ x y), IH.
Qed.

(** Sorting and then dropping equal neighbours leaves no element twice. *)
Lemma dedup_sorted_NoDup {A} `{EqDecision A} leb (l : list A) :
  (∀ x y, leb x y = true → leb y x = true → x = y) →
  sorted_by leb l → NoDup (dedup l) ∧ sorted_by leb (dedup l).
Proof.
  intros Ha. unfold sorted_by. induction 1 as [|x l Hl IH Hx]; [by repeat constructor|].
  destruct IH as [IH1 IH2]. destruct l as [|y l].
  { cbn. split; repeat constructor; apply not_elem_of_nil. }
  change (dedup (x :: y :: l)) with (if decide (x = y) then dedup (y :: l) else x :: dedup (y :: l)).
  case_decide as E; [done|]. split; constructor; try done.
  - rewrite dedup_elem_of. intros Hin. apply E.
    apply Forall_cons in Hx as [Hxy Hx]. apply Ha; [done|].
    apply elem_of_cons in Hin as [->|Hin]; [done|].
    inversion Hl as [|?? _ Hy]; subst. rewrite Forall_forall in Hy. by apply Hy.
  - rewrite Forall_forall in Hx |- *. intros z Hz. apply Hx. by apply dedup_elem_of.
Qed.

(** ** Lemmas: chunks *)

Section chunks_lemmas.
Context {A : Type} (n : nat) (Hn : (0 < n)%nat).
Implicit Types l : list A.

Lemma chunks_fuel_concat k l : (length l ≤ k)%nat → concat (chunks_fuel k n l) = l.
Proof using Hn.
  revert l. induction k as [|k IH]; intros [|x l] Hl; cbn [chunks_fuel concat]; try done;
    cbn [length] in Hl; [lia|].
  rewrite IH; [apply take_drop|]. rewrite length_drop. cbn [length]. lia.
Qed.

Lemma chunks_of_concat l : concat (chunks_of n l) = l.
Proof using Hn. by apply chunks_fuel_concat. Qed.

Lemma chunks_fuel_sizes k l :
  Forall (λ c, (0 < length c ≤ n)%nat) (chunks_fuel k n l).
Proof using Hn.
  revert l. induction k as [|k IH]; intros [|x l]; cbn [chunks_fuel]; constructor; [|done].
  rewrite length_take. cbn [length]. lia.
Qed.

Lemma chunks_of_sizes l : Forall (λ c, (0 < length c ≤ n)%nat) (chunks_of n l).
Proof using Hn. apply chunks_fuel_sizes. Qed.

(** The number of pieces is the rounded-up quotient. *)
Lemma chunks_fuel_count k l :
  (length l ≤ k)%nat → zlen (chunks_fuel k n l) = (zlen l + Z.of_nat n - 1) / Z.of_nat n.
Proof using Hn.
  revert l. induction k as [|k IH]; intros [|x l] Hl; cbn [chunks_fuel]; cbn [length] in Hl; try lia.
  1,2: symmetry; apply Z.div_small; unfold zlen; cbn [length]; lia.
  rewrite zlen_cons, IH by (rewrite length_drop; cbn [length]; lia).
  unfold zlen. rewrite length_drop. set (m := length (x :: l)).
  assert (0 < m)%nat by (cbn; lia). destruct (decide (m ≤ n)%nat).
  - replace (m - n)%nat with 0%nat by lia. rewrite (Z.div_small (Z.of_nat 0 + _ - 1)) by lia.
    apply Z.div_unique with (Z.of_nat m - 1); lia.
  - replace (Z.of_nat m + Z.of_nat n - 1) with (Z.of_nat (m - n) + Z.of_nat n - 1 + 1 * Z.of_nat n)
      by lia.
    rewrite Z.div_add by lia. lia.
Qed.

Lemma chunks_of_count l : zlen (chunks_of n l) = (zlen l + Z.of_nat n - 1) / Z.of_nat n.
Proof using Hn. by apply chunks_fuel_count. Qed.

(** Cutting up a concatenation of pieces of the right size gives the pieces back. *)
Lemma chunks_of_concat_exact (ls : list (list A)) :
  Forall (λ c, length c = n) ls → chunks_of n (concat ls) = ls.
Proof using Hn.
  intros Hls. unfold chunks_of. generalize (le_n (length (concat ls))).
  generalize (length (concat ls)) at 2 3 as k.
  induction Hls as [|c ls Hc Hls IH]; intros k Hk; [by destruct k|].
  cbn [concat] in *. rewrite length_app in Hk. destruct k as [|k]; [lia|].
  assert (∃ x l, c ++ concat ls = x :: l) as (x & l & E).
  { destruct c as [|x c]; cbn in *; [lia|]. by eexists _, _. }
  rewrite E. cbn [chunks_fuel]. rewrite <- E, <- Hc, take_app_length, drop_app_length, Hc.
  f_equal. apply IH. lia.
Qed.

Lemma chunks_exact_concat (ls : list (list A)) :
  Forall (λ c, length c = n) ls → chunks_exact n (concat ls) = ls.
Proof using Hn.
  intros Hls. unfold chunks_exact. rewrite chunks_of_concat_exact by done.
  induction Hls as [|c ls Hc Hls IH]; cbn; [done|]. by rewrite Hc, Nat.eqb_refl, IH.
Qed.

Lemma chunks_exact_sizes l : Forall (λ c, length c = n) (chunks_exact n l).
Proof.
  apply Forall_forall. intros c Hc. apply list_elem_of_In in Hc.
  apply List.filter_In in Hc as [_ ?%Nat.eqb_eq]. done.
Qed.
End chunks_lemmas.

(** ** Lemmas: maps and their iteration orders *)

Section map_lemmas.
Context {K V : Type} `{Countable K}.
Implicit Types (m : gmap K V) (k : K) (v : V).

Lemma map_retain_lookup p m k v :
  map_retain p m !! k = Some v ↔ m !! k = Some v ∧ p k v = true.
Proof. unfold map_retain. by rewrite map_lookup_filter_Some. Qed.

Lemma map_retain_lookup_None p m k : m !! k = None → map_retain p m !! k = None.
Proof. intros E. apply map_lookup_filter_None. by left. Qed.

Lemma map_retain_subseteq p m : map_retain p m ⊆ m.
Proof. apply map_filter_subseteq. Qed.

Lemma msize_retain p m : msize (map_retain p m) <= msize m.
Proof.
  unfold msize. rewrite <- !size_dom. apply inj_le, subseteq_size, subseteq_dom,
    map_retain_subseteq.
Qed.

Lemma msize_nonneg m : 0 <= msize m.
Proof. unfold msize. lia. Qed.

Lemma msize_insert m k v :
  msize (<[k:=v]> m) = match m !! k with Some _ => msize m | None => msize m + 1 end.
Proof.
  unfold msize. destruct (m !! k) eqn:E.
  - rewrite map_size_insert_Some; [done|by eexists].
  - rewrite map_size_insert_None by done. lia.
Qed.

Lemma msize_delete m k v : m !! k = Some v → msize (delete k m) = msize m - 1.
Proof.
  intros E. unfold msize. rewrite map_size_delete_Some by (by eexists).
  assert (size m ≠ 0%nat); [|lia].
  intros E0%map_size_empty_inv. subst. by rewrite lookup_empty in E.
Qed.

Lemma msize_delete_le m k : msize (delete k m) <= msize m.
Proof.
  destruct (m !! k) as [v|] eqn:E; [erewrite msize_delete by done; lia|].
  by rewrite delete_id.
Qed.

Context `{!KeyOrd K, !KeyOrdLaws K}.

Lemma btree_iter_perm m : btree_iter m ≡ₚ map_to_list m.
Proof. apply isort_perm. Qed.

Lemma elem_of_btree_iter m k v : (k, v) ∈ btree_iter m ↔ m !! k = Some v.
Proof. unfold btree_iter. by rewrite isort_elem_of, elem_of_map_to_list. Qed.

Lemma btree_iter_sorted m : sorted_by (λ x y, key_leb x.1 y.1) (btree_iter m).
Proof.
  apply isort_sorted; intros; [apply key_leb_total|eapply key_leb_trans; eauto].
Qed.

Lemma btree_iter_NoDup m : NoDup (btree_iter m).*1.
Proof. rewrite btree_iter_perm. apply NoDup_fst_map_to_list. Qed.

Lemma btree_iter_nil m : btree_iter m = [] ↔ m = ∅.
Proof.
  split.
  - intros E. apply map_to_list_empty_iff. apply Permutation_nil_r.
    by rewrite <- btree_iter_perm, E.
  - intros ->. done.
Qed.

Lemma length_btree_iter m : zlen (btree_iter m) = msize m.
Proof. unfold zlen, msize. by rewrite btree_iter_perm, length_map_to_list. Qed.

Lemma map_Forall_sub (P : K → V → Prop) m m' : m' ⊆ m → map_Forall P m → map_Forall P m'.
Proof. intros Hs HP k v Hk. apply HP. by eapply lookup_weaken. Qed.

Lemma msize_empty : msize (∅ : gmap K V) = 0.
Proof. unfold msize. by rewrite map_size_empty. Qed.

Lemma evict_min_subseteq (age : V → Z) m : evict_min age m ⊆ m.
Proof. unfold evict_min. repeat case_match; [apply delete_subseteq|done]. Qed.

Lemma msize_evict_min (age : V → Z) m : msize (evict_min age m) = Z.max 0 (msize m - 1).
Proof.
  unfold evict_min. destruct (min_by_key _ _) as [[k p]|] eqn:E.
  - apply min_by_key_elem, elem_of_btree_iter in E. rewrite (msize_delete _ _ _ E).
    pose proof (msize_delete _ _ _ E). pose proof (msize_nonneg (delete k m)). lia.
  - apply min_by_key_None, btree_iter_nil in E. subst. by rewrite msize_empty.
Qed.

(** An entry with an older one beside it is not the one evicted. *)
Lemma evict_min_keeps (age : V → Z) m k v k' v' :
  m !! k = Some v → m !! k' = Some v' → age v' < age v → evict_min age m !! k = Some v.
Proof.
  intros Hk Hk' Hlt. unfold evict_min. destruct (min_by_key _ _) as [[j p]|] eqn:E; [|done].
  pose proof (min_by_key_min _ _ _ E) as Hmin. rewrite Forall_forall in Hmin.
  specialize (Hmin (k', v')). rewrite elem_of_btree_iter in Hmin. specialize (Hmin Hk'). cbn in Hmin.
  apply min_by_key_elem, elem_of_btree_iter in E.
  rewrite lookup_delete_ne; [done|]. intros ->. simplify_eq. lia.
Qed.

Context `{!HashIter, !HashIterLaws}.

Lemma elem_of_hash_iter m k v : (k, v) ∈ hash_iter m ↔ m !! k = Some v.
Proof. by rewrite hash_iter_perm, elem_of_map_to_list. Qed.

Lemma hash_iter_empty : hash_iter (∅ : gmap K V) = [].
Proof.
  pose proof (hash_iter_perm (∅ : gmap K V)) as Hp. rewrite map_to_list_empty in Hp.
  by apply Permutation_nil_r.
Qed.

Lemma hash_iter_NoDup m : NoDup (hash_iter m).*1.
Proof. rewrite hash_iter_perm. apply NoDup_fst_map_to_list. Qed.
End map_lemmas.

(** ** Automation *)

Create HintDb mesh.
#[export] Hint Resolve zlen_nonneg b2z_range be_int_range msize_nonneg : mesh.

(** Arithmetic about lengths of concatenations. *)
Ltac zlen_lia :=
  unfold zlen in *; cbn [length] in *; rewrite ?length_app, ?length_be_bytes in *;
  cbn [length] in *; rewrite ?length_app, ?length_be_bytes in *; cbn [length] in *; lia.

(** Case analysis on every test the goal is stuck on. *)
Ltac break_match :=
  repeat (case_match; simplify_eq/=; try done).

(** Inverts a chain of [let*] that ended in [Ok]. *)
Ltac inv_outcome H :=
  repeat (
    match type of H with
    | obind ?m _ = Ok _ =>
        let E := fresh "E" in destruct m eqn:E; cbn [obind] in H; [|discriminate H..]
    | (if ?b then _ else _) = Ok _ =>
        let E := fresh "E" in destruct b eqn:E; try discriminate H
    | (let '(_, _) := ?p in _) = Ok _ =>
        let E := fresh "E" in destruct p eqn:E
    end).

Ltac inv_expect :=
  repeat match goal with
  | H : expect ?o = Ok _ |- _ =>
      let E := fresh "E" in destruct o eqn:E; cbn [expect] in H; [|discriminate H]; simplify_eq
  end.
