(* ===== verification/F64.v ===== *)
(** * F64: IEEE 754 binary64 as the token bucket uses it

    The [f64] arithmetic of [relay.rs] and the [f64] tunables of [config.rs], as the executable
    reference semantics of the Standard Library ([SpecFloat]) at precision 53 and exponent bound
    1024, with round-to-nearest-even. *)
From Stdlib Require Import SpecFloat.
From S2P Require Import Prelude.

Abbreviation f64 := spec_float.

#[export] Instance f64_eq_dec : EqDecision f64.
Proof. solve_decision. Defined.

Definition f64_add : f64 → f64 → f64 := SFadd 53 1024.
Definition f64_sub : f64 → f64 → f64 := SFsub 53 1024.
Definition f64_mul : f64 → f64 → f64 := SFmul 53 1024.
Definition f64_div : f64 → f64 → f64 := SFdiv 53 1024.

(** [z as f64] for an integer, rounded to nearest. *)
Definition f64_of_int (z : Z) : f64 := binary_normalize 53 1024 z 0 false.

(** A decimal literal [n/d]: the double nearest to the quotient. *)
Definition f64_ratio (n d : Z) : f64 := f64_div (f64_of_int n) (f64_of_int d).

Definition f64_lt (x y : f64) : bool := SFltb x y.
Definition f64_le (x y : f64) : bool := SFleb x y.

Definition f64_is_nan (x : f64) : bool :=
  match x with S754_nan => true | _ => false end.

(** [f64::min]: a NaN operand is ignored. *)
Definition f64_min (x y : f64) : f64 :=
  if f64_is_nan x then y
  else if f64_is_nan y then x
  else if f64_lt y x then y else x.

Example f64_literal_seven_tenths :
  f64_ratio 7 10 = S754_finite false 6305039478318694 (-53).
Proof. reflexivity. Qed.

(** The minimum never exceeds its right operand, when that is a number. *)
Lemma SFcompare_swap x y :
  SFcompare y x = match SFcompare x y with Some c => Some (CompOpp c) | None => None end.
Proof.
  destruct x as [[]|[]| |[] m1 e1], y as [[]|[]| |[] m2 e2]; cbn; try done;
    rewrite (Z.compare_antisym e1 e2); destruct (e1 ?= e2); cbn; try done;
    change (Pos.compare_cont Eq m2 m1) with (m2 ?= m1)%positive;
    change (Pos.compare_cont Eq m1 m2) with (m1 ?= m2)%positive;
    rewrite (Pos.compare_antisym m1 m2); by destruct (m1 ?= m2)%positive.
Qed.

Lemma SFcompare_refl x : f64_is_nan x = false → SFcompare x x = Some Eq.
Proof.
  destruct x as [[]|[]| |[] m e]; cbn; try done; intros _;
    rewrite Z.compare_refl; change (Pos.compare_cont Eq m m) with (m ?= m)%positive;
    by rewrite Pos.compare_refl.
Qed.

Lemma SFcompare_None x y :
  SFcompare x y = None ↔ f64_is_nan x = true ∨ f64_is_nan y = true.
Proof.
  destruct x as [[]|[]| |[] m1 e1], y as [[]|[]| |[] m2 e2]; cbn; naive_solver.
Qed.

Lemma f64_min_le_r x y : f64_is_nan y = false → f64_le (f64_min x y) y = true.
Proof.
  intros Hy. unfold f64_min. destruct (f64_is_nan x) eqn:Hx.
  { unfold f64_le, SFleb. by rewrite SFcompare_refl. }
  rewrite Hy. unfold f64_lt, f64_le, SFltb, SFleb.
  destruct (SFcompare y x) as [[]|] eqn:E; rewrite ?SFcompare_refl by done; try done;
    rewrite SFcompare_swap, E; try done.
  apply SFcompare_None in E as [|]; congruence.
Qed.

Lemma f64_lt_irrefl x : f64_lt x x = false.
Proof.
  unfold f64_lt, SFltb. destruct (f64_is_nan x) eqn:E.
  - by rewrite (proj2 (SFcompare_None x x)) by by left.
  - by rewrite SFcompare_refl.
Qed.

Lemma f64_lt_trans x y z : f64_lt x y = true → f64_lt y z = true → f64_lt x z = true.
Proof.
  unfold f64_lt, SFltb.
  destruct x as [[]|[]| |[] m1 e1], y as [[]|[]| |[] m2 e2], z as [[]|[]| |[] m3 e3]; cbn; try done.
  all: change (Pos.compare_cont Eq m1 m2) with (m1 ?= m2)%positive;
    change (Pos.compare_cont Eq m2 m3) with (m2 ?= m3)%positive;
    change (Pos.compare_cont Eq m1 m3) with (m1 ?= m3)%positive.
  all: destruct (Z.compare_spec e1 e2), (Z.compare_spec e2 e3), (Z.compare_spec e1 e3);
    try done; try lia; cbn;
    destruct (Pos.compare_spec m1 m2), (Pos.compare_spec m2 m3), (Pos.compare_spec m1 m3);
    cbn; try done; try lia.
Qed.
