(* ===== verification/Utf8.v ===== *)
(** * Utf8: the byte-level view of Rust strings

    A Rust [String] is its UTF-8 bytes. [String::from_utf8_lossy] follows [Utf8Chunks::next] of
    the standard library: every maximal ill-formed prefix becomes one U+FFFD. [str::trim] removes
    the characters with the Unicode [White_Space] property. *)
From S2P Require Import Prelude.

(** A string of the program: its UTF-8 bytes. *)
Abbreviation rstring := (list Byte.byte).

Definition is_cont (b : byte) : bool := Z.land (b2z b) 192 =? 128.

Definition between (lo hi : Z) (b : byte) : bool := (lo <=? b2z b) && (b2z b <=? hi).

Definition utf8_char_width (b : byte) : Z :=
  if b2z b <? 128 then 1
  else if between 0xC2 0xDF b then 2
  else if between 0xE0 0xEF b then 3
  else if between 0xF0 0xF4 b then 4
  else 0.

Definition second_of_three (b c : byte) : bool :=
  (b2z b =? 0xE0) && between 0xA0 0xBF c
  || between 0xE1 0xEC b && between 0x80 0xBF c
  || (b2z b =? 0xED) && between 0x80 0x9F c
  || between 0xEE 0xEF b && between 0x80 0xBF c.

Definition second_of_four (b c : byte) : bool :=
  (b2z b =? 0xF0) && between 0x90 0xBF c
  || between 0xF1 0xF3 b && between 0x80 0xBF c
  || (b2z b =? 0xF4) && between 0x80 0x8F c.

(** Past the end reads as 0, which continues nothing. *)
Definition safe_get (l : bytes) (i : nat) : byte := default Byte.x00 (l !! i).

(** The bytes consumed from a first byte [b] followed by [l], and whether they are a character. *)
Definition utf8_step (b : byte) (l : bytes) : nat * bool :=
  let w := utf8_char_width b in
  if w =? 1 then (1%nat, true)
  else if w =? 2 then
    if is_cont (safe_get l 0) then (2%nat, true) else (1%nat, false)
  else if w =? 3 then
    if second_of_three b (safe_get l 0) then
      if is_cont (safe_get l 1) then (3%nat, true) else (2%nat, false)
    else (1%nat, false)
  else if w =? 4 then
    if second_of_four b (safe_get l 0) then
      if is_cont (safe_get l 1) then
        if is_cont (safe_get l 2) then (4%nat, true) else (3%nat, false)
      else (2%nat, false)
    else (1%nat, false)
  else (1%nat, false).

Definition replacement : bytes := [Byte.xef; Byte.xbf; Byte.xbd].

(** The characters and ill-formed runs of a byte string; each step consumes a byte or more, so
    the length is enough fuel. *)
Fixpoint utf8_chunks (fuel : nat) (l : bytes) : list (bytes * bool) :=
  match fuel, l with
  | S n, b :: l' =>
      let '(k, ok) := utf8_step b l' in
      (take k l, ok) :: utf8_chunks n (drop k l)
  | _, _ => []
  end.

Definition chunks (l : bytes) : list (bytes * bool) := utf8_chunks (length l) l.

(** [String::from_utf8_lossy]. *)
Definition utf8_lossy (l : bytes) : rstring :=
  concat (map (λ c : bytes * bool, if c.2 then c.1 else replacement) (chunks l)).

(** [str::from_utf8] accepts. *)
Definition utf8_valid (l : bytes) : bool := forallb snd (chunks l).

(** The code point of one well-formed character. *)
Definition char_code (c : bytes) : Z :=
  match map b2z c with
  | [a] => a
  | [a; b] => Z.land a 31 * 64 + Z.land b 63
  | [a; b; c] => Z.land a 15 * 4096 + Z.land b 63 * 64 + Z.land c 63
  | [a; b; c; d] => Z.land a 7 * 262144 + Z.land b 63 * 4096 + Z.land c 63 * 64 + Z.land d 63
  | _ => 0
  end.

(** [char::is_whitespace]: the Unicode [White_Space] property. *)
Definition is_whitespace (c : Z) : bool :=
  (9 <=? c) && (c <=? 13) || (c =? 0x20) || (c =? 0x85) || (c =? 0xA0) || (c =? 0x1680)
  || (0x2000 <=? c) && (c <=? 0x200A) || (c =? 0x2028) || (c =? 0x2029) || (c =? 0x202F)
  || (c =? 0x205F) || (c =? 0x3000).

Fixpoint drop_while {A} (p : A → bool) (l : list A) : list A :=
  match l with
  | [] => []
  | x :: l' => if p x then drop_while p l' else l
  end.

Definition str_chars (s : rstring) : list bytes := map fst (chunks s).

(** [str::trim]. *)
Definition trim (s : rstring) : rstring :=
  let ws c := is_whitespace (char_code c) in
  concat (rev (drop_while ws (rev (drop_while ws (str_chars s))))).

(** [str::trim_start_matches] for an ASCII character. *)
Definition trim_start_matches (c : byte) (s : rstring) : rstring :=
  drop_while (λ b, bool_decide (b = c)) s.

Definition is_ascii (s : bytes) : bool := forallb (λ b, b2z b <? 128) s.

Definition ascii_lower (b : byte) : byte :=
  if between 65 90 b then z2b (b2z b + 32) else b.

(** ** Lemmas *)

Lemma utf8_step_range b l k ok :
  utf8_step b l = (k, ok) → (1 ≤ k ≤ S (length l))%nat.
Proof.
  assert (Hc : ∀ i, is_cont (safe_get l i) = true → (i < length l)%nat).
  { intros i Hi. destruct (decide (i < length l)%nat); [done|]. exfalso.
    unfold safe_get in Hi. rewrite lookup_ge_None_2 in Hi by lia. done. }
  assert (Hz : ∀ P : byte → bool, P Byte.x00 = false → P (safe_get l 0) = true →
             (0 < length l)%nat).
  { intros P H0 Hi. destruct l; [|cbn; lia]. unfold safe_get in Hi. cbn in Hi. congruence. }
  assert (H3 : second_of_three b (safe_get l 0) = true → (0 < length l)%nat).
  { apply (Hz (second_of_three b)). unfold second_of_three, between.
    change (b2z Byte.x00) with 0. cbn. by rewrite !andb_false_r. }
  assert (H4 : second_of_four b (safe_get l 0) = true → (0 < length l)%nat).
  { apply (Hz (second_of_four b)). unfold second_of_four, between.
    change (b2z Byte.x00) with 0. cbn. by rewrite !andb_false_r. }
  unfold utf8_step. pose proof (Hc 0%nat). pose proof (Hc 1%nat). pose proof (Hc 2%nat).
  clear Hc Hz. intros E. repeat case_match; simplify_eq; intuition lia.
Qed.

Lemma utf8_chunks_concat n l :
  (length l ≤ n)%nat → concat (map fst (utf8_chunks n l)) = l.
Proof.
  revert l. induction n as [|n IH]; intros [|b l] Hl; cbn in *; try done; try lia.
  destruct (utf8_step b l) as [k ok] eqn:E. pose proof (utf8_step_range _ _ _ _ E).
  cbn. rewrite IH, take_drop; [done|]. rewrite length_drop. cbn. lia.
Qed.

(** A well-formed string is read back unchanged. *)
Lemma utf8_lossy_valid l : utf8_valid l = true → utf8_lossy l = l.
Proof.
  unfold utf8_valid, utf8_lossy. intros Hv.
  rewrite <- (utf8_chunks_concat (length l) l) at 2 by done. f_equal.
  fold (chunks l). revert Hv. generalize (chunks l) as cs.
  induction cs as [|[c ok] cs IH]; cbn; [done|]. intros [-> ?]%andb_true_iff.
  by rewrite IH.
Qed.

Lemma utf8_step_ascii b l : (b2z b <? 128) = true → utf8_step b l = (1%nat, true).
Proof. intros E. unfold utf8_step, utf8_char_width. by rewrite E. Qed.

Lemma is_ascii_valid l : is_ascii l = true → utf8_valid l = true.
Proof.
  unfold utf8_valid, chunks. induction l as [|b l IH]; cbn; [done|].
  intros [Hb Hl]%andb_true_iff. rewrite utf8_step_ascii by done. cbn.
  rewrite drop_0. auto.
Qed.

(** ** Numbers: [from_str_radix] *)

(** [char::to_digit(radix)] of an ASCII byte. *)
Definition to_digit (radix : Z) (b : byte) : option Z :=
  let z := b2z b in
  let d := if (48 <=? z) && (z <=? 57) then z - 48
           else if (97 <=? z) && (z <=? 122) then z - 87
           else if (65 <=? z) && (z <=? 90) then z - 55
           else radix in
  if d <? radix then Some d else None.

(** The digits of an unsigned number, the first one most significant: a byte that is no digit and a
    value that does not fit in [w] bits are errors. *)
Fixpoint parse_digits (radix w acc : Z) (l : rstring) : option Z :=
  match l with
  | [] => Some acc
  | b :: l =>
      match to_digit radix b with
      | Some d => let acc := acc * radix + d in if acc <? 2 ^ w then parse_digits radix w acc l else None
      | None => None
      end
  end.

(** [from_str_radix] of a [w]-bit unsigned type, and with radix 10 [str::parse]: nothing is no
    number, and a leading [+] is skipped unless it is all there is. *)
Definition from_str_radix (radix w : Z) (l : rstring) : option Z :=
  match l with
  | [] => None
  | b :: l' =>
      if (b2z b =? 43) && negb (bool_decide (l' = [])) then parse_digits radix w 0 l'
      else parse_digits radix w 0 l
  end.

(** The value of digits that follow [acc]. *)
Definition digits_value (radix acc : Z) (l : rstring) : Z :=
  foldl (λ a b, a * radix + default 0 (to_digit radix b)) acc l.

Definition is_digit (radix : Z) (b : byte) : Prop := is_Some (to_digit radix b).

Lemma to_digit_range radix b d : to_digit radix b = Some d → 0 <= d < radix.
Proof.
  unfold to_digit. cbv zeta. pose proof (b2z_range b).
  destruct ((48 <=? _) && _) eqn:E1; [|destruct ((97 <=? _) && _) eqn:E2; [|destruct ((65 <=? _) && _) eqn:E3]];
    (destruct (_ <? radix) eqn:E; [|done]); intros [= <-]; lia.
Qed.

Lemma digits_value_ge radix acc l :
  1 <= radix → 0 <= acc → Forall (is_digit radix) l → acc <= digits_value radix acc l.
Proof.
  intros Hr Ha Hl. revert acc Ha. induction Hl as [|b l [d Hd] Hl IH]; intros acc Ha; [done|].
  apply to_digit_range in Hd as Hd'. unfold digits_value in *. cbn [foldl]. rewrite Hd. cbn [default from_option id].
  specialize (IH (acc * radix + d)). nia.
Qed.

(** The checks on the way lose nothing: a number is read exactly when it fits. *)
Lemma parse_digits_iff radix w acc l z :
  1 <= radix → 0 <= acc < 2 ^ w →
  parse_digits radix w acc l = Some z ↔
  Forall (is_digit radix) l ∧ z = digits_value radix acc l ∧ z < 2 ^ w.
Proof.
  intros Hr. revert acc. induction l as [|b l IH]; intros acc Ha; cbn [parse_digits].
  - split; [|by intros (_ & -> & _)]. intros [= <-]. split_and!; [done|done|apply Ha].
  - unfold digits_value. cbn [foldl]. rewrite Forall_cons. unfold is_digit at 1.
    destruct (to_digit radix b) as [d|] eqn:Ed.
    + apply to_digit_range in Ed as Hd. cbv zeta. cbn [default from_option id].
      fold (digits_value radix (acc * radix + d) l). destruct (_ <? _) eqn:E.
      * rewrite IH by nia. naive_solver.
      * split; [done|]. intros ([_ Hl] & -> & Hz).
        pose proof (digits_value_ge radix (acc * radix + d) l Hr ltac:(nia) Hl). lia.
    + split; [done|]. by intros ([[? [=]] _] & _).
Qed.

Lemma from_str_radix_digits radix w l :
  1 <= radix → 0 <= w → l ≠ [] → Forall (is_digit radix) l → digits_value radix 0 l < 2 ^ w →
  from_str_radix radix w l = Some (digits_value radix 0 l).
Proof.
  intros Hr Hw Hl Hd Hv. unfold from_str_radix. destruct l as [|b l]; [done|].
  assert ((b2z b =? 43) = false) as ->.
  { apply Z.eqb_neq. intros E. apply Forall_cons in Hd as [[d Hd] _]. unfold to_digit in Hd.
    rewrite E in Hd. cbn in Hd. by rewrite Z.ltb_irrefl in Hd. }
  apply parse_digits_iff; [done|lia|done].
Qed.

Lemma from_str_radix_width radix w l z :
  1 <= radix → 0 <= w → from_str_radix radix w l = Some z → in_width w z.
Proof.
  intros Hr Hw E. assert (∃ l', parse_digits radix w 0 l' = Some z) as [l' E'].
  { unfold from_str_radix in E. destruct l as [|b l]; [done|]. case_match; by eexists. }
  apply parse_digits_iff in E' as (Hd & -> & Hz); [|done|lia]. split; [by apply digits_value_ge|done].
Qed.
