(* ===== verification/Errors.v ===== *)
(** * Errors: the crate-wide error types of [error.rs]

    Sizes and indices are the [usize] and [u16] values as integers; the message strings of the
    string-carrying variants are kept, since [compress.rs] formats numbers into them. *)
From stdpp Require Export strings pretty.
From S2P Require Export Prelude.

Inductive WireError :=
  | Short (need have : Z)
  | BadVersion (v : Z)
  | BadLength (declared remaining : Z)
  | Trailing (extra : Z)
  | BadSignature.

Inductive FragError :=
  | MtuTooSmall (mtu : Z)
  | BadIndex (index total : Z)
  | TooLarge (cap : Z).

Inductive Error :=
  | EWire (e : WireError)
  | EFrag (e : FragError)
  | EIdentity (msg : string)
  | ECompress (msg : string)
  | ERateLimited
  | EStore (msg : string)
  | ENoise (msg : string).

#[export] Instance WireError_eq_dec : EqDecision WireError.
Proof. solve_decision. Defined.
#[export] Instance FragError_eq_dec : EqDecision FragError.
Proof. solve_decision. Defined.
#[export] Instance Error_eq_dec : EqDecision Error.
Proof. solve_decision. Defined.
