(* ===== verification/Clock.v ===== *)
(** * Clock: injected time ([clock.rs])

    Every operation of the core reads the time as a [Millis] argument. [ManualClock] is the clock
    the tests and the simulator advance by hand. *)
From S2P Require Export Prelude.

(** Milliseconds, a [u64]. *)
Abbreviation Millis := Z.

Record ManualClock := { clock_now : Millis }.

Definition ManualClock_new (start : Millis) : ManualClock := {| clock_now := start |}.

Definition now_ms (c : ManualClock) : Millis := clock_now c.

(** Moves time forward and returns the new value. *)
Definition advance (c : ManualClock) (delta : Millis) : Millis * ManualClock :=
  let next := sat_add 64 (clock_now c) delta in
  (next, {| clock_now := next |}).

Definition clock_set (c : ManualClock) (value : Millis) : ManualClock := {| clock_now := value |}.

(** A clock only moved by [advance] is monotone and stays a [u64], whatever the deltas. *)
Lemma advance_all_monotone (c : ManualClock) (deltas : list Millis) :
  in_width 64 (now_ms c) → Forall (in_width 64) deltas →
  let c' := foldl (λ c d, (advance c d).2) c deltas in
  now_ms c <= now_ms c' ∧ in_width 64 (now_ms c').
Proof.
  revert c. induction deltas as [|d ds IH]; cbn [foldl]; intros c Hc Hd; [by split; [lia|]|].
  apply Forall_cons in Hd as [Hd Hds].
  assert (now_ms c <= now_ms (advance c d).2 ∧ in_width 64 (now_ms (advance c d).2)) as [H1 H2].
  { unfold advance, now_ms, sat_add, in_width in *. cbn [snd clock_now] in *. lia. }
  destruct (IH _ H2 Hds). split; [lia|done].
Qed.
