(* ===== verification/External.v ===== *)
(** * External: the libraries the core is built on, as interfaces

    Code outside the repository is a parameter: SHA-256 ([sha2]), Ed25519 ([ed25519-dalek]),
    X25519 ([x25519-dalek]), Noise ([snow]), LZ4 ([lz4_flex]), the random generator ([rand]) and
    the case tables of the Unicode standard. Each class holds the operations the core calls; the
    [...Laws] class beside it holds the documented behaviour a theorem may rely on. *)
From stdpp Require Import strings.
From S2P Require Export Prelude.
From S2P Require Import F64 Utf8.

(** ** Hashing *)

Class Sha256 := sha256 : bytes → bytes.

Class Sha256Laws `{Sha256} : Prop := sha256_length m : length (sha256 m) = 32%nat.

(** ** Signatures: [ed25519_dalek] *)

Class Ed25519 := {
  SigningKey : Type;
  VerifyingKey : Type;
  sk_from_bytes : bytes → SigningKey;
  verifying_key : SigningKey → VerifyingKey;
  vk_as_bytes : VerifyingKey → bytes;
  vk_from_bytes : bytes → option VerifyingKey;
  ed_sign : SigningKey → bytes → bytes;
  ed_verify : VerifyingKey → bytes → bytes → bool;
}.

Class Ed25519Laws `{Ed25519} : Prop := {
  ed_sign_length sk m : length (ed_sign sk m) = 64%nat;
  vk_as_bytes_length sk : length (vk_as_bytes (verifying_key sk)) = 32%nat;
  vk_from_as_bytes sk : vk_from_bytes (vk_as_bytes (verifying_key sk)) = Some (verifying_key sk);
  ed_verify_sign sk m : ed_verify (verifying_key sk) m (ed_sign sk m) = true;
}.

(** ** Key agreement: [x25519_dalek] *)

Class X25519 := {
  XSecret : Type;
  xs_from_bytes : bytes → XSecret;
  xs_to_bytes : XSecret → bytes;
  xs_public : XSecret → bytes;
}.

Class X25519Laws `{X25519} : Prop := {
  xs_public_length s : length (xs_public s) = 32%nat;
}.

(** ** Noise sessions: [snow]

    [inl] is success and [inr] an error message. The states are returned on failure too: a failed
    read may leave a handshake unusable. The [Z] is the size of the caller's output buffer. *)

Class Snow := {
  NoiseParams : Type;
  HandshakeState : Type;
  TransportState : Type;
  parse_params : string → option NoiseParams;
  build_initiator : NoiseParams → bytes → HandshakeState + string;
  build_responder : NoiseParams → bytes → HandshakeState + string;
  hs_write_message : HandshakeState → bytes → Z → (bytes + string) * HandshakeState;
  hs_read_message : HandshakeState → bytes → Z → (bytes + string) * HandshakeState;
  hs_get_remote_static : HandshakeState → option bytes;
  hs_is_handshake_finished : HandshakeState → bool;
  hs_into_transport_mode : HandshakeState → TransportState + string;
  ts_get_remote_static : TransportState → option bytes;
  ts_sending_nonce : TransportState → Z;
  ts_receiving_nonce : TransportState → Z;
  ts_set_receiving_nonce : TransportState → Z → TransportState;
  ts_write_message : TransportState → bytes → Z → (bytes + string) * TransportState;
  ts_read_message : TransportState → bytes → Z → (bytes + string) * TransportState;
}.

(** The transport counters: a successful read advances the receiving one by one, and no
    transport operation changes the peer's authenticated key. The first of the three messages of
    the handshake does not finish it. *)
Class SnowLaws `{Snow} : Prop := {
  ts_receiving_set ts n :
    in_width 64 n → ts_receiving_nonce (ts_set_receiving_nonce ts n) = n;
  ts_receiving_range ts : in_width 64 (ts_receiving_nonce ts);
  ts_read_advances ts ct n pt ts' :
    ts_read_message ts ct n = (inl pt, ts') → ts_receiving_nonce ts' = ts_receiving_nonce ts + 1;
  ts_static_set ts n : ts_get_remote_static (ts_set_receiving_nonce ts n) = ts_get_remote_static ts;
  ts_static_read ts ct n r ts' :
    ts_read_message ts ct n = (r, ts') → ts_get_remote_static ts' = ts_get_remote_static ts;
  ts_static_write ts pt n r ts' :
    ts_write_message ts pt n = (r, ts') → ts_get_remote_static ts' = ts_get_remote_static ts;
  hs_first_write p k hs n r hs' :
    build_initiator p k = inl hs → hs_write_message hs [] n = (r, hs') →
    hs_is_handshake_finished hs' = false;
}.

(** Two transport states that came out of one handshake: what one writes, the other reads when it
    is given the writer's nonce; a message that is lost, or a ciphertext that is refused, leaves
    the pair working. The two directions have keys and counters of their own, so traffic the other
    way leaves the pair working too. *)
Class SnowPaired `{Snow} := {
  ts_paired : TransportState → TransportState → Prop;
  ts_paired_read s r pt n ct s' m :
    ts_paired s r → ts_write_message s pt n = (inl ct, s') → zlen pt <= m →
    ∃ r', ts_read_message (ts_set_receiving_nonce r (ts_sending_nonce s)) ct m = (inl pt, r')
          ∧ ts_paired s' r';
  ts_paired_lost s r pt n ct s' :
    ts_paired s r → ts_write_message s pt n = (inl ct, s') → ts_paired s' r;
  ts_paired_refused s r n0 ct m e r' n1 :
    ts_paired s r → ts_read_message (ts_set_receiving_nonce r n0) ct m = (inr e, r') →
    ts_paired s (ts_set_receiving_nonce r' n1);
  ts_write_nonce s pt n ct s' :
    ts_write_message s pt n = (inl ct, s') → ts_sending_nonce s' = ts_sending_nonce s + 1;
  ts_write_length s pt n ct s' :
    ts_write_message s pt n = (inl ct, s') → zlen ct = zlen pt + 16;
  ts_sending_range s : in_width 64 (ts_sending_nonce s);
  ts_paired_back_write s r pt n x r' :
    ts_paired s r → ts_write_message r pt n = (x, r') →
    ts_paired s r' ∧ ts_receiving_nonce r' = ts_receiving_nonce r;
  ts_paired_back_read s r ct n x s' :
    ts_paired s r → ts_read_message s ct n = (x, s') →
    ts_paired s' r ∧ ts_sending_nonce s' = ts_sending_nonce s;
  ts_paired_back_set s r n :
    ts_paired s r → ts_paired (ts_set_receiving_nonce s n) r
                    ∧ ts_sending_nonce (ts_set_receiving_nonce s n) = ts_sending_nonce s;
}.

(** The XX pattern, run without loss between an initiator with the static secret [x] and a responder
    with [y]: three messages of 32, 96 and 64 bytes, after which each side has authenticated the
    other's static key and the two transport states are paired both ways with fresh counters. A
    transport message is written as long as it fits and the counter is not exhausted. *)
Class SnowXX `{Snow, X25519} `{!SnowPaired} : Prop := {
  xx_params : is_Some (parse_params "Noise_XX_25519_ChaChaPoly_SHA256");
  xx_run p x y n :
    parse_params "Noise_XX_25519_ChaChaPoly_SHA256" = Some p → 1024 <= n →
    ∃ i0 r0 m1 i1 u1 r1 m2 r2 u2 i2 m3 i3 u3 r3 ti tr,
      build_initiator p (xs_to_bytes x) = inl i0 ∧ build_responder p (xs_to_bytes y) = inl r0
      ∧ hs_write_message i0 [] n = (inl m1, i1) ∧ hs_read_message r0 m1 n = (inl u1, r1)
      ∧ hs_write_message r1 [] n = (inl m2, r2) ∧ hs_read_message i1 m2 n = (inl u2, i2)
      ∧ hs_write_message i2 [] n = (inl m3, i3) ∧ hs_read_message r2 m3 n = (inl u3, r3)
      ∧ hs_is_handshake_finished i1 = false ∧ hs_is_handshake_finished r1 = false
      ∧ hs_is_handshake_finished r2 = false ∧ hs_is_handshake_finished i2 = false
      ∧ hs_is_handshake_finished i3 = true ∧ hs_is_handshake_finished r3 = true
      ∧ hs_into_transport_mode i3 = inl ti ∧ hs_into_transport_mode r3 = inl tr
      ∧ ts_get_remote_static ti = Some (xs_public y) ∧ ts_get_remote_static tr = Some (xs_public x)
      ∧ ts_paired ti tr ∧ ts_paired tr ti
      ∧ ts_sending_nonce ti = 0 ∧ ts_receiving_nonce ti = 0
      ∧ ts_sending_nonce tr = 0 ∧ ts_receiving_nonce tr = 0
      ∧ zlen m1 = 32 ∧ zlen m2 = 96 ∧ zlen m3 = 64;
  ts_write_ok s pt n :
    zlen pt + 16 <= n → zlen pt + 16 <= 65535 → ts_sending_nonce s < 2 ^ 64 - 1 →
    ∃ ct s', ts_write_message s pt n = (inl ct, s');
}.

(** ** LZ4 blocks: [lz4_flex] *)

Class Lz4 := {
  lz4_compress : bytes → bytes;
  lz4_decompress : bytes → Z → bytes + string;
}.

Class Lz4Laws `{Lz4} : Prop :=
  lz4_roundtrip l : lz4_decompress (lz4_compress l) (zlen l) = inl l.

(** ** Randomness: [rand] *)

Class Rand := {
  StdRng : Type;
  seed_from_u64 : Z → StdRng;
  gen_f64 : StdRng → f64 * StdRng;
  gen_range : StdRng → Z → Z → Z * StdRng;
  fill_bytes : StdRng → nat → bytes * StdRng;
}.

Class RandLaws `{Rand} : Prop := {
  gen_f64_unit r : f64_le (f64_of_int 0) (gen_f64 r).1 = true
                   ∧ f64_lt (gen_f64 r).1 (f64_of_int 1) = true;
  gen_range_bounds r lo hi : lo <= hi → lo <= (gen_range r lo hi).1 <= hi;
}.

(** ** Unicode case mapping *)

Class UnicodeCase := str_to_lowercase : rstring → rstring.

Class UnicodeCaseLaws `{UnicodeCase} : Prop :=
  str_to_lowercase_ascii s : is_ascii s = true → str_to_lowercase s = map ascii_lower s.
