(* ===== verification/Transport.v ===== *)
(** * Transport: the link surface ([transport.rs])

    The platform's transport is observed through the calls the core makes on it, in order; the
    platform's reports are the events fed to [on_transport_event]. *)
From S2P Require Export Prelude.

(** An opaque [u64] connection handle. *)
Abbreviation LinkId := Z.

(** One call on the [Transport] trait. *)
Inductive transport_call :=
  | Send (link : LinkId) (frame : bytes)
  | Close (link : LinkId).

#[export] Instance transport_call_eq_dec : EqDecision transport_call.
Proof. solve_decision. Defined.

Inductive TransportEvent :=
  | LinkUp (link : LinkId) (mtu : Z) (peer_hint : option bytes)
  | LinkDown (link : LinkId)
  | FrameReceived (link : LinkId) (frame : bytes)
  | MtuChanged (link : LinkId) (mtu : Z).

(** The link a call is about. *)
Definition call_link (c : transport_call) : LinkId :=
  match c with Send l _ | Close l => l end.
