(* ===== verification/Toy.v ===== *)
(** * Toy: small executable instances of the external interfaces

    The witnesses evaluate the core on concrete inputs, for which the libraries of [External.v]
    need an implementation. These are not the libraries' algorithms and nothing is claimed about
    their strength: each is the simplest function that satisfies the laws its class states, which
    shows that the laws are consistent. *)
From stdpp Require Import strings.
From S2P Require Import Prelude F64 Utf8 External.

(** ** Hashing: FNV-1a, with the small factor first and masks for remainders so that it is cheap *)

Fixpoint low_bytes (n : nat) (z : Z) : bytes :=
  match n with
  | O => []
  | S k => z2b (Z.land z 255) :: low_bytes k (Z.shiftr z 8)
  end.

Lemma length_low_bytes n z : length (low_bytes n z) = n.
Proof. revert z. induction n; cbn; congruence. Qed.

Definition toy_word (h b : Z) : Z := Z.land (0x100000001B3 * Z.lxor h b) 0xFFFFFFFFFFFFFFFF.

(** A last round that spreads the low bits. *)
Definition toy_final (h : Z) : Z :=
  Z.land (0x9E3779B97F4A7C15 * Z.lxor h (Z.shiftr h 29)) 0xFFFFFFFFFFFFFFFF.

Definition toy_sha256 (m : bytes) : bytes :=
  let h := foldl (λ h b, toy_word h (b2z b)) 0xCBF29CE484222325 m in
  let g := toy_final h in
  let a := Z.shiftr g 32 in
  low_bytes 4 a ++ low_bytes 4 (toy_word a 1) ++ low_bytes 8 g ++ low_bytes 8 h
    ++ low_bytes 8 (toy_word g 2).

#[export] Instance toy_Sha256 : Sha256 := toy_sha256.

#[export] Instance toy_Sha256Laws : Sha256Laws.
Proof. intros m. unfold sha256, toy_Sha256, toy_sha256. cbv zeta. by rewrite !length_app, !length_low_bytes. Qed.

(** ** Signatures: a hash keyed by the public key *)

Definition pad32 (l : bytes) : bytes := take 32 (l ++ zeroes 32).

Lemma length_pad32 l : length (pad32 l) = 32%nat.
Proof. unfold pad32. rewrite length_take, length_app. unfold zeroes. rewrite length_replicate. lia. Qed.

Lemma pad32_id l : length l = 32%nat → pad32 l = l.
Proof. intros E. unfold pad32. rewrite <- E. apply take_app_length. Qed.

Definition toy_sign (vk m : bytes) : bytes := toy_sha256 (vk ++ m) ++ toy_sha256 m.

#[export] Instance toy_Ed25519 : Ed25519 := {|
  SigningKey := bytes;
  VerifyingKey := bytes;
  sk_from_bytes l := pad32 l;
  verifying_key sk := pad32 sk;
  vk_as_bytes vk := vk;
  vk_from_bytes l := if decide (length l = 32%nat) then Some l else None;
  ed_sign sk m := toy_sign (pad32 sk) m;
  ed_verify vk m s := bool_decide (s = toy_sign vk m);
|}.

#[export] Instance toy_Ed25519Laws : Ed25519Laws.
Proof.
  split; cbn -[toy_sign]; intros.
  - unfold toy_sign. rewrite length_app. by rewrite !(sha256_length : ∀ m, length (toy_sha256 m) = _).
  - apply length_pad32.
  - by rewrite decide_True by apply length_pad32.
  - by apply bool_decide_eq_true_2.
Qed.

(** ** Key agreement: the secret is its own public half *)

#[export] Instance toy_X25519 : X25519 := {|
  XSecret := bytes;
  xs_from_bytes l := pad32 l;
  xs_to_bytes s := s;
  xs_public s := pad32 s;
|}.

#[export] Instance toy_X25519Laws : X25519Laws.
Proof. split. apply length_pad32. Qed.

(** ** Compression: a run of one byte becomes two bytes, anything else is stored *)

Definition toy_compress (l : bytes) : bytes :=
  match l with
  | b :: _ => if decide (l = replicate (length l) b) then [Byte.x00; b] else Byte.x01 :: l
  | [] => [Byte.x01]
  end.

Definition toy_decompress (l : bytes) (n : Z) : bytes + string :=
  match l with
  | [Byte.x00; b] => inl (replicate (Z.to_nat n) b)
  | Byte.x01 :: l' => if zlen l' <=? n then inl l' else inr "overflow"%string
  | _ => inr "corrupt"%string
  end.

#[export] Instance toy_Lz4 : Lz4 :=
  {| lz4_compress := toy_compress; lz4_decompress := toy_decompress |}.

#[export] Instance toy_Lz4Laws : Lz4Laws.
Proof.
  intros [|b l]; [done|]. cbn [lz4_compress lz4_decompress toy_Lz4]. unfold toy_compress.
  case_decide as E.
  - cbn [toy_decompress]. unfold zlen. rewrite Nat2Z.id. by rewrite <- E.
  - cbn [toy_decompress]. by rewrite Z.leb_refl.
Qed.

(** ** Randomness: a linear congruential generator *)

Definition toy_next (r : Z) : Z := (r * 6364136223846793005 + 1442695040888963407) mod 2 ^ 64.

Fixpoint toy_fill (n : nat) (r : Z) : bytes * Z :=
  match n with
  | O => ([], r)
  | S k => let '(l, r') := toy_fill k (toy_next r) in (z2b (r / 2 ^ 32) :: l, r')
  end.

#[export] Instance toy_Rand : Rand := {|
  StdRng := Z;
  seed_from_u64 s := s;
  gen_f64 r := (f64_div (f64_of_int (r / 2 ^ 32 mod 16)) (f64_of_int 16), toy_next r);
  gen_range r lo hi := (lo + r / 2 ^ 32 mod (hi - lo + 1), toy_next r);
  fill_bytes r n := toy_fill n r;
|}.

#[export] Instance toy_RandLaws : RandLaws.
Proof.
  split; cbn [gen_f64 gen_range toy_Rand fst].
  - intros r. set (x := _ mod 16).
    assert (Hx : in_width 8 x).
    { pose proof (Z.mod_pos_bound (r / 2 ^ 32) 16). unfold in_width. lia. }
    pose proof (Z.mod_pos_bound (r / 2 ^ 32) 16 eq_refl) as Hb. fold x in Hb. clearbody x.
    pose proof (forall_u8 (λ x, (16 <=? x) ||
      (f64_le (f64_of_int 0) (f64_div (f64_of_int x) (f64_of_int 16))
       && f64_lt (f64_div (f64_of_int x) (f64_of_int 16)) (f64_of_int 1)))
      ltac:(by vm_compute) x Hx) as Hf.
    cbv beta in Hf. rewrite (proj2 (Z.leb_gt 16 x)) in Hf by lia.
    by apply andb_true_iff in Hf.
  - intros r lo hi Hl. pose proof (Z.mod_pos_bound (r / 2 ^ 32) (hi - lo + 1)). lia.
Qed.

(** ** Iteration and case mapping *)

#[export] Instance toy_HashIter : HashIter := λ K V _ _ m, map_to_list m.

#[export] Instance toy_HashIterLaws : HashIterLaws.
Proof. by intros K V ? ? m. Qed.

#[export] Instance toy_UnicodeCase : UnicodeCase := map ascii_lower.

#[export] Instance toy_UnicodeCaseLaws : UnicodeCaseLaws.
Proof. by intros s _. Qed.

(** ** Noise sessions: the three messages of XX by size, static keys in the clear

    [step] counts the messages seen so far. A transport ciphertext is the plaintext and its nonce
    as a 16-byte tag. *)

Record toy_hs := mk_toy_hs {
  ths_initiator : bool;
  ths_step : nat;
  ths_local : bytes;
  ths_remote : option bytes;
}.

Record toy_ts := mk_toy_ts {
  tts_remote : option bytes;
  tts_send : Z;
  tts_recv : Z;
}.

Definition toy_hs_write (h : toy_hs) : (bytes + string) * toy_hs :=
  let next := mk_toy_hs (ths_initiator h) (S (ths_step h)) (ths_local h) (ths_remote h) in
  match ths_initiator h, ths_step h with
  | true, 0%nat => (inl (zeroes 32), next)
  | false, 1%nat => (inl (pad32 (ths_local h) ++ zeroes 64), next)
  | true, 2%nat => (inl (pad32 (ths_local h) ++ zeroes 32), next)
  | _, _ => (inr "not our turn"%string, h)
  end.

Definition toy_hs_read (h : toy_hs) (m : bytes) : (bytes + string) * toy_hs :=
  let next r := mk_toy_hs (ths_initiator h) (S (ths_step h)) (ths_local h) r in
  match ths_initiator h, ths_step h, length m with
  | false, 0%nat, 32%nat => (inl [], next None)
  | true, 1%nat, 96%nat => (inl [], next (Some (take 32 m)))
  | false, 2%nat, 64%nat => (inl [], next (Some (take 32 m)))
  | _, _, _ => (inr "bad message"%string, h)
  end.

Definition nonce_of (n : Z) : Z := n mod 2 ^ 64.

Definition toy_ts_write (t : toy_ts) (pt : bytes) (n : Z) : (bytes + string) * toy_ts :=
  let k := nonce_of (tts_send t) in
  if (k =? 2 ^ 64 - 1) || (n <? zlen pt + 16) then (inr "write"%string, t)
  else (inl (pt ++ be_bytes 16 k), mk_toy_ts (tts_remote t) (k + 1) (tts_recv t)).

Definition toy_ts_read (t : toy_ts) (ct : bytes) (n : Z) : (bytes + string) * toy_ts :=
  let k := nonce_of (tts_recv t) in
  let pt := take (length ct - 16) ct in
  if bool_decide (ct = pt ++ be_bytes 16 k) && (zlen pt <=? n) && negb (k =? 2 ^ 64 - 1)
  then (inl pt, mk_toy_ts (tts_remote t) (tts_send t) (k + 1))
  else (inr "decrypt"%string, t).

#[export] Instance toy_Snow : Snow := {|
  NoiseParams := unit;
  HandshakeState := toy_hs;
  TransportState := toy_ts;
  parse_params _ := Some tt;
  build_initiator _ k := inl (mk_toy_hs true 0 k None);
  build_responder _ k := inl (mk_toy_hs false 0 k None);
  hs_write_message h _ _ := toy_hs_write h;
  hs_read_message h m _ := toy_hs_read h m;
  hs_get_remote_static h := ths_remote h;
  hs_is_handshake_finished h := (ths_step h =? 3)%nat;
  hs_into_transport_mode h :=
    if (ths_step h =? 3)%nat then inl (mk_toy_ts (ths_remote h) 0 0) else inr "not finished"%string;
  ts_get_remote_static t := tts_remote t;
  ts_sending_nonce t := nonce_of (tts_send t);
  ts_receiving_nonce t := nonce_of (tts_recv t);
  ts_set_receiving_nonce t n := mk_toy_ts (tts_remote t) (tts_send t) n;
  ts_write_message := toy_ts_write;
  ts_read_message := toy_ts_read;
|}.

Lemma nonce_of_range n : in_width 64 (nonce_of n).
Proof. by apply Z.mod_pos_bound. Qed.

Lemma nonce_of_next n : nonce_of n ≠ 2 ^ 64 - 1 → nonce_of (nonce_of n + 1) = nonce_of n + 1.
Proof.
  intros Hn. pose proof (nonce_of_range n) as Hr. unfold in_width in Hr. unfold nonce_of at 1.
  apply Z.mod_small. lia.
Qed.

#[export] Instance toy_SnowLaws : SnowLaws.
Proof.
  split; cbn.
  - intros ts n Hn. by apply Z.mod_small.
  - intros ts. apply nonce_of_range.
  - intros ts ct n pt ts'. unfold toy_ts_read. destruct (_ && _) eqn:E; [|done].
    intros [= <- <-]. cbn. apply nonce_of_next. lia.
  - done.
  - intros ts ct n r ts'. unfold toy_ts_read. case_match; by intros [= _ <-].
  - intros ts pt n r ts'. unfold toy_ts_write. case_match; by intros [= _ <-].
  - intros p k hs n r hs' [= <-]. cbn. by intros [= _ <-].
Qed.

#[export] Program Instance toy_SnowPaired : SnowPaired := {| ts_paired _ _ := True |}.
Next Obligation.
  cbn. intros s r pt n ct s' m _. unfold toy_ts_write.
  set (k := nonce_of (tts_send s)). remember (be_bytes 16 k) as tag eqn:Etag.
  assert (length tag = 16%nat) as Hl by (subst tag; apply length_be_bytes).
  destruct (_ || _) eqn:E; [done|]. intros [= <- <-] Hm.
  unfold toy_ts_read. cbn [tts_recv tts_remote tts_send].
  assert (nonce_of k = k) as -> by (apply Z.mod_small, nonce_of_range).
  rewrite <- Etag. assert (take (length (pt ++ tag) - 16) (pt ++ tag) = pt) as ->.
  { rewrite length_app, Hl. replace (_ - _)%nat with (length pt) by lia. apply take_app_length. }
  rewrite bool_decide_eq_true_2, (proj2 (Z.leb_le _ _)) by done.
  destruct (k =? 2 ^ 64 - 1) eqn:Ek; [lia|]. by eexists.
Qed.
Next Obligation. done. Qed.
Next Obligation. done. Qed.
Next Obligation.
  cbn. intros s pt n ct s'. unfold toy_ts_write. destruct (_ || _) eqn:E; [done|].
  intros [= <- <-]. cbn. apply nonce_of_next. lia.
Qed.
Next Obligation.
  cbn. intros s pt n ct s'. unfold toy_ts_write. destruct (_ || _) eqn:E; [done|].
  intros Hw. apply (f_equal fst) in Hw. cbn [fst] in Hw.
  assert (ct = pt ++ be_bytes 16 (nonce_of (tts_send s))) as -> by congruence.
  rewrite zlen_app, zlen_be_bytes. lia.
Qed.
Next Obligation. intros s. apply nonce_of_range. Qed.
Next Obligation.
  cbn. intros s r pt n x r' _. unfold toy_ts_write. destruct (_ || _); by intros [= _ <-].
Qed.
Next Obligation.
  cbn. intros s r ct n x s' _. unfold toy_ts_read. destruct (_ && _); by intros [= _ <-].
Qed.
Next Obligation. done. Qed.

Lemma toy_read_two k r m :
  length m = 96%nat → toy_hs_read (mk_toy_hs true 1 k r) m = (inl [], mk_toy_hs true 2 k (Some (take 32 m))).
Proof. intros E. unfold toy_hs_read. cbn [ths_initiator ths_step]. by rewrite E. Qed.

Lemma toy_read_three k r m :
  length m = 64%nat → toy_hs_read (mk_toy_hs false 2 k r) m = (inl [], mk_toy_hs false 3 k (Some (take 32 m))).
Proof. intros E. unfold toy_hs_read. cbn [ths_initiator ths_step]. by rewrite E. Qed.

Lemma pad32_static k l : take 32 (pad32 k ++ l) = pad32 k.
Proof. rewrite take_app_le by (by rewrite length_pad32). by rewrite take_ge by (by rewrite length_pad32). Qed.

#[export] Instance toy_SnowXX : SnowXX.
Proof.
  split.
  - by eexists.
  - intros p x y n _ _.
    pose proof (toy_read_two x None (pad32 y ++ zeroes 64)) as R2.
    pose proof (toy_read_three y None (pad32 x ++ zeroes 32)) as R3. rewrite pad32_static in R2, R3.
    exists (mk_toy_hs true 0 x None), (mk_toy_hs false 0 y None), (zeroes 32), (mk_toy_hs true 1 x None),
      [], (mk_toy_hs false 1 y None), (pad32 y ++ zeroes 64), (mk_toy_hs false 2 y None), [],
      (mk_toy_hs true 2 x (Some (pad32 y))), (pad32 x ++ zeroes 32), (mk_toy_hs true 3 x (Some (pad32 y))),
      [], (mk_toy_hs false 3 y (Some (pad32 x))), (mk_toy_ts (Some (pad32 y)) 0 0),
      (mk_toy_ts (Some (pad32 x)) 0 0).
    assert (length (pad32 y ++ zeroes 64) = 96%nat) as L2 by by rewrite length_app, length_pad32.
    assert (length (pad32 x ++ zeroes 32) = 64%nat) as L3 by by rewrite length_app, length_pad32.
    unfold zlen. rewrite L2, L3. do 5 (split; [reflexivity|]). split; [exact (R2 L2)|].
    split; [reflexivity|]. split; [exact (R3 L3)|]. by repeat (split; [reflexivity|]).
  - intros s pt n Hn _ Hk. cbn in Hk. cbn [ts_write_message toy_Snow]. unfold toy_ts_write.
    destruct (_ || _) eqn:E; [lia|]. by do 2 eexists.
Qed.
