(* ===== verification/Wire.v ===== *)
(** * Wire: the binary packet format ([wire.rs])

    [MsgType], [Packet] and its codec. A packet is
    [version(1) type(1) flags(1) ttl(1) timestamp(8) sender(8) recipient(8)? len(2) payload
    signature(64)], big-endian. [decode] is written with the source's running offset, and every
    index or slice it takes may panic, so that it never does is a theorem. *)
From stdpp Require Import strings.
From S2P Require Import Prelude Errors External Toy.

Definition PROTOCOL_VERSION : Z := 1.

(** [EphId] is [[u8; 8]]: a byte string of length 8 in a well-formed packet. *)
Abbreviation EphId := bytes.

(** [BROADCAST]: no recipient. *)
Definition BROADCAST : option EphId := None.

Module flags.
Definition HAS_RECIPIENT : Z := 1.
Definition COMPRESSED : Z := 2.
Definition RESERVED_PQ : Z := 4.
End flags.

Definition SIG_LEN : Z := 64.
Definition MIN_HEADER : Z := 1 + 1 + 1 + 1 + 8 + 8 + 2.

(** [!x] on a [u8]. *)
Definition not_u8 (x : Z) : Z := Z.lxor 255 x.

Inductive MsgType :=
  | Announce
  | ChannelMessage
  | DirectMessage
  | NoiseHandshake
  | Receipt
  | SyncRequest
  | SyncResponse
  | MediaOffer
  | MediaFetchRequest
  | MediaChunk
  | MediaFetchAck
  | Unknown (b : Z).

#[export] Instance MsgType_eq_dec : EqDecision MsgType.
Proof. solve_decision. Defined.

Definition from_u8 (b : Z) : MsgType :=
  match b with
  | 0x01 => Announce
  | 0x02 => ChannelMessage
  | 0x03 => DirectMessage
  | 0x04 => NoiseHandshake
  | 0x05 => Receipt
  | 0x06 => SyncRequest
  | 0x07 => SyncResponse
  | 0x10 => MediaOffer
  | 0x11 => MediaFetchRequest
  | 0x12 => MediaChunk
  | 0x13 => MediaFetchAck
  | other => Unknown other
  end.

Definition to_u8 (t : MsgType) : Z :=
  match t with
  | Announce => 0x01
  | ChannelMessage => 0x02
  | DirectMessage => 0x03
  | NoiseHandshake => 0x04
  | Receipt => 0x05
  | SyncRequest => 0x06
  | SyncResponse => 0x07
  | MediaOffer => 0x10
  | MediaFetchRequest => 0x11
  | MediaChunk => 0x12
  | MediaFetchAck => 0x13
  | Unknown b => b
  end.

Definition is_known (t : MsgType) : bool :=
  match t with Unknown _ => false | _ => true end.

Record Packet := mkPacket {
  version : Z;
  msg_type : MsgType;
  pflags : Z;
  ttl : Z;
  timestamp_ms : Z;
  sender : EphId;
  recipient : option EphId;
  payload : bytes;
  signature : bytes;
}.

#[export] Instance Packet_eq_dec : EqDecision Packet.
Proof. solve_decision. Defined.

(** [Packet::new]: unsigned, all-zero signature. *)
Definition Packet_new (t : MsgType) (ttl ts : Z) (sender : EphId) (recipient : option EphId)
    (payload : bytes) : Packet :=
  {| version := PROTOCOL_VERSION; msg_type := t; pflags := 0; ttl := ttl; timestamp_ms := ts;
     sender := sender; recipient := recipient; payload := payload; signature := zeroes 64 |}.

Definition set_ttl (p : Packet) (t : Z) : Packet :=
  {| version := version p; msg_type := msg_type p; pflags := pflags p; ttl := t;
     timestamp_ms := timestamp_ms p; sender := sender p; recipient := recipient p;
     payload := payload p; signature := signature p |}.

Definition set_signature (p : Packet) (s : bytes) : Packet :=
  {| version := version p; msg_type := msg_type p; pflags := pflags p; ttl := ttl p;
     timestamp_ms := timestamp_ms p; sender := sender p; recipient := recipient p;
     payload := payload p; signature := s |}.

Definition effective_flags (p : Packet) : Z :=
  let f := Z.land (pflags p) (not_u8 flags.HAS_RECIPIENT) in
  match recipient p with
  | Some _ => Z.lor f flags.HAS_RECIPIENT
  | None => f
  end.

(** Header and payload. [payload.len() as u16] keeps the low 16 bits. *)
Definition write_body (p : Packet) (ttl_override : option Z) : bytes :=
  [z2b (version p); z2b (to_u8 (msg_type p)); z2b (effective_flags p);
   z2b (default (ttl p) ttl_override)]
  ++ be_bytes 8 (timestamp_ms p)
  ++ sender p
  ++ default [] (recipient p)
  ++ be_bytes 2 (wrap 16 (zlen (payload p)))
  ++ payload p.

(** The bytes under the signature: the TTL is written as zero. *)
Definition signed_region (p : Packet) : bytes := write_body p (Some 0).

Definition encode (p : Packet) : bytes := write_body p None ++ signature p.

Definition need (off n have : Z) : outcome WireError unit :=
  if off + n >? have then Err (Short (off + n) have) else Ok tt.

Definition decode (bs : bytes) : outcome WireError Packet :=
  let have := zlen bs in
  let off := 0 in
  let* _ := need off MIN_HEADER have in
  let* version := expect (index off bs) in
  let version := b2z version in
  let off := off + 1 in
  if negb (version =? PROTOCOL_VERSION) then Err (BadVersion version) else
  let* t := expect (index off bs) in
  let msg_type := from_u8 (b2z t) in
  let off := off + 1 in
  let* flags := expect (index off bs) in
  let flags := b2z flags in
  let off := off + 1 in
  let* ttl := expect (index off bs) in
  let ttl := b2z ttl in
  let off := off + 1 in
  let* ts := expect (slice off (off + 8) bs) in
  let timestamp_ms := be_int ts in
  let off := off + 8 in
  let* sender := expect (slice off (off + 8) bs) in
  let off := off + 8 in
  let* (recipient, off) :=
    (if negb (Z.land flags flags.HAS_RECIPIENT =? 0) then
       let* _ := need off 8 have in
       let* r := expect (slice off (off + 8) bs) in
       Ok (Some r, off + 8)
     else Ok (None, off)) in
  let* _ := need off 2 have in
  let* len_bytes := expect (slice off (off + 2) bs) in
  let payload_len := be_int len_bytes in
  let off := off + 2 in
  let remaining := sat_sub have off in
  if payload_len + SIG_LEN >? remaining then Err (BadLength payload_len remaining) else
  let* payload := expect (slice off (off + payload_len) bs) in
  let off := off + payload_len in
  let* signature := expect (slice off (off + SIG_LEN) bs) in
  let off := off + SIG_LEN in
  if negb (off =? have) then Err (Trailing (have - off)) else
  Ok {| version := version; msg_type := msg_type;
        pflags := Z.land flags (not_u8 flags.HAS_RECIPIENT); ttl := ttl;
        timestamp_ms := timestamp_ms; sender := sender; recipient := recipient;
        payload := payload; signature := signature |}.

Section signing.
Context `{Sha256, Ed25519}.

Definition sign (p : Packet) (key : SigningKey) : Packet :=
  set_signature p (ed_sign key (signed_region p)).

Definition verify (p : Packet) (key : VerifyingKey) : outcome WireError unit :=
  if ed_verify key (signed_region p) (signature p) then Ok tt else Err BadSignature.

(** The dedup key: the first 8 bytes of the hash of the signature. *)
Definition digest (p : Packet) : bytes := take 8 (sha256 (signature p)).
End signing.

(** What the Rust types of a packet's fields guarantee. *)
Record packet_typed (p : Packet) : Prop := {
  pt_version : in_width 8 (version p);
  pt_type : in_width 8 (to_u8 (msg_type p));
  pt_flags : in_width 8 (pflags p);
  pt_ttl : in_width 8 (ttl p);
  pt_timestamp : in_width 64 (timestamp_ms p);
  pt_sender : length (sender p) = 8%nat;
  pt_recipient r : recipient p = Some r → length r = 8%nat;
  pt_signature : length (signature p) = 64%nat;
}.

(** The packets that have an encoding of their own: the current version, a message type that is
    not an alias of a known one, the recipient flag left to [recipient], a payload the 16-bit
    length can express. *)
Record packet_canonical (p : Packet) : Prop := {
  pc_typed : packet_typed p;
  pc_version : version p = PROTOCOL_VERSION;
  pc_type : from_u8 (to_u8 (msg_type p)) = msg_type p;
  pc_flags : Z.land (pflags p) flags.HAS_RECIPIENT = 0;
  pc_payload : zlen (payload p) < 2 ^ 16;
}.

(** ** Lemmas: message types and flags *)

Lemma to_u8_from_u8 b : to_u8 (from_u8 b) = b.
Proof. unfold from_u8. by repeat case_match; subst. Qed.

Lemma from_to_from_u8 b : from_u8 (to_u8 (from_u8 b)) = from_u8 b.
Proof. by rewrite to_u8_from_u8. Qed.

Lemma u8_clear_recipient f : in_width 8 f →
  Z.land (Z.land f (not_u8 flags.HAS_RECIPIENT)) flags.HAS_RECIPIENT = 0.
Proof.
  intros Hf. apply Z.eqb_eq. revert f Hf. apply (forall_u8 (λ f, _ =? 0)). by vm_compute.
Qed.

Lemma u8_clear_in_width f : in_width 8 f → in_width 8 (Z.land f (not_u8 flags.HAS_RECIPIENT)).
Proof.
  intros Hf. assert ((0 <=? Z.land f (not_u8 1)) && (Z.land f (not_u8 1) <? 256) = true) as E.
  { revert f Hf. apply (forall_u8 (λ f, _ && _)). by vm_compute. }
  unfold in_width, flags.HAS_RECIPIENT. lia.
Qed.

Lemma u8_clear_id f : in_width 8 f → Z.land f flags.HAS_RECIPIENT = 0 →
  Z.land f (not_u8 flags.HAS_RECIPIENT) = f.
Proof.
  intros Hf H0. assert (negb (Z.land f 1 =? 0) || (Z.land f (not_u8 1) =? f) = true) as E.
  { revert f Hf H0. intros f Hf _. revert f Hf. apply (forall_u8 (λ f, _ || _)). by vm_compute. }
  unfold flags.HAS_RECIPIENT in *. rewrite H0 in E. cbn in E. lia.
Qed.

Lemma u8_set_recipient f : in_width 8 f →
  let g := Z.lor (Z.land f (not_u8 flags.HAS_RECIPIENT)) flags.HAS_RECIPIENT in
  in_width 8 g ∧ Z.land g flags.HAS_RECIPIENT = 1
  ∧ Z.land g (not_u8 flags.HAS_RECIPIENT) = Z.land f (not_u8 flags.HAS_RECIPIENT)
  ∧ (Z.land f flags.HAS_RECIPIENT ≠ 0 → g = f).
Proof.
  intros Hf g.
  assert ((0 <=? g) && (g <? 256) && (Z.land g 1 =? 1)
          && (Z.land g (not_u8 1) =? Z.land f (not_u8 1))
          && ((Z.land f 1 =? 0) || (g =? f)) = true) as E.
  { unfold g, flags.HAS_RECIPIENT. clear g. revert f Hf.
    apply (forall_u8 (λ f, _ && _ && _ && _ && _)). by vm_compute. }
  unfold in_width, flags.HAS_RECIPIENT in *. lia.
Qed.

Lemma effective_flags_spec p :
  packet_typed p →
  in_width 8 (effective_flags p)
  ∧ (Z.land (effective_flags p) flags.HAS_RECIPIENT =? 0) = bool_decide (recipient p = None)
  ∧ (Z.land (pflags p) flags.HAS_RECIPIENT = 0 →
     Z.land (effective_flags p) (not_u8 flags.HAS_RECIPIENT) = pflags p).
Proof.
  intros Hp. pose proof (pt_flags p Hp) as Hf. unfold effective_flags.
  destruct (recipient p) as [r|].
  - destruct (u8_set_recipient _ Hf) as (H1&H2&H3&_). split; [done|].
    rewrite H2, H3. split; [done|]. by apply u8_clear_id.
  - pose proof (u8_clear_in_width _ Hf). split; [done|].
    rewrite u8_clear_recipient by done. split; [done|]. intros H0.
    rewrite !(u8_clear_id (pflags p)) by done. done.
Qed.

(** ** The codec *)

Lemma need_cases off n have :
  (need off n have = Ok tt ∧ off + n <= have)
  ∨ (need off n have = Err (Short (off + n) have) ∧ have < off + n).
Proof. unfold need. destruct (off + n >? have) eqn:E; [right|left]; split; try done; lia. Qed.

(** Discharges the in-range obligations of the reads of [decode], one after the other. *)
Ltac decode_step :=
  match goal with
  | |- context [need ?o ?n ?h] =>
      destruct (need_cases o n h) as [[-> ?]|[-> ?]]; cbn [obind]; [|try done]
  | |- context [expect (index ?i ?l)] =>
      let x := fresh "x" in
      destruct (expect_index (E:=WireError) i l) as (x & ->); [lia|]; cbn [obind]
  | |- context [expect (slice ?a ?b ?l)] =>
      let x := fresh "x" in
      destruct (expect_slice (E:=WireError) a b l) as (x & -> & ?); [lia|lia|];
      pose proof (be_int_range x); cbn [obind]
  | |- context [if ?c then _ else _] =>
      let E := fresh "E" in destruct c eqn:E; cbn [obind]
  end.

Lemma decode_total bs : decode bs ≠ Panic.
Proof.
  unfold decode, MIN_HEADER, SIG_LEN, sat_sub. cbv zeta. repeat decode_step; done.
Qed.

(** The decoder is total on untrusted bytes: no index or slice it takes is out of range. *)
Theorem decode_never_panics bs : decode bs ≠ Panic.
Proof. apply decode_total. Qed.

(** A read of [decode], remembered as the slice of the buffer it consumed. *)
Ltac read_slices :=
  repeat match goal with
  | H : expect (index ?i ?l) = Ok ?x |- _ =>
      let E := fresh "Hs" in
      destruct (index i l) eqn:E; cbn [expect] in H; [|discriminate H];
      simplify_eq; apply index_slice in E
  | H : expect (slice ?a ?b ?l) = Ok ?x |- _ =>
      let E := fresh "Hs" in
      destruct (slice a b l) eqn:E; cbn [expect] in H; [|discriminate H]; simplify_eq
  end.

(** What one accepted recipient field says. *)
Lemma recipient_field_Ok bs f (o : option EphId) z off :
  (if negb (Z.land f flags.HAS_RECIPIENT =? 0) then
     let* _ := need off 8 (zlen bs) in
     let* r := expect (slice off (off + 8) bs) in
     Ok (Some r, off + 8)
   else Ok (None, off)) = Ok (o, z) →
  bool_decide (o = None) = (Z.land f flags.HAS_RECIPIENT =? 0)
  ∧ (∀ r, o = Some r → length r = 8%nat)
  ∧ (∀ l, slice 0 off bs = Some l → slice 0 z bs = Some (l ++ default [] o)).
Proof.
  destruct (Z.land f _ =? 0); cbn [negb]; intros Ho.
  - simplify_eq. split; [done|]. split; [done|]. intros l ->. by rewrite app_nil_r.
  - inv_outcome Ho. read_slices. split; [done|]. split.
    + intros r [= <-]. apply slice_Some_zlen in Hs. unfold zlen in Hs. lia.
    + intros l Hl. by eapply slice_join.
Qed.

Lemma be_bytes_be_int_n n l : zlen l = Z.of_nat n → be_bytes n (be_int l) = l.
Proof. intros Hl. replace n with (length l) by (unfold zlen in *; lia). apply be_bytes_be_int. Qed.

Lemma effective_flags_rebuild v t f tl ts s o pl sg :
  in_width 8 f → bool_decide (o = None) = (Z.land f flags.HAS_RECIPIENT =? 0) →
  effective_flags (mkPacket v t (Z.land f (not_u8 flags.HAS_RECIPIENT)) tl ts s o pl sg) = f.
Proof.
  intros Hf Ho. unfold effective_flags; cbn [pflags recipient].
  pose proof (u8_clear_in_width f Hf). pose proof (u8_clear_recipient f Hf).
  rewrite (u8_clear_id (Z.land f _)) by done. destruct o as [r|]; cbn in Ho.
  - apply u8_set_recipient; [done|]. lia.
  - apply u8_clear_id; [done|]. symmetry in Ho. by apply Z.eqb_eq.
Qed.

(** Joins the slices read so far into the prefix of the buffer they cover. *)
Ltac join_slices :=
  repeat match goal with
  | H1 : slice 0 ?b ?l = Some ?x, H2 : slice ?b ?c ?l = Some ?y |- _ =>
      pose proof (slice_Some_zlen _ _ _ _ H2);
      pose proof (slice_join _ _ _ _ _ _ H1 H2); clear H1 H2
  | H1 : slice 0 ?b ?l = Some ?x, H2 : ∀ x, slice 0 ?b ?l = Some x → _ |- _ =>
      apply H2 in H1; clear H2
  end.

Lemma decode_sound bs p : decode bs = Ok p → packet_canonical p ∧ encode p = bs.
Proof.
  unfold decode. cbv zeta. intros H. inv_outcome H. subst a6. read_slices.
  apply recipient_field_Ok in E7 as (Hnone & Hlen & Hjoin).
  apply negb_false_iff, Z.eqb_eq in E1. apply negb_false_iff, Z.eqb_eq in E14. clear E E9.
  join_slices.
  match goal with J : slice 0 _ _ = Some _ |- _ => rewrite E14, slice_full in J; injection J as Hbs end.
  pose proof (b2z_u8 a0). pose proof (b2z_u8 a1). pose proof (b2z_u8 a2). pose proof (b2z_u8 a3).
  pose proof (be_int_range a4) as R4. pose proof (be_int_range a8) as R8. unfold SIG_LEN in *.
  assert (zlen a4 = 8) as L4 by lia. assert (zlen a8 = 2) as L8 by lia.
  rewrite L4 in R4. rewrite L8 in R8.
  split.
  - split; cbn; [split; cbn| | | |]; rewrite ?to_u8_from_u8; try done.
    + by apply u8_clear_in_width.
    + unfold zlen in *; lia.
    + unfold zlen in *; lia.
    + by apply u8_clear_recipient.
    + lia.
  - unfold encode, write_body. cbn [version msg_type ttl timestamp_ms sender recipient payload signature default].
    rewrite to_u8_from_u8, !z2b_b2z, effective_flags_rebuild, z2b_b2z by done.
    unfold wrap. rewrite (Z.mod_small (zlen a9)) by lia.
    replace (zlen a9) with (be_int a8) by lia.
    rewrite (be_bytes_be_int_n 8 a4), (be_bytes_be_int_n 2 a8) by done.
    rewrite Hbs. cbn [app]. by rewrite <- !app_assoc.
Qed.

(** The layout of an encoded packet, read back at its offsets. *)
Lemma layout_reads (b0 b1 b2 b3 : byte) (ts s rp ln pl sg : bytes) :
  zlen ts = 8 → zlen s = 8 → zlen ln = 2 → zlen sg = 64 →
  let bs := [b0; b1; b2; b3] ++ ts ++ s ++ rp ++ ln ++ pl ++ sg in
  let k := 20 + zlen rp in
  zlen bs = k + 2 + zlen pl + 64
  ∧ slice 4 12 bs = Some ts ∧ slice 12 20 bs = Some s ∧ slice 20 k bs = Some rp
  ∧ slice k (k + 2) bs = Some ln
  ∧ slice (k + 2) (k + 2 + zlen pl) bs = Some pl
  ∧ slice (k + 2 + zlen pl) (k + 2 + zlen pl + 64) bs = Some sg.
Proof.
  intros Hts Hs Hln Hsg bs k.
  assert (Hz : ∀ n l1 l2 l3, bs = l1 ++ l2 ++ l3 → zlen l1 = n →
            slice n (n + zlen l2) bs = Some l2).
  { intros n l1 l2 l3 -> <-. by apply slice_app. }
  assert (Hz' : ∀ a b l1 l2 l3, bs = l1 ++ l2 ++ l3 → zlen l1 = a → a + zlen l2 = b →
            slice a b bs = Some l2) by (intros; subst b; eauto).
  clear Hz. unfold bs, k in *. split_and!; [zlen_lia|eapply Hz'..].
  1: reflexivity. 1-2: zlen_lia.
  1: by rewrite app_assoc. 1-2: zlen_lia.
  1: by do 2 rewrite app_assoc. 1-2: zlen_lia.
  1: by do 3 rewrite app_assoc. 1-2: zlen_lia.
  1: by do 4 rewrite app_assoc. 1-2: zlen_lia.
  1: by do 5 rewrite app_assoc; rewrite app_nil_r. 1-2: zlen_lia.
Qed.

Ltac need_ok :=
  match goal with
  | |- context [need ?o ?n ?h] =>
      destruct (need_cases o n h) as [[-> _]|[_ ?]]; [cbn [obind]|exfalso; lia]
  end.

(** Decoding a well-laid-out buffer whose length field says [n]: the one computation behind the
    round trip and the behaviour on a payload the length field cannot express. *)
Lemma decode_layout t f tl ts s r n pl sg :
  in_width 8 t → in_width 8 f → in_width 8 tl →
  in_width 64 ts → length s = 8%nat → (∀ x, r = Some x → length x = 8%nat) →
  (Z.land f flags.HAS_RECIPIENT =? 0) = bool_decide (r = None) →
  0 <= n < 2 ^ 16 → n <= zlen pl → length sg = 64%nat →
  decode ([z2b PROTOCOL_VERSION; z2b t; z2b f; z2b tl] ++ be_bytes 8 ts ++ s ++ default [] r
          ++ be_bytes 2 n ++ pl ++ sg) =
  if zlen pl =? n then
    Ok (mkPacket PROTOCOL_VERSION (from_u8 t) (Z.land f (not_u8 flags.HAS_RECIPIENT)) tl ts s r
          pl sg)
  else Err (Trailing (zlen pl - n)).
Proof.
  intros Ht Hf Htl Hts Hs Hr Hfr Hn Hnl Hsg.
  assert (zlen (default [] r) = if bool_decide (r = None) then 0 else 8) as Hrl.
  { destruct r as [x|]; cbn; [|done]. unfold zlen. rewrite (Hr x) by done. done. }
  destruct (layout_reads (z2b PROTOCOL_VERSION) (z2b t) (z2b f) (z2b tl) (be_bytes 8 ts) s
    (default [] r) (be_bytes 2 n) pl sg) as (Hbs & Lts & Ls & Lr & Ll & Lp & Lg);
    [zlen_lia..|].
  set (bs := _ ++ _) in *. pose proof (zlen_nonneg pl).
  unfold decode. cbv zeta.
  change (index 0 bs) with (Some (z2b PROTOCOL_VERSION)).
  change (index (0 + 1) bs) with (Some (z2b t)).
  change (index (0 + 1 + 1) bs) with (Some (z2b f)).
  change (index (0 + 1 + 1 + 1) bs) with (Some (z2b tl)).
  change (0 + 1 + 1 + 1 + 1) with 4. change (4 + 8) with 12. change (12 + 8) with 20.
  rewrite Lts, Ls. unfold MIN_HEADER, SIG_LEN.
  assert (0 <= zlen (default [] r) <= 8) by (case_bool_decide; lia).
  need_ok. cbn [expect obind]. rewrite (b2z_z2b_u8 PROTOCOL_VERSION) by done. cbn [negb].
  change (PROTOCOL_VERSION =? PROTOCOL_VERSION) with true. cbn [negb].
  rewrite !b2z_z2b_u8, Hfr by done.
  rewrite (be_int_be_bytes_small 8) by done.
  assert (∃ o', (if negb (bool_decide (r = None)) then
     let* _ := need 20 8 (zlen bs) in
     let* r := expect (E:=WireError) (slice 20 (20 + 8) bs) in Ok (Some r, 20 + 8)
   else Ok (None, 20)) = Ok (r, o') ∧ o' = 20 + zlen (default [] r)) as (o & -> & ->).
  { clear Ll Lp Lg. destruct r as [x|].
    - rewrite (bool_decide_eq_false_2 (Some x = None)) in * by done. rewrite Hrl in *.
      need_ok. change (default [] (Some x)) with x in Lr. rewrite Lr. by eexists.
    - rewrite (bool_decide_eq_true_2 (None = None)) in * by done. rewrite Hrl. by eexists. }
  cbn [obind]. set (k := 20 + zlen (default [] r)) in *. assert (20 <= k) by lia. clearbody bs k.
  need_ok. rewrite Ll. cbn [expect obind]. rewrite (be_int_be_bytes_small 2) by done.
  replace (n + 64 >? sat_sub (zlen bs) (k + 2)) with false by (unfold sat_sub; lia).
  destruct (zlen pl =? n) eqn:E.
  - apply Z.eqb_eq in E. subst n. rewrite Lp. cbn [expect obind]. rewrite Lg. cbn [expect obind].
    by rewrite Hbs, Z.eqb_refl.
  - destruct (expect_slice (E:=WireError) (k + 2) (k + 2 + n) bs) as (x & -> & _); [lia..|].
    destruct (expect_slice (E:=WireError) (k + 2 + n) (k + 2 + n + 64) bs) as (y & Hy & _); [lia..|].
    cbn [obind]. rewrite Hy. cbn [obind].
    replace (k + 2 + n + 64 =? zlen bs) with false by lia. cbn [negb].
    do 2 f_equal. lia.
Qed.

(** The whole encoding as one right-nested concatenation. *)
Lemma encode_layout p :
  encode p = [z2b (version p); z2b (to_u8 (msg_type p)); z2b (effective_flags p); z2b (ttl p)]
    ++ be_bytes 8 (timestamp_ms p) ++ sender p ++ default [] (recipient p)
    ++ be_bytes 2 (wrap 16 (zlen (payload p))) ++ payload p ++ signature p.
Proof. unfold encode, write_body. by rewrite <- !app_assoc. Qed.

Lemma encode_decode_layout p :
  packet_typed p → version p = PROTOCOL_VERSION →
  decode (encode p) =
  let n := wrap 16 (zlen (payload p)) in
  if zlen (payload p) =? n then
    Ok (mkPacket PROTOCOL_VERSION (from_u8 (to_u8 (msg_type p)))
          (Z.land (effective_flags p) (not_u8 flags.HAS_RECIPIENT)) (ttl p) (timestamp_ms p)
          (sender p) (recipient p) (payload p) (signature p))
  else Err (Trailing (zlen (payload p) - n)).
Proof.
  intros Ht Hv. destruct (effective_flags_spec p Ht) as (F1 & F2 & _). destruct Ht.
  rewrite encode_layout, Hv. apply decode_layout; try done.
  - by apply Z.mod_pos_bound.
  - apply Z.mod_le; [apply zlen_nonneg|done].
Qed.

Lemma encode_complete p : packet_canonical p → decode (encode p) = Ok p.
Proof.
  intros [Ht Hv Hty Hf Hpl]. rewrite encode_decode_layout by done. cbv zeta.
  unfold wrap. rewrite Z.mod_small by (pose proof (zlen_nonneg (payload p)); lia).
  rewrite Z.eqb_refl, Hty. destruct (effective_flags_spec p Ht) as (_ & _ & F3).
  rewrite F3 by done. rewrite <- Hv. by destruct p.
Qed.

(** C17: the codec is a bijection between the canonical packets and the byte strings the decoder
    accepts: a buffer decodes to [p] exactly when [p] is canonical and the buffer is its
    encoding, so no two buffers mean the same packet and nothing accepted re-encodes
    differently. *)
Theorem decode_iff bs p : decode bs = Ok p ↔ packet_canonical p ∧ encode p = bs.
Proof.
  split; [apply decode_sound|]. intros [Hp <-]. by apply encode_complete.
Qed.

(** A payload the 16-bit length cannot express is silently truncated in the header, and the
    packet is then rejected by every decoder as having trailing bytes. *)
Theorem encode_oversize_rejected p :
  packet_typed p → version p = PROTOCOL_VERSION → 2 ^ 16 <= zlen (payload p) →
  decode (encode p) = Err (Trailing (zlen (payload p) - wrap 16 (zlen (payload p)))).
Proof.
  intros Ht Hv Hn. rewrite encode_decode_layout by done. cbv zeta.
  assert (wrap 16 (zlen (payload p)) < 2 ^ 16) by (by apply Z.mod_pos_bound).
  destruct (zlen (payload p) =? _) eqn:E; [lia|done].
Qed.

Section signing_lemmas.
Context `{Sha256, Ed25519}.

Lemma signed_region_set_ttl p t : signed_region (set_ttl p t) = signed_region p.
Proof. done. Qed.

Lemma signed_region_set_signature p s : signed_region (set_signature p s) = signed_region p.
Proof. done. Qed.

Lemma verify_Ok p k : verify p k = Ok tt ↔ ed_verify k (signed_region p) (signature p) = true.
Proof. unfold verify. by case_match. Qed.

Lemma verify_sign `{!Ed25519Laws} p sk : verify (sign p sk) (verifying_key sk) = Ok tt.
Proof. apply verify_Ok. apply ed_verify_sign. Qed.

Lemma digest_length `{!Sha256Laws} p : length (digest p) = 8%nat.
Proof. unfold digest. rewrite length_take, sha256_length. done. Qed.

(** What a relay does to a packet on its way - decode it, decrement the TTL, encode it again
    - changes neither the verdict on its signature nor its dedup digest, for any TTL and any
    key, so every hop dedups and verifies the same packet. *)
Theorem relay_preserves_signature_and_digest p q t :
  packet_canonical p → in_width 8 t → decode (encode (set_ttl p t)) = Ok q →
  ttl q = t ∧ digest q = digest p ∧ (∀ k, verify q k = verify p k).
Proof.
  intros Hp Ht Hq.
  assert (packet_canonical (set_ttl p t)) as Hc.
  { destruct Hp as [[] ? ? ? ?]. by split. }
  rewrite encode_complete in Hq by done. simplify_eq. done.
Qed.

(** Two packets that carry the same signature bytes share a digest, whatever else they say: the
    digest covers the signature only. *)
Lemma digest_of_signature p q : signature p = signature q → digest p = digest q.
Proof. unfold digest. by intros ->. Qed.
End signing_lemmas.

(** ** Witnesses *)

Definition demo_packet (n : nat) : Packet :=
  Packet_new ChannelMessage 10 1000 (zeroes 8) (Some (zeroes 8)) (replicate n Byte.x41).

Lemma demo_packet_canonical n : Z.of_nat n < 2 ^ 16 → packet_canonical (demo_packet n).
Proof.
  intros Hn. split; [split| | | |]; try done.
  - cbn. by intros r [= <-].
  - cbn [demo_packet Packet_new payload]. unfold zlen. by rewrite length_replicate.
Qed.

Lemma encode_oversize_rejected_witness :
  let p := demo_packet (Z.to_nat 65536) in
  packet_typed p ∧ decode (encode p) = Err (Trailing (zlen (payload p) - wrap 16 (zlen (payload p)))).
Proof.
  assert (packet_typed (demo_packet (Z.to_nat 65536))) as Hp.
  { split; try done. cbn. by intros r [= <-]. }
  split; [exact Hp|]. apply encode_oversize_rejected; [exact Hp|done|].
  cbn [demo_packet Packet_new payload]. unfold zlen. by rewrite length_replicate.
Defined.

Lemma relay_preserves_signature_and_digest_witness :
  let p := sign (demo_packet 3) (sk_from_bytes (zeroes 32)) in
  ttl (set_ttl p 9) = 9 ∧ digest (set_ttl p 9) = digest p ∧ (∀ k, verify (set_ttl p 9) k = verify p k).
Proof.
  cbv zeta. apply relay_preserves_signature_and_digest.
  - destruct (demo_packet_canonical 3) as [[] ? ? ? ?]; [done|].
    split; [split|..]; try done.
  - done.
  - by vm_compute.
Defined.
