(* ===== verification/Config.v ===== *)
(** * Config: the tunable protocol constants ([config.rs])

    One record of every constant, its defaults, and the origination TTL per message type. *)
From S2P Require Import Prelude F64 Clock Wire.

Record Tunables := mkTunables {
  default_mtu : Z;
  reassembly_slots : Z;
  reassembly_timeout_ms : Millis;
  reassembly_max_bytes : Z;
  ttl_announce : Z;
  ttl_announce_dense : Z;
  ttl_channel : Z;
  ttl_channel_dense : Z;
  ttl_dm : Z;
  ttl_dm_dense : Z;
  dense_degree : Z;
  jitter_min_ms : Millis;
  jitter_max_ms : Millis;
  suppression_threshold : Z;
  relay_prob_sparse : f64;
  relay_prob_mid : f64;
  relay_prob_dense : f64;
  relay_sparse_max : Z;
  relay_mid_max : Z;
  seen_cache_capacity : Z;
  seen_cache_ttl_ms : Millis;
  rate_burst : Z;
  rate_sustained_per_min : Z;
  greylist_ms : Millis;
  pow_bits : Z;
  compress_min_bytes : Z;
  decompress_max_bytes : Z;
  channel_history_ms : Millis;
  channel_history_max_msgs : Z;
  envelope_ttl_ms : Millis;
  envelope_max_per_peer : Z;
}.

(** [Tunables::default]. *)
Definition Tunables_default : Tunables := {|
  default_mtu := 182;
  reassembly_slots := 128;
  reassembly_timeout_ms := 30000;
  reassembly_max_bytes := Z.shiftl 1 20;
  ttl_announce := 15;
  ttl_announce_dense := 12;
  ttl_channel := 10;
  ttl_channel_dense := 7;
  ttl_dm := 10;
  ttl_dm_dense := 7;
  dense_degree := 6;
  jitter_min_ms := 10;
  jitter_max_ms := 220;
  suppression_threshold := 3;
  relay_prob_sparse := f64_of_int 1;
  relay_prob_mid := f64_ratio 7 10;
  relay_prob_dense := f64_ratio 45 100;
  relay_sparse_max := 3;
  relay_mid_max := 6;
  seen_cache_capacity := 1000;
  seen_cache_ttl_ms := 5 * 60000;
  rate_burst := 10;
  rate_sustained_per_min := 30;
  greylist_ms := 60000;
  pow_bits := 22;
  compress_min_bytes := 128;
  decompress_max_bytes := 4096;
  channel_history_ms := 6 * 3600000;
  channel_history_max_msgs := 1000;
  envelope_ttl_ms := 24 * 3600000;
  envelope_max_per_peer := 100;
|}.

Definition origin_ttl (cfg : Tunables) (msg_type : MsgType) (degree : Z) : Z :=
  let dense := dense_degree cfg <=? degree in
  match msg_type with
  | Announce => if dense then ttl_announce_dense cfg else ttl_announce cfg
  | ChannelMessage => if dense then ttl_channel_dense cfg else ttl_channel cfg
  | DirectMessage | NoiseHandshake => if dense then ttl_dm_dense cfg else ttl_dm cfg
  | _ => 1
  end.

(** The integer fields are values of their Rust types. *)
Record cfg_typed (cfg : Tunables) : Prop := {
  ct_ttls : in_width 8 (ttl_announce cfg) ∧ in_width 8 (ttl_announce_dense cfg)
            ∧ in_width 8 (ttl_channel cfg) ∧ in_width 8 (ttl_channel_dense cfg)
            ∧ in_width 8 (ttl_dm cfg) ∧ in_width 8 (ttl_dm_dense cfg);
  ct_jitter : in_width 64 (jitter_min_ms cfg) ∧ in_width 64 (jitter_max_ms cfg);
  ct_sizes : 0 <= reassembly_slots cfg ∧ 0 <= reassembly_max_bytes cfg
             ∧ 0 <= seen_cache_capacity cfg ∧ 0 <= channel_history_max_msgs cfg
             ∧ 0 <= envelope_max_per_peer cfg ∧ 0 <= compress_min_bytes cfg
             ∧ 0 <= decompress_max_bytes cfg;
  ct_mtu : 0 <= default_mtu cfg;
}.

Lemma Tunables_default_typed : cfg_typed Tunables_default.
Proof. by split; vm_compute; repeat split. Qed.

(** A direct message cannot exist without its handshake: the two flood equally far at any
    degree. *)
Lemma origin_ttl_handshake cfg degree :
  origin_ttl cfg NoiseHandshake degree = origin_ttl cfg DirectMessage degree.
Proof. done. Qed.

(** A type not listed does not leave the link. *)
Lemma origin_ttl_unlisted cfg t degree :
  t ∉ [Announce; ChannelMessage; DirectMessage; NoiseHandshake] → origin_ttl cfg t degree = 1.
Proof.
  intros H. destruct t; try reflexivity; destruct H;
    repeat first [apply list_elem_of_here | apply list_elem_of_further].
Qed.

Lemma origin_ttl_u8 cfg t degree : cfg_typed cfg → in_width 8 (origin_ttl cfg t degree).
Proof.
  intros [(?&?&?&?&?&?) _ _ _]. unfold origin_ttl. by repeat case_match.
Qed.
