(* ===== verification/Frag.v ===== *)
(** * Frag: link framing and reassembly ([frag.rs])

    [split] cuts an encoded packet into frames of at most the link's MTU; a [Reassembler] puts
    fragments back together in any order. The indexing and the [unwrap]s of the source are kept
    as [Panic]s. *)
From S2P Require Import Prelude Errors Clock Config.

Definition KIND_COMPLETE : Z := 0x01.
Definition KIND_FRAGMENT : Z := 0x02.
Definition FRAG_HEADER : Z := 1 + 8 + 2 + 2.

(** [usize::div_ceil]. *)
Definition div_ceil (a b : Z) : Z := (a + b - 1) / b.

Definition fragment_frame (digest : bytes) (i total : Z) (chunk : bytes) : bytes :=
  z2b KIND_FRAGMENT :: digest ++ be_bytes 2 (wrap 16 i) ++ be_bytes 2 (wrap 16 total) ++ chunk.

Definition split (packet_bytes digest : bytes) (mtu : Z) : outcome FragError (list bytes) :=
  if mtu <=? FRAG_HEADER then Err (MtuTooSmall mtu) else
  if zlen packet_bytes <? mtu then Ok [z2b KIND_COMPLETE :: packet_bytes] else
  let chunk_size := mtu - FRAG_HEADER in
  let total := div_ceil (zlen packet_bytes) chunk_size in
  if total >? 65535 then Err (TooLarge (chunk_size * 65535)) else
  Ok (imap (λ i chunk, fragment_frame digest (Z.of_nat i) total chunk)
        (chunks_of (Z.to_nat chunk_size) packet_bytes)).

Record Partial := mkPartial {
  total : Z;
  received : Z;
  chunks : list (option bytes);
  pbytes : Z;
  first_seen_ms : Millis;
}.

Record Reassembler := mkReassembler {
  slots : gmap bytes Partial;
  cfg : Tunables;
}.

Definition Reassembler_new (c : Tunables) : Reassembler := {| slots := ∅; cfg := c |}.

Definition in_flight (r : Reassembler) : Z := msize (slots r).

Definition set_slots (r : Reassembler) (s : gmap bytes Partial) : Reassembler :=
  {| slots := s; cfg := cfg r |}.

(** [evict_oldest]: the first slot in key order with the smallest [first_seen_ms]. *)
Definition evict_oldest (s : gmap bytes Partial) : gmap bytes Partial :=
  evict_min first_seen_ms s.

Definition evict_expired (r : Reassembler) (now : Millis) : Z * Reassembler :=
  let timeout := reassembly_timeout_ms (cfg r) in
  let before := msize (slots r) in
  let s := map_retain (λ _ p, sat_sub now (first_seen_ms p) <? timeout) (slots r) in
  (before - msize s, set_slots r s).

(** The header and the chunk of a fragment frame. *)
Definition read_fragment (frame : bytes) : outcome FragError (bytes * Z * Z * bytes) :=
  let* digest := expect (slice 1 9 frame) in
  let* i0 := expect (index 9 frame) in
  let* i1 := expect (index 10 frame) in
  let* t0 := expect (index 11 frame) in
  let* t1 := expect (index 12 frame) in
  let* chunk := expect (slice FRAG_HEADER (zlen frame) frame) in
  Ok (digest, be_int [i0; i1], be_int [t0; t1], chunk).

(** Stores a chunk unless its place is taken; [None] when the byte cap would be passed. *)
Definition store_chunk (cap : Z) (p : Partial) (i : nat) (slot : option bytes) (chunk : bytes)
    : option Partial :=
  match slot with
  | Some _ => Some p
  | None =>
      if pbytes p + zlen chunk >? cap then None
      else Some {| total := total p; received := received p + 1;
                   chunks := <[i := Some chunk]> (chunks p); pbytes := pbytes p + zlen chunk;
                   first_seen_ms := first_seen_ms p |}
  end.

Definition new_partial (total : Z) (now : Millis) : Partial :=
  {| total := total; received := 0; chunks := replicate (Z.to_nat total) None; pbytes := 0;
     first_seen_ms := now |}.

(** The chunks joined, each one unwrapped. *)
Definition join_chunks (p : Partial) : outcome FragError bytes :=
  let* cs := expect (mapM (M:=option) id (chunks p)) in Ok (concat cs).

Definition ingest_fragment (r : Reassembler) (frame : bytes) (now : Millis)
    : outcome FragError (option bytes) * Reassembler :=
  if zlen frame <? FRAG_HEADER then (Ok None, r) else
  match read_fragment frame with
  | Err e => (Err e, r)
  | Panic => (Panic, r)
  | Ok (digest, idx, tot, chunk) =>
      if (tot =? 0) || (tot <=? idx) then (Err (BadIndex idx tot), r) else
      let s := if bool_decide (slots r !! digest = None)
                  && (reassembly_slots (cfg r) <=? msize (slots r))
               then evict_oldest (slots r) else slots r in
      let cap := reassembly_max_bytes (cfg r) in
      let entry := default (new_partial tot now) (s !! digest) in
      if negb (total entry =? tot) then (Err (BadIndex idx tot), set_slots r (delete digest s)) else
      match index idx (chunks entry) with
      | None => (Panic, r)
      | Some slot =>
          match store_chunk cap entry (Z.to_nat idx) slot chunk with
          | None => (Err (TooLarge cap), set_slots r (delete digest s))
          | Some entry' =>
              if received entry' =? total entry' then
                (let* out := join_chunks entry' in Ok (Some out), set_slots r (delete digest s))
              else (Ok None, set_slots r (<[digest := entry']> s))
          end
      end
  end.

Definition ingest (r : Reassembler) (frame : bytes) (now : Millis)
    : outcome FragError (option bytes) * Reassembler :=
  match frame with
  | [] => (Ok None, r)
  | kind :: rest =>
      if b2z kind =? KIND_COMPLETE then (Ok (Some rest), r)
      else if b2z kind =? KIND_FRAGMENT then ingest_fragment r frame now
      else (Ok None, r)
  end.

(** A run of the reassembler over timed frames: the outcome of each, and the final state. *)
Fixpoint ingest_all (r : Reassembler) (frames : list (bytes * Millis))
    : list (outcome FragError (option bytes)) * Reassembler :=
  match frames with
  | [] => ([], r)
  | (f, t) :: fs =>
      let '(o, r1) := ingest r f t in
      let '(os, r2) := ingest_all r1 fs in
      (o :: os, r2)
  end.

(** ** The invariant *)

Definition have_count (cs : list (option bytes)) : Z :=
  zlen (List.filter (λ o : option bytes, bool_decide (is_Some o)) cs).

Definition have_bytes (cs : list (option bytes)) : Z :=
  foldr (λ o n, zlen (default [] o) + n) 0 cs.

(** A slot in flight counts what it holds, is under the byte cap and still lacks a chunk. *)
Record partial_ok (cap : Z) (p : Partial) : Prop := {
  po_total : 0 < total p < 2 ^ 16;
  po_len : zlen (chunks p) = total p;
  po_received : received p = have_count (chunks p);
  po_bytes : pbytes p = have_bytes (chunks p);
  po_cap : pbytes p <= Z.max 0 cap;
  po_open : received p < total p;
}.

Record reassembler_ok (r : Reassembler) : Prop := {
  ro_partials k p : slots r !! k = Some p → partial_ok (reassembly_max_bytes (cfg r)) p;
  ro_slots : msize (slots r) <= Z.max 1 (reassembly_slots (cfg r));
}.

(** ** Lemmas: chunk lists *)

Lemma have_count_nonneg cs : 0 <= have_count cs.
Proof. apply zlen_nonneg. Qed.

Lemma have_count_cons o cs :
  have_count (o :: cs) = (if bool_decide (is_Some o) then 1 else 0) + have_count cs.
Proof.
  unfold have_count. cbn [List.filter]. case_match; [apply zlen_cons|lia].
Qed.

Lemma have_count_le cs : have_count cs <= zlen cs.
Proof.
  induction cs as [|o cs IH]; [done|]. rewrite have_count_cons, zlen_cons. case_match; lia.
Qed.

Lemma have_count_none n : have_count (replicate n None) = 0.
Proof. induction n as [|n IH]; [done|]. cbn [replicate]. by rewrite have_count_cons, IH. Qed.

Lemma have_bytes_none n : have_bytes (replicate n None) = 0.
Proof. induction n as [|n IH]; [done|]. by cbn. Qed.

(** Filling an empty place adds one chunk and its bytes. *)
Lemma have_insert cs i c :
  cs !! i = Some None →
  have_count (<[i := Some c]> cs) = have_count cs + 1
  ∧ have_bytes (<[i := Some c]> cs) = have_bytes cs + zlen c.
Proof.
  revert i. induction cs as [|o cs IH]; intros [|i] Hi; try done.
  - cbn in Hi. simplify_eq. cbn [insert list_insert]. rewrite !have_count_cons.
    change (bool_decide (is_Some (Some c))) with true.
    change (bool_decide (is_Some (@None bytes))) with false. unfold have_bytes. cbn [foldr].
    change (default [] (Some c)) with c. change (zlen (default [] (@None bytes))) with 0. split; lia.
  - cbn in Hi. destruct (IH i Hi) as [H1 H2]. change (<[S i:=Some c]> (o :: cs)) with (o :: <[i:=Some c]> cs).
    rewrite !have_count_cons, H1. unfold have_bytes in *. cbn [foldr]. lia.
Qed.

(** When every place is filled the unwraps succeed. *)
Lemma have_all_mapM cs : have_count cs = zlen cs → ∃ ds, cs = Some <$> ds.
Proof.
  induction cs as [|o cs IH]; intros H; [by exists []|].
  rewrite have_count_cons, zlen_cons in H. pose proof (have_count_le cs).
  destruct o as [c|]; [|rewrite bool_decide_eq_false_2 in H by (by apply is_Some_None); lia].
  destruct IH as [ds ->]; [rewrite bool_decide_eq_true_2 in H by done; lia|].
  by exists (c :: ds).
Qed.

(** Otherwise some place is empty. *)
Lemma have_missing cs : have_count cs < zlen cs → ∃ j, cs !! j = Some None.
Proof.
  induction cs as [|o cs IH]; [done|]. rewrite have_count_cons, zlen_cons.
  destruct o as [c|]; [|intros _; by exists 0%nat].
  rewrite bool_decide_eq_true_2 by done. intros H. destruct IH as [j Hj]; [lia|]. by exists (S j).
Qed.

Lemma mapM_id_Some {A} (ds : list A) : mapM (M:=option) id (Some <$> ds) = Some ds.
Proof. by apply mapM_fmap_Some. Qed.

Lemma join_chunks_full p ds : chunks p = Some <$> ds → join_chunks p = Ok (concat ds).
Proof. intros E. unfold join_chunks. by rewrite E, mapM_id_Some. Qed.

(** ** Lemmas: the header *)

Lemma read_fragment_total frame :
  FRAG_HEADER <= zlen frame →
  ∃ d i t c, read_fragment frame = Ok (d, i, t, c)
    ∧ length d = 8%nat ∧ in_width 16 i ∧ in_width 16 t.
Proof.
  unfold FRAG_HEADER, read_fragment. intros Hl.
  destruct (expect_slice (E:=FragError) 1 9 frame) as (d & -> & Hd); [lia|lia|].
  destruct (expect_index (E:=FragError) 9 frame) as (i0 & ->); [lia|].
  destruct (expect_index (E:=FragError) 10 frame) as (i1 & ->); [lia|].
  destruct (expect_index (E:=FragError) 11 frame) as (t0 & ->); [lia|].
  destruct (expect_index (E:=FragError) 12 frame) as (t1 & ->); [lia|].
  destruct (expect_slice (E:=FragError) FRAG_HEADER (zlen frame) frame) as (c & -> & _);
    [unfold FRAG_HEADER; lia|lia|].
  cbn [obind]. do 4 eexists. split; [done|].
  split; [unfold zlen in Hd; lia|].
  split; [apply (be_int_range [i0; i1])|apply (be_int_range [t0; t1])].
Qed.

Lemma read_fragment_frame d i t c :
  length d = 8%nat → in_width 16 i → in_width 16 t →
  read_fragment (fragment_frame d i t c) = Ok (d, i, t, c)
  ∧ FRAG_HEADER <= zlen (fragment_frame d i t c).
Proof.
  intros Hd Hi Ht. do 8 (destruct d as [|? d]; [done|]). destruct d; [|done].
  assert (Hbe : ∀ z, in_width 16 z →
            ∃ a b, be_bytes 2 (wrap 16 z) = [a; b] ∧ be_int [a; b] = z).
  { intros z Hz. eexists _, _. split; [reflexivity|].
    unfold wrap. rewrite (Z.mod_small z) by done. by apply (be_int_be_bytes_small 2 z). }
  destruct (Hbe i Hi) as (i0 & i1 & Ei & Hi'), (Hbe t Ht) as (t0 & t1 & Et & Ht').
  unfold fragment_frame. rewrite Ei, Et. cbn [app]. split.
  - unfold read_fragment.
    set (frame := z2b KIND_FRAGMENT :: _).
    change (slice 1 9 frame) with (slice 1 9 ([z2b KIND_FRAGMENT] ++ [b; b0; b1; b2; b3; b4; b5; b6]
      ++ [i0; i1; t0; t1] ++ c)).
    rewrite slice_app by done.
    change (index 9 frame) with (Some i0). change (index 10 frame) with (Some i1).
    change (index 11 frame) with (Some t0). change (index 12 frame) with (Some t1).
    cbn [expect obind].
    assert (slice FRAG_HEADER (zlen frame) frame = Some c) as ->.
    { replace frame with ([z2b KIND_FRAGMENT; b; b0; b1; b2; b3; b4; b5; b6; i0; i1; t0; t1]
        ++ c ++ []) by (by rewrite app_nil_r). apply slice_app; [done|].
      rewrite app_nil_r, zlen_app. done. }
    cbn [expect obind]. by rewrite Hi', Ht'.
  - unfold FRAG_HEADER, zlen. cbn [length]. lia.
Qed.

(** ** Lemmas: one frame *)

Lemma new_partial_ok cap tot now :
  in_width 16 tot → tot ≠ 0 → partial_ok cap (new_partial tot now).
Proof.
  unfold in_width. intros Ht H0. split; cbn [new_partial total chunks received pbytes].
  - lia.
  - unfold zlen. rewrite length_replicate. lia.
  - by rewrite have_count_none.
  - by rewrite have_bytes_none.
  - lia.
  - lia.
Qed.

(** What storing a chunk does to a slot in flight: the slot is unchanged but for the chunk. *)
Lemma store_chunk_ok cap p i slot chunk p' :
  partial_ok cap p → chunks p !! i = Some slot → store_chunk cap p i slot chunk = Some p' →
  total p' = total p ∧ zlen (chunks p') = total p'
  ∧ received p' = have_count (chunks p') ∧ pbytes p' = have_bytes (chunks p')
  ∧ pbytes p' <= Z.max 0 cap
  ∧ chunks p' = match slot with Some _ => chunks p | None => <[i := Some chunk]> (chunks p) end.
Proof.
  intros [] Hi. unfold store_chunk. destruct slot as [c|].
  - intros [= <-]. done.
  - destruct (_ >? cap) eqn:E; [done|]. intros [= <-].
    cbn [total received chunks pbytes]. destruct (have_insert _ _ chunk Hi) as [H1 H2].
    rewrite H1, H2. split; [done|]. split; [unfold zlen in *; by rewrite length_insert|].
    split; [lia|]. split; [lia|]. split; [lia|done].
Qed.

Lemma store_chunk_full cap p i slot chunk p' :
  partial_ok cap p → chunks p !! i = Some slot → store_chunk cap p i slot chunk = Some p' →
  if received p' =? total p' then ∃ ds, chunks p' = Some <$> ds else partial_ok cap p'.
Proof.
  intros Hp Hi Hs. destruct (store_chunk_ok _ _ _ _ _ _ Hp Hi Hs) as (Et & Hl & Hr & Hb & Hc & _).
  pose proof (po_total _ _ Hp). destruct (received p' =? total p') eqn:E.
  - apply have_all_mapM. lia.
  - pose proof (have_count_le (chunks p')). split; try done; lia.
Qed.

Lemma in_range_slot cap p idx :
  partial_ok cap p → 0 <= idx < total p →
  ∃ slot, index idx (chunks p) = Some slot ∧ chunks p !! Z.to_nat idx = Some slot.
Proof.
  intros Hp Hi. destruct (index_in_range idx (chunks p)) as [slot Hs];
    [by rewrite (po_len _ _ Hp)|].
  exists slot. split; [done|]. unfold index in Hs. by rewrite (proj2 (Z.leb_le 0 idx)) in Hs by lia.
Qed.

Lemma set_slots_ok r s :
  (∀ k p, s !! k = Some p → partial_ok (reassembly_max_bytes (cfg r)) p) →
  msize s <= Z.max 1 (reassembly_slots (cfg r)) → reassembler_ok (set_slots r s).
Proof. by split. Qed.

Lemma ok_subseteq r s : reassembler_ok r → s ⊆ slots r → reassembler_ok (set_slots r s).
Proof.
  intros [H1 H2] Hs. apply set_slots_ok.
  - intros k p Hk. apply (H1 k). by eapply lookup_weaken.
  - assert (msize s <= msize (slots r)); [|lia]. unfold msize. rewrite <- !size_dom.
    by apply inj_le, subseteq_size, subseteq_dom.
Qed.

(** The slots a new message finds: one is evicted only when there is none for it and no room. *)
Definition make_room (r : Reassembler) (digest : bytes) : gmap bytes Partial :=
  if bool_decide (slots r !! digest = None) && (reassembly_slots (cfg r) <=? msize (slots r))
  then evict_oldest (slots r) else slots r.

Lemma make_room_subseteq r d : make_room r d ⊆ slots r.
Proof. unfold make_room. case_match; [apply evict_min_subseteq|done]. Qed.

Lemma make_room_size r d :
  reassembler_ok r → make_room r d !! d = None →
  msize (make_room r d) + 1 <= Z.max 1 (reassembly_slots (cfg r)).
Proof.
  intros [_ Hs]. unfold make_room. case_bool_decide as Ed; cbn [andb].
  - destruct (_ <=? msize _) eqn:E; intros _; [unfold evict_oldest; rewrite msize_evict_min; lia|lia].
  - intros Hn. done.
Qed.

(** [ingest_fragment] on a frame with a readable header, case by case. *)
Lemma ingest_fragment_read r frame now d idx tot chunk :
  FRAG_HEADER <= zlen frame → read_fragment frame = Ok (d, idx, tot, chunk) →
  0 <= idx < tot → tot < 2 ^ 16 → reassembler_ok r →
  let s := make_room r d in
  let cap := reassembly_max_bytes (cfg r) in
  let entry := default (new_partial tot now) (s !! d) in
  partial_ok cap entry ∧
  if total entry =? tot then
    ∃ slot, chunks entry !! Z.to_nat idx = Some slot ∧
    ingest_fragment r frame now =
    match store_chunk cap entry (Z.to_nat idx) slot chunk with
    | None => (Err (TooLarge cap), set_slots r (delete d s))
    | Some entry' =>
        if received entry' =? total entry' then
          (let* out := join_chunks entry' in Ok (Some out), set_slots r (delete d s))
        else (Ok None, set_slots r (<[d := entry']> s))
    end
  else ingest_fragment r frame now = (Err (BadIndex idx tot), set_slots r (delete d s)).
Proof.
  intros Hl Hr Hi Ht Hok s cap entry.
  assert (partial_ok cap entry) as He.
  { unfold entry. destruct (s !! d) as [p|] eqn:E; cbn [default].
    - apply (ro_partials r Hok d). eapply lookup_weaken; [exact E|apply make_room_subseteq].
    - apply new_partial_ok; [unfold in_width|]; lia. }
  split; [done|].
  unfold ingest_fragment. rewrite (proj2 (Z.ltb_ge _ _)), Hr by lia.
  replace ((tot =? 0) || (tot <=? idx)) with false by lia.
  fold (make_room r d). fold s. fold cap. fold entry.
  destruct (total entry =? tot) eqn:Et; cbn [negb]; [|done].
  destruct (in_range_slot cap entry idx He) as (slot & -> & Hs); [lia|]. by exists slot.
Qed.

(** What comes out is part of the frame or was held under the byte cap. *)
Definition output_bounded (cap : Z) (frame : bytes) (o : outcome FragError (option bytes)) : Prop :=
  ∀ out, o = Ok (Some out) → zlen out <= Z.max (zlen frame) cap.

Lemma have_bytes_full (ds : list bytes) : have_bytes (Some <$> ds) = zlen (concat ds).
Proof.
  induction ds as [|d ds IH]; [done|].
  change (zlen d + have_bytes (Some <$> ds) = zlen (d ++ concat ds)). by rewrite IH, zlen_app.
Qed.

(** One frame, whatever it is: the reassembler does not panic and its bounds survive. *)
Lemma ingest_spec r frame now :
  reassembler_ok r →
  (ingest r frame now).1 ≠ Panic ∧ reassembler_ok (ingest r frame now).2
  ∧ cfg (ingest r frame now).2 = cfg r
  ∧ output_bounded (reassembly_max_bytes (cfg r)) frame (ingest r frame now).1.
Proof.
  intros Hok. unfold ingest. destruct frame as [|kind rest] eqn:Ef; [done|]. rewrite <- Ef.
  destruct (b2z kind =? KIND_COMPLETE).
  { split_and!; try done. intros out [= <-]. rewrite Ef, zlen_cons. lia. }
  destruct (b2z kind =? KIND_FRAGMENT); [|done]. clear Ef.
  destruct (zlen frame <? FRAG_HEADER) eqn:El.
  { unfold ingest_fragment. by rewrite El. }
  apply Z.ltb_ge in El.
  destruct (read_fragment_total frame El) as (d & i & t & c & Hr & Hd & Hi & Ht).
  destruct ((t =? 0) || (t <=? i)) eqn:Eb.
  { unfold ingest_fragment. rewrite (proj2 (Z.ltb_ge _ _) El), Hr, Eb. done. }
  assert (0 <= i < t ∧ t < 2 ^ 16) as [Hit Ht16] by (unfold in_width in *; lia).
  destruct (ingest_fragment_read r frame now d i t c El Hr Hit Ht16 Hok) as [He Hcase].
  set (s := make_room r d) in *. set (entry := default _ _) in *.
  pose proof (make_room_subseteq r d : s ⊆ slots r) as Hs.
  assert (reassembler_ok (set_slots r (delete d s))) as Hdel.
  { apply ok_subseteq; [done|]. etrans; [apply delete_subseteq|done]. }
  destruct (total entry =? t); [|by rewrite Hcase].
  destruct Hcase as (slot & Hslot & ->).
  destruct (store_chunk _ entry _ _ _) as [p|] eqn:Est; [|done].
  pose proof (store_chunk_full _ _ _ _ _ _ He Hslot Est) as Hfull.
  destruct (store_chunk_ok _ _ _ _ _ _ He Hslot Est) as (_ & _ & _ & Hb & Hc & _).
  destruct (received p =? total p).
  - destruct Hfull as [ds Hds]. rewrite (join_chunks_full _ _ Hds). split_and!; try done.
    intros out [= <-]. rewrite Hb, Hds, have_bytes_full in Hc. pose proof (zlen_nonneg frame). lia.
  - split; [done|]. split; [|done]. apply set_slots_ok; cbn [fst snd].
    + intros k q Hk. apply lookup_insert_Some in Hk as [[_ <-]|[_ Hk]]; [done|].
      apply (ro_partials r Hok k). by eapply lookup_weaken.
    + rewrite msize_insert. destruct (s !! d) eqn:Ed.
      * apply (ro_slots (set_slots r s)). by apply ok_subseteq.
      * by apply make_room_size.
Qed.

Lemma ingest_ok r frame now :
  reassembler_ok r →
  (ingest r frame now).1 ≠ Panic ∧ reassembler_ok (ingest r frame now).2
  ∧ cfg (ingest r frame now).2 = cfg r.
Proof. intros Hok. by destruct (ingest_spec r frame now Hok) as (? & ? & ? & _). Qed.

Lemma evict_expired_ok r now :
  reassembler_ok r → reassembler_ok (evict_expired r now).2 ∧ cfg (evict_expired r now).2 = cfg r.
Proof.
  intros Hok. split; [|done]. apply ok_subseteq; [done|]. apply map_retain_subseteq.
Qed.

Lemma Reassembler_new_ok c : reassembler_ok (Reassembler_new c).
Proof.
  split; [|by cbn; rewrite msize_empty; lia].
  intros k p Hk. cbn in Hk. by rewrite lookup_empty in Hk.
Qed.

(** The operations a node performs on its reassembler. *)
Inductive frag_op :=
  | FFrame (frame : bytes) (now : Millis)
  | FExpire (now : Millis).

Fixpoint run_frags (r : Reassembler) (ops : list frag_op)
    : list (outcome FragError (option bytes)) * Reassembler :=
  match ops with
  | [] => ([], r)
  | FFrame f t :: ops =>
      let '(o, r1) := ingest r f t in
      let '(os, r2) := run_frags r1 ops in (o :: os, r2)
  | FExpire t :: ops => run_frags (evict_expired r t).2 ops
  end.

Lemma run_frags_ok r ops :
  reassembler_ok r →
  Panic ∉ (run_frags r ops).1 ∧ reassembler_ok (run_frags r ops).2
  ∧ cfg (run_frags r ops).2 = cfg r.
Proof.
  revert r. induction ops as [|[f t|t] ops IH]; intros r Hok; cbn [run_frags].
  - split; [apply not_elem_of_nil|done].
  - pose proof (ingest_ok r f t Hok) as (Hp & Hok1 & Hc).
    destruct (ingest r f t) as [o r1]. cbn [fst snd] in *.
    specialize (IH r1 Hok1). destruct (run_frags r1 ops) as [os r2]. cbn [fst snd] in *.
    rewrite not_elem_of_cons. destruct IH as (?&?&?). split_and!; congruence || done.
  - destruct (evict_expired_ok r t Hok) as [Hok1 Hc]. specialize (IH _ Hok1).
    by rewrite Hc in IH.
Qed.

(** Whatever frames a peer sends and whenever buffers are expired, the reassembler never
    panics, holds at most [reassembly_slots] messages (one, when that is zero), and each of them
    is under the byte cap, counts exactly the chunks it holds and still lacks one. *)
Theorem reassembler_bounded c ops :
  let '(outs, r) := run_frags (Reassembler_new c) ops in
  Panic ∉ outs ∧ in_flight r <= Z.max 1 (reassembly_slots c)
  ∧ map_Forall (λ _ p, pbytes p <= Z.max 0 (reassembly_max_bytes c)
      ∧ pbytes p = have_bytes (chunks p) ∧ received p = have_count (chunks p)
      ∧ received p < zlen (chunks p)) (slots r).
Proof.
  destruct (run_frags_ok (Reassembler_new c) ops (Reassembler_new_ok c)) as (H1 & H2 & H3).
  destruct (run_frags _ ops) as [outs r]. cbn [fst snd] in *. destruct H2 as [Hp Hs].
  rewrite H3 in *. split; [done|]. split; [done|].
  intros k p Hk. destruct (Hp k p Hk). rewrite po_len0. done.
Qed.

(** ** Splitting *)

(** What a successful [split] produced. *)
Lemma split_Ok pkt d mtu frames :
  split pkt d mtu = Ok frames →
  FRAG_HEADER < mtu ∧
  ((zlen pkt < mtu ∧ frames = [z2b KIND_COMPLETE :: pkt])
   ∨ (∃ cs, concat cs = pkt ∧ 0 < zlen cs < 2 ^ 16
        ∧ Forall (λ c, zlen c <= mtu - FRAG_HEADER) cs
        ∧ frames = imap (λ i c, fragment_frame d (Z.of_nat i) (zlen cs) c) cs)).
Proof.
  unfold split. destruct (mtu <=? FRAG_HEADER) eqn:Em; [done|].
  destruct (zlen pkt <? mtu) eqn:El.
  { intros [= <-]. split; [lia|]. left. split; [lia|done]. }
  unfold FRAG_HEADER in *. set (n := Z.to_nat (mtu - (1 + 8 + 2 + 2))).
  assert (Hn : (0 < n)%nat) by lia.
  pose proof (chunks_of_count n Hn pkt) as Hcount.
  replace (Z.of_nat n) with (mtu - (1 + 8 + 2 + 2)) in Hcount by lia.
  unfold div_ceil. rewrite <- Hcount.
  destruct (zlen (chunks_of n pkt) >? 65535) eqn:Et; [done|].
  intros [= <-]. split; [lia|]. right. exists (chunks_of n pkt).
  pose proof (chunks_of_concat n Hn pkt) as Hconcat.
  split; [done|]. split; [|split; [|done]].
  - assert (zlen (chunks_of n pkt) ≠ 0); [|pose proof (zlen_nonneg (chunks_of n pkt)); lia].
    intros E0. destruct (chunks_of n pkt) as [|c cs];
      [|rewrite zlen_cons in E0; pose proof (zlen_nonneg cs); lia].
    cbn in Hconcat. subst pkt. change (zlen []) with 0 in El. lia.
  - eapply Forall_impl; [apply (chunks_of_sizes n Hn pkt)|]. cbn. intros c Hc. unfold zlen. lia.
Qed.

(** The message a frame is a fragment of. *)
Definition frame_digest (frame : bytes) : option bytes :=
  match frame with
  | kind :: _ =>
      if (b2z kind =? KIND_FRAGMENT) && (FRAG_HEADER <=? zlen frame) then slice 1 9 frame else None
  | [] => None
  end.

Lemma fragment_frame_digest d i t c :
  length d = 8%nat → frame_digest (fragment_frame d i t c) = Some d.
Proof.
  intros Hd. unfold frame_digest, fragment_frame.
  assert (FRAG_HEADER <=? zlen (z2b KIND_FRAGMENT :: d ++ be_bytes 2 (wrap 16 i) ++
    be_bytes 2 (wrap 16 t) ++ c) = true) as ->.
  { apply Z.leb_le. unfold FRAG_HEADER. zlen_lia. }
  change (b2z (z2b KIND_FRAGMENT) =? KIND_FRAGMENT) with true. cbn [andb].
  apply (slice_app 1 9 [z2b KIND_FRAGMENT] d); [done|]. unfold zlen. rewrite Hd. done.
Qed.

(** Every frame [split] produces fits the link's MTU, and the frames carry the packet and
    nothing else: either the packet alone behind a kind byte, or numbered chunks of it that
    concatenate to the packet, at most 65535 of them, all naming its digest. *)
Theorem split_frames pkt d mtu frames :
  length d = 8%nat → split pkt d mtu = Ok frames →
  Forall (λ f, zlen f <= mtu) frames
  ∧ (frames = [z2b KIND_COMPLETE :: pkt]
     ∨ ∃ cs, concat cs = pkt ∧ zlen cs < 2 ^ 16 ∧ length frames = length cs
         ∧ (∀ i c, cs !! i = Some c → ∃ f, frames !! i = Some f ∧ frame_digest f = Some d
              ∧ read_fragment f = Ok (d, Z.of_nat i, zlen cs, c))).
Proof.
  intros Hd (Hm & [[Hl ->]|(cs & Hcs & Hn & Hsz & ->)])%split_Ok.
  - split; [|by left]. constructor; [|done]. rewrite zlen_cons. lia.
  - split.
    + apply Forall_lookup. intros i f. rewrite list_lookup_imap.
      destruct (cs !! i) as [c|] eqn:Ei; [|done]. cbn. intros [= <-].
      rewrite Forall_lookup in Hsz. specialize (Hsz i c Ei). unfold fragment_frame, FRAG_HEADER in *.
      zlen_lia.
    + right. exists cs. split; [done|]. split; [lia|]. split; [by rewrite length_imap|].
      intros i c Hi. eexists. rewrite list_lookup_imap, Hi. split; [done|].
      split; [by apply fragment_frame_digest|]. apply lookup_lt_Some in Hi.
      apply read_fragment_frame; [done|unfold in_width, zlen in *; lia..].
Qed.

(** ** Reassembly in any order *)

(** A slot's chunks are chunks of the message [cs], each in its own place. *)
Definition consistent (ps : list (option bytes)) (cs : list bytes) : Prop :=
  Forall2 (λ o c, o = None ∨ o = Some c) ps cs.

Lemma consistent_new (n : nat) cs : length cs = n → consistent (replicate n None) cs.
Proof. intros <-. induction cs; cbn; constructor; [by left|done]. Qed.

Lemma consistent_bytes ps cs : consistent ps cs → have_bytes ps <= zlen (concat cs).
Proof.
  induction 1 as [|o c ps cs Ho H IH]; [done|]. unfold have_bytes in *. cbn [foldr concat].
  rewrite zlen_app. pose proof (zlen_nonneg c). destruct Ho as [->| ->].
  - change (zlen (default [] (@None bytes))) with 0. lia.
  - change (default [] (Some c)) with c. lia.
Qed.

Lemma consistent_insert ps cs i c :
  consistent ps cs → cs !! i = Some c → consistent (<[i := Some c]> ps) cs.
Proof.
  intros H Hi. rewrite <- (list_insert_id cs i c) by done.
  apply Forall2_insert; [done|by right].
Qed.

Lemma consistent_slot ps cs i c o :
  consistent ps cs → cs !! i = Some c → ps !! i = Some o → o = None ∨ o = Some c.
Proof. intros H Hc Ho. exact (Forall2_lookup_lr _ _ _ _ _ _ H Ho Hc). Qed.

Lemma consistent_full ps cs ds : consistent ps cs → ps = Some <$> ds → ds = cs.
Proof.
  intros H ->. revert ds H.
  induction cs as [|c cs IH]; intros [|d ds] H; try by inversion H.
  apply Forall2_cons in H as [[?|E] Hr]; [done|]. simplify_eq. f_equal. by apply IH.
Qed.

(** A place holds its chunk once it has arrived. *)
Definition arrived (o : option Partial) (i : nat) : Prop :=
  ∃ p c, o = Some p ∧ chunks p !! i = Some (Some c).

Lemma arrived_Some p i : arrived (Some p) i ↔ ∃ c, chunks p !! i = Some (Some c).
Proof.
  split; [intros (q & c & E & Hc)|intros [c Hc]]; [simplify_eq; by exists c|by exists p, c].
Qed.

Definition slot_for (cs : list bytes) (o : option Partial) : Prop :=
  match o with
  | Some p => total p = zlen cs ∧ consistent (chunks p) cs
  | None => True
  end.

Lemma make_room_id r d :
  is_Some (slots r !! d) ∨ msize (slots r) < reassembly_slots (cfg r) → make_room r d = slots r.
Proof.
  unfold make_room. intros [[p Hp]|Hs].
  - rewrite Hp. done.
  - rewrite (proj2 (Z.leb_gt _ _)) by lia. by rewrite andb_false_r.
Qed.

Lemma ingest_fragment_frame r d i t c now :
  ingest r (fragment_frame d i t c) now = ingest_fragment r (fragment_frame d i t c) now.
Proof. done. Qed.

(** Storing a chunk of the message in its place: under a cap the message fits, it is there
    afterwards and nothing else has changed. *)
Lemma store_own cap entry cs i c slot :
  partial_ok cap entry → total entry = zlen cs → consistent (chunks entry) cs →
  cs !! i = Some c → chunks entry !! i = Some slot → zlen (concat cs) <= cap →
  ∃ p, store_chunk cap entry i slot c = Some p ∧ slot_for cs (Some p)
  ∧ received p = have_count (chunks p) ∧ zlen (chunks p) = total p
  ∧ ∀ j, arrived (Some p) j ↔ j = i ∨ arrived (Some entry) j.
Proof.
  intros He Et Hcon Hi Hs Hcap. pose proof (consistent_insert _ _ _ _ Hcon Hi) as Hcon'.
  destruct (store_chunk cap entry i slot c) as [p|] eqn:Est.
  2: { exfalso. unfold store_chunk in Est. destruct slot; [done|].
       pose proof (consistent_bytes _ _ Hcon') as Hb. rewrite (proj2 (have_insert _ _ c Hs)) in Hb.
       pose proof (po_bytes _ _ He). destruct (_ >? _) eqn:E; [lia|done]. }
  destruct (store_chunk_ok _ _ _ _ _ _ He Hs Est) as (Et' & Hl' & Hc' & _ & _ & Hch).
  assert (chunks p = <[i := Some c]> (chunks entry)) as Hch'.
  { rewrite Hch. destruct slot as [c'|]; [|done].
    destruct (consistent_slot _ _ _ _ _ Hcon Hi Hs); [done|]. simplify_eq. by rewrite list_insert_id. }
  exists p. split; [done|]. split; [split; [congruence|by rewrite Hch']|]. split; [done|]. split; [done|].
  intros j. rewrite !arrived_Some, Hch'. pose proof (lookup_lt_Some _ _ _ Hs).
  destruct (decide (j = i)) as [->|Hj].
  - rewrite list_lookup_insert_eq by done. split; [by left|]. intros _. by exists c.
  - rewrite list_lookup_insert_ne by done. tauto.
Qed.

(** A slot that is opened for the message holds what the absent one did. *)
Lemma slot_opened cs o now :
  slot_for cs o →
  let entry := default (new_partial (zlen cs) now) o in
  total entry = zlen cs ∧ consistent (chunks entry) cs ∧ ∀ j, arrived (Some entry) j ↔ arrived o j.
Proof.
  intros Hslot. destruct o as [p|]; cbn; [by destruct Hslot|]. split; [done|]. split.
  - apply consistent_new. unfold zlen. lia.
  - intros j. split; [|by intros (p & x & ? & _)].
    by intros (p & x & [= <-] & [E _]%lookup_replicate).
Qed.

(** A fragment of the message arrives: it completes the message when it was the last one
    missing, and is recorded otherwise. A duplicate changes nothing. *)
Lemma ingest_own r d cs i c now :
  reassembler_ok r → length d = 8%nat → 0 < zlen cs < 2 ^ 16 → cs !! i = Some c →
  zlen (concat cs) <= reassembly_max_bytes (cfg r) → slot_for cs (slots r !! d) →
  is_Some (slots r !! d) ∨ msize (slots r) < reassembly_slots (cfg r) →
  let res := ingest r (fragment_frame d (Z.of_nat i) (zlen cs) c) now in
  (res.1 = Ok (Some (concat cs)) ∧ slots res.2 = delete d (slots r)
   ∧ (∀ j, (j < length cs)%nat → j = i ∨ arrived (slots r !! d) j))
  ∨ (res.1 = Ok None ∧ (∃ p, slots res.2 = <[d := p]> (slots r) ∧ slot_for cs (Some p)
      ∧ (∀ j, arrived (Some p) j → j = i ∨ arrived (slots r !! d) j)
      ∧ (∀ j, j = i ∨ arrived (slots r !! d) j → arrived (Some p) j)
      ∧ ∃ j, (j < length cs)%nat ∧ ¬ arrived (Some p) j)).
Proof.
  intros Hok Hd Hn Hi Hcap Hslot Hroom res. unfold res. rewrite ingest_fragment_frame.
  pose proof (lookup_lt_Some _ _ _ Hi) as Hil.
  destruct (read_fragment_frame d (Z.of_nat i) (zlen cs) c) as [Hr Hl];
    [done|unfold in_width, zlen in *; lia..|].
  destruct (ingest_fragment_read r _ now d (Z.of_nat i) (zlen cs) c Hl Hr) as [He Hcase];
    [unfold zlen; lia|lia|done|].
  rewrite make_room_id in He, Hcase by done.
  destruct (slot_opened cs (slots r !! d) now Hslot) as (Et & Hcon & Harr).
  set (entry := default _ _) in *. rewrite Et, Z.eqb_refl in Hcase.
  destruct Hcase as (slot & Hs & ->). rewrite Nat2Z.id in *.
  destruct (store_own _ entry cs i c slot He Et Hcon Hi Hs Hcap) as (p & -> & Hp & Hc' & Hl' & Harr').
  setoid_rewrite Harr in Harr'. destruct Hp as [Et' Hcon'].
  destruct (received p =? total p) eqn:E.
  - left. destruct (have_all_mapM (chunks p)) as [ds Hds]; [lia|].
    rewrite (join_chunks_full _ _ Hds). cbn [obind fst snd].
    pose proof (consistent_full _ _ _ Hcon' Hds) as ->. split; [done|]. split; [done|].
    intros j Hj. apply Harr'. destruct (lookup_lt_is_Some_2 _ _ Hj) as [x Hx].
    exists p, x. split; [done|]. by rewrite Hds, list_lookup_fmap, Hx.
  - right. cbn [fst snd]. split; [done|]. exists p. split; [done|]. split; [done|].
    split; [intros; by apply Harr'|]. split; [intros; by apply Harr'|].
    pose proof (have_count_le (chunks p)).
    destruct (have_missing (chunks p)) as [j Hj]; [lia|]. exists j.
    split; [apply lookup_lt_Some in Hj; unfold zlen in *; lia|].
    rewrite arrived_Some. intros [x Hx]. by simplify_eq.
Qed.

(** A frame of other traffic leaves the message's slot alone, as long as it evicts nothing. *)
Lemma ingest_foreign r d frame now :
  reassembler_ok r → frame_digest frame ≠ Some d →
  msize (slots r) < reassembly_slots (cfg r) →
  let r' := (ingest r frame now).2 in
  slots r' !! d = slots r !! d ∧ msize (slots r') <= msize (slots r) + 1.
Proof.
  intros Hok Hd Hroom. unfold ingest. destruct frame as [|kind rest] eqn:Ef; [split; [done|cbn [snd]; lia]|].
  rewrite <- Ef in *. destruct (b2z kind =? KIND_COMPLETE); [split; [done|cbn [snd]; lia]|].
  destruct (b2z kind =? KIND_FRAGMENT) eqn:Ek; [|split; [done|cbn [snd]; lia]].
  destruct (zlen frame <? FRAG_HEADER) eqn:El.
  { unfold ingest_fragment. rewrite El. split; [done|cbn [snd]; lia]. }
  apply Z.ltb_ge in El.
  destruct (read_fragment_total frame El) as (e & i & t & c & Hr & He & Hi & Ht).
  assert (e ≠ d) as Hed.
  { intros ->. apply Hd. unfold frame_digest. rewrite Ef, Ek, <- Ef, (proj2 (Z.leb_le _ _) El).
    cbn [andb]. unfold read_fragment in Hr. destruct (slice 1 9 frame); [|done].
    cbn [expect obind] in Hr. inv_outcome Hr. by simplify_eq. }
  destruct ((t =? 0) || (t <=? i)) eqn:Eb.
  { unfold ingest_fragment. rewrite (proj2 (Z.ltb_ge _ _) El), Hr, Eb. split; [done|cbn [snd]; lia]. }
  destruct (ingest_fragment_read r frame now e i t c El Hr) as [_ Hcase];
    [unfold in_width in *; lia..|done|].
  rewrite make_room_id in Hcase by (by right).
  assert (∀ o, slots (o, set_slots r (delete e (slots r))).2 !! d = slots r !! d
    ∧ msize (slots (o : outcome FragError (option bytes), set_slots r (delete e (slots r))).2)
      <= msize (slots r) + 1) as Hdel.
  { intros o. cbn. rewrite lookup_delete_ne by done. pose proof (msize_delete_le (slots r) e).
    split; [done|lia]. }
  destruct (total _ =? t); [|rewrite Hcase; apply Hdel].
  destruct Hcase as (slot & _ & ->). destruct (store_chunk _ _ _ _ _) as [p|]; [|apply Hdel].
  destruct (received p =? total p); [apply Hdel|].
  cbn [snd slots set_slots]. rewrite lookup_insert_ne, msize_insert by done.
  split; [done|]. case_match; lia.
Qed.

Lemma ingest_all_app r fs gs :
  ingest_all r (fs ++ gs) =
  let '(os, r1) := ingest_all r fs in
  let '(os', r2) := ingest_all r1 gs in (os ++ os', r2).
Proof.
  revert r. induction fs as [|[f t] fs IH]; intros r; cbn [app ingest_all].
  - by destruct (ingest_all r gs).
  - destruct (ingest r f t) as [o r1]. rewrite IH. destruct (ingest_all r1 fs) as [os r2].
    by destruct (ingest_all r2 gs).
Qed.

Definition foreign (d : bytes) (ft : bytes * Millis) : bool :=
  negb (bool_decide (frame_digest ft.1 = Some d)).

Lemma fragment_frame_inj d cs j i c' c :
  length d = 8%nat → zlen cs < 2 ^ 16 → cs !! j = Some c' → cs !! i = Some c →
  fragment_frame d (Z.of_nat j) (zlen cs) c' = fragment_frame d (Z.of_nat i) (zlen cs) c → j = i.
Proof.
  intros Hd Hn Hj%lookup_lt_Some Hi%lookup_lt_Some E. unfold zlen in *.
  destruct (read_fragment_frame d (Z.of_nat j) (Z.of_nat (length cs)) c') as [Rj _];
    [done|unfold in_width; lia..|].
  destruct (read_fragment_frame d (Z.of_nat i) (Z.of_nat (length cs)) c) as [Ri _];
    [done|unfold in_width; lia..|].
  rewrite E, Ri in Rj. simplify_eq. lia.
Qed.

(** One frame, of the message but not its place [n], or of other traffic with room for it. *)
Lemma ingest_step r d cs g t n :
  length d = 8%nat → 0 < zlen cs < 2 ^ 16 → zlen (concat cs) <= reassembly_max_bytes (cfg r) →
  reassembler_ok r → slot_for cs (slots r !! d) →
  (frame_digest g = Some d →
     ∃ i c, cs !! i = Some c ∧ i ≠ n ∧ g = fragment_frame d (Z.of_nat i) (zlen cs) c) →
  (n < length cs)%nat → ¬ arrived (slots r !! d) n →
  let cost := if foreign d (g, t) then 1 else 0 in
  let count r := msize (slots r) - (if slots r !! d then 1 else 0) in
  count r + cost < reassembly_slots (cfg r) →
  let res := ingest r g t in
  (frame_digest g = Some d → res.1 = Ok None) ∧ slot_for cs (slots res.2 !! d)
  ∧ count res.2 <= count r + cost
  ∧ ∀ j, arrived (slots res.2 !! d) j ↔ arrived (slots r !! d) j
         ∨ ∃ c, cs !! j = Some c ∧ fragment_frame d (Z.of_nat j) (zlen cs) c = g.
Proof.
  intros Hd Hn Hcap Hok Hslot Hown Hnl Hna cost count Hroom res. subst cost count. cbv beta in *.
  unfold foreign in *. cbn [fst] in *.
  destruct (decide (frame_digest g = Some d)) as [Hg|Hg].
  - rewrite bool_decide_eq_true_2 in * by done. cbn [negb] in *.
    destruct (Hown Hg) as (i & c & Hi & Hin & Eg).
    destruct (ingest_own r d cs i c t Hok Hd Hn Hi Hcap Hslot) as [(_ & _ & Hall)|Hstep].
    { destruct (slots r !! d) eqn:E; [left; by eexists|right; lia]. }
    { exfalso. destruct (Hall n Hnl); congruence. }
    rewrite <- Eg in Hstep. destruct Hstep as (Ho & p & Hs1 & Hp & Harr1 & Harr2 & _).
    unfold res. rewrite Hs1, lookup_insert_eq, msize_insert. split_and!; [done|done|case_match; lia|].
    intros j. split.
    + intros [->|?]%Harr1; [right; exists c; auto|by left].
    + intros [?|(c' & Hc' & E)]; apply Harr2; [auto|left].
      rewrite Eg in E. by apply (fragment_frame_inj d cs j i c' c Hd (proj2 Hn) Hc' Hi).
  - rewrite bool_decide_eq_false_2 in * by done. cbn [negb] in *.
    destruct (ingest_foreign r d g t Hok Hg) as [Hs1 Hm]; [case_match; lia|].
    unfold res. rewrite Hs1. split_and!; [done|done|lia|].
    intros j. split; [by left|]. intros [?|(c' & Hc' & E)]; [done|].
    destruct Hg. rewrite <- E. by apply fragment_frame_digest.
Qed.

(** The frames before the last missing one: none of them completes the message. *)
Lemma ingest_prefix r d cs pre n :
  length d = 8%nat → 0 < zlen cs < 2 ^ 16 → zlen (concat cs) <= reassembly_max_bytes (cfg r) →
  reassembler_ok r → slot_for cs (slots r !! d) →
  (∀ g, g ∈ pre.*1 → frame_digest g = Some d →
     ∃ i c, cs !! i = Some c ∧ i ≠ n ∧ g = fragment_frame d (Z.of_nat i) (zlen cs) c) →
  (n < length cs)%nat → ¬ arrived (slots r !! d) n →
  msize (slots r) + zlen (List.filter (foreign d) pre) <
    reassembly_slots (cfg r) + (if slots r !! d then 1 else 0) →
  let '(os, r') := ingest_all r pre in
  (∀ k g o, pre !! k = Some g → os !! k = Some o → frame_digest g.1 = Some d → o = Ok None)
  ∧ length os = length pre ∧ reassembler_ok r' ∧ cfg r' = cfg r ∧ slot_for cs (slots r' !! d)
  ∧ (∀ j, arrived (slots r' !! d) j ↔ arrived (slots r !! d) j
       ∨ ∃ c, cs !! j = Some c ∧ fragment_frame d (Z.of_nat j) (zlen cs) c ∈ pre.*1)
  ∧ (is_Some (slots r' !! d) ∨ msize (slots r') < reassembly_slots (cfg r')).
Proof.
  intros Hd Hn. revert r. induction pre as [|[g t] pre IH];
    intros r Hcap Hok Hslot Hown Hnl Hna Hroom; cbn [ingest_all].
  { split_and!; try done.
    - intros j. split; [by left|]. intros [?|(c & _ & Hin)]; [done|]. by apply not_elem_of_nil in Hin.
    - cbn in Hroom. destruct (slots r !! d) eqn:E; [left; by eexists|right].
      change (zlen []) with 0 in Hroom. lia. }
  destruct (ingest_ok r g t Hok) as (_ & Hok1 & Hcfg1).
  assert (zlen (List.filter (foreign d) ((g, t) :: pre))
    = (if foreign d (g, t) then 1 else 0) + zlen (List.filter (foreign d) pre)) as Ef.
  { cbn [List.filter]. destruct (foreign d (g, t)); [apply zlen_cons|done]. }
  rewrite Ef in Hroom. pose proof (zlen_nonneg (List.filter (foreign d) pre)).
  destruct (ingest_step r d cs g t n Hd Hn Hcap Hok Hslot) as (Ho & Hslot1 & Hcount & Harr);
    [intros Hg; exact (Hown g (list_elem_of_here _ _) Hg)|done|done|lia|].
  destruct (ingest r g t) as [o r1]. cbn [fst snd] in *. specialize (IH r1). rewrite Hcfg1 in IH.
  destruct (ingest_all r1 pre) as [os r2].
  destruct IH as (H1 & H2 & H3 & H4 & H5 & H6 & H7); try done.
  - intros g' Hg'. apply Hown. by right.
  - rewrite Harr. intros [?|(c & Hc & E)]; [done|].
    destruct (Hown g (list_elem_of_here _ _)) as (i & c' & Hi & Hin & Eg).
    { rewrite <- E. by apply fragment_frame_digest. }
    rewrite Eg in E. apply Hin. symmetry. by apply (fragment_frame_inj d cs n i c c' Hd (proj2 Hn) Hc Hi).
  - lia.
  - split_and!; try done; try congruence; [|cbn; congruence|].
    + intros [|k] g' o' Hk; cbn; [cbn in Hk; simplify_eq; intros [= <-]; apply Ho|]. by apply H1.
    + intros j. rewrite H6, Harr. cbn [fmap list_fmap fst]. setoid_rewrite elem_of_cons. naive_solver.
Qed.

Lemma complete_frame_digest pkt : frame_digest (z2b KIND_COMPLETE :: pkt) = None.
Proof. done. Qed.

(** Runs [pre] and then the last frame, from what is known of the state in between. *)
Lemma ingest_all_snoc r pre f t os r1 o r2 :
  ingest_all r pre = (os, r1) → ingest r1 f t = (o, r2) →
  ingest_all r (pre ++ [(f, t)]) = (os ++ [o], r2).
Proof. intros E1 E2. rewrite ingest_all_app, E1. cbn. by rewrite E2. Qed.

(** Other traffic, as long as it fits beside it, leaves the message's slot alone. *)
Lemma ingest_foreigns r d pre :
  reassembler_ok r → (∀ g, g ∈ pre.*1 → frame_digest g ≠ Some d) →
  msize (slots r) + zlen (List.filter (foreign d) pre) < reassembly_slots (cfg r) →
  slots (ingest_all r pre).2 !! d = slots r !! d.
Proof.
  revert r. induction pre as [|[g t] pre IH]; intros r Hok Hno Hroom; [done|].
  assert (frame_digest g ≠ Some d) as Hg by (apply Hno, list_elem_of_here).
  cbn [List.filter] in Hroom. unfold foreign at 1 in Hroom. cbn [fst] in Hroom.
  rewrite bool_decide_eq_false_2 in Hroom by done. cbn [negb] in Hroom. rewrite zlen_cons in Hroom.
  pose proof (zlen_nonneg (List.filter (foreign d) pre)).
  destruct (ingest_foreign r d g t Hok Hg) as [Hs Hm]; [lia|].
  destruct (ingest_ok r g t Hok) as (_ & Hok1 & Hcfg1). cbn [ingest_all].
  destruct (ingest r g t) as [o r1]. cbn [fst snd] in *. rewrite <- Hcfg1 in Hroom.
  specialize (IH r1 Hok1). destruct (ingest_all r1 pre) as [os r2]. cbn [snd] in *.
  rewrite IH; [done| |lia]. intros g' Hg'. apply Hno. by right.
Qed.

(** C18: a packet split for a link is put back together whatever order its frames arrive in,
    however often each is repeated before the last missing one, and whatever other traffic is
    interleaved, as long as the other messages leave it a slot and nobody forges fragments under
    its digest: nothing is delivered early, the last missing frame delivers exactly the original
    bytes, and the slot is free again. *)
Theorem reassembly_any_order r pkt d mtu frames pre f t :
  reassembler_ok r → length d = 8%nat → split pkt d mtu = Ok frames →
  zlen pkt <= reassembly_max_bytes (cfg r) → slots r !! d = None →
  (∀ g, g ∈ pre.*1 → frame_digest g = Some d → g ∈ frames) →
  f ∈ frames → (∀ g, g ∈ frames → (g ∈ pre.*1 ↔ g ≠ f)) →
  msize (slots r) + zlen (List.filter (foreign d) pre) < reassembly_slots (cfg r) →
  let '(outs, r') := ingest_all r (pre ++ [(f, t)]) in
  ∃ outs0, outs = outs0 ++ [Ok (Some pkt)] ∧ slots r' !! d = None
    ∧ ∀ k g o, pre !! k = Some g → outs0 !! k = Some o → frame_digest g.1 = Some d → o = Ok None.
Proof.
  intros Hok Hd Hsplit Hcap Hnone Hown Hf Hpre Hroom.
  destruct (split_Ok _ _ _ _ Hsplit) as (Hm & [[Hl ->]|(cs & Hcs & Hn & _ & ->)]).
  - apply list_elem_of_singleton in Hf. subst f.
    assert (∀ g, g ∈ pre.*1 → frame_digest g ≠ Some d) as Hno.
    { intros g Hg Hgd. specialize (Hown g Hg Hgd). apply list_elem_of_singleton in Hown. by subst. }
    pose proof (ingest_foreigns r d pre Hok Hno Hroom) as Hs.
    destruct (ingest_all r pre) as [os r1] eqn:E1. cbn [snd] in Hs.
    rewrite (ingest_all_snoc r pre (z2b KIND_COMPLETE :: pkt) t os r1 (Ok (Some pkt)) r1 E1 eq_refl).
    exists os. split; [done|].
    split; [by rewrite Hs|]. intros k g o Hk _ Hg. exfalso. apply (Hno g.1); [|done].
    apply list_elem_of_fmap_2. by eapply list_elem_of_lookup_2.
  - apply list_elem_of_lookup in Hf as [n Hf]. rewrite list_lookup_imap in Hf.
    destruct (cs !! n) as [c|] eqn:Hc; [|done]. cbn in Hf. simplify_eq.
    pose proof (lookup_lt_Some _ _ _ Hc) as Hnl.
    assert (∀ i c', cs !! i = Some c' →
      fragment_frame d (Z.of_nat i) (zlen cs) c'
        ∈ imap (λ i c, fragment_frame d (Z.of_nat i) (zlen cs) c) cs) as Hin.
    { intros i c' Hi. apply list_elem_of_lookup. exists i. by rewrite list_lookup_imap, Hi. }
    pose proof (ingest_prefix r d cs pre n Hd Hn) as H.
    destruct (ingest_all r pre) as [os r1] eqn:E1. rewrite Hnone in H.
    destruct H as (H1 & H2 & H3 & H4 & H5 & H6 & H7); try done; try lia.
    { intros g Hg Hgd. specialize (Hown g Hg Hgd) as Hgf.
      apply list_elem_of_lookup in Hgf as [i Hi]. rewrite list_lookup_imap in Hi.
      destruct (cs !! i) as [c'|] eqn:Hi'; [|done]. cbn in Hi. simplify_eq.
      exists i, c'. split; [done|]. split; [|done]. intros ->. simplify_eq.
      by apply (Hpre _ (Hin _ _ Hc)). }
    { by intros (p & ? & ? & _). }
    rewrite <- H4 in Hcap.
    destruct (ingest_own r1 d cs n c t H3 Hd Hn Hc Hcap H5 H7)
      as [(Ho & Hs & _)|(_ & p & _ & _ & _ & Hall & j & Hj & Hnj)].
    + destruct (ingest r1 _ t) as [o r2] eqn:E2. cbn [fst snd] in *. subst o.
      rewrite (ingest_all_snoc _ _ _ _ _ _ _ _ E1 E2). exists os. split; [done|].
      split; [by rewrite Hs, lookup_delete_eq|done].
    + exfalso. apply Hnj, Hall. destruct (decide (j = n)) as [|Hne]; [by left|right].
      apply H6. right. destruct (lookup_lt_is_Some_2 _ _ Hj) as [c' Hc']. exists c'.
      split; [done|]. apply Hpre; [by apply Hin|]. intros E.
      by apply Hne, (fragment_frame_inj d cs j n c' c Hd (proj2 Hn) Hc' Hc).
Qed.

(** ** Witnesses *)

Lemma split_frames_witness :
  let pkt := replicate 40 Byte.x41 in
  ∃ frames, split pkt (zeroes 8) 30 = Ok frames ∧ Forall (λ f, zlen f <= 30) frames.
Proof.
  cbv zeta. eexists. split; [reflexivity|]. apply (split_frames (replicate 40 Byte.x41) (zeroes 8)); [done|reflexivity].
Defined.

(** Three fragments, arriving last first, with a duplicate and a stray frame in between. *)
Lemma reassembly_any_order_witness :
  let r := Reassembler_new Tunables_default in
  let pkt := replicate 40 Byte.x41 in
  ∃ f0 f1 f2, split pkt (zeroes 8) 30 = Ok [f0; f1; f2] ∧
  let pre := [(f2, 5); (f2, 6); ([Byte.x07], 7); (f0, 8)] in
  let '(outs, r') := ingest_all r (pre ++ [(f1, 9)]) in
  ∃ outs0, outs = outs0 ++ [Ok (Some pkt)] ∧ slots r' !! zeroes 8 = None
    ∧ ∀ k g o, pre !! k = Some g → outs0 !! k = Some o → frame_digest g.1 = Some (zeroes 8) →
      o = Ok None.
Proof.
  cbv zeta. eexists _, _, _. split; [reflexivity|].
  eapply (reassembly_any_order _ _ _ 30); [apply Reassembler_new_ok|done|reflexivity|..].
  - done.
  - done.
  - refine (proj1 (Forall_forall (λ g, _) _) _). apply (bool_decide_eq_true_1 _). by vm_compute.
  - apply (bool_decide_eq_true_1 _). by vm_compute.
  - refine (proj1 (Forall_forall (λ g, _) _) _). apply (bool_decide_eq_true_1 _). by vm_compute.
  - by vm_compute.
Defined.
