(* ===== verification/Compress.v ===== *)
(** * Compress: LZ4 payloads with a hard output cap ([compress.rs])

    [maybe_compress] frames an LZ4 block behind its 32-bit uncompressed length; [decompress]
    refuses to produce more than [decompress_max_bytes], whatever the block does. *)
From stdpp Require Import strings pretty.
From S2P Require Import Prelude Errors External Toy Config.

Section compress.
Context `{Lz4}.

Definition maybe_compress (input : bytes) (cfg : Tunables) : option bytes :=
  if zlen input <? compress_min_bytes cfg then None else
  let body := lz4_compress input in
  let out := be_bytes 4 (wrap 32 (zlen input)) ++ body in
  if zlen out <? zlen input then Some out else None.

Definition cap_message (declared cap : Z) : string :=
  "declared size " +:+ pretty declared +:+ " exceeds cap " +:+ pretty cap.

Definition decompress (input : bytes) (cfg : Tunables) : outcome Error bytes :=
  if zlen input <? 4 then Err (ECompress "truncated length prefix") else
  let* b0 := expect (index 0 input) in
  let* b1 := expect (index 1 input) in
  let* b2 := expect (index 2 input) in
  let* b3 := expect (index 3 input) in
  let declared := be_int [b0; b1; b2; b3] in
  if declared >? decompress_max_bytes cfg then
    Err (ECompress (cap_message declared (decompress_max_bytes cfg)))
  else
  let* body := expect (slice 4 (zlen input) input) in
  match lz4_decompress body declared with
  | inr e => Err (ECompress ("lz4: " +:+ e))
  | inl out =>
      if negb (zlen out =? declared) then Err (ECompress "length mismatch after decompress")
      else Ok out
  end.

Lemma decompress_safe input cfg :
  match decompress input cfg with
  | Ok out => zlen out <= decompress_max_bytes cfg
  | Err _ => True
  | Panic => False
  end.
Proof.
  unfold decompress. destruct (zlen input <? 4) eqn:El; [done|].
  do 4 (match goal with |- context [index ?i input] =>
    let x := fresh "b" in destruct (expect_index (E:=Error) i input) as (x & ->); [lia|] end;
    cbn [obind]).
  destruct (_ >? _) eqn:Ec; [done|].
  destruct (expect_slice (E:=Error) 4 (zlen input) input) as (body & -> & _); [lia..|].
  cbn [obind]. destruct (lz4_decompress _ _) as [out|]; [|done].
  destruct (negb (zlen out =? _)) eqn:En; [done|]. lia.
Qed.

(** Whatever bytes arrive and whatever the LZ4 decoder does with them, decompression does not
    panic and never yields more than the configured cap. *)
Theorem decompress_bounded input cfg :
  match decompress input cfg with
  | Ok out => zlen out <= decompress_max_bytes cfg
  | Err _ => True
  | Panic => False
  end.
Proof. apply decompress_safe. Qed.

Lemma decompress_no_panic input cfg : decompress input cfg ≠ Panic.
Proof. pose proof (decompress_safe input cfg). by destruct (decompress input cfg). Qed.

(** Reading a framed block back: its header says the length modulo 2^32. *)
Lemma decompress_framed n body cfg :
  in_width 32 n →
  decompress (be_bytes 4 n ++ body) cfg =
  if n >? decompress_max_bytes cfg then Err (ECompress (cap_message n (decompress_max_bytes cfg)))
  else match lz4_decompress body n with
       | inr e => Err (ECompress ("lz4: " +:+ e))
       | inl out => if negb (zlen out =? n)
                    then Err (ECompress "length mismatch after decompress") else Ok out
       end.
Proof.
  intros Hn. unfold decompress. rewrite (proj2 (Z.ltb_ge _ _)) by zlen_lia.
  assert (∃ b0 b1 b2 b3, be_bytes 4 n = [b0; b1; b2; b3]) as (b0 & b1 & b2 & b3 & E)
    by (do 4 eexists; reflexivity).
  assert (be_int [b0; b1; b2; b3] = n) as Ed by (rewrite <- E; by apply be_int_be_bytes_small).
  rewrite E. cbn [app]. set (input := b0 :: _).
  change (index 0 input) with (Some b0). change (index 1 input) with (Some b1).
  change (index 2 input) with (Some b2). change (index 3 input) with (Some b3).
  cbn [expect obind]. rewrite Ed. destruct (n >? _); [done|].
  assert (slice 4 (zlen input) input = Some body) as ->; [|done].
  unfold input. replace (b0 :: b1 :: b2 :: b3 :: body) with ([b0; b1; b2; b3] ++ body ++ [])
    by (by rewrite app_nil_r).
  apply slice_app; [done|]. rewrite app_nil_r, zlen_app. done.
Qed.

Lemma maybe_compress_Some input cfg out :
  maybe_compress input cfg = Some out →
  out = be_bytes 4 (wrap 32 (zlen input)) ++ lz4_compress input
  ∧ compress_min_bytes cfg <= zlen input ∧ zlen out < zlen input.
Proof.
  unfold maybe_compress. intros E. repeat case_match; try done. simplify_eq. split_and!; lia || done.
Qed.

Context `{!Lz4Laws}.

Lemma decompress_maybe_compress input cfg out :
  zlen input < 2 ^ 32 → maybe_compress input cfg = Some out →
  decompress out cfg =
  if zlen input >? decompress_max_bytes cfg
  then Err (ECompress (cap_message (zlen input) (decompress_max_bytes cfg))) else Ok input.
Proof.
  intros Hl (-> & _ & _)%maybe_compress_Some. pose proof (zlen_nonneg input).
  unfold wrap. rewrite Z.mod_small by lia. rewrite decompress_framed by (unfold in_width; lia).
  destruct (_ >? _); [done|]. rewrite lz4_roundtrip. by rewrite Z.eqb_refl.
Qed.

(** What the compressor accepts round-trips exactly when it fits the receiver's output cap;
    above the cap the same compressor still compresses, and every receiver refuses the result. *)
Theorem compress_roundtrip_iff_capped input cfg out :
  zlen input < 2 ^ 32 → maybe_compress input cfg = Some out →
  zlen out < zlen input
  ∧ (decompress out cfg = Ok input ↔ zlen input <= decompress_max_bytes cfg)
  ∧ (decompress_max_bytes cfg < zlen input → ∃ m, decompress out cfg = Err (ECompress m)).
Proof.
  intros Hl Hc. rewrite (decompress_maybe_compress _ _ _ Hl Hc).
  split; [by apply maybe_compress_Some in Hc as (_ & _ & ?)|].
  destruct (zlen input >? _) eqn:E.
  - split; [split; [done|lia]|]. intros _. by eexists.
  - split; [split; [lia|done]|lia].
Qed.
End compress.

(** ** Witnesses *)

Lemma compress_roundtrip_iff_capped_witness :
  let input := replicate (Z.to_nat 4097) Byte.x41 in
  ∃ out, maybe_compress input Tunables_default = Some out
    ∧ zlen out < zlen input
    ∧ (decompress out Tunables_default = Ok input ↔ zlen input <= 4096)
    ∧ (4096 < zlen input → ∃ m, decompress out Tunables_default = Err (ECompress m)).
Proof.
  cbv zeta. eexists. split; [by vm_compute|].
  apply (compress_roundtrip_iff_capped _ Tunables_default); by vm_compute.
Defined.
