(* ===== verification/Fuzz.v ===== *)
(** * Fuzz: the fuzz targets ([meshcore/fuzz/fuzz_targets])

    The three targets as functions from the fuzzer's input to whether every assertion holds and
    nothing panics. The theorem is what the fuzzer samples: they hold of every input. *)
From S2P Require Import Prelude Errors External Toy Clock Wire Config Frag Compress.

(** [wire_decode.rs]: what decodes re-encodes to something that decodes to the same packet. *)
Definition wire_decode (data : bytes) : bool :=
  match decode data with
  | Ok packet =>
      match decode (encode packet) with
      | Ok again => bool_decide (packet = again)
      | _ => false
      end
  | Err _ => true
  | Panic => false
  end.

(** [decompress.rs]: the output is never above the cap. *)
Definition fuzz_decompress `{Lz4} (data : bytes) : bool :=
  let cfg := Tunables_default in
  match decompress data cfg with
  | Ok out => zlen out <=? decompress_max_bytes cfg
  | Err _ => true
  | Panic => false
  end.

(** The loop of [frag_reassemble.rs]: a length byte, then a frame of that many bytes or of what is
    left. Each round takes a byte or more, so the length of the input is enough fuel. *)
Fixpoint frag_loop (fuel : nat) (slots max_bytes : Z) (r : Reassembler) (now : Millis) (rest : bytes)
    : bool :=
  match fuel, rest with
  | _, [] => true
  | O, _ => false
  | S fuel, b :: rest =>
      let n := Nat.min (Z.to_nat (b2z b)) (length rest) in
      let '(o, r) := ingest r (take n rest) now in
      match o with
      | Ok (Some packet) => zlen packet <=? max_bytes
      | Panic => false
      | _ => true
      end
      && (in_flight r <=? slots)
      && (let now := wrap 64 (now + b2z b * 97) in
          frag_loop fuel slots max_bytes (evict_expired r now).2 now (drop n rest))
  end.

Definition frag_reassemble (data : bytes) : bool :=
  let cfg := Tunables_default in
  frag_loop (length data) (reassembly_slots cfg) (reassembly_max_bytes cfg) (Reassembler_new cfg) 0
    data.

Lemma frag_loop_holds c fuel r now rest :
  reassembler_ok r → Frag.cfg r = c → 1 <= reassembly_slots c → 255 <= reassembly_max_bytes c →
  (length rest ≤ fuel)%nat →
  frag_loop fuel (reassembly_slots c) (reassembly_max_bytes c) r now rest = true.
Proof.
  intros Hok Hc Hs Hm. revert r now rest Hok Hc.
  induction fuel as [|fuel IH]; intros r now [|b rest] Hok Hc Hf; cbn in Hf; [done|lia|done|].
  cbn [frag_loop]. set (k := Nat.min _ _).
  destruct (ingest_spec r (take k rest) now Hok) as (Hp & Hok' & Hc' & Hout).
  destruct (ingest r (take k rest) now) as [o r']. cbn [fst snd] in *.
  rewrite !andb_true_iff. split_and!.
  - destruct o as [[out|]| |]; [|done|done|done]. specialize (Hout out eq_refl).
    assert (zlen (take k rest) <= 255).
    { unfold zlen. rewrite length_take. pose proof (b2z_range b). lia. }
    apply Z.leb_le. rewrite Hc in Hout. lia.
  - pose proof (ro_slots _ Hok') as Hb. rewrite Hc', Hc in Hb. apply Z.leb_le.
    unfold in_flight. lia.
  - destruct (evict_expired_ok r' (wrap 64 (now + b2z b * 97)) Hok') as [Hok2 Hc2].
    apply IH; [done|congruence|]. rewrite length_drop. lia.
Qed.

(** No input makes a fuzz target fail. The decoder neither panics nor accepts what its encoder
    cannot say again; no compressed block, whatever length it declares and whatever the library
    answers, comes out above the cap; and no sequence of frames, however they are interleaved over
    time, makes the reassembler panic, hand out more than its byte cap or hold more slots than
    configured. *)
Theorem fuzz_targets_hold `{Lz4} data :
  wire_decode data = true ∧ fuzz_decompress data = true ∧ frag_reassemble data = true.
Proof.
  split_and!.
  - unfold wire_decode. destruct (decode data) as [p| |] eqn:E; [|done|by apply decode_total in E].
    apply decode_sound in E as [Hp _]. rewrite encode_complete by done.
    by apply bool_decide_eq_true_2.
  - unfold fuzz_decompress. pose proof (decompress_safe data Tunables_default) as Hd.
    destruct (decompress data Tunables_default); [by apply Z.leb_le|done|done].
  - apply frag_loop_holds; [apply Reassembler_new_ok|done|by vm_compute..|lia].
Qed.

(** The assertions bite: this input is a complete frame of two bytes and a fragment that opens a
    slot, and with lower limits either would be reported. *)
Example fuzz_input_runs :
  let data := [Byte.x03; Byte.x01; Byte.x41; Byte.x42] ++ [Byte.x0e; Byte.x02] ++ zeroes 10
              ++ [Byte.x00; Byte.x02; Byte.x41] in
  let loop slots max_bytes :=
    frag_loop (length data) slots max_bytes (Reassembler_new Tunables_default) 0 data in
  loop 128 1 = false ∧ loop 0 100 = false ∧ loop 1 2 = true ∧ frag_reassemble data = true.
Proof. by vm_compute. Qed.
