(* ===== verification/Relay.v ===== *)
(** * Relay: flood control ([relay.rs])

    The dedup cache, the per-sender token bucket, the jittered rebroadcast scheduler and the
    density-adaptive fanout. Token counts are binary64 values computed as the source computes
    them. A [u64] addition keeps its low 64 bits, as in a release build. *)
From stdpp Require Import strings.
From S2P Require Import Prelude F64 Clock External Toy Transport Wire Config.

(** ** The dedup cache *)

Record Observation := mkObservation {
  is_new : bool;
  obs_hear_count : Z;
}.

Record SeenEntry := mkSeenEntry {
  first_seen_ms : Millis;
  entry_hear_count : Z;
}.

Record SeenCache := mkSeenCache {
  seen_map : gmap bytes SeenEntry;
  seen_cfg : Tunables;
}.

Definition SeenCache_new (cfg : Tunables) : SeenCache := {| seen_map := ∅; seen_cfg := cfg |}.

Definition set_seen_map (c : SeenCache) (m : gmap bytes SeenEntry) : SeenCache :=
  {| seen_map := m; seen_cfg := seen_cfg c |}.

Definition seen_len (c : SeenCache) : Z := msize (seen_map c).
Definition seen_is_empty (c : SeenCache) : bool := bool_decide (seen_map c = ∅).

Definition evict_oldest (m : gmap bytes SeenEntry) : gmap bytes SeenEntry :=
  evict_min first_seen_ms m.

Definition observe (c : SeenCache) (digest : bytes) (now : Millis) : Observation * SeenCache :=
  match seen_map c !! digest with
  | Some e =>
      let e' := {| first_seen_ms := first_seen_ms e;
                   entry_hear_count := sat_add 32 (entry_hear_count e) 1 |} in
      ({| is_new := false; obs_hear_count := entry_hear_count e' |},
       set_seen_map c (<[digest := e']> (seen_map c)))
  | None =>
      let m := if seen_cache_capacity (seen_cfg c) <=? msize (seen_map c)
               then evict_oldest (seen_map c) else seen_map c in
      ({| is_new := true; obs_hear_count := 1 |},
       set_seen_map c (<[digest := {| first_seen_ms := now; entry_hear_count := 1 |}]> m))
  end.

Definition hear_count (c : SeenCache) (digest : bytes) : Z :=
  match seen_map c !! digest with Some e => entry_hear_count e | None => 0 end.

Definition evict_expired (c : SeenCache) (now : Millis) : Z * SeenCache :=
  let ttl := seen_cache_ttl_ms (seen_cfg c) in
  let before := msize (seen_map c) in
  let m := map_retain (λ _ e, sat_sub now (first_seen_ms e) <? ttl) (seen_map c) in
  (before - msize m, set_seen_map c m).

(** ** The per-sender token bucket *)

Record Bucket := mkBucket {
  tokens : f64;
  last_ms : Millis;
  greylist_until : Millis;
}.

Record RateLimiter := mkRateLimiter {
  buckets : gmap bytes Bucket;
  rate_cfg : Tunables;
}.

Definition RateLimiter_new (cfg : Tunables) : RateLimiter := {| buckets := ∅; rate_cfg := cfg |}.

Definition refill_rate_per_ms (cfg : Tunables) : f64 :=
  f64_div (f64_of_int (rate_sustained_per_min cfg)) (f64_of_int 60000).

(** The body of [allow], on the sender's bucket. *)
Definition bucket_allow (cfg : Tunables) (b : Bucket) (now : Millis) : bool * Bucket :=
  let burst := f64_of_int (rate_burst cfg) in
  let rate := refill_rate_per_ms cfg in
  let greylist := Config.greylist_ms cfg in
  if now <? greylist_until b then (false, b) else
  let elapsed := f64_of_int (sat_sub now (last_ms b)) in
  let t := f64_min (f64_add (tokens b) (f64_mul elapsed rate)) burst in
  if f64_le (f64_of_int 1) t then
    (true, {| tokens := f64_sub t (f64_of_int 1); last_ms := now;
              greylist_until := greylist_until b |})
  else
    (false, {| tokens := t; last_ms := now; greylist_until := wrap 64 (now + greylist) |}).

Definition allow (r : RateLimiter) (sender : bytes) (now : Millis) : bool * RateLimiter :=
  let cfg := rate_cfg r in
  let bucket := default {| tokens := f64_of_int (rate_burst cfg); last_ms := now;
                           greylist_until := 0 |} (buckets r !! sender) in
  let '(ok, bucket') := bucket_allow cfg bucket now in
  (ok, {| buckets := <[sender := bucket']> (buckets r); rate_cfg := cfg |}).

Definition is_greylisted (r : RateLimiter) (sender : bytes) (now : Millis) : bool :=
  match buckets r !! sender with Some b => now <? greylist_until b | None => false end.

(** ** The rebroadcast scheduler *)

Record Pending := mkPending {
  pend_packet : Packet;
  send_at_ms : Millis;
  pend_exclude_link : LinkId;
}.

Record DueRelay := mkDueRelay {
  due_packet : Packet;
  exclude_link : LinkId;
}.

Record RelayScheduler := mkRelayScheduler {
  pending : gmap bytes Pending;
  sched_cfg : Tunables;
}.

Definition RelayScheduler_new (cfg : Tunables) : RelayScheduler :=
  {| pending := ∅; sched_cfg := cfg |}.

Definition pending_count (s : RelayScheduler) : Z := msize (pending s).

Definition schedule (s : RelayScheduler) (digest : bytes) (packet : Packet) (exclude : LinkId)
    (delay now : Millis) : RelayScheduler :=
  let p := default {| pend_packet := packet; send_at_ms := wrap 64 (now + delay);
                      pend_exclude_link := exclude |} (pending s !! digest) in
  {| pending := <[digest := p]> (pending s); sched_cfg := sched_cfg s |}.

(** The loop of [due] over the ready digests; [None] is the [unwrap] failing. *)
Fixpoint release (threshold : Z) (seen : SeenCache) (ready : list bytes) (m : gmap bytes Pending)
    : option (list DueRelay * gmap bytes Pending) :=
  match ready with
  | [] => Some ([], m)
  | d :: ready' =>
      match m !! d with
      | None => None
      | Some p =>
          match release threshold seen ready' (delete d m) with
          | None => None
          | Some (out, m') =>
              if threshold <=? hear_count seen d then Some (out, m')
              else Some ({| due_packet := pend_packet p;
                            exclude_link := pend_exclude_link p |} :: out, m')
          end
      end
  end.

Definition due (s : RelayScheduler) (now : Millis) (seen : SeenCache)
    : option (list DueRelay * RelayScheduler) :=
  let threshold := suppression_threshold (sched_cfg s) in
  let ready := map fst (List.filter (λ kp : bytes * Pending, send_at_ms kp.2 <=? now)
                          (btree_iter (pending s))) in
  match release threshold seen ready (pending s) with
  | Some (out, m) => Some (out, {| pending := m; sched_cfg := sched_cfg s |})
  | None => None
  end.

(** ** Density-adaptive fanout *)

Definition rebroadcast_probability (degree : Z) (cfg : Tunables) : f64 :=
  if degree <=? relay_sparse_max cfg then relay_prob_sparse cfg
  else if degree <=? relay_mid_max cfg then relay_prob_mid cfg
  else relay_prob_dense cfg.

Definition should_relay `{Rand} (degree : Z) (cfg : Tunables) (rng : StdRng) : bool * StdRng :=
  let '(x, rng') := gen_f64 rng in (f64_lt x (rebroadcast_probability degree cfg), rng').

Definition relay_delay `{Rand} (cfg : Tunables) (rng : StdRng) : Millis * StdRng :=
  if jitter_max_ms cfg <=? jitter_min_ms cfg then (jitter_min_ms cfg, rng)
  else gen_range rng (jitter_min_ms cfg) (jitter_max_ms cfg).

(** ** Lemmas: the dedup cache *)

Definition seen_ok (c : SeenCache) : Prop :=
  seen_len c <= Z.max 1 (seen_cache_capacity (seen_cfg c))
  ∧ map_Forall (λ _ e, 1 <= entry_hear_count e < 2 ^ 32) (seen_map c).

Lemma seen_new_ok cfg : seen_ok (SeenCache_new cfg).
Proof.
  split; [|apply map_Forall_empty].
  unfold seen_len, SeenCache_new. cbn [seen_map seen_cfg]. rewrite msize_empty. lia.
Qed.

Lemma observe_ok c d now :
  seen_ok c → seen_ok (observe c d now).2 ∧ seen_cfg (observe c d now).2 = seen_cfg c.
Proof.
  intros [Hs He]. unfold observe, seen_ok, seen_len in *.
  destruct (seen_map c !! d) as [e|] eqn:E; cbn [snd set_seen_map seen_map seen_cfg].
  - split; [split|done]; [by rewrite msize_insert, E|].
    apply map_Forall_insert_2; [|done]. cbn. specialize (He d e E). cbn in He. unfold sat_add. lia.
  - split; [split|done].
    + rewrite msize_insert. destruct (_ <=? msize _) eqn:Ec.
      * unfold evict_oldest; rewrite msize_evict_min. case_match; lia.
      * rewrite E. lia.
    + apply map_Forall_insert_2; [cbn; lia|]. destruct (_ <=? msize _); [|done].
      eapply map_Forall_sub; [apply evict_min_subseteq|done].
Qed.

Lemma seen_evict_expired_ok c now :
  seen_ok c →
  seen_ok (evict_expired c now).2 ∧ seen_cfg (evict_expired c now).2 = seen_cfg c.
Proof.
  intros [Hs He]. split; [split|done]; unfold seen_len in *; cbn.
  - etrans; [apply msize_retain|done].
  - eapply map_Forall_sub; [apply map_retain_subseteq|done].
Qed.

(** The operations a node performs on the cache. *)
Inductive seen_op :=
  | SObserve (digest : bytes) (now : Millis)
  | SExpire (now : Millis).

Definition seen_step (c : SeenCache) (o : seen_op) : SeenCache :=
  match o with
  | SObserve d t => (observe c d t).2
  | SExpire t => (evict_expired c t).2
  end.

(** Over any sequence of observations and expirations the cache never holds more than its
    capacity (one entry, when that is zero), and every hear count is a positive [u32]. *)
Theorem seen_cache_bounded cfg ops :
  let c := foldl seen_step (SeenCache_new cfg) ops in
  seen_len c <= Z.max 1 (seen_cache_capacity cfg)
  ∧ map_Forall (λ _ e, 1 <= entry_hear_count e < 2 ^ 32) (seen_map c).
Proof.
  assert (∀ c, seen_ok c → seen_ok (foldl seen_step c ops)
            ∧ seen_cfg (foldl seen_step c ops) = seen_cfg c) as H.
  { induction ops as [|o ops IH]; intros c Hc; [done|]. cbn [foldl].
    assert (seen_ok (seen_step c o) ∧ seen_cfg (seen_step c o) = seen_cfg c) as [H1 H2].
    { destruct o; [by apply observe_ok|by apply seen_evict_expired_ok]. }
    destruct (IH _ H1) as [H3 H4]. split; [done|congruence]. }
  destruct (H (SeenCache_new cfg) (seen_new_ok cfg)) as [[H1 H2] H3].
  cbv zeta. rewrite H3 in H1. done.
Qed.

(** How many observations of other digests an operation list has. *)
Definition other_observes (d : bytes) (ops : list seen_op) : Z :=
  zlen (List.filter (λ o, match o with SObserve d' _ => negb (bool_decide (d' = d))
                                     | SExpire _ => false end) ops).

Definition observes_of (d : bytes) (ops : list seen_op) : Z :=
  zlen (List.filter (λ o, match o with SObserve d' _ => bool_decide (d' = d)
                                     | SExpire _ => false end) ops).

Definition op_time (o : seen_op) : Millis :=
  match o with SObserve _ t | SExpire t => t end.

(** The entries at least as young as [t], other than [d]. *)
Definition young (m : gmap bytes SeenEntry) (d : bytes) (t : Millis) : gmap bytes SeenEntry :=
  filter (λ kv : bytes * SeenEntry, kv.1 ≠ d ∧ t <= first_seen_ms kv.2) m.

Lemma young_lookup m d t k e :
  young m d t !! k = Some e ↔ m !! k = Some e ∧ k ≠ d ∧ t <= first_seen_ms e.
Proof. unfold young. by rewrite map_lookup_filter_Some. Qed.

Lemma young_sub m m' d t : m' ⊆ m → msize (young m' d t) <= msize (young m d t).
Proof.
  intros Hs. unfold msize. rewrite <- !size_dom. apply inj_le, subseteq_size, subseteq_dom.
  apply map_subseteq_spec. intros k e. rewrite !young_lookup. intros (H1 & H2). split; [|done].
  by eapply lookup_weaken.
Qed.

Lemma young_insert m d t k e : msize (young (<[k := e]> m) d t) <= msize (young m d t) + 1.
Proof.
  assert (young (<[k := e]> m) d t ⊆ <[k := e]> (young m d t)) as Hs.
  { apply map_subseteq_spec. intros j e'. rewrite young_lookup. intros (Hj & ? & ?).
    apply lookup_insert_Some in Hj as [[<- <-]|[? Hj]]; [by rewrite lookup_insert_eq|].
    rewrite lookup_insert_ne by done. by apply young_lookup. }
  assert (msize (young (<[k := e]> m) d t) <= msize (<[k := e]> (young m d t))) as Hle.
  { unfold msize. rewrite <- !size_dom. by apply inj_le, subseteq_size, subseteq_dom. }
  rewrite msize_insert in Hle. case_match; lia.
Qed.

Lemma young_update m d t k e e' :
  m !! k = Some e → first_seen_ms e' = first_seen_ms e →
  msize (young (<[k := e']> m) d t) <= msize (young m d t).
Proof.
  intros Hk He. unfold msize. rewrite <- !size_dom. apply inj_le, subseteq_size.
  intros j. rewrite !elem_of_dom. intros [x (Hx & ? & ?)%young_lookup].
  destruct (decide (k = j)) as [->|?].
  - rewrite lookup_insert_eq in Hx. simplify_eq. exists e. apply young_lookup. by rewrite <- He.
  - rewrite lookup_insert_ne in Hx by done. exists x. by apply young_lookup.
Qed.

(** As long as not all of the map is young, there is an older entry than one of age [t]. *)
Lemma older_exists m d t e :
  m !! d = Some e → msize (young m d t) + 1 < msize m →
  ∃ k e', m !! k = Some e' ∧ first_seen_ms e' < t.
Proof.
  intros Hd Hlt.
  destruct (decide (map_Forall (λ k e', k = d ∨ t <= first_seen_ms e') m)) as [Hall|Hno].
  - exfalso. assert (m ⊆ <[d := e]> (young m d t)) as Hs.
    { apply map_subseteq_spec. intros k e' Hk. destruct (decide (k = d)) as [->|Hkd].
      - rewrite lookup_insert_eq. congruence.
      - rewrite lookup_insert_ne by done. apply young_lookup.
        destruct (Hall k e' Hk); [done|]. done. }
    assert (msize m <= msize (<[d := e]> (young m d t))) as Hle.
    { unfold msize. rewrite <- !size_dom. by apply inj_le, subseteq_size, subseteq_dom. }
    rewrite msize_insert in Hle. case_match; lia.
  - apply map_not_Forall in Hno as (k & e' & Hk & Hn); [|apply _].
    exists k, e'. split; [done|]. lia.
Qed.

(** What a live entry looks like: its age, its count, and too few younger ones to push it out. *)
Record live (c : SeenCache) (d : bytes) (t n budget : Z) : Prop := {
  live_entry : seen_map c !! d = Some {| first_seen_ms := t;
                                         entry_hear_count := Z.min (2 ^ 32 - 1) n |};
  live_young : msize (young (seen_map c) d t) + budget < seen_cache_capacity (seen_cfg c);
}.

Definition within_ttl (cfg : Tunables) (t : Millis) (o : seen_op) : Prop :=
  match o with SExpire now => sat_sub now t < seen_cache_ttl_ms cfg | SObserve _ _ => True end.

Lemma live_observe_same c d t n budget now :
  live c d t n budget →
  (observe c d now).1 = {| is_new := false; obs_hear_count := Z.min (2 ^ 32 - 1) (n + 1) |}
  ∧ live (observe c d now).2 d t (n + 1) budget.
Proof.
  intros [He Hy]. unfold observe. rewrite He. cbn [fst snd entry_hear_count first_seen_ms].
  unfold sat_add. replace (Z.min (2 ^ 32 - 1) (Z.min (2 ^ 32 - 1) n + 1))
    with (Z.min (2 ^ 32 - 1) (n + 1)) by lia.
  split; [done|]. split; cbn [set_seen_map seen_map seen_cfg].
  - by rewrite lookup_insert_eq.
  - eapply Z.le_lt_trans; [|exact Hy]. apply Z.add_le_mono_r. by eapply young_update.
Qed.

Lemma live_observe_other c d d' t n budget now :
  d' ≠ d → 0 <= budget → live c d t n (budget + 1) → live (observe c d' now).2 d t n budget.
Proof.
  intros Hd Hb [He Hy]. unfold observe. destruct (seen_map c !! d') as [e|] eqn:Ed'.
  - split; cbn [snd set_seen_map seen_map seen_cfg]; [by rewrite lookup_insert_ne|].
    pose proof (young_update (seen_map c) d t d' e
      {| first_seen_ms := first_seen_ms e;
         entry_hear_count := sat_add 32 (entry_hear_count e) 1 |} Ed' eq_refl). lia.
  - cbn [snd]. set (m := if _ <=? _ then _ else _).
    assert (m !! d = seen_map c !! d ∧ m ⊆ seen_map c) as [Hm Hs].
    { unfold m. destruct (_ <=? _) eqn:Ec; [|done]. split; [|apply evict_min_subseteq].
      destruct (older_exists _ _ t _ He) as (k & e' & Hk & Hlt); [lia|].
      rewrite He. by eapply evict_min_keeps. }
    split; cbn [set_seen_map seen_map seen_cfg]; [by rewrite lookup_insert_ne, Hm|].
    pose proof (young_insert m d t d' {| first_seen_ms := now; entry_hear_count := 1 |}).
    pose proof (young_sub _ _ d t Hs). lia.
Qed.

Lemma live_expire c d t n budget now :
  live c d t n budget → sat_sub now t < seen_cache_ttl_ms (seen_cfg c) →
  live (evict_expired c now).2 d t n budget.
Proof.
  intros [He Hy] Ht. split; cbn [evict_expired snd set_seen_map seen_map seen_cfg].
  - apply map_retain_lookup. split; [done|]. cbn. lia.
  - pose proof (young_sub (seen_map c) _ d t (map_retain_subseteq
      (λ _ e, sat_sub now (first_seen_ms e) <? seen_cache_ttl_ms (seen_cfg c)) (seen_map c))). lia.
Qed.

Lemma live_steps c d t n ops :
  live c d t n (other_observes d ops) → Forall (within_ttl (seen_cfg c) t) ops →
  live (foldl seen_step c ops) d t (n + observes_of d ops) 0.
Proof.
  revert c n. induction ops as [|o ops IH]; intros c n Hc Ho; cbn [foldl].
  - unfold observes_of. change (zlen (List.filter _ [])) with 0. by rewrite Z.add_0_r.
  - apply Forall_cons in Ho as [Ho Hos].
    assert (seen_cfg (seen_step c o) = seen_cfg c) as Hcfg.
    { destruct o; [|done]. cbn. unfold observe. by case_match. }
    rewrite <- Hcfg in Hos. unfold other_observes, observes_of in *. cbn [List.filter] in *.
    destruct o as [d' t'|t'].
    + case_bool_decide as Ed; cbn [negb] in *.
      * subst d'. rewrite zlen_cons, Z.add_assoc. apply IH; [|done]. by apply live_observe_same.
      * rewrite zlen_cons, Z.add_comm in Hc. apply IH; [|done].
        apply live_observe_other; [done|apply zlen_nonneg|done].
    + apply IH; [|done]. apply live_expire; [done|exact Ho].
Qed.

(** A digest heard for the first time, later than everything cached, is recognised as a
    duplicate - with the exact number of times it was heard, up to the [u32] limit - after any
    sequence of operations that observes fewer other digests than the cache holds and expires
    entries only before this one's lifetime is over. *)
Theorem seen_cache_dedup c d t ops t' :
  seen_map c !! d = None → map_Forall (λ _ e, first_seen_ms e < t) (seen_map c) →
  other_observes d ops < seen_cache_capacity (seen_cfg c) →
  Forall (within_ttl (seen_cfg c) t) ops →
  (observe c d t).1 = {| is_new := true; obs_hear_count := 1 |}
  ∧ (observe (foldl seen_step (observe c d t).2 ops) d t').1 =
    {| is_new := false; obs_hear_count := Z.min (2 ^ 32 - 1) (2 + observes_of d ops) |}.
Proof.
  intros Hd Hold Hbudget Httl. split; [unfold observe; by rewrite Hd|].
  assert (live (observe c d t).2 d t 1 (other_observes d ops)) as Hlive.
  { unfold observe. rewrite Hd. split; cbn [snd set_seen_map seen_map seen_cfg].
    - by rewrite lookup_insert_eq.
    - assert (young (<[d := {| first_seen_ms := t; entry_hear_count := 1 |}]>
        (if seen_cache_capacity (seen_cfg c) <=? msize (seen_map c)
         then evict_oldest (seen_map c) else seen_map c)) d t = ∅) as ->.
      { apply map_empty. intros k. apply eq_None_not_Some. intros [e (Hk & Hkd & He)%young_lookup].
        rewrite lookup_insert_ne in Hk by done.
        assert (seen_map c !! k = Some e) as Hk'.
        { destruct (_ <=? _); [|done]. eapply lookup_weaken; [done|apply evict_min_subseteq]. }
        specialize (Hold k e Hk'). cbn in Hold. lia. }
      rewrite msize_empty. lia. }
  assert (seen_cfg (observe c d t).2 = seen_cfg c) as Hcfg by (unfold observe; by case_match).
  rewrite <- Hcfg in Httl. pose proof (live_steps _ _ _ _ _ Hlive Httl) as Hend.
  destruct (live_observe_same _ _ _ _ _ t' Hend) as [-> _]. do 2 f_equal. lia.
Qed.

(** ** The rate limiter over request sequences *)

Definition request : Type := bytes * Millis.

Fixpoint run_allow (r : RateLimiter) (reqs : list request) : list bool * RateLimiter :=
  match reqs with
  | [] => ([], r)
  | (s, t) :: reqs' =>
      let '(ok, r1) := allow r s t in
      let '(oks, r2) := run_allow r1 reqs' in
      (ok :: oks, r2)
  end.

(** The same on one sender's bucket, [None] before its first request. *)
Fixpoint run_bucket (cfg : Tunables) (b : option Bucket) (times : list Millis) : list bool :=
  match times with
  | [] => []
  | t :: times' =>
      let '(ok, b') := bucket_allow cfg
        (default {| tokens := f64_of_int (rate_burst cfg); last_ms := t; greylist_until := 0 |} b) t in
      ok :: run_bucket cfg (Some b') times'
  end.

Definition is_from (s : bytes) (q : request) : bool := bool_decide (q.1 = s).

(** The request times of one sender, and the answers it got. *)
Definition times_of (s : bytes) (reqs : list request) : list Millis :=
  map snd (List.filter (is_from s) reqs).

Definition answers_to (s : bytes) (reqs : list request) (oks : list bool) : list bool :=
  map snd (List.filter (λ qo : request * bool, is_from s qo.1) (zip reqs oks)).

Lemma answers_to_run r reqs s :
  answers_to s reqs (run_allow r reqs).1 = run_bucket (rate_cfg r) (buckets r !! s) (times_of s reqs).
Proof.
  revert r. induction reqs as [|[s' t] reqs IH]; intros r; [done|].
  cbn [run_allow]. unfold allow.
  destruct (bucket_allow _ _ _) as [ok b'] eqn:Eb.
  specialize (IH {| buckets := <[s' := b']> (buckets r); rate_cfg := rate_cfg r |}).
  destruct (run_allow _ reqs) as [oks r2]. cbn [fst buckets rate_cfg] in *.
  unfold answers_to, times_of in *. cbn [zip_with List.filter].
  cbn [fst]. destruct (is_from s (s', t)) eqn:Es; unfold is_from in Es; cbn [fst] in Es.
  - apply bool_decide_eq_true in Es. subst s'. cbn [map snd run_bucket]. rewrite Eb, IH. by rewrite lookup_insert_eq.
  - apply bool_decide_eq_false in Es. rewrite IH. by rewrite lookup_insert_ne.
Qed.

(** What the limiter answers one sender depends on that sender's own requests only: no
    interleaving with other senders, however heavy, changes any of its answers. *)
Theorem rate_limiter_isolation r reqs s :
  answers_to s reqs (run_allow r reqs).1
  = run_bucket (rate_cfg r) (buckets r !! s) (times_of s reqs).
Proof. apply answers_to_run. Qed.

(** Token arithmetic of the default configuration at one instant. *)
Lemma bucket_allow_default k t :
  0 <= t → 1 <= k <= 10 →
  bucket_allow Tunables_default (mkBucket (f64_of_int k) t 0) t
  = (true, mkBucket (f64_of_int (k - 1)) t 0).
Proof.
  intros Ht Hk. unfold bucket_allow. cbn [greylist_until last_ms tokens].
  rewrite (proj2 (Z.ltb_ge t 0)) by done. unfold sat_sub. rewrite Z.sub_diag.
  assert (k = 1 ∨ k = 2 ∨ k = 3 ∨ k = 4 ∨ k = 5 ∨ k = 6 ∨ k = 7 ∨ k = 8 ∨ k = 9 ∨ k = 10) as Hc by lia.
  destruct_or! Hc; subst k; by vm_compute.
Qed.

Lemma bucket_allow_empty t :
  0 <= t → t + 60000 < 2 ^ 64 →
  bucket_allow Tunables_default (mkBucket (f64_of_int 0) t 0) t
  = (false, mkBucket (f64_of_int 0) t (t + 60000)).
Proof.
  intros Ht Hk. unfold bucket_allow. cbn [greylist_until last_ms tokens].
  rewrite (proj2 (Z.ltb_ge t 0)) by done. unfold sat_sub. rewrite Z.sub_diag.
  unfold wrap. rewrite Z.mod_small by (cbn; lia). by vm_compute.
Qed.

Lemma bucket_allow_greylisted cfg b t : t < greylist_until b → bucket_allow cfg b t = (false, b).
Proof. intros Ht. unfold bucket_allow. by rewrite (proj2 (Z.ltb_lt _ _)). Qed.

Lemma run_bucket_greylisted cfg b times :
  Forall (λ t, t < greylist_until b) times →
  run_bucket cfg (Some b) times = replicate (length times) false.
Proof.
  induction 1 as [|t times Ht Hs IH]; [done|]. cbn [run_bucket default length replicate].
  change (default _ (Some b)) with b. rewrite bucket_allow_greylisted by done.
  f_equal. exact IH.
Qed.

Lemma run_bucket_burst k t n times :
  0 <= t → t + 60000 < 2 ^ 64 → 0 <= k <= 10 → k < Z.of_nat n →
  Forall (λ t', t' < t + 60000) times →
  run_bucket Tunables_default (Some (mkBucket (f64_of_int k) t 0)) (replicate n t ++ times)
  = replicate (Z.to_nat k) true ++ replicate (n - Z.to_nat k + length times) false.
Proof.
  intros Ht Hw Hk. revert k Hk. induction n as [|n IH]; intros k Hk Hn Hl; [lia|].
  cbn [replicate app run_bucket]. change (default _ (Some ?b)) with b.
  destruct (decide (k = 0)) as [->|Hk0].
  - rewrite bucket_allow_empty by done. cbv iota beta. rewrite run_bucket_greylisted.
    + rewrite length_app, length_replicate. by rewrite Nat.sub_0_r.
    + cbn [greylist_until]. apply Forall_app. split; [|done]. apply Forall_replicate. lia.
  - rewrite bucket_allow_default by lia. cbv iota beta. rewrite IH by (lia || done).
    replace (Z.to_nat k) with (S (Z.to_nat (k - 1))) by lia. done.
Qed.

Lemma run_bucket_fresh cfg times :
  run_bucket cfg None times =
  match times with
  | [] => []
  | t :: _ => run_bucket cfg (Some (mkBucket (f64_of_int (rate_burst cfg)) t 0)) times
  end.
Proof. by destruct times. Qed.

Lemma times_of_app s q1 q2 : times_of s (q1 ++ q2) = times_of s q1 ++ times_of s q2.
Proof. unfold times_of. by rewrite List.filter_app, map_app. Qed.

Lemma times_of_Forall s (P : Millis → Prop) reqs :
  Forall (λ q : request, q.1 = s → P q.2) reqs → Forall P (times_of s reqs).
Proof.
  unfold times_of, is_from. induction 1 as [|q reqs Hq H IH]; [constructor|]. cbn [List.filter].
  case_bool_decide; [|done]. constructor; auto.
Qed.

(** C38: a sender that was unknown and sends more than ten distinct packets in one millisecond is
    admitted exactly ten times, then refused, and refused for the whole minute that follows,
    whatever else the limiter is asked in between. *)
Theorem flooder_contained r s t reqs later :
  rate_cfg r = Tunables_default → buckets r !! s = None → 0 <= t → t + 60000 < 2 ^ 64 →
  Forall (λ q : request, q.1 = s → q.2 = t) reqs → (10 < length (times_of s reqs))%nat →
  Forall (λ q : request, q.1 = s → q.2 < t + 60000) later →
  answers_to s (reqs ++ later) (run_allow r (reqs ++ later)).1
  = replicate 10 true
    ++ replicate (length (times_of s reqs) - 10 + length (times_of s later)) false.
Proof.
  intros Hcfg Hs Ht Hw Hreqs Hn Hlater.
  rewrite answers_to_run, Hcfg, Hs, times_of_app.
  apply (times_of_Forall s (λ t', t' = t)) in Hreqs.
  apply (times_of_Forall s (λ t', t' < t + 60000)) in Hlater.
  rewrite <- (replicate_as_Forall_2 t (length (times_of s reqs)) (times_of s reqs)) at 1;
    [|done|by eapply Forall_impl; [exact Hreqs|]].
  set (n := length (times_of s reqs)) in *.
  clearbody n. destruct n as [|n]; [lia|]. rewrite run_bucket_fresh. cbn [replicate app].
  change (t :: replicate n t ++ times_of s later) with (replicate (S n) t ++ times_of s later).
  change (rate_burst Tunables_default) with 10.
  rewrite run_bucket_burst by (lia || done). done.
Qed.

(** ** The scheduler *)

Definition to_due (kp : bytes * Pending) : DueRelay :=
  {| due_packet := pend_packet kp.2; exclude_link := pend_exclude_link kp.2 |}.

Lemma release_spec threshold seen (l : list (bytes * Pending)) m :
  NoDup (map fst l) → (∀ k p, (k, p) ∈ l → m !! k = Some p) →
  ∃ m', release threshold seen (map fst l) m
        = Some (map to_due (List.filter (λ kp, hear_count seen kp.1 <? threshold) l), m')
    ∧ ∀ k, m' !! k = if decide (k ∈ map fst l) then None else m !! k.
Proof.
  revert m. induction l as [|[k p] l IH]; intros m Hnd Hm.
  - exists m. split; [done|]. intros k. by rewrite decide_False by apply not_elem_of_nil.
  - change (map fst ((k, p) :: l)) with (k :: map fst l) in *. cbn [release].
    apply NoDup_cons in Hnd as [Hk Hnd]. rewrite (Hm k p (list_elem_of_here _ _)).
    destruct (IH (delete k m) Hnd) as (m' & -> & Hm').
    { intros j q Hj. rewrite lookup_delete_ne; [by apply Hm, list_elem_of_further|].
      intros ->. apply Hk. apply list_elem_of_In, in_map_iff. exists (j, q).
      split; [done|by apply list_elem_of_In]. }
    exists m'. split.
    + cbn [List.filter fst]. rewrite Z.ltb_antisym. by destruct (threshold <=? _).
    + intros j. rewrite Hm'. destruct (decide (j = k)) as [->|Hjk].
      * rewrite lookup_delete_eq, (decide_True (P:=k ∈ k :: _)) by apply list_elem_of_here.
        by case_decide.
      * rewrite lookup_delete_ne by done. assert (j ∈ k :: map fst l ↔ j ∈ map fst l) as Hiff.
        { rewrite elem_of_cons. tauto. }
        by rewrite (decide_ext _ _ _ _ Hiff).
Qed.

Lemma due_spec s now seen :
  due s now seen =
  Some (map to_due (List.filter (λ kp : bytes * Pending,
                      (send_at_ms kp.2 <=? now)
                      && (hear_count seen kp.1 <? suppression_threshold (sched_cfg s)))
                      (btree_iter (pending s))),
        {| pending := map_retain (λ _ p, now <? send_at_ms p) (pending s);
           sched_cfg := sched_cfg s |}).
Proof.
  unfold due. set (ready := List.filter _ (btree_iter (pending s))) at 1.
  assert (Hin : ∀ k p, (k, p) ∈ ready ↔ pending s !! k = Some p ∧ send_at_ms p <= now).
  { intros k p. unfold ready. rewrite list_elem_of_In, List.filter_In, <- list_elem_of_In,
      elem_of_btree_iter. cbn. rewrite Z.leb_le. done. }
  destruct (release_spec (suppression_threshold (sched_cfg s)) seen ready (pending s))
    as (m' & -> & Hm').
  { unfold ready. apply NoDup_map_filter, btree_iter_NoDup. }
  { intros k p Hk. by apply Hin. }
  do 2 f_equal.
  - f_equal. unfold ready. apply filter_filter_and.
  - f_equal. apply map_eq. intros k. rewrite Hm'. apply option_eq. intros p.
    rewrite map_retain_lookup. case_decide as Hk.
    + split; [done|]. intros [Hp Hlt]. apply list_elem_of_In, in_map_iff in Hk as ([k' q] & <- & Hq).
      apply list_elem_of_In, Hin in Hq as [Hq Hle]. cbn [fst] in *. simplify_eq. lia.
    + split; [|by intros [? _]]. intros Hp. split; [done|]. apply Z.ltb_lt.
      destruct (decide (now < send_at_ms p)); [done|]. destruct Hk.
      apply list_elem_of_In, in_map_iff. exists (k, p). split; [done|].
      apply list_elem_of_In, Hin. split; [done|lia].
Qed.

(** A [due] call does not panic; it releases exactly the rebroadcasts whose jitter has
    elapsed and that were overheard fewer than [suppression_threshold] times, in the order of
    their digests, each with its packet and the link to leave out; released and suppressed ones
    are gone, the others stay. *)
Theorem due_releases_exactly s now seen :
  due s now seen =
  Some (map to_due (List.filter (λ kp : bytes * Pending,
                      (send_at_ms kp.2 <=? now)
                      && (hear_count seen kp.1 <? suppression_threshold (sched_cfg s)))
                      (btree_iter (pending s))),
        {| pending := map_retain (λ _ p, now <? send_at_ms p) (pending s);
           sched_cfg := sched_cfg s |}).
Proof. apply due_spec. Qed.

(** A digest already waiting keeps its packet, link and deadline. *)
Lemma schedule_keeps_first s d p x delay now q :
  pending s !! d = Some q → pending (schedule s d p x delay now) !! d = Some q.
Proof. intros E. unfold schedule. cbn. by rewrite E, lookup_insert_eq. Qed.

(** ** Fanout *)

Section fanout.
Context `{Rand, !RandLaws}.

(** A rebroadcast waits inside the jitter window, whatever the random generator draws. *)
Lemma relay_delay_bounds cfg rng :
  jitter_min_ms cfg <= (relay_delay cfg rng).1 <= Z.max (jitter_min_ms cfg) (jitter_max_ms cfg).
Proof.
  unfold relay_delay. destruct (_ <=? _) eqn:E; cbn [fst]; [lia|].
  pose proof (gen_range_bounds rng (jitter_min_ms cfg) (jitter_max_ms cfg)). lia.
Qed.

(** In a sparse neighbourhood the default configuration relays everything. *)
Lemma should_relay_sparse degree rng :
  degree <= 3 → (should_relay degree Tunables_default rng).1 = true.
Proof.
  intros Hd. unfold should_relay, rebroadcast_probability.
  change (relay_sparse_max Tunables_default) with 3. rewrite (proj2 (Z.leb_le _ _)) by done.
  pose proof (gen_f64_unit rng) as [_ Hu]. by destruct (gen_f64 rng).
Qed.
End fanout.

(** ** Witnesses *)

(** A cache of four entries, an older one in it, two other digests and two more copies. *)
Definition small_cache : SeenCache :=
  {| seen_map := {[ [Byte.x09] := mkSeenEntry 1 1 ]};
     seen_cfg := Tunables_default |}.

Definition small_ops : list seen_op :=
  [SObserve [Byte.x02] 10; SObserve [Byte.x01] 11; SExpire 250000; SObserve [Byte.x03] 250001].

Lemma seen_cache_dedup_witness :
  (observe small_cache [Byte.x01] 10).1 = {| is_new := true; obs_hear_count := 1 |}
  ∧ (observe (foldl seen_step (observe small_cache [Byte.x01] 10).2 small_ops) [Byte.x01] 300000).1
    = {| is_new := false; obs_hear_count := Z.min (2 ^ 32 - 1) (2 + observes_of [Byte.x01] small_ops) |}.
Proof.
  apply seen_cache_dedup.
  - done.
  - apply (bool_decide_eq_true_1 _). by vm_compute.
  - done.
  - repeat constructor.
Defined.

Definition flood : list request :=
  replicate 6 ([Byte.x01], 5) ++ [([Byte.x02], 5)] ++ replicate 6 ([Byte.x01], 5).

Lemma flooder_contained_witness :
  let later := [([Byte.x02], 70000); ([Byte.x01], 60004)] in
  answers_to [Byte.x01] (flood ++ later)
    (run_allow (RateLimiter_new Tunables_default) (flood ++ later)).1
  = replicate 10 true ++ replicate (length (times_of [Byte.x01] flood) - 10
                                    + length (times_of [Byte.x01] later)) false.
Proof.
  cbv zeta. apply (flooder_contained _ [Byte.x01] 5); try done.
  - apply (bool_decide_eq_true_1 _). by vm_compute.
  - vm_compute. lia.
  - apply (bool_decide_eq_true_1 _). by vm_compute.
Defined.
