(* ===== verification/Channels.v ===== *)
(** * Channels: channel names and set reconciliation ([channels.rs])

    A [SyncFilter] states which digests a node holds for a channel; [missing_from] is what the
    other side should be sent. *)
From stdpp Require Import strings.
From S2P Require Import Prelude Utf8 External Toy.

Definition HASH : byte := Byte.x23.

(** [normalize]: trimmed, leading [#]s dropped, lower-cased, one [#] in front. *)
Definition normalize `{UnicodeCase} (name : rstring) : rstring :=
  HASH :: str_to_lowercase (trim_start_matches HASH (trim name)).

(** ["#general"]. *)
Definition DEFAULT_CHANNEL : rstring :=
  [Byte.x23; Byte.x67; Byte.x65; Byte.x6e; Byte.x65; Byte.x72; Byte.x61; Byte.x6c].

Record SyncFilter := mkSyncFilter {
  sf_channel : rstring;
  sf_digests : list bytes;
}.

#[export] Instance SyncFilter_eq_dec : EqDecision SyncFilter.
Proof. solve_decision. Defined.

(** [SyncFilter::new]: sorted, without duplicates. *)
Definition SyncFilter_new (channel : rstring) (digests : list bytes) : SyncFilter :=
  {| sf_channel := channel; sf_digests := dedup (isort bytes_leb digests) |}.

Definition missing_from (mine remote : SyncFilter) : list bytes :=
  let theirs : gset bytes := list_to_set (sf_digests remote) in
  List.filter (λ d, negb (bool_decide (d ∈ theirs))) (sf_digests mine).

(** ** Set reconciliation *)

Lemma isort_bytes_sorted l : sorted_by bytes_leb (isort bytes_leb l).
Proof.
  apply isort_sorted; intros; [apply (key_leb_total (K:=bytes))|].
  by eapply (key_leb_trans (K:=bytes)).
Qed.

Lemma SyncFilter_new_digests c l :
  NoDup (sf_digests (SyncFilter_new c l)) ∧ sorted_by bytes_leb (sf_digests (SyncFilter_new c l))
  ∧ ∀ d, d ∈ sf_digests (SyncFilter_new c l) ↔ d ∈ l.
Proof.
  cbn [SyncFilter_new sf_digests].
  destruct (dedup_sorted_NoDup bytes_leb (isort bytes_leb l)) as [H1 H2].
  - intros x y. apply (key_leb_antisym (K:=bytes)).
  - apply isort_bytes_sorted.
  - split; [done|]. split; [done|]. intros d. by rewrite dedup_elem_of, isort_elem_of.
Qed.

Lemma elem_of_missing_from c l remote d :
  d ∈ missing_from (SyncFilter_new c l) remote ↔ d ∈ l ∧ d ∉ sf_digests remote.
Proof.
  destruct (SyncFilter_new_digests c l) as (_ & _ & Hin). unfold missing_from.
  rewrite list_elem_of_In, List.filter_In, <- list_elem_of_In, Hin, negb_true_iff,
    bool_decide_eq_false, elem_of_list_to_set. done.
Qed.

Lemma missing_from_nodup c l remote :
  NoDup (missing_from (SyncFilter_new c l) remote).
Proof.
  destruct (SyncFilter_new_digests c l) as (Hn & _). unfold missing_from.
  rewrite <- (map_id (List.filter _ _)). apply NoDup_map_filter. by rewrite map_id.
Qed.

(** Two sorted lists without duplicates and with the same elements are the same list: a filter is
    determined by the set it stands for. *)
Lemma sorted_unique (l1 l2 : list bytes) :
  NoDup l1 → NoDup l2 → sorted_by bytes_leb l1 → sorted_by bytes_leb l2 →
  (∀ d, d ∈ l1 ↔ d ∈ l2) → l1 = l2.
Proof.
  intros H1 H2 H3 H4 Heq.
  assert (AntiSymm eq (λ x y, bytes_leb x y = true)) as Ha.
  { intros x y. apply (key_leb_antisym (K:=bytes)). }
  apply (StronglySorted_unique (λ x y, bytes_leb x y = true)); try done.
  by apply NoDup_Permutation.
Qed.

Lemma dedup_isort_id (l : list bytes) :
  NoDup l → sorted_by bytes_leb l → dedup (isort bytes_leb l) = l.
Proof.
  intros Hn Hs. destruct (SyncFilter_new_digests [] l) as (H1 & H2 & H3).
  by apply (sorted_unique (dedup (isort bytes_leb l)) l).
Qed.

(** A filter depends only on the set of digests it is made from. *)
Lemma SyncFilter_new_ext c l l' : (∀ d, d ∈ l ↔ d ∈ l') → SyncFilter_new c l = SyncFilter_new c l'.
Proof.
  intros E. destruct (SyncFilter_new_digests c l) as (N1 & S1 & E1).
  destruct (SyncFilter_new_digests c l') as (N2 & S2 & E2).
  unfold SyncFilter_new in *. cbn [sf_digests] in *. f_equal.
  apply sorted_unique; try done. intros d. by rewrite E1, E2.
Qed.

(** Two nodes that exchange filters and send each other what is missing end with the same
    set: each side sends only digests it holds and the other lacks, each once, and afterwards the
    two hold the same digests - so a further exchange finds nothing missing on either side. *)
Theorem sync_reconciles c (a b : list bytes) :
  let fa := SyncFilter_new c a in
  let fb := SyncFilter_new c b in
  let to_b := missing_from fa fb in
  let to_a := missing_from fb fa in
  NoDup to_b ∧ (∀ d, d ∈ to_b ↔ d ∈ a ∧ d ∉ b)
  ∧ SyncFilter_new c (a ++ to_a) = SyncFilter_new c (b ++ to_b)
  ∧ missing_from (SyncFilter_new c (a ++ to_a)) (SyncFilter_new c (b ++ to_b)) = [].
Proof.
  intros fa fb to_b to_a.
  assert (∀ d, d ∈ to_b ↔ d ∈ a ∧ d ∉ b) as Hb.
  { intros d. unfold to_b, fa, fb. rewrite elem_of_missing_from.
    by rewrite (proj2 (proj2 (SyncFilter_new_digests c b))). }
  assert (∀ d, d ∈ to_a ↔ d ∈ b ∧ d ∉ a) as Ha.
  { intros d. unfold to_a, fa, fb. rewrite elem_of_missing_from.
    by rewrite (proj2 (proj2 (SyncFilter_new_digests c a))). }
  assert (SyncFilter_new c (a ++ to_a) = SyncFilter_new c (b ++ to_b)) as Heq.
  { apply SyncFilter_new_ext. intros d. rewrite !elem_of_app, Ha, Hb.
    destruct (decide (d ∈ a)), (decide (d ∈ b)); tauto. }
  split; [apply missing_from_nodup|]. split; [done|]. split; [done|]. rewrite Heq.
  apply elem_of_nil_inv. intros d. rewrite elem_of_missing_from.
  rewrite (proj2 (proj2 (SyncFilter_new_digests c (b ++ to_b)))). tauto.
Qed.

(** ** Channel names *)

Lemma chunks_ascii s : is_ascii s = true → chunks s = map (λ b, ([b], true)) s.
Proof.
  unfold chunks. induction s as [|b s IH]; cbn; [done|]. intros [Hb Hs]%andb_true_iff.
  rewrite utf8_step_ascii by done. cbn. rewrite drop_0. by rewrite IH.
Qed.

Definition trim_ascii (s : bytes) : bytes :=
  rev (drop_while (λ b, is_whitespace (b2z b)) (rev (drop_while (λ b, is_whitespace (b2z b)) s))).

Lemma drop_while_map {A B} (f : A → B) (p : B → bool) (l : list A) :
  drop_while p (map f l) = map f (drop_while (λ x, p (f x)) l).
Proof. induction l as [|x l IH]; cbn; [done|]. by case_match. Qed.

Lemma trim_is_ascii s : is_ascii s = true → trim s = trim_ascii s.
Proof.
  intros Hs. unfold trim, str_chars, trim_ascii. rewrite chunks_ascii, map_map by done.
  change (λ b, ([b], true).1) with (λ b : byte, [b]).
  rewrite drop_while_map, <- map_rev, drop_while_map, <- map_rev.
  change (λ b : byte, is_whitespace (char_code [b])) with (λ b, is_whitespace (b2z b)).
  induction (rev _) as [|b l IH]; cbn; [done|]. by rewrite IH.
Qed.

Lemma drop_while_suffix {A} (p : A → bool) l : ∃ l1, l = l1 ++ drop_while p l.
Proof.
  induction l as [|x l [l1 IH]]; [by exists []|]. cbn. case_match; [|by exists []].
  exists (x :: l1). cbn. congruence.
Qed.

Lemma drop_while_head {A} (p : A → bool) l x l' : drop_while p l = x :: l' → p x = false.
Proof. induction l; cbn; [done|]. case_match; [done|]. congruence. Qed.

Lemma drop_while_id {A} (p : A → bool) x l : p x = false → drop_while p (x :: l) = x :: l.
Proof. intros E. cbn. by rewrite E. Qed.

(** A string whose first and last bytes are not white space is not changed by trimming. *)
Lemma trim_ascii_id x l y :
  is_whitespace (b2z x) = false → last (x :: l) = Some y → is_whitespace (b2z y) = false →
  trim_ascii (x :: l) = x :: l.
Proof.
  intros Hx Hl Hy. unfold trim_ascii. rewrite drop_while_id by done.
  apply last_Some in Hl as [l' Hl]. rewrite Hl, rev_unit, drop_while_id by done.
  cbn [rev]. by rewrite rev_involutive.
Qed.

(** The last byte left by trimming, if any, is not white space. *)
Lemma trim_ascii_last s y : last (trim_ascii s) = Some y → is_whitespace (b2z y) = false.
Proof.
  unfold trim_ascii. destruct (drop_while _ (rev _)) as [|z l] eqn:E; [done|].
  cbn [rev]. rewrite last_snoc. intros [= <-].
  exact (drop_while_head (λ b, is_whitespace (b2z b)) _ _ _ E).
Qed.

Lemma is_ascii_cons b s : is_ascii (b :: s) = (b2z b <? 128) && is_ascii s.
Proof. done. Qed.

Lemma is_ascii_app a b : is_ascii (a ++ b) = is_ascii a && is_ascii b.
Proof. apply forallb_app. Qed.

Lemma is_ascii_suffix (p : byte → bool) s : is_ascii s = true → is_ascii (drop_while p s) = true.
Proof.
  destruct (drop_while_suffix p s) as [l1 E]. rewrite E at 1. rewrite is_ascii_app.
  by intros [_ ?]%andb_true_iff.
Qed.

Lemma is_ascii_rev s : is_ascii (rev s) = is_ascii s.
Proof.
  induction s as [|b s IH]; [done|]. cbn [rev]. rewrite is_ascii_app, IH. cbn.
  by rewrite andb_true_r, andb_comm.
Qed.

Lemma ascii_lower_ok b :
  (b2z b <? 128) = true →
  (b2z (ascii_lower b) <? 128) = true ∧ ascii_lower (ascii_lower b) = ascii_lower b
  ∧ is_whitespace (b2z (ascii_lower b)) = is_whitespace (b2z b)
  ∧ bool_decide (ascii_lower b = HASH) = bool_decide (b = HASH).
Proof. by destruct b; vm_compute. Qed.

Lemma map_lower_ascii s :
  is_ascii s = true →
  is_ascii (map ascii_lower s) = true ∧ map ascii_lower (map ascii_lower s) = map ascii_lower s.
Proof.
  induction s as [|b s IH]; [done|]. cbn [map]. rewrite !is_ascii_cons.
  intros [Hb Hs]%andb_true_iff.
  destruct (ascii_lower_ok b Hb) as (H1 & H2 & _), (IH Hs) as [H3 H4].
  cbn [map]. by rewrite H1, H2, H3, H4.
Qed.

Section names.
Context `{UnicodeCase, !UnicodeCaseLaws}.

(** On ASCII names [normalize] picks one representative: it always starts with a single
    [#], and normalizing a normalized name changes nothing, so a channel has one name however
    often it passes through. *)
Theorem normalize_idempotent s :
  is_ascii s = true →
  normalize (normalize s) = normalize s ∧ ∃ t, normalize s = HASH :: t ∧ head t ≠ Some HASH.
Proof.
  intros Hs. unfold normalize at 2 3 4. rewrite (trim_is_ascii s Hs).
  set (u := trim_start_matches HASH (trim_ascii s)).
  assert (is_ascii (trim_ascii s) = true) as Hta.
  { unfold trim_ascii. rewrite is_ascii_rev. apply is_ascii_suffix. rewrite is_ascii_rev.
    by apply is_ascii_suffix. }
  assert (is_ascii u = true) as Hu by (by apply is_ascii_suffix).
  destruct (map_lower_ascii u Hu) as [Hlu Hll].
  rewrite (str_to_lowercase_ascii u Hu).
  assert (head (map ascii_lower u) ≠ Some HASH) as Hhead.
  { destruct u as [|x u'] eqn:Eu; [done|]. cbn. intros [= Hx].
    unfold u, trim_start_matches in Eu. apply drop_while_head in Eu as Ex.
    rewrite is_ascii_cons in Hu. apply andb_true_iff in Hu as [Hxa _].
    destruct (ascii_lower_ok x Hxa) as (_ & _ & _ & Eq). rewrite Ex in Eq.
    by apply bool_decide_eq_false in Eq. }
  split; [|by eexists].
  set (v := map ascii_lower u) in *.
  assert (trim (HASH :: v) = HASH :: v) as Htrim.
  { rewrite trim_is_ascii by (by rewrite is_ascii_cons, Hlu).
    destruct (last (HASH :: v)) as [y|] eqn:El; [|by apply last_None in El].
    apply (trim_ascii_id HASH v y); [done|done|].
    destruct (decide (v = [])) as [Ev|Hv].
    - rewrite Ev in El. cbn in El. by simplify_eq.
    - assert (∃ z, last u = Some z ∧ y = ascii_lower z ∧ (b2z z <? 128) = true) as (z & Hz & -> & Hza).
      { destruct (last u) as [z|] eqn:Eu; [|apply last_None in Eu; unfold v in Hv; by rewrite Eu in Hv].
        apply last_Some in Eu as [u' Eu]. exists z. split; [done|].
        unfold v in El. rewrite Eu, map_app in El. change (HASH :: ?a ++ ?b) with ((HASH :: a) ++ b) in El.
        cbn [map] in El. rewrite last_snoc in El. simplify_eq. split; [done|].
        rewrite Eu, is_ascii_app, is_ascii_cons in Hu. lia. }
      destruct (ascii_lower_ok z Hza) as (_ & _ & -> & _).
      apply (trim_ascii_last s). unfold u in Hz.
      destruct (drop_while_suffix (λ b, bool_decide (b = HASH)) (trim_ascii s)) as [l1 E].
      rewrite E, last_app. unfold trim_start_matches in Hz. by rewrite Hz. }
  unfold normalize. rewrite Htrim. f_equal.
  assert (trim_start_matches HASH (HASH :: v) = v) as ->.
  { unfold trim_start_matches. cbn. destruct v as [|x v']; [done|].
    apply drop_while_id. apply bool_decide_eq_false. intros ->. by apply Hhead. }
  by rewrite str_to_lowercase_ascii.
Qed.
End names.

(** ** Witnesses *)

(** [" ##General "] and its normal form. *)
Definition loud_name : rstring :=
  [Byte.x20; Byte.x23; Byte.x23; Byte.x47; Byte.x65; Byte.x6e; Byte.x65; Byte.x72; Byte.x61;
   Byte.x6c; Byte.x20].

Example normalize_loud_name : normalize loud_name = DEFAULT_CHANNEL.
Proof. by vm_compute. Qed.

Lemma normalize_idempotent_witness :
  normalize (normalize loud_name) = normalize loud_name
  ∧ ∃ t, normalize loud_name = HASH :: t ∧ head t ≠ Some HASH.
Proof. apply normalize_idempotent. by vm_compute. Defined.
