(* ===== verification/Store.v ===== *)
(** * Store: persistence behind an interface ([store.rs])

    [Store] is the trait: what a node may ask of its persistence. [StoreLaws] is what a node's
    theorems rely on, and [MemoryStore] is the in-process implementation, which is proved to
    satisfy it. A [HashMap] is iterated in an unspecified order. *)
From stdpp Require Import strings gmap.
From S2P Require Import Prelude Clock Utf8 Wire Toy.

(** ** The stored records *)

Abbreviation Fingerprint := bytes.

Record StoredMessage := mkStoredMessage {
  sm_digest : bytes;
  sm_channel : rstring;
  sm_sender : EphId;
  sm_timestamp_ms : Millis;
  sm_body : bytes;
  sm_raw : bytes;
}.

Record PeerRecord := mkPeerRecord {
  fingerprint : Fingerprint;
  petname : option rstring;
  verified : bool;
  last_eph : EphId;
  last_seen_ms : Millis;
}.

Record StoredDm := mkStoredDm {
  dm_peer : Fingerprint;
  mine : bool;
  dm_timestamp_ms : Millis;
  dm_body : bytes;
}.

Record Envelope := mkEnvelope {
  packet_bytes : bytes;
  queued_ms : Millis;
}.

#[export] Instance StoredMessage_eq_dec : EqDecision StoredMessage.
Proof. solve_decision. Defined.
#[export] Instance PeerRecord_eq_dec : EqDecision PeerRecord.
Proof. solve_decision. Defined.
#[export] Instance StoredDm_eq_dec : EqDecision StoredDm.
Proof. solve_decision. Defined.
#[export] Instance Envelope_eq_dec : EqDecision Envelope.
Proof. solve_decision. Defined.

(** A trust control row: a bare kind byte from 1 to 3. *)
Definition is_control_dm (body : bytes) : bool :=
  match body with
  | [b] => (1 <=? b2z b) && (b2z b <=? 3)
  | _ => false
  end.

(** ** The interface *)

Class Store (S : Type) := {
  put_channel_message : S → StoredMessage → S;
  has_message : S → bytes → bool;
  channel_history : S → rstring → Z → list StoredMessage;
  channel_digests : S → rstring → list bytes;
  message_by_digest : S → bytes → option StoredMessage;
  upsert_peer : S → PeerRecord → S;
  get_peer : S → Fingerprint → option PeerRecord;
  list_peers : S → list PeerRecord;
  put_dm : S → StoredDm → S;
  dm_history : S → Fingerprint → Z → list StoredDm;
  queue_envelope : S → Fingerprint → bytes → Millis → S;
  take_envelopes : S → Fingerprint → list bytes * S;
  delete_peer : S → Fingerprint → S;
  delete_dms : S → Fingerprint → bool → S;
  store_panic_wipe : S → S;
}.

(** What a node relies on: the peer table is a map that only the peer operations change and that
    keeps petnames and verified marks, a message found by digest has it, forgotten threads are
    empty, taken envelopes are gone, and nothing survives a wipe. *)
Class StoreLaws (S : Type) `{Store S} : Prop := {
  get_upsert s p fp :
    ∃ p', petname p' = petname p ∧ verified p' = verified p
    ∧ get_peer (upsert_peer s p) fp
      = if decide (fp = fingerprint p) then Some p' else get_peer s fp;
  get_delete s k fp :
    get_peer (delete_peer s k) fp = if decide (fp = k) then None else get_peer s fp;
  get_put_message s m fp : get_peer (put_channel_message s m) fp = get_peer s fp;
  get_put_dm s d fp : get_peer (put_dm s d) fp = get_peer s fp;
  get_delete_dms s k b fp : get_peer (delete_dms s k b) fp = get_peer s fp;
  get_queue s k b t fp : get_peer (queue_envelope s k b t) fp = get_peer s fp;
  get_take s k fp : get_peer (take_envelopes s k).2 fp = get_peer s fp;
  get_wipe s fp : get_peer (store_panic_wipe s) fp = None;
  found_digest s d m : length d = 8%nat → message_by_digest s d = Some m → sm_digest m = d;
  history_deleted s fp n : dm_history (delete_dms s fp false) fp n = [];
  history_control s fp n d :
    0 <= n → d ∈ dm_history (delete_dms s fp true) fp n → is_control_dm (dm_body d) = false;
  history_wiped s fp n : dm_history (store_panic_wipe s) fp n = [];
  messages_wiped s d : message_by_digest (store_panic_wipe s) d = None;
  envelopes_taken s fp : (take_envelopes (take_envelopes s fp).2 fp).1 = [];
  envelopes_wiped s fp : (take_envelopes (store_panic_wipe s) fp).1 = [];
}.

(** [v.split_off(v.len() - limit)] when [v] is longer than [limit]. *)
Definition last_n {A} (limit : Z) (v : list A) : list A :=
  if zlen v >? limit then drop (Z.to_nat (zlen v - limit)) v else v.

(** How far the updates of contacts and threads reach: the last [n] of a thread, before and after
    its control records are deleted, and what is left alone. *)
Definition is_text (d : StoredDm) : bool := negb (is_control_dm (dm_body d)).

Class StoreScope (S : Type) `{Store S} : Prop := {
  history_thread s fp : ∃ thread, ∀ n, in_width 63 n →
    dm_history s fp n = last_n n thread
    ∧ dm_history (delete_dms s fp true) fp n = last_n n (List.filter is_text thread);
  history_others s k b q n :
    in_width 63 n → q ≠ k → dm_history (delete_dms s k b) q n = dm_history s q n;
  history_upsert s p q n : in_width 63 n → dm_history (upsert_peer s p) q n = dm_history s q n;
  history_delete_peer s k q n : in_width 63 n → dm_history (delete_peer s k) q n = dm_history s q n;
  messages_delete_dms s k b d : message_by_digest (delete_dms s k b) d = message_by_digest s d;
  messages_upsert s p d : message_by_digest (upsert_peer s p) d = message_by_digest s d;
  messages_delete_peer s k d : message_by_digest (delete_peer s k) d = message_by_digest s d;
  held_delete_dms s k b q : (take_envelopes (delete_dms s k b) q).1 = (take_envelopes s q).1;
  held_upsert s p q : (take_envelopes (upsert_peer s p) q).1 = (take_envelopes s q).1;
  held_delete_peer s k q : (take_envelopes (delete_peer s k) q).1 = (take_envelopes s q).1;
}.

(** ** [MemoryStore] *)

Record MemoryStore := mkMemoryStore {
  channels : gmap rstring (list StoredMessage);
  digests : gset bytes;
  peers : gmap Fingerprint PeerRecord;
  dms : gmap Fingerprint (list StoredDm);
  envelopes : gmap Fingerprint (list Envelope);
  history_max : Z;
  history_ms : Millis;
  env_ttl_ms : Millis;
  env_max_per_peer : Z;
}.

Definition MemoryStore_new (hmax : Z) (hms ettl : Millis) (emax : Z) : MemoryStore :=
  {| channels := ∅; digests := ∅; peers := ∅; dms := ∅; envelopes := ∅;
     history_max := hmax; history_ms := hms; env_ttl_ms := ettl; env_max_per_peer := emax |}.

Section updates.
Context (s : MemoryStore).
Definition set_channels (x : gmap rstring (list StoredMessage)) (d : gset bytes) : MemoryStore :=
  {| channels := x; digests := d; peers := peers s; dms := dms s; envelopes := envelopes s;
     history_max := history_max s; history_ms := history_ms s; env_ttl_ms := env_ttl_ms s;
     env_max_per_peer := env_max_per_peer s |}.
Definition set_peers (x : gmap Fingerprint PeerRecord) : MemoryStore :=
  {| channels := channels s; digests := digests s; peers := x; dms := dms s;
     envelopes := envelopes s; history_max := history_max s; history_ms := history_ms s;
     env_ttl_ms := env_ttl_ms s; env_max_per_peer := env_max_per_peer s |}.
Definition set_dms (x : gmap Fingerprint (list StoredDm)) : MemoryStore :=
  {| channels := channels s; digests := digests s; peers := peers s; dms := x;
     envelopes := envelopes s; history_max := history_max s; history_ms := history_ms s;
     env_ttl_ms := env_ttl_ms s; env_max_per_peer := env_max_per_peer s |}.
Definition set_envelopes (x : gmap Fingerprint (list Envelope)) : MemoryStore :=
  {| channels := channels s; digests := digests s; peers := peers s; dms := dms s;
     envelopes := x; history_max := history_max s; history_ms := history_ms s;
     env_ttl_ms := env_ttl_ms s; env_max_per_peer := env_max_per_peer s |}.
End updates.

(** How many elements [while v.len() > max { v.remove(0); }] removes from the front. *)
Definition excess {A} (max : Z) (l : list A) : nat := (length l - Z.to_nat max)%nat.

Definition prune_channel (s : MemoryStore) (channel : rstring) (now : Millis) : MemoryStore :=
  match channels s !! channel with
  | None => s
  | Some msgs =>
      let msgs := if history_ms s >? 0
                  then List.filter (λ m, sat_sub now (sm_timestamp_ms m) <? history_ms s) msgs
                  else msgs in
      let n := excess (history_max s) msgs in
      set_channels s (<[channel := drop n msgs]> (channels s))
        (digests s ∖ list_to_set (map sm_digest (take n msgs)))
  end.

Definition mem_put_channel_message (s : MemoryStore) (msg : StoredMessage) : MemoryStore :=
  if bool_decide (sm_digest msg ∈ digests s) then s else
  let now := sm_timestamp_ms msg in
  let channel := sm_channel msg in
  let v := default [] (channels s !! channel) ++ [msg] in
  let s1 := set_channels s (<[channel := sort_by_key sm_timestamp_ms v]> (channels s))
              ({[ sm_digest msg ]} ∪ digests s) in
  prune_channel s1 channel now.

Definition mem_has_message (s : MemoryStore) (digest : bytes) : bool :=
  bool_decide (digest ∈ digests s).

Definition mem_channel_history (s : MemoryStore) (channel : rstring) (limit : Z)
    : list StoredMessage :=
  last_n limit (sort_by_key sm_timestamp_ms (default [] (channels s !! channel))).

Definition mem_channel_digests (s : MemoryStore) (channel : rstring) : list bytes :=
  default [] (map sm_digest <$> channels s !! channel).

Definition mem_message_by_digest `{HashIter} (s : MemoryStore) (digest : bytes)
    : option StoredMessage :=
  List.find (λ m, bool_decide (sm_digest m = digest))
    (concat (map snd (hash_iter (channels s)))).

Definition mem_upsert_peer (s : MemoryStore) (p : PeerRecord) : MemoryStore :=
  set_peers s (<[fingerprint p := p]> (peers s)).

Definition mem_get_peer (s : MemoryStore) (fp : Fingerprint) : option PeerRecord := peers s !! fp.

Definition mem_list_peers `{HashIter} (s : MemoryStore) : list PeerRecord :=
  map snd (hash_iter (peers s)).

Definition mem_put_dm (s : MemoryStore) (dm : StoredDm) : MemoryStore :=
  let thread := sort_by_key dm_timestamp_ms (default [] (dms s !! dm_peer dm) ++ [dm]) in
  set_dms s (<[dm_peer dm := drop (excess (history_max s) thread) thread]> (dms s)).

Definition mem_dm_history (s : MemoryStore) (peer : Fingerprint) (limit : Z) : list StoredDm :=
  last_n limit (sort_by_key dm_timestamp_ms (default [] (dms s !! peer))).

Definition mem_queue_envelope (s : MemoryStore) (recipient : Fingerprint) (pkt : bytes)
    (now : Millis) : MemoryStore :=
  let q := List.filter (λ e, sat_sub now (queued_ms e) <? env_ttl_ms s)
             (default [] (envelopes s !! recipient)) in
  let q := q ++ [{| packet_bytes := pkt; queued_ms := now |}] in
  set_envelopes s (<[recipient := drop (excess (env_max_per_peer s) q) q]> (envelopes s)).

Definition mem_take_envelopes (s : MemoryStore) (recipient : Fingerprint)
    : list bytes * MemoryStore :=
  (default [] (map packet_bytes <$> envelopes s !! recipient),
   set_envelopes s (delete recipient (envelopes s))).

Definition mem_delete_peer (s : MemoryStore) (fp : Fingerprint) : MemoryStore :=
  set_peers s (delete fp (peers s)).

Definition mem_delete_dms (s : MemoryStore) (fp : Fingerprint) (only_control : bool)
    : MemoryStore :=
  if only_control then
    match dms s !! fp with
    | Some thread =>
        set_dms s (<[fp := List.filter (λ d, negb (is_control_dm (dm_body d))) thread]> (dms s))
    | None => s
    end
  else set_dms s (delete fp (dms s)).

Definition mem_panic_wipe (s : MemoryStore) : MemoryStore :=
  {| channels := ∅; digests := ∅; peers := ∅; dms := ∅; envelopes := ∅;
     history_max := history_max s; history_ms := history_ms s; env_ttl_ms := env_ttl_ms s;
     env_max_per_peer := env_max_per_peer s |}.

#[export] Instance MemoryStore_Store `{HashIter} : Store MemoryStore := {|
  put_channel_message := mem_put_channel_message;
  has_message := mem_has_message;
  channel_history := mem_channel_history;
  channel_digests := mem_channel_digests;
  message_by_digest := mem_message_by_digest;
  upsert_peer := mem_upsert_peer;
  get_peer := mem_get_peer;
  list_peers := mem_list_peers;
  put_dm := mem_put_dm;
  dm_history := mem_dm_history;
  queue_envelope := mem_queue_envelope;
  take_envelopes := mem_take_envelopes;
  delete_peer := mem_delete_peer;
  delete_dms := mem_delete_dms;
  store_panic_wipe := mem_panic_wipe;
|}.

(** ** Lemmas: the list operations *)

Lemma zlen_drop_excess {A} max (l : list A) : zlen (drop (excess max l) l) <= Z.max 0 max.
Proof. unfold excess, zlen. rewrite length_drop. lia. Qed.

Lemma drop_excess_nil {A} max (l : list A) : zlen l <= max → drop (excess max l) l = l.
Proof. unfold excess, zlen. intros H. by replace (_ - _)%nat with 0%nat by lia. Qed.

Lemma last_n_suffix {A} limit (v : list A) : ∃ v1, v = v1 ++ last_n limit v.
Proof.
  unfold last_n. case_match; [|by exists []].
  exists (take (Z.to_nat (zlen v - limit)) v). by rewrite take_drop.
Qed.

Lemma zlen_last_n {A} limit (v : list A) : 0 <= limit → zlen (last_n limit v) = Z.min limit (zlen v).
Proof. intros Hl. unfold last_n, zlen. case_match; [rewrite length_drop|]; lia. Qed.

Lemma last_n_elem {A} limit (v : list A) x : x ∈ last_n limit v → x ∈ v.
Proof. destruct (last_n_suffix limit v) as [v1 E]. rewrite E at 2. intros. apply elem_of_app. by right. Qed.

Lemma last_n_nil {A} limit : last_n (A:=A) limit [] = [].
Proof. unfold last_n. case_match; [|done]. by rewrite drop_nil. Qed.

Lemma elem_of_filter_list {A} (p : A → bool) l x : x ∈ List.filter p l ↔ x ∈ l ∧ p x = true.
Proof. by rewrite list_elem_of_In, List.filter_In, <- list_elem_of_In. Qed.

Lemma elem_of_sort_by_key {A} (f : A → Z) l x : x ∈ sort_by_key f l ↔ x ∈ l.
Proof. apply isort_elem_of. Qed.

Lemma elem_of_drop_list {A} n (l : list A) x : x ∈ drop n l → x ∈ l.
Proof. intros H. rewrite <- (take_drop n l). apply elem_of_app. by right. Qed.

Lemma NoDup_map_drop {A B} (f : A → B) n l : NoDup (map f l) → NoDup (map f (drop n l)).
Proof.
  rewrite <- (take_drop n l) at 1. rewrite map_app. by intros (_ & _ & ?)%NoDup_app.
Qed.

(** ** The interface holds *)

Section laws.
Context `{HashIter, !HashIterLaws}.

#[export] Instance MemoryStore_StoreLaws : StoreLaws MemoryStore.
Proof.
  assert (Hprune : ∀ s c t, peers (prune_channel s c t) = peers s).
  { intros s c t. unfold prune_channel. by case_match. }
  split; cbn.
  - intros s p fp. exists p. split_and!; [done..|].
    unfold mem_get_peer, mem_upsert_peer. cbn. case_decide as E.
    + by rewrite E, lookup_insert_eq.
    + by rewrite lookup_insert_ne.
  - intros s k fp. unfold mem_get_peer, mem_delete_peer. cbn. case_decide as E.
    + by rewrite E, lookup_delete_eq.
    + by rewrite lookup_delete_ne.
  - intros s m fp. unfold mem_get_peer, mem_put_channel_message. case_bool_decide; [done|].
    by rewrite Hprune.
  - done.
  - intros s k b fp. unfold mem_get_peer, mem_delete_dms. by repeat case_match.
  - done.
  - done.
  - intros s fp. apply lookup_empty.
  - intros s d m _ Hm. apply List.find_some in Hm as [_ Hm]. by apply bool_decide_eq_true in Hm.
  - intros s fp n. unfold mem_dm_history, mem_delete_dms. cbn [dms set_dms].
    rewrite lookup_delete_eq. apply last_n_nil.
  - intros s fp n d _ Hd. apply last_n_elem, elem_of_sort_by_key in Hd.
    unfold mem_delete_dms in Hd. destruct (dms s !! fp) as [th|] eqn:E.
    + cbn [dms set_dms] in Hd. rewrite lookup_insert_eq in Hd. cbn in Hd.
      apply elem_of_filter_list in Hd as [_ Hd]. by apply negb_true_iff in Hd.
    + rewrite E in Hd. by apply not_elem_of_nil in Hd.
  - intros s fp n. unfold mem_dm_history. cbn [dms mem_panic_wipe]. rewrite lookup_empty.
    apply last_n_nil.
  - intros s d. unfold mem_message_by_digest. cbn [channels mem_panic_wipe].
    by rewrite hash_iter_empty.
  - intros s fp. by rewrite lookup_delete_eq.
  - intros s fp. done.
Qed.

#[export] Instance MemoryStore_StoreScope : StoreScope MemoryStore.
Proof.
  split; cbn; try done.
  - intros s fp. exists (sort_by_key dm_timestamp_ms (default [] (dms s !! fp))). intros n _. split; [done|].
    rewrite sort_by_key_filter. unfold mem_dm_history, mem_delete_dms.
    destruct (dms s !! fp) as [th|] eqn:E; cbn [dms set_dms]; [by rewrite lookup_insert_eq|by rewrite E].
  - intros s k b q n _ Hq. unfold mem_dm_history, mem_delete_dms.
    destruct b; [destruct (dms s !! k); [|done]|]; cbn [dms set_dms];
      [by rewrite lookup_insert_ne by done|by rewrite lookup_delete_ne by done].
  - intros s k b d. unfold mem_delete_dms. by repeat case_match.
  - intros s k b q. unfold mem_delete_dms. by repeat case_match.
Qed.
End laws.

(** ** The invariant of [MemoryStore] *)

Record channel_ok (s : MemoryStore) (c : rstring) (l : list StoredMessage) : Prop := {
  co_sorted : sorted_by (λ x y, sm_timestamp_ms x <=? sm_timestamp_ms y) l;
  co_nodup : NoDup (map sm_digest l);
  co_member : Forall (λ m, sm_channel m = c ∧ sm_digest m ∈ digests s) l;
}.

Record messages_ok (s : MemoryStore) : Prop := {
  mo_channels c l : channels s !! c = Some l → channel_ok s c l;
  mo_unique c1 l1 m1 c2 l2 m2 :
    channels s !! c1 = Some l1 → channels s !! c2 = Some l2 → m1 ∈ l1 → m2 ∈ l2 →
    sm_digest m1 = sm_digest m2 → m1 = m2;
}.

(** What is left of a list when messages are filtered and the oldest dropped. *)
Lemma channel_ok_sub s s' c l l' :
  channel_ok s c l → (∃ p n, l' = drop n (List.filter p l)) →
  Forall (λ m, sm_digest m ∈ digests s') l' → channel_ok s' c l'.
Proof.
  intros [Hs Hn Hm] (p & n & ->) Hd. split.
  - by apply sorted_by_drop, sorted_by_filter.
  - by apply NoDup_map_drop, NoDup_map_filter.
  - rewrite Forall_forall in Hm, Hd |- *. intros m Hin. split; [|by apply Hd].
    apply elem_of_drop_list, elem_of_filter_list in Hin as [Hin _]. by apply Hm.
Qed.

(** Adding a message whose digest is new, and sorting. *)
Lemma channel_ok_add s c l msg :
  channel_ok s c l → sm_channel msg = c → sm_digest msg ∉ digests s →
  ∀ s', digests s' = {[ sm_digest msg ]} ∪ digests s →
  channel_ok s' c (sort_by_key sm_timestamp_ms (l ++ [msg])).
Proof.
  intros [Hs Hn Hm] Hc Hd s' Hds. rewrite Forall_forall in Hm. split.
  - apply sort_by_key_sorted.
  - rewrite sort_by_key_perm, map_app. apply NoDup_app. split; [done|]. split.
    + intros d Hin. cbn. rewrite list_elem_of_singleton. intros ->. apply Hd.
      apply elem_of_map_list in Hin as (m & Hin & ->). by apply Hm.
    + cbn. apply NoDup_singleton.
  - rewrite sort_by_key_perm. apply Forall_app. rewrite Hds. split.
    + apply Forall_forall. intros m Hin. destruct (Hm m Hin). set_solver.
    + constructor; [|done]. set_solver.
Qed.

(** One channel rewritten: what the pruning at the end of an insertion produces. *)
Lemma messages_ok_replace s c l l0 p n :
  messages_ok s → channels s !! c = Some l0 →
  l = drop n (List.filter p l0) →
  ∀ dropped, dropped = take n (List.filter p l0) →
  messages_ok (set_channels s (<[c := l]> (channels s))
                 (digests s ∖ list_to_set (map sm_digest dropped))).
Proof.
  intros Hok Hc Hl dropped Hdr.
  assert (∀ m, m ∈ l → m ∈ l0) as Hsub.
  { intros m Hm. subst l. by apply elem_of_drop_list, elem_of_filter_list in Hm as [? _]. }
  assert (∀ m, m ∈ dropped → m ∈ l0) as Hdsub.
  { intros m Hm. subst dropped. assert (m ∈ List.filter p l0) as Hf.
    { rewrite <- (take_drop n (List.filter p l0)). apply elem_of_app. by left. }
    by apply elem_of_filter_list in Hf as [? _]. }
  assert (∀ m m', m ∈ dropped → m' ∈ l → sm_digest m ≠ sm_digest m') as Hdis.
  { intros m m' Hm Hm' E. pose proof (co_nodup _ _ _ (mo_channels _ Hok _ _ Hc)) as Hn.
    apply (NoDup_map_filter _ p) in Hn. rewrite <- (take_drop n (List.filter p l0)) in Hn.
    rewrite map_app in Hn. apply NoDup_app in Hn as (_ & Hn & _).
    apply (Hn (sm_digest m)); apply elem_of_map_list; [exists m|exists m']; by subst. }
  assert (∀ c' l', <[c := l]> (channels s) !! c' = Some l' →
    ∃ l'', channels s !! c' = Some l'' ∧ ∀ m, m ∈ l' → m ∈ l'') as Hlook.
  { intros c' l' [[<- <-]|[? ?]]%lookup_insert_Some; [by exists l0|by exists l']. }
  assert (∀ c' l' m, <[c := l]> (channels s) !! c' = Some l' → m ∈ l' →
    sm_digest m ∈ digests s ∖ list_to_set (map sm_digest dropped)) as Hdig.
  { intros c' l' m Hc' Hm. destruct (Hlook _ _ Hc') as (l'' & Hc'' & Hin).
    pose proof (co_member _ _ _ (mo_channels _ Hok _ _ Hc'')) as HF. rewrite Forall_forall in HF.
    apply elem_of_difference. split; [by apply HF, Hin|].
    rewrite elem_of_list_to_set, elem_of_map_list. intros (md & Hmd & E).
    apply lookup_insert_Some in Hc' as [[<- <-]|[Hne Hc']]; [by apply (Hdis md m)|].
    pose proof (mo_unique _ Hok _ _ m _ _ md Hc'' Hc (Hin _ Hm) (Hdsub _ Hmd) E) as ->.
    destruct (HF md (Hin _ Hm)) as [Hch _].
    pose proof (co_member _ _ _ (mo_channels _ Hok _ _ Hc)) as HF0. rewrite Forall_forall in HF0.
    destruct (HF0 md (Hdsub _ Hmd)). congruence. }
  split; cbn [channels set_channels history_max].
  - intros c' l' Hc'. assert (Forall (λ m, sm_digest m ∈ digests s ∖
      list_to_set (map sm_digest dropped)) l') as HF by (apply Forall_forall; eauto).
    apply lookup_insert_Some in Hc' as [[<- <-]|[? Hc']].
    + eapply channel_ok_sub; [exact (mo_channels _ Hok _ _ Hc)|by exists p, n|done].
    + destruct (mo_channels _ Hok _ _ Hc') as [H1 H2 H3]. split; [done|done|].
      rewrite Forall_forall in H3, HF |- *. intros m Hm. split; [by apply H3|by apply HF].
  - intros c1 l1 m1 c2 l2 m2 H1 H2 Hm1 Hm2 E.
    destruct (Hlook _ _ H1) as (k1 & Hk1 & Hin1), (Hlook _ _ H2) as (k2 & Hk2 & Hin2).
    exact (mo_unique _ Hok _ _ _ _ _ _ Hk1 Hk2 (Hin1 _ Hm1) (Hin2 _ Hm2) E).
Qed.

Lemma filter_true {A} (l : list A) : List.filter (λ _, true) l = l.
Proof. induction l as [|x l IH]; [done|]. cbn. by rewrite IH. Qed.

Lemma prune_channel_ok s c now :
  messages_ok s → messages_ok (prune_channel s c now).
Proof.
  intros Hok. unfold prune_channel. destruct (channels s !! c) as [l0|] eqn:Hc; [|done].
  destruct (history_ms s >? 0).
  - by eapply messages_ok_replace.
  - eapply (messages_ok_replace s c _ l0 (λ _, true)); [done|done| |]; by rewrite filter_true.
Qed.

Lemma put_channel_message_ok s msg : messages_ok s → messages_ok (mem_put_channel_message s msg).
Proof.
  intros Hok. unfold mem_put_channel_message. case_bool_decide as Hd; [done|].
  apply prune_channel_ok. set (c := sm_channel msg).
  set (l0 := default [] (channels s !! c)).
  assert (channel_ok s c l0 ∧ ∀ m, m ∈ l0 → channels s !! c = Some l0) as [Hl0 Hin].
  { unfold l0. destruct (channels s !! c) as [l|] eqn:E; cbn [default].
    - split; [by apply (mo_channels _ Hok)|done].
    - split; [|by intros m ?%not_elem_of_nil]. split; constructor. }
  set (s1 := set_channels s _ _).
  assert (channels s1 = <[c := sort_by_key sm_timestamp_ms (l0 ++ [msg])]> (channels s)) as Hs1
    by done.
  assert (∀ c' l' m, channels s1 !! c' = Some l' → m ∈ l' →
    m = msg ∧ c' = c ∨ (∃ l, channels s !! c' = Some l ∧ m ∈ l)) as Hlook.
  { intros c' l' m Hc' Hm. rewrite Hs1 in Hc'.
    apply lookup_insert_Some in Hc' as [[<- <-]|[? Hc']]; [|right; by exists l'].
    apply elem_of_sort_by_key, elem_of_app in Hm as [Hm| ->%list_elem_of_singleton]; [|by left].
    right. exists l0. by split; [apply (Hin m)|]. }
  assert (∀ l m c', channels s !! c' = Some l → m ∈ l → sm_digest m ∈ digests s) as Hdig.
  { intros l m c' Hc' Hm. pose proof (co_member _ _ _ (mo_channels _ Hok _ _ Hc')) as HF.
    rewrite Forall_forall in HF. by apply HF. }
  split.
  - intros c' l' Hc'. rewrite Hs1 in Hc'.
    apply lookup_insert_Some in Hc' as [[<- <-]|[? Hc']].
    + by eapply channel_ok_add.
    + destruct (mo_channels _ Hok _ _ Hc') as [H1 H2 H3]. split; [done|done|].
      eapply Forall_impl; [exact H3|]. cbn. set_solver.
  - intros c1 l1 m1 c2 l2 m2 H1 H2 Hm1 Hm2 E.
    destruct (Hlook _ _ _ H1 Hm1) as [[-> _]|(k1 & K1 & M1)],
      (Hlook _ _ _ H2 Hm2) as [[-> _]|(k2 & K2 & M2)]; [done|..].
    + destruct Hd. rewrite E. by eapply Hdig.
    + destruct Hd. rewrite <- E. by eapply Hdig.
    + exact (mo_unique _ Hok _ _ _ _ _ _ K1 K2 M1 M2 E).
Qed.

(** The retention limits. *)
Record limits_ok (s : MemoryStore) : Prop := {
  lo_channels : map_Forall (λ _ l, zlen l <= Z.max 0 (history_max s)) (channels s);
  lo_dms : map_Forall (λ k l, zlen l <= Z.max 0 (history_max s)
             ∧ sorted_by (λ x y, dm_timestamp_ms x <=? dm_timestamp_ms y) l
             ∧ Forall (λ d, dm_peer d = k) l) (dms s);
  lo_envelopes : map_Forall (λ _ l, zlen l <= Z.max 0 (env_max_per_peer s)) (envelopes s);
  lo_peers : map_Forall (λ k p, fingerprint p = k) (peers s);
}.

(** Every operation of the trait that changes the state. *)
Inductive store_op :=
  | OpMessage (m : StoredMessage)
  | OpPeer (p : PeerRecord)
  | OpDm (d : StoredDm)
  | OpQueue (fp : Fingerprint) (pkt : bytes) (now : Millis)
  | OpTake (fp : Fingerprint)
  | OpDeletePeer (fp : Fingerprint)
  | OpDeleteDms (fp : Fingerprint) (only_control : bool)
  | OpWipe.

Definition store_step (s : MemoryStore) (o : store_op) : MemoryStore :=
  match o with
  | OpMessage m => mem_put_channel_message s m
  | OpPeer p => mem_upsert_peer s p
  | OpDm d => mem_put_dm s d
  | OpQueue fp b t => mem_queue_envelope s fp b t
  | OpTake fp => (mem_take_envelopes s fp).2
  | OpDeletePeer fp => mem_delete_peer s fp
  | OpDeleteDms fp b => mem_delete_dms s fp b
  | OpWipe => mem_panic_wipe s
  end.

Lemma messages_ok_same s s' :
  channels s' = channels s → digests s' = digests s → messages_ok s → messages_ok s'.
Proof.
  intros Ec Ed [H1 H2]. split; rewrite Ec; [|done].
  intros c l Hc. destruct (H1 c l Hc) as [? ? H3]. by split; [..|rewrite Ed].
Qed.

Lemma messages_ok_empty s : channels s = ∅ → messages_ok s.
Proof.
  intros E. split; rewrite E; [intros c l|intros c1 l1 m1 c2 l2 m2]; by rewrite lookup_empty.
Qed.

Lemma store_step_messages s o : messages_ok s → messages_ok (store_step s o).
Proof.
  intros Hok. destruct o; cbn [store_step].
  - by apply put_channel_message_ok.
  - by apply (messages_ok_same s).
  - by apply (messages_ok_same s).
  - by apply (messages_ok_same s).
  - by apply (messages_ok_same s).
  - by apply (messages_ok_same s).
  - unfold mem_delete_dms. destruct only_control; [destruct (dms s !! fp)|]; try done;
      by apply (messages_ok_same s).
  - by apply messages_ok_empty.
Qed.

Lemma filter_length_le {A} (p : A → bool) (l : list A) : zlen (List.filter p l) <= zlen l.
Proof. unfold zlen. apply inj_le, List.filter_length_le. Qed.

Lemma put_channel_message_limits s m : limits_ok s → limits_ok (mem_put_channel_message s m).
Proof.
  intros [Hc Hd He Hp]. unfold mem_put_channel_message. case_bool_decide; [done|].
  unfold prune_channel. cbn [channels set_channels]. rewrite lookup_insert_eq.
  split; cbn [channels dms envelopes peers set_channels history_max env_max_per_peer]; try done.
  rewrite insert_insert_eq. apply map_Forall_insert_2; [apply zlen_drop_excess|done].
Qed.

Lemma put_dm_limits s d : limits_ok s → limits_ok (mem_put_dm s d).
Proof.
  intros [Hc Hd He Hp]. split; cbn; try done.
  apply map_Forall_insert_2; [|done]. split; [apply zlen_drop_excess|].
  split; [apply sorted_by_drop, sort_by_key_sorted|].
  apply Forall_forall. intros x Hx%elem_of_drop_list%elem_of_sort_by_key.
  apply elem_of_app in Hx as [Hx| ->%list_elem_of_singleton]; [|done].
  destruct (dms s !! dm_peer d) as [l|] eqn:E; [|by apply not_elem_of_nil in Hx].
  destruct (Hd _ _ E) as (_ & _ & HF). rewrite Forall_forall in HF. by apply HF.
Qed.

Lemma delete_dms_limits s fp b : limits_ok s → limits_ok (mem_delete_dms s fp b).
Proof.
  intros [Hc Hd He Hp]. unfold mem_delete_dms. destruct b.
  - destruct (dms s !! fp) as [l|] eqn:E; [|done]. split; cbn; try done.
    apply map_Forall_insert_2; [|done]. destruct (Hd _ _ E) as (H1 & H2 & H3).
    split; [etrans; [apply filter_length_le|done]|]. split; [by apply sorted_by_filter|].
    rewrite Forall_forall in H3 |- *. intros x [Hx _]%elem_of_filter_list. by apply H3.
  - split; cbn; try done. by apply map_Forall_delete.
Qed.

Lemma store_step_limits s o : limits_ok s → limits_ok (store_step s o).
Proof.
  intros Hok. destruct o; cbn [store_step].
  - by apply put_channel_message_limits.
  - destruct Hok. split; cbn; try done. by apply map_Forall_insert_2.
  - by apply put_dm_limits.
  - destruct Hok. split; cbn; try done. apply map_Forall_insert_2; [apply zlen_drop_excess|done].
  - destruct Hok. split; cbn; try done. by apply map_Forall_delete.
  - destruct Hok. split; cbn; try done. by apply map_Forall_delete.
  - by apply delete_dms_limits.
  - split; apply map_Forall_empty.
Qed.

Lemma store_run_ok s ops :
  messages_ok s → limits_ok s →
  messages_ok (foldl store_step s ops) ∧ limits_ok (foldl store_step s ops).
Proof.
  revert s. induction ops as [|o ops IH]; intros s Hm Hl; [done|]. cbn [foldl].
  apply IH; [by apply store_step_messages|by apply store_step_limits].
Qed.

Lemma MemoryStore_new_ok h t e m :
  messages_ok (MemoryStore_new h t e m) ∧ limits_ok (MemoryStore_new h t e m).
Proof. split; [by apply messages_ok_empty|]. split; apply map_Forall_empty. Qed.

(** C32: whatever sequence of operations a store has been through, every channel is in time
    order with distinct digests that the digest set knows, no two stored messages share a digest
    even across channels, and the retention limits on messages, threads and queued envelopes
    hold. *)
Theorem memory_store_invariant hmax hms ettl emax ops :
  let s := foldl store_step (MemoryStore_new hmax hms ettl emax) ops in
  messages_ok s ∧ limits_ok s.
Proof.
  destruct (MemoryStore_new_ok hmax hms ettl emax) as [H1 H2]. by apply store_run_ok.
Qed.

Section lookup.
Context `{HashIter, !HashIterLaws}.

Lemma find_unique {A} (p : A → bool) l x :
  (∀ y, y ∈ l → p y = true → y = x) → x ∈ l → p x = true → List.find p l = Some x.
Proof.
  intros Hu Hx Hp. destruct (List.find p l) as [y|] eqn:E.
  - apply List.find_some in E as [Hy Hpy]. f_equal. apply Hu; [by apply list_elem_of_In|done].
  - apply list_elem_of_In in Hx. pose proof (List.find_none _ _ E x Hx). congruence.
Qed.

Lemma elem_of_all_messages s m :
  m ∈ concat (map snd (hash_iter (channels s))) ↔ ∃ c l, channels s !! c = Some l ∧ m ∈ l.
Proof.
  rewrite list_elem_of_In, in_concat. setoid_rewrite <- list_elem_of_In.
  setoid_rewrite elem_of_map_list. split.
  - intros (l & ([c l'] & Hc & ->) & Hm). apply elem_of_hash_iter in Hc. by exists c, l'.
  - intros (c & l & Hc & Hm). exists l. split; [|done]. exists (c, l).
    split; [by apply elem_of_hash_iter|done].
Qed.

(** Looking a message up by its digest finds it exactly when some channel holds it - the
    answer does not depend on the order the hash map is iterated in. *)
Theorem message_by_digest_iff s d m :
  messages_ok s →
  message_by_digest s d = Some m
  ↔ sm_digest m = d ∧ ∃ c l, channels s !! c = Some l ∧ m ∈ l.
Proof.
  intros Hok. cbn [message_by_digest MemoryStore_Store]. unfold mem_message_by_digest.
  rewrite <- elem_of_all_messages. split.
  - intros E. apply List.find_some in E as [Hm Hd%bool_decide_eq_true].
    split; [done|by apply list_elem_of_In].
  - intros [Hd Hm]. apply find_unique; [|done|by apply bool_decide_eq_true].
    intros y Hy Ey%bool_decide_eq_true.
    apply elem_of_all_messages in Hm as (c1 & l1 & H1 & M1).
    apply elem_of_all_messages in Hy as (c2 & l2 & H2 & M2).
    apply (mo_unique _ Hok _ _ _ _ _ _ H2 H1 M2 M1). congruence.
Qed.

(** A channel's history is the newest [limit] messages held for it, oldest first. *)
Theorem channel_history_newest s c limit :
  messages_ok s → 0 <= limit →
  let l := default [] (channels s !! c) in
  let h := channel_history s c limit in
  zlen h = Z.min limit (zlen l)
  ∧ sorted_by (λ x y, sm_timestamp_ms x <=? sm_timestamp_ms y) h
  ∧ ∃ older, l = older ++ h ∧ ∀ x y, x ∈ older → y ∈ h → sm_timestamp_ms x <= sm_timestamp_ms y.
Proof.
  intros Hok Hl l h.
  assert (sorted_by (λ x y, sm_timestamp_ms x <=? sm_timestamp_ms y) l) as Hs.
  { unfold l. destruct (channels s !! c) as [l0|] eqn:E; [|constructor].
    apply (co_sorted _ _ _ (mo_channels _ Hok _ _ E)). }
  assert (h = last_n limit l) as Hh.
  { unfold h. cbn. unfold mem_channel_history. by rewrite sort_by_key_id. }
  rewrite Hh. destruct (last_n_suffix limit l) as [older E].
  split; [by apply zlen_last_n|]. rewrite E in Hs.
  split; [by eapply sorted_by_app_r|].
  exists older. split; [done|]. intros x y Hx Hy.
  clear E. induction older as [|z older IH]; [by apply not_elem_of_nil in Hx|].
  cbn [app] in Hs. apply StronglySorted_inv in Hs as [Hs HF].
  apply elem_of_cons in Hx as [->|Hx]; [|by apply IH].
  rewrite Forall_forall in HF. specialize (HF y). cbv beta in HF.
  assert (y ∈ older ++ last_n limit l) as Hin by (apply elem_of_app; by right).
  specialize (HF Hin). lia.
Qed.

(** A message's own timestamp is the clock its channel is pruned by. One message stamped
    [history_ms] or more after everything in its channel empties the channel of everything else;
    the digests of what it removed stay behind, so those messages are gone but still count as
    held, and storing one of them again is ignored. *)
Theorem future_message_empties_channel s m old l :
  messages_ok s → sm_digest m ∉ digests s → 0 < history_ms s → 1 <= history_max s →
  channels s !! sm_channel m = Some l → old ∈ l →
  (∀ x, x ∈ l → 0 <= sm_timestamp_ms x ∧ sm_timestamp_ms x + history_ms s <= sm_timestamp_ms m) →
  let s' := put_channel_message s m in
  channels s' !! sm_channel m = Some [m]
  ∧ has_message s' (sm_digest old) = true ∧ message_by_digest s' (sm_digest old) = None
  ∧ put_channel_message s' old = s'.
Proof.
  intros Hok Hd Hms Hmax Hc Hold Hts s'.
  assert (zlen [m] <= history_max s) as Hone by (unfold zlen; cbn [length]; lia).
  assert (List.filter (λ x, sat_sub (sm_timestamp_ms m) (sm_timestamp_ms x) <? history_ms s)
            (sort_by_key sm_timestamp_ms (l ++ [m])) = [m]) as Hfil.
  { rewrite sort_by_key_id.
    - rewrite List.filter_app. assert (List.filter (λ x, sat_sub (sm_timestamp_ms m)
        (sm_timestamp_ms x) <? history_ms s) l = []) as ->.
      { apply elem_of_nil_inv. intros x [Hx Hlt]%elem_of_filter_list.
        destruct (Hts x Hx). unfold sat_sub in Hlt. lia. }
      cbn. by rewrite (proj2 (Z.ltb_lt _ _)) by (unfold sat_sub; lia).
    - apply StronglySorted_app_2; [|apply (co_sorted _ _ _ (mo_channels _ Hok _ _ Hc))|repeat constructor].
      intros x y Hx ->%list_elem_of_singleton. destruct (Hts x Hx). lia. }
  assert (s' = set_channels s (<[sm_channel m := [m]]> (channels s))
                 ({[ sm_digest m ]} ∪ digests s ∖ ∅)) as Hs'.
  { unfold s'. cbn. unfold mem_put_channel_message. rewrite bool_decide_eq_false_2 by done.
    unfold prune_channel. cbn [channels set_channels history_ms history_max digests].
    rewrite lookup_insert_eq, (proj2 (Z.gtb_lt _ _)), Hc by lia.
    change (default [] (Some l)) with l. rewrite Hfil, insert_insert_eq.
    assert (excess (history_max s) [m] = 0%nat) as -> by (unfold excess; cbn [length]; lia).
    cbn [take drop map list_to_set]. unfold set_channels. cbn. f_equal. set_solver. }
  clearbody s'.
  assert (sm_digest old ∈ digests s) as Hod.
  { pose proof (co_member _ _ _ (mo_channels _ Hok _ _ Hc)) as HF. rewrite Forall_forall in HF.
    by apply HF. }
  assert (has_message s' (sm_digest old) = true) as Hhas.
  { rewrite Hs'. cbn. apply bool_decide_eq_true. cbn. set_solver. }
  split; [rewrite Hs'; cbn; by rewrite lookup_insert_eq|]. split; [done|]. split.
  - destruct (message_by_digest s' (sm_digest old)) as [x|] eqn:E; [|done]. exfalso.
    cbn in E. unfold mem_message_by_digest in E.
    apply List.find_some in E as [Hx Ex%bool_decide_eq_true].
    apply list_elem_of_In, elem_of_all_messages in Hx as (c & lc & Hlc & Hx).
    rewrite Hs' in Hlc. cbn in Hlc. apply lookup_insert_Some in Hlc as [[<- <-]|[Hne Hlc]].
    + apply list_elem_of_singleton in Hx. subst x. congruence.
    + pose proof (mo_unique _ Hok _ _ _ _ _ _ Hlc Hc Hx Hold Ex) as ->.
      pose proof (co_member _ _ _ (mo_channels _ Hok _ _ Hlc)) as HF.
      pose proof (co_member _ _ _ (mo_channels _ Hok _ _ Hc)) as HF2.
      rewrite Forall_forall in HF, HF2. destruct (HF _ Hx), (HF2 _ Hold). congruence.
  - cbn in Hhas |- *. unfold mem_put_channel_message at 1. unfold mem_has_message in Hhas.
    by rewrite Hhas.
Qed.
End lookup.

(** ** Witnesses *)

Definition demo_message (d : byte) (ts : Millis) : StoredMessage :=
  mkStoredMessage [d] [Byte.x23] (zeroes 8) ts [d] [d].

Definition demo_store : MemoryStore :=
  foldl store_step (MemoryStore_new 3 1000 5000 2)
    [OpMessage (demo_message Byte.x01 30); OpMessage (demo_message Byte.x02 10)].

Lemma demo_store_ok : messages_ok demo_store.
Proof. apply store_run_ok; apply MemoryStore_new_ok. Qed.

Lemma message_by_digest_iff_witness :
  message_by_digest demo_store [Byte.x02] = Some (demo_message Byte.x02 10)
  ↔ sm_digest (demo_message Byte.x02 10) = [Byte.x02]
    ∧ ∃ c l, channels demo_store !! c = Some l ∧ demo_message Byte.x02 10 ∈ l.
Proof. apply message_by_digest_iff, demo_store_ok. Defined.

Lemma channel_history_newest_witness :
  let l := default [] (channels demo_store !! [Byte.x23]) in
  let h := channel_history demo_store [Byte.x23] 1 in
  zlen h = Z.min 1 (zlen l)
  ∧ sorted_by (λ x y, sm_timestamp_ms x <=? sm_timestamp_ms y) h
  ∧ ∃ older, l = older ++ h ∧ ∀ x y, x ∈ older → y ∈ h → sm_timestamp_ms x <= sm_timestamp_ms y.
Proof. apply channel_history_newest; [apply demo_store_ok|done]. Defined.

Lemma future_message_empties_channel_witness :
  let m := demo_message Byte.x03 5000 in
  let s' := put_channel_message demo_store m in
  channels s' !! [Byte.x23] = Some [m]
  ∧ has_message s' [Byte.x01] = true ∧ message_by_digest s' [Byte.x01] = None
  ∧ put_channel_message s' (demo_message Byte.x01 30) = s'.
Proof.
  cbv zeta.
  apply (future_message_empties_channel demo_store (demo_message Byte.x03 5000)
    (demo_message Byte.x01 30) [demo_message Byte.x02 10; demo_message Byte.x01 30]).
  - apply demo_store_ok.
  - apply (bool_decide_eq_true_1 _). by vm_compute.
  - done.
  - done.
  - by vm_compute.
  - apply (bool_decide_eq_true_1 _). by vm_compute.
  - refine (proj1 (Forall_forall (λ x, _) _) _). by repeat constructor.
Defined.
