(* ===== verification/Identity.v ===== *)
(** * Identity: keys, fingerprints and proof of work ([identity.rs])

    [LocalIdentity] over the signature and key-agreement interfaces, and the hashcash of module
    [pow]. [generate] is [from_seed] on 32 bytes of the operating system's randomness, which are an
    argument here; zeroizing the seed is not modelled. *)
From stdpp Require Import strings.
From S2P Require Import Prelude External Toy Wire.

(** A byte-string literal [b"..."]. *)
Definition label_dh : bytes :=
  [Byte.x63; Byte.x6f; Byte.x63; Byte.x6b; Byte.x72; Byte.x6f; Byte.x61; Byte.x63; Byte.x68;
   Byte.x2f; Byte.x64; Byte.x68; Byte.x2f; Byte.x76; Byte.x31].
Definition label_eph : bytes :=
  [Byte.x63; Byte.x6f; Byte.x63; Byte.x6b; Byte.x72; Byte.x6f; Byte.x61; Byte.x63; Byte.x68;
   Byte.x2f; Byte.x65; Byte.x70; Byte.x68; Byte.x2f; Byte.x76; Byte.x31].

Section identity.
Context `{Sha256, Ed25519, X25519}.

Record LocalIdentity := mkLocalIdentity {
  signing : SigningKey;
  dh_secret : XSecret;
  id_eph : EphId;
}.

Definition derive (seed label : bytes) : bytes := sha256 (seed ++ label).

Definition from_seed (seed : bytes) : LocalIdentity :=
  {| signing := sk_from_bytes seed;
     dh_secret := xs_from_bytes (derive seed label_dh);
     id_eph := take 8 (derive seed label_eph) |}.

Definition generate (os_random : bytes) : LocalIdentity := from_seed os_random.

Definition id_fingerprint (i : LocalIdentity) : bytes :=
  sha256 (vk_as_bytes (verifying_key (signing i))).

Definition id_verifying_key (i : LocalIdentity) : VerifyingKey := verifying_key (signing i).
Definition signing_key (i : LocalIdentity) : SigningKey := signing i.
Definition dh_public (i : LocalIdentity) : bytes := xs_public (dh_secret i).
Definition dh_private_bytes (i : LocalIdentity) : bytes := xs_to_bytes (dh_secret i).
Definition eph_id (i : LocalIdentity) : EphId := id_eph i.

Definition rotate_eph `{Rand} (i : LocalIdentity) (rng : StdRng) : LocalIdentity * StdRng :=
  let '(e, rng') := fill_bytes rng 8 in
  ({| signing := signing i; dh_secret := dh_secret i; id_eph := e |}, rng').

Lemma from_seed_eph_length `{!Sha256Laws} seed : length (eph_id (from_seed seed)) = 8%nat.
Proof. cbn. unfold derive. by rewrite length_take, sha256_length. Qed.

Lemma id_fingerprint_length `{!Sha256Laws} i : length (id_fingerprint i) = 32%nat.
Proof. apply sha256_length. Qed.

(** Rotation changes the wire id only: the long-term identity is the same. *)
Lemma rotate_eph_fingerprint `{Rand} i rng :
  id_fingerprint (rotate_eph i rng).1 = id_fingerprint i
  ∧ dh_public (rotate_eph i rng).1 = dh_public i.
Proof. unfold rotate_eph. by destruct (fill_bytes rng 8). Qed.
End identity.

(** ** Proof of work *)

(** [u8::leading_zeros]. *)
Definition u8_leading_zeros (b : Z) : Z := if b =? 0 then 8 else 7 - Z.log2 b.

Fixpoint leading_zero_bits (l : bytes) : Z :=
  match l with
  | [] => 0
  | b :: l' => if b2z b =? 0 then 8 + leading_zero_bits l' else u8_leading_zeros (b2z b)
  end.

Section pow.
Context `{Sha256}.

Definition pow_hash (pubkey : bytes) (nonce : Z) : bytes := sha256 (pubkey ++ be_bytes 8 nonce).

Definition verify (pubkey : bytes) (nonce bits : Z) : bool :=
  bits <=? leading_zero_bits (pow_hash pubkey nonce).

(** The loop of [mint] from a given nonce; [None] is running out of fuel. *)
Fixpoint mint_from (fuel : nat) (pubkey : bytes) (bits nonce : Z) : option Z :=
  match fuel with
  | O => None
  | S n =>
      if bits <=? leading_zero_bits (pow_hash pubkey nonce) then Some nonce
      else mint_from n pubkey bits (wrap 64 (nonce + 1))
  end.

Definition mint (fuel : nat) (pubkey : bytes) (bits : Z) : option Z := mint_from fuel pubkey bits 0.
End pow.

(** ** Leading zeros are a bound on the number *)

Lemma leading_zero_bits_range l : 0 <= leading_zero_bits l <= 8 * zlen l.
Proof.
  induction l as [|b l IH]; [done|]. cbn [leading_zero_bits]. rewrite zlen_cons.
  pose proof (zlen_nonneg l). destruct (b2z b =? 0) eqn:E; [lia|].
  unfold u8_leading_zeros. rewrite E. pose proof (b2z_range b). pose proof (Z.log2_nonneg (b2z b)).
  assert (Z.log2 (b2z b) < 8) by (apply Z.log2_lt_pow2; lia). lia.
Qed.

Lemma pow256 n : 0 <= n → 256 ^ n = 2 ^ (8 * n).
Proof. intros. rewrite Z.pow_mul_r by lia. done. Qed.

(** The bit counter of the proof of work counts what it should: a hash has [k] leading zero
    bits exactly when, read as a big-endian number, it is below [2^(bits - k)]. *)
Theorem leading_zero_bits_spec l k :
  0 <= k <= 8 * zlen l → (k <= leading_zero_bits l ↔ be_int l < 2 ^ (8 * zlen l - k)).
Proof.
  revert k. induction l as [|b l IH]; intros k Hk.
  - change (zlen []) with 0 in *. assert (k = 0) as -> by lia. cbn. lia.
  - cbn [leading_zero_bits be_int]. rewrite zlen_cons in *. pose proof (zlen_nonneg l) as Hn.
    pose proof (be_int_range l) as Hr. rewrite pow256 in * by done. pose proof (b2z_range b) as Hb.
    destruct (b2z b =? 0) eqn:E.
    + apply Z.eqb_eq in E. rewrite E, Z.mul_0_l, Z.add_0_l.
      destruct (decide (k <= 8)).
      * split; [intros _|pose proof (leading_zero_bits_range l); lia].
        eapply Z.lt_le_trans; [apply Hr|]. apply Z.pow_le_mono_r; lia.
      * specialize (IH (k - 8)). replace (8 * (1 + zlen l) - k) with (8 * zlen l - (k - 8)) by lia.
        rewrite <- IH by lia. lia.
    + unfold u8_leading_zeros. rewrite E. apply Z.eqb_neq in E.
      assert (Hlog : 0 <= Z.log2 (b2z b) < 8).
      { split; [apply Z.log2_nonneg|]. apply Z.log2_lt_pow2; lia. }
      destruct (Z.log2_spec (b2z b)) as [Hlo Hhi]; [lia|].
      set (g := Z.log2 (b2z b)) in *. set (P := 2 ^ (8 * zlen l)) in *.
      assert (0 < P) by (apply Z.pow_pos_nonneg; lia).
      assert (∀ j, 0 <= j → 2 ^ (8 * zlen l + j) = P * 2 ^ j) as HP.
      { intros j Hj. unfold P. rewrite <- Z.pow_add_r by lia. done. }
      split; intros Hle.
      * replace (8 * (1 + zlen l) - k) with (8 * zlen l + (8 - k)) by lia. rewrite HP by lia.
        assert (2 ^ Z.succ g <= 2 ^ (8 - k)) by (apply Z.pow_le_mono_r; lia). nia.
      * destruct (decide (k <= 7 - g)); [done|exfalso].
        assert (2 ^ (8 * (1 + zlen l) - k) <= P * 2 ^ g).
        { rewrite <- HP by lia. apply Z.pow_le_mono_r; lia. }
        nia.
Qed.

Section minting.
Context `{Sha256}.

Lemma mint_from_S fuel pubkey bits i :
  mint_from (S fuel) pubkey bits i =
  if verify pubkey i bits then Some i else mint_from fuel pubkey bits (wrap 64 (i + 1)).
Proof. done. Qed.

Lemma mint_from_Some fuel pubkey bits i n :
  0 <= i → i + Z.of_nat fuel <= 2 ^ 64 → mint_from fuel pubkey bits i = Some n →
  i <= n < i + Z.of_nat fuel ∧ verify pubkey n bits = true
  ∧ ∀ j, i <= j < n → verify pubkey j bits = false.
Proof.
  revert i. induction fuel as [|fuel IH]; intros i Hi Hf; [done|]. rewrite mint_from_S.
  destruct (verify pubkey i bits) eqn:E.
  - intros [= <-]. split; [lia|]. split; [done|]. lia.
  - intros Hm. destruct fuel as [|fuel]; [done|].
    unfold wrap in Hm. rewrite Z.mod_small in Hm by lia.
    destruct (IH (i + 1)) as (H1 & H2 & H3); [lia|lia|done|].
    split; [lia|]. split; [done|]. intros j Hj. destruct (decide (j = i)) as [->|]; [done|].
    apply H3. lia.
Qed.

Lemma mint_from_finds pubkey bits i d :
  0 <= i → i + Z.of_nat d < 2 ^ 64 → verify pubkey (i + Z.of_nat d) bits = true →
  (∀ j, i <= j < i + Z.of_nat d → verify pubkey j bits = false) →
  mint_from (S d) pubkey bits i = Some (i + Z.of_nat d).
Proof.
  revert i. induction d as [|d IH]; intros i Hi Hw Hv Hnone; rewrite mint_from_S.
  - rewrite Z.add_0_r in Hv. by rewrite Hv, Z.add_0_r.
  - rewrite Hnone by lia. unfold wrap. rewrite Z.mod_small by lia.
    rewrite (IH (i + 1)); [f_equal; lia|lia|lia| |].
    + by replace (i + 1 + Z.of_nat d) with (i + Z.of_nat (S d)) by lia.
    + intros j Hj. apply Hnone. lia.
Qed.

(** C39: minting terminates exactly when a valid nonce exists, and returns the least one, which
    [verify] then accepts: for every nonce, some number of rounds returns it if and only if it
    is valid and no smaller one is; one more round than the nonce is enough. *)
Theorem mint_returns_least pubkey bits n :
  0 <= n < 2 ^ 64 →
  (verify pubkey n bits = true ∧ (∀ j, 0 <= j < n → verify pubkey j bits = false)
   ↔ mint (S (Z.to_nat n)) pubkey bits = Some n).
Proof.
  intros Hn. unfold mint. split.
  - intros [Hv Hl]. pose proof (mint_from_finds pubkey bits 0 (Z.to_nat n)) as H1.
    replace (0 + Z.of_nat (Z.to_nat n)) with n in H1 by lia.
    apply H1; [lia|lia|exact Hv|exact Hl].
  - intros Hm. apply mint_from_Some in Hm as (_ & H1 & H2); [|lia..].
    split; [exact H1|exact H2].
Qed.
End minting.

(** ** Witnesses *)

Lemma leading_zero_bits_spec_witness :
  11 <= leading_zero_bits [Byte.x00; Byte.x1f; Byte.xff]
  ↔ be_int [Byte.x00; Byte.x1f; Byte.xff] < 2 ^ (8 * zlen [Byte.x00; Byte.x1f; Byte.xff] - 11).
Proof. apply leading_zero_bits_spec. by vm_compute. Defined.

Lemma mint_returns_least_witness :
  verify [Byte.x01] 19 3 = true ∧ (∀ j, 0 <= j < 19 → verify [Byte.x01] j 3 = false).
Proof. apply mint_returns_least; by vm_compute. Defined.
