(* ===== verification/Noise.v ===== *)
(** * Noise: encrypted sessions ([noise.rs])

    A session is a handshake, a transport or, in the middle of a failed transition, poisoned.
    Every operation returns its result and the session it leaves behind. Transport messages carry
    their nonce; the theorems say what that buys: no replay, and delivery across losses,
    duplicates and forgeries. *)
From stdpp Require Import strings.
From S2P Require Import Prelude Errors External Toy.

Definition PATTERN : string := "Noise_XX_25519_ChaChaPoly_SHA256".

Section noise.
Context `{Snow}.

Definition params : outcome Error NoiseParams :=
  match parse_params PATTERN with
  | Some p => Ok p
  | None => Err (ENoise "bad noise params")
  end.

(** [map_err(map)]. *)
Definition map_err {A} (r : A + string) : outcome Error A :=
  match r with inl a => Ok a | inr e => Err (ENoise e) end.

Inductive Inner :=
  | Handshake (hs : HandshakeState)
  | Transport (ts : TransportState)
  | Poisoned.

Record NoiseSession := mkNoiseSession {
  inner : Inner;
  initiator : bool;
}.

Definition set_inner (s : NoiseSession) (i : Inner) : NoiseSession :=
  {| inner := i; initiator := initiator s |}.

Definition new_initiator (local_private : bytes) : outcome Error NoiseSession :=
  let* p := params in
  let* hs := map_err (build_initiator p local_private) in
  Ok {| inner := Handshake hs; initiator := true |}.

Definition new_responder (local_private : bytes) : outcome Error NoiseSession :=
  let* p := params in
  let* hs := map_err (build_responder p local_private) in
  Ok {| inner := Handshake hs; initiator := false |}.

Definition is_ready (s : NoiseSession) : bool :=
  match inner s with Transport _ => true | _ => false end.

Definition is_handshaking (s : NoiseSession) : bool :=
  match inner s with Handshake _ => true | _ => false end.

Definition remote_static (s : NoiseSession) : option bytes :=
  let rs := match inner s with
            | Handshake hs => hs_get_remote_static hs
            | Transport ts => ts_get_remote_static ts
            | Poisoned => None
            end in
  match rs with
  | Some k => if zlen k =? 32 then Some k else None
  | None => None
  end.

Definition maybe_transition (s : NoiseSession) : outcome Error unit * NoiseSession :=
  match inner s with
  | Handshake hs =>
      if hs_is_handshake_finished hs then
        match hs_into_transport_mode hs with
        | inl ts => (Ok tt, set_inner s (Transport ts))
        | inr e => (Err (ENoise e), set_inner s Poisoned)
        end
      else (Ok tt, s)
  | _ => (Ok tt, s)
  end.

Definition write_handshake (s : NoiseSession) : outcome Error bytes * NoiseSession :=
  match inner s with
  | Handshake hs =>
      let '(r, hs') := hs_write_message hs [] 1024 in
      let s1 := set_inner s (Handshake hs') in
      match r with
      | inr e => (Err (ENoise e), s1)
      | inl buf =>
          let '(t, s2) := maybe_transition s1 in
          (let* _ := t in Ok buf, s2)
      end
  | _ => (Err (ENoise "write_handshake after handshake"), s)
  end.

Definition read_handshake (s : NoiseSession) (msg : bytes) : outcome Error unit * NoiseSession :=
  match inner s with
  | Handshake hs =>
      let '(r, hs') := hs_read_message hs msg 1024 in
      let s1 := set_inner s (Handshake hs') in
      match r with
      | inr e => (Err (ENoise e), s1)
      | inl _ => maybe_transition s1
      end
  | _ => (Err (ENoise "read_handshake after handshake"), s)
  end.

Definition encrypt (s : NoiseSession) (plaintext : bytes) : outcome Error bytes * NoiseSession :=
  match inner s with
  | Transport ts =>
      let nonce := ts_sending_nonce ts in
      let '(r, ts') := ts_write_message ts plaintext (zlen plaintext + 64) in
      (let* ct := map_err r in Ok (be_bytes 8 nonce ++ ct), set_inner s (Transport ts'))
  | _ => (Err (ENoise "encrypt before handshake complete"), s)
  end.

Definition decrypt (s : NoiseSession) (payload : bytes) : outcome Error bytes * NoiseSession :=
  match inner s with
  | Transport ts =>
      if zlen payload <? 8 then (Err (ENoise "dm payload too short"), s) else
      match slice 0 8 payload, slice 8 (zlen payload) payload with
      | Some nb, Some ciphertext =>
          let nonce := be_int nb in
          let expected := ts_receiving_nonce ts in
          if nonce <? expected then (Err (ENoise "replayed or out-of-order dm nonce"), s) else
          let '(r, ts') := ts_read_message (ts_set_receiving_nonce ts nonce) ciphertext
                             (zlen ciphertext + 64) in
          match r with
          | inl buf => (Ok buf, set_inner s (Transport ts'))
          | inr e =>
              (Err (ENoise e), set_inner s (Transport (ts_set_receiving_nonce ts' expected)))
          end
      | _, _ => (Panic, s)
      end
  | _ => (Err (ENoise "decrypt before handshake complete"), s)
  end.

(** ** Lemmas: one message *)

(** The nonce a payload claims, and the window a session accepts from. *)
Definition payload_nonce (payload : bytes) : Z := be_int (take 8 payload).

Definition window (s : NoiseSession) : Z :=
  match inner s with Transport ts => ts_receiving_nonce ts | _ => 0 end.

(** [decrypt] on a transport, with its reads of the payload resolved. *)
Lemma decrypt_transport s ts payload :
  inner s = Transport ts →
  decrypt s payload =
  if zlen payload <? 8 then (Err (ENoise "dm payload too short"), s)
  else if payload_nonce payload <? ts_receiving_nonce ts
  then (Err (ENoise "replayed or out-of-order dm nonce"), s)
  else
    let '(r, ts') := ts_read_message (ts_set_receiving_nonce ts (payload_nonce payload))
                       (drop 8 payload) (zlen (drop 8 payload) + 64) in
    match r with
    | inl buf => (Ok buf, set_inner s (Transport ts'))
    | inr e => (Err (ENoise e),
                set_inner s (Transport (ts_set_receiving_nonce ts' (ts_receiving_nonce ts))))
    end.
Proof.
  intros Hi. unfold decrypt. rewrite Hi. destruct (zlen payload <? 8) eqn:E; [done|].
  rewrite !slice_in_range by lia. unfold payload_nonce.
  replace (Z.to_nat (8 - 0)) with 8%nat by lia. replace (Z.to_nat 8) with 8%nat by lia.
  rewrite drop_0. replace (take (Z.to_nat (zlen payload - 8)) (drop 8 payload)) with (drop 8 payload);
    [done|]. symmetry. apply take_ge. rewrite length_drop. unfold zlen. lia.
Qed.

Lemma decrypt_not_ready s payload : is_ready s = false → ∃ e, decrypt s payload = (Err e, s).
Proof. unfold is_ready, decrypt. destruct (inner s); [|done|]; by eexists. Qed.

Lemma decrypt_no_panic s payload : (decrypt s payload).1 ≠ Panic.
Proof.
  destruct (inner s) as [hs|ts|] eqn:Ei; [by unfold decrypt; rewrite Ei| |by unfold decrypt; rewrite Ei].
  rewrite (decrypt_transport _ _ _ Ei). by repeat case_match.
Qed.

Lemma payload_nonce_range payload : 8 <= zlen payload → in_width 64 (payload_nonce payload).
Proof.
  intros Hl. unfold payload_nonce. pose proof (be_int_range (take 8 payload)) as Hr.
  assert (zlen (take 8 payload) = 8) as E by (unfold zlen in *; rewrite length_take; lia).
  by rewrite E in Hr.
Qed.

Context `{!SnowLaws}.

(** What any one decryption does to the window: success moves it past the nonce, which was not
    below it; anything else leaves it where it was. *)
Lemma decrypt_window s payload :
  let '(r, s') := decrypt s payload in
  match r with
  | Ok _ => window s <= payload_nonce payload ∧ window s' = payload_nonce payload + 1
            ∧ is_ready s = true
  | Err _ => window s' = window s
  | Panic => False
  end ∧ remote_static s' = remote_static s ∧ is_ready s' = is_ready s ∧ initiator s' = initiator s.
Proof.
  destruct (inner s) as [hs|ts|] eqn:Ei; [by unfold decrypt; rewrite Ei| |by unfold decrypt; rewrite Ei].
  rewrite (decrypt_transport _ _ _ Ei). unfold window, is_ready, remote_static. rewrite Ei.
  destruct (zlen payload <? 8) eqn:El; [by rewrite Ei|].
  destruct (payload_nonce payload <? _) eqn:En; [by rewrite Ei|].
  pose proof (payload_nonce_range payload) as Hn.
  destruct (ts_read_message _ _ _) as [[buf|e] ts'] eqn:Er; cbn [set_inner inner initiator].
  - pose proof (ts_read_advances _ _ _ _ _ Er) as Ha. rewrite ts_receiving_set in Ha by (apply Hn; lia).
    rewrite (ts_static_read _ _ _ _ _ Er), ts_static_set.
    split; [split; [lia|done]|done].
  - rewrite ts_receiving_set by apply ts_receiving_range.
    rewrite ts_static_set, (ts_static_read _ _ _ _ _ Er), ts_static_set. done.
Qed.

(** Encryption keeps the session what it is. *)
Lemma encrypt_keeps s pt :
  remote_static (encrypt s pt).2 = remote_static s ∧ is_ready (encrypt s pt).2 = is_ready s
  ∧ initiator (encrypt s pt).2 = initiator s.
Proof.
  unfold encrypt, remote_static, is_ready. destruct (inner s) as [hs|ts|] eqn:Ei;
    [by cbn; rewrite Ei| |by cbn; rewrite Ei].
  destruct (ts_write_message _ _ _) as [r ts'] eqn:Ew. cbn [snd set_inner inner initiator].
  by rewrite (ts_static_write _ _ _ _ _ Ew).
Qed.

(** A session that has only sent the first handshake message is not ready. *)
Lemma first_write_not_ready k s m s' :
  new_initiator k = Ok s → write_handshake s = (Ok m, s') → is_ready s' = false.
Proof.
  unfold new_initiator. destruct params as [p| |]; try done. cbn [obind].
  destruct (build_initiator p k) as [hs|] eqn:Eb; [|done]. cbn. intros [= <-].
  unfold write_handshake. cbn [inner]. destruct (hs_write_message hs [] 1024) as [[b|] hs'] eqn:Ew;
    [|done].
  unfold maybe_transition. cbn [set_inner inner]. rewrite (hs_first_write _ _ _ _ _ _ Eb Ew).
  intros E. apply (f_equal snd) in E. cbn in E. by subst s'.
Qed.

(** A run of received payloads: the outcomes, and the session at the end. *)
Fixpoint decrypt_all (s : NoiseSession) (payloads : list bytes)
    : list (outcome Error bytes) * NoiseSession :=
  match payloads with
  | [] => ([], s)
  | p :: ps =>
      let '(r, s1) := decrypt s p in
      let '(rs, s2) := decrypt_all s1 ps in
      (r :: rs, s2)
  end.

(** The nonces of the payloads that were accepted, in order. *)
Definition accepted (payloads : list bytes) (rs : list (outcome Error bytes)) : list Z :=
  map (λ pr : bytes * outcome Error bytes, payload_nonce pr.1)
    (List.filter (λ pr : bytes * outcome Error bytes, is_ok pr.2) (zip payloads rs)).

Lemma decrypt_all_window s payloads :
  let '(rs, s') := decrypt_all s payloads in
  window s <= window s' ∧ Panic ∉ rs ∧ Forall (λ n, window s <= n < window s') (accepted payloads rs)
  ∧ StronglySorted Z.lt (accepted payloads rs).
Proof.
  revert s. induction payloads as [|p ps IH]; intros s; cbn [decrypt_all].
  { split; [lia|]. split; [apply not_elem_of_nil|]. split; constructor. }
  pose proof (decrypt_window s p) as Hw. destruct (decrypt s p) as [r s1].
  specialize (IH s1). destruct (decrypt_all s1 ps) as [rs s2].
  destruct IH as (IH1 & IH2 & IH3 & IH4). unfold accepted in *. cbn [zip_with List.filter snd].
  destruct r as [pt|e|]; cbn [is_ok map fst]; [| |by destruct Hw as [[] _]].
  - destruct Hw as [(H1 & H2 & _) _]. split; [lia|]. split; [by rewrite not_elem_of_cons|].
    split; [constructor; [lia|]|constructor; [done|]];
      (eapply Forall_impl; [exact IH3|]; cbn; lia).
  - destruct Hw as [H1 _]. rewrite H1 in *. split; [lia|]. split; [by rewrite not_elem_of_cons|].
    done.
Qed.

(** C37: over any sequence of received payloads - replayed, reordered, truncated or forged -
    decryption never panics, and the nonces it accepts are strictly increasing: no ciphertext is
    ever delivered twice, and a refused one does not move the window. *)
Theorem no_replay s payloads :
  let '(rs, s') := decrypt_all s payloads in
  Panic ∉ rs ∧ StronglySorted Z.lt (accepted payloads rs)
  ∧ (Forall (λ r, is_ok r = false) rs → window s' = window s).
Proof.
  pose proof (decrypt_all_window s payloads) as H1.
  destruct (decrypt_all s payloads) as [rs s'] eqn:E. destruct H1 as (_ & Hp & _ & Hs).
  split; [done|]. split; [done|]. clear Hp Hs. revert s rs E.
  induction payloads as [|p ps IH]; intros s rs E Hf; cbn [decrypt_all] in E; [congruence|].
  pose proof (decrypt_window s p) as Hw. destruct (decrypt s p) as [r s1].
  destruct (decrypt_all s1 ps) as [rs1 s2] eqn:E1. injection E as <- <-.
  apply Forall_cons in Hf as [Hr Hf]. rewrite (IH s1 rs1 E1 Hf).
  destruct r; [done|by destruct Hw|by destruct Hw as [[] _]].
Qed.
End noise.

(** ** Delivery over a lossy link *)

(** What happens between two ready sessions: a message is encrypted and its ciphertext delivered
    some number of times (zero: lost), or somebody injects bytes. *)
Inductive link_event :=
  | Msg (plaintext : bytes) (copies : nat)
  | Junk (payload : bytes).

Section delivery.
Context `{SnowPaired, !SnowLaws}.

(** The receiver's outcomes per event; [None] when an encryption fails. *)
Fixpoint run_link (a b : NoiseSession) (evs : list link_event)
    : option (list (list (outcome Error bytes))) :=
  match evs with
  | [] => Some []
  | Msg pt n :: evs' =>
      match encrypt a pt with
      | (Ok ct, a') =>
          let '(rs, b') := decrypt_all b (replicate n ct) in
          cons rs <$> run_link a' b' evs'
      | _ => None
      end
  | Junk p :: evs' =>
      let '(r, b') := decrypt b p in
      cons [r] <$> run_link a b' evs'
  end.

Definition refused (r : outcome Error bytes) : Prop := ∃ e, r = Err e.

(** What the receiver should see of an event. *)
Definition event_result (ev : link_event) (rs : list (outcome Error bytes)) : Prop :=
  match ev with
  | Msg pt 0 => rs = []
  | Msg pt (S n) => ∃ dups, rs = Ok pt :: dups ∧ length dups = n ∧ Forall refused dups
  | Junk _ => True
  end.

Definition in_step (a b : NoiseSession) : Prop :=
  ∃ ts tr, inner a = Transport ts ∧ inner b = Transport tr ∧ ts_paired ts tr
    ∧ ts_receiving_nonce tr <= ts_sending_nonce ts.

Lemma decrypt_replayed b ts nb ct :
  inner b = Transport ts → zlen nb = 8 → be_int nb < ts_receiving_nonce ts →
  ∃ e, decrypt b (nb ++ ct) = (Err e, b).
Proof.
  intros Hi Hl Hlt. rewrite (decrypt_transport _ _ _ Hi).
  rewrite (proj2 (Z.ltb_ge _ _)) by (rewrite zlen_app; pose proof (zlen_nonneg ct); lia).
  unfold payload_nonce. replace 8%nat with (length nb) by (unfold zlen in Hl; lia).
  rewrite take_app_length, (proj2 (Z.ltb_lt _ _)) by done. by eexists.
Qed.

Lemma decrypt_all_replayed b ts nb ct n :
  inner b = Transport ts → zlen nb = 8 → be_int nb < ts_receiving_nonce ts →
  ∃ rs, decrypt_all b (replicate n (nb ++ ct)) = (rs, b) ∧ length rs = n ∧ Forall refused rs.
Proof.
  intros Hi Hl Hlt. destruct (decrypt_replayed b ts nb ct Hi Hl Hlt) as [e He].
  induction n as [|n (rs & E & Hn & Hr)]; cbn [replicate decrypt_all].
  - by exists [].
  - rewrite He, E. exists (Err e :: rs). split; [done|]. split; [cbn; congruence|].
    constructor; [by eexists|done].
Qed.

(** One message, delivered any number of times. *)
Lemma deliver_one a b pt n ct a' :
  in_step a b → encrypt a pt = (Ok ct, a') →
  let '(rs, b') := decrypt_all b (replicate n ct) in
  event_result (Msg pt n) rs ∧ in_step a' b'.
Proof.
  intros (ts & tr & Ha & Hb & Hp & Hn) He. unfold encrypt in He. rewrite Ha in He.
  destruct (ts_write_message ts pt _) as [[c|e] ts'] eqn:Ew; [|done].
  cbn [map_err obind] in He. apply pair_equal_spec in He as [Ect <-].
  assert (ct = be_bytes 8 (ts_sending_nonce ts) ++ c) as -> by congruence. clear Ect.
  pose proof (ts_write_nonce _ _ _ _ _ Ew) as Hnext. pose proof (ts_sending_range ts) as Hsr.
  pose proof (ts_write_length _ _ _ _ _ Ew) as Hlen.
  destruct n as [|n]; cbn [replicate decrypt_all].
  { split; [done|]. exists ts', tr. split_and!; [done|done| |lia].
    by eapply ts_paired_lost. }
  set (nb := be_bytes 8 (ts_sending_nonce ts)).
  assert (zlen nb = 8 ∧ be_int nb = ts_sending_nonce ts) as [Hnl Hnb].
  { split; [apply zlen_be_bytes|]. by apply be_int_be_bytes_small. }
  rewrite (decrypt_transport _ _ _ Hb).
  rewrite (proj2 (Z.ltb_ge _ _)) by (rewrite zlen_app; pose proof (zlen_nonneg c); lia).
  unfold payload_nonce. assert (length nb = 8%nat) as Hnl' by (unfold zlen in Hnl; lia).
  rewrite (take_app_length' nb c 8), (drop_app_length' nb c 8) by done. rewrite Hnb.
  rewrite (proj2 (Z.ltb_ge _ _)) by done.
  destruct (ts_paired_read ts tr pt _ c ts' (zlen c + 64) Hp Ew) as (tr' & Er & Hp'); [lia|].
  rewrite Er. pose proof (ts_read_advances _ _ _ _ _ Er) as Hadv. rewrite ts_receiving_set in Hadv by done.
  destruct (decrypt_all_replayed (set_inner b (Transport tr')) tr' nb c n) as (rs & -> & Hl & Hr);
    [done|done|lia|].
  split; [by exists rs|]. exists ts', tr'. split_and!; [done|done|done|lia].
Qed.

Lemma decrypt_junk a b p :
  in_step a b → refused (decrypt b p).1 → in_step a (decrypt b p).2.
Proof.
  intros (ts & tr & Ha & Hb & Hp & Hn) [e He]. revert He. rewrite (decrypt_transport _ _ _ Hb).
  destruct (zlen p <? 8); [by exists ts, tr|]. destruct (payload_nonce p <? _); [by exists ts, tr|].
  destruct (ts_read_message _ _ _) as [[buf|e'] tr'] eqn:Er; [done|]. intros _. cbn [snd].
  exists ts, (ts_set_receiving_nonce tr' (ts_receiving_nonce tr)). split_and!; [done|done| |].
  - by eapply ts_paired_refused.
  - rewrite ts_receiving_set by apply ts_receiving_range. done.
Qed.

(** Both ends can talk: each direction is in step. *)
Definition talking (a b : NoiseSession) : Prop := in_step a b ∧ in_step b a.

Lemma in_step_ready a b : in_step a b → is_ready a = true ∧ is_ready b = true.
Proof. intros (ts & tr & Ha & Hb & _). unfold is_ready. by rewrite Ha, Hb. Qed.

(** Traffic the other way keeps a direction in step. *)
Lemma in_step_back_encrypt a b pt r b' : in_step a b → encrypt b pt = (r, b') → in_step a b'.
Proof.
  intros (ts & tr & Ha & Hb & Hp & Hn). unfold encrypt. rewrite Hb.
  destruct (ts_write_message tr pt _) as [x tr'] eqn:Ew. intros [= _ <-].
  destruct (ts_paired_back_write _ _ _ _ _ _ Hp Ew) as [Hp' Hn'].
  exists ts, tr'. split_and!; try done. lia.
Qed.

Lemma in_step_back_decrypt a b p r a' : in_step a b → decrypt a p = (r, a') → in_step a' b.
Proof.
  intros (ts & tr & Ha & Hb & Hp & Hn). rewrite (decrypt_transport _ _ _ Ha).
  destruct (zlen p <? 8); [intros [= _ <-]; by exists ts, tr|].
  destruct (payload_nonce p <? _); [intros [= _ <-]; by exists ts, tr|].
  destruct (ts_paired_back_set _ _ (payload_nonce p) Hp) as [Hp1 Hn1].
  destruct (ts_read_message _ _ _) as [[buf|e] ts'] eqn:Er; intros [= _ <-];
    destruct (ts_paired_back_read _ _ _ _ _ _ Hp1 Er) as [Hp2 Hn2].
  - exists ts', tr. split_and!; try done. lia.
  - destruct (ts_paired_back_set _ _ (ts_receiving_nonce ts) Hp2) as [Hp3 Hn3].
    eexists _, tr. split_and!; [done|done|done|lia].
Qed.

(** A message over a working pair: read once, refused again, and the pair still works. *)
Lemma talk_one a b pt ct a' :
  talking a b → encrypt a pt = (Ok ct, a') →
  ∃ b', decrypt b ct = (Ok pt, b') ∧ talking a' b' ∧ ∃ e, (decrypt b' ct).1 = Err e.
Proof.
  intros [Hab Hba] He. pose proof (deliver_one a b pt 2 ct a' Hab He) as D2.
  cbn [replicate decrypt_all] in D2. destruct (decrypt b ct) as [r b'] eqn:Ed.
  pose proof (deliver_one a b pt 1 ct a' Hab He) as D1. cbn [replicate decrypt_all] in D1.
  rewrite Ed in D1. destruct D1 as [(dups & E & _) Hs]. injection E as -> _.
  exists b'. split; [done|]. split.
  - split; [exact Hs|]. eapply in_step_back_decrypt; [|exact Ed]. by eapply in_step_back_encrypt.
  - destruct (decrypt b' ct) as [r2 b2]. destruct D2 as [(dups2 & E2 & _ & Hr) _].
    injection E2 as <-. apply Forall_cons in Hr as [[e ->] _]. by exists e.
Qed.

(** Two messages that cross: each was written before the other one was read. *)
Lemma talk_cross a b pa pb ca cb a1 b1 :
  talking a b → encrypt a pa = (Ok ca, a1) → encrypt b pb = (Ok cb, b1) →
  ∃ a2 b2, decrypt b1 ca = (Ok pa, b2) ∧ decrypt a1 cb = (Ok pb, a2) ∧ talking a2 b2.
Proof.
  intros [Hab Hba] Ea Eb.
  pose proof (deliver_one a b1 pa 1 ca a1 (in_step_back_encrypt _ _ _ _ _ Hab Eb) Ea) as D1.
  pose proof (deliver_one b a1 pb 1 cb b1 (in_step_back_encrypt _ _ _ _ _ Hba Ea) Eb) as D2.
  cbn [replicate decrypt_all] in D1, D2.
  destruct (decrypt b1 ca) as [ra b2] eqn:Da. destruct (decrypt a1 cb) as [rb a2] eqn:Db.
  destruct D1 as [(? & E1 & _) S1], D2 as [(? & E2 & _) S2]. injection E1 as -> _. injection E2 as -> _.
  exists a2, b2. split_and!; [done..|]. split; by eapply in_step_back_decrypt.
Qed.

Lemma run_link_results a b evs outs :
  in_step a b → run_link a b evs = Some outs →
  Forall2 (λ ev rs, match ev with Junk _ => Forall refused rs | _ => True end) evs outs →
  Forall2 event_result evs outs.
Proof.
  revert a b outs. induction evs as [|[pt n|p] evs IH]; intros a b outs Hs E Hj;
    cbn [run_link] in E; [injection E as <-; constructor| |].
  - destruct (encrypt a pt) as [[ct| |] a'] eqn:Ee; try done.
    pose proof (deliver_one a b pt n ct a' Hs Ee) as Hd.
    destruct (decrypt_all b (replicate n ct)) as [rs b']. destruct Hd as [Hr Hs'].
    apply fmap_Some in E as (outs' & E & ->). apply Forall2_cons in Hj as [_ Hj].
    constructor; [done|]. by eapply IH.
  - pose proof (decrypt_junk a b p Hs) as Hjunk. destruct (decrypt b p) as [r b'].
    apply fmap_Some in E as (outs' & E & ->). apply Forall2_cons in Hj as [Hr Hj].
    constructor; [done|]. eapply IH; [apply Hjunk; by apply Forall_singleton|done|done].
Qed.

(** C25: between two sessions that finished one handshake, every message that is delivered at
    least once is decrypted to exactly its plaintext the first time and refused every further
    time, whatever was lost before it, however often earlier ones were repeated, and whatever
    bytes were injected in between, as long as the injected bytes were themselves refused. *)
Theorem lossy_delivery a b ts tr evs outs :
  inner a = Transport ts → inner b = Transport tr → ts_paired ts tr →
  ts_receiving_nonce tr <= ts_sending_nonce ts →
  run_link a b evs = Some outs →
  Forall2 (λ ev rs, match ev with Junk _ => Forall refused rs | _ => True end) evs outs →
  Forall2 event_result evs outs.
Proof. intros Ha Hb Hp Hn. apply run_link_results. by exists ts, tr. Qed.
End delivery.

(** ** Witnesses *)

Definition toy_session (i : bool) : NoiseSession :=
  mkNoiseSession (@Transport toy_Snow (mk_toy_ts None 0 0)) i.

Lemma no_replay_witness :
  let s := toy_session true in
  let payloads := [be_bytes 8 0 ++ [Byte.x41] ++ be_bytes 16 0;
                   be_bytes 8 0 ++ [Byte.x41] ++ be_bytes 16 0;
                   be_bytes 8 7 ++ be_bytes 16 6] in
  let '(rs, s') := decrypt_all s payloads in
  Panic ∉ rs ∧ StronglySorted Z.lt (accepted payloads rs)
  ∧ (Forall (λ r, is_ok r = false) rs → window s' = window s).
Proof. apply no_replay. Defined.

(** Two of three messages lost or repeated, and forged bytes with a nonce far ahead. *)
Lemma lossy_delivery_witness :
  let a := toy_session true in
  let b := toy_session false in
  let evs := [Msg [Byte.x41] 0; Junk (be_bytes 8 9 ++ be_bytes 16 8); Msg [Byte.x42] 2] in
  ∃ outs, run_link a b evs = Some outs ∧ Forall2 event_result evs outs.
Proof.
  cbv zeta. eexists. split; [by vm_compute|].
  eapply (@lossy_delivery toy_Snow toy_SnowPaired _ (toy_session true) (toy_session false));
    [reflexivity|reflexivity|done|by vm_compute|by vm_compute|].
  constructor; [done|]. constructor; [|by repeat constructor].
  constructor; [by eexists|constructor].
Defined.
