(* ===== verification/Payloads.v ===== *)
(** * Payloads: what travels inside packets (the helpers at the end of [node.rs])

    The announce, channel and sync payloads. The decoders return [Err tt] where the source
    returns [None], and keep every slice and index as a possible panic. *)
From stdpp Require Import strings.
From S2P Require Import Prelude Errors Utf8 External Toy Config Compress Channels.

(** [ed25519_pub(32) x25519_pub(32) nick_len(1) nick]. *)
Definition encode_announce (ed_pub dh_pub : bytes) (nick : rstring) : bytes :=
  let n := Z.min (zlen nick) 24 in
  ed_pub ++ dh_pub ++ [z2b n] ++ take (Z.to_nat n) nick.

Definition decode_announce (payload : bytes) : outcome unit (bytes * bytes * rstring) :=
  if zlen payload <? 65 then Err tt else
  let* ed := expect (slice 0 32 payload) in
  let* dh := expect (slice 32 64 payload) in
  let* nb := expect (index 64 payload) in
  let n := b2z nb in
  if 65 + n >? zlen payload then Err tt else
  let* nick := expect (slice 65 (65 + n) payload) in
  Ok (ed, dh, utf8_lossy nick).

(** [chan_len(1) chan digest*8...]. *)
Definition encode_sync (filter : SyncFilter) : bytes :=
  let chan := sf_channel filter in
  let clen := Z.min (zlen chan) 255 in
  [z2b clen] ++ take (Z.to_nat clen) chan ++ concat (sf_digests filter).

Definition decode_sync (payload : bytes) : outcome unit SyncFilter :=
  match payload with
  | [] => Err tt
  | _ :: _ =>
      let* cb := expect (index 0 payload) in
      let clen := b2z cb in
      if 1 + clen >? zlen payload then Err tt else
      let* chan := expect (slice 1 (1 + clen) payload) in
      let channel := utf8_lossy chan in
      let* rest := expect (slice (1 + clen) (zlen payload) payload) in
      Ok (SyncFilter_new channel (chunks_exact 8 rest))
  end.

Section channel.
Context `{Lz4}.

(** [flag_compressed(1) chan_len(1) chan text...]. *)
Definition encode_channel (channel text : rstring) (cfg : Tunables) : bytes :=
  let clen := Z.min (zlen channel) 255 in
  let '(compressed, body) :=
    match maybe_compress text cfg with
    | Some c => (1, c)
    | None => (0, text)
    end in
  [z2b compressed] ++ [z2b clen] ++ take (Z.to_nat clen) channel ++ body.

Definition decode_channel (payload : bytes) (cfg : Tunables) : outcome unit (rstring * rstring) :=
  if zlen payload <? 2 then Err tt else
  let* compressed := expect (index 0 payload) in
  let* cb := expect (index 1 payload) in
  let clen := b2z cb in
  if 2 + clen >? zlen payload then Err tt else
  let* chan := expect (slice 2 (2 + clen) payload) in
  let channel := utf8_lossy chan in
  let* body := expect (slice (2 + clen) (zlen payload) payload) in
  let* text_bytes :=
    (if b2z compressed =? 1 then
       match decompress body cfg with
       | Ok t => Ok t
       | Err _ => Err tt
       | Panic => Panic
       end
     else Ok body) in
  Ok (channel, utf8_lossy text_bytes).
End channel.

(** ** Lemmas *)

Ltac payload_step :=
  match goal with
  | |- context [expect (index ?i ?l)] =>
      let x := fresh "b" in
      destruct (expect_index (E:=unit) i l) as (x & ->); [lia|]; pose proof (b2z_range x);
      cbn [obind]
  | |- context [expect (slice ?a ?b ?l)] =>
      let x := fresh "x" in
      destruct (expect_slice (E:=unit) a b l) as (x & -> & ?); [lia|lia|]; cbn [obind]
  | |- context [if ?c then Err tt else _] =>
      let E := fresh "E" in destruct c eqn:E; [done|]
  end.

Lemma decode_announce_no_panic p : decode_announce p ≠ Panic.
Proof. unfold decode_announce. repeat payload_step. done. Qed.

Lemma decode_sync_no_panic p : decode_sync p ≠ Panic.
Proof.
  unfold decode_sync. destruct p as [|b0 p0]; [done|].
  assert (1 <= zlen (b0 :: p0)) by (rewrite zlen_cons; pose proof (zlen_nonneg p0); lia).
  generalize dependent (b0 :: p0). intros p Hp. repeat payload_step. done.
Qed.

Section channel_lemmas.
Context `{Lz4}.

Lemma decode_channel_no_panic p cfg : decode_channel p cfg ≠ Panic.
Proof.
  unfold decode_channel. repeat payload_step. pose proof (decompress_no_panic x0 cfg).
  destruct (b2z b =? 1); [|done]. by destruct (decompress x0 cfg).
Qed.
End channel_lemmas.

Lemma take_zlen {A} n (l : list A) : Z.min (zlen l) n = zlen l → take (Z.to_nat (Z.min (zlen l) n)) l = l.
Proof. intros ->. apply take_ge. unfold zlen. lia. Qed.

Lemma zlen_take_min {A} n (l : list A) :
  0 <= n → zlen (take (Z.to_nat (Z.min (zlen l) n)) l) = Z.min (zlen l) n.
Proof. intros Hn. unfold zlen. rewrite length_take. lia. Qed.

Lemma announce_roundtrip ed dh nick :
  length ed = 32%nat → length dh = 32%nat → utf8_valid (take 24 nick) = true →
  decode_announce (encode_announce ed dh nick) = Ok (ed, dh, take 24 nick).
Proof.
  intros He Hd Hv. unfold encode_announce. set (n := Z.min (zlen nick) 24).
  assert (take (Z.to_nat n) nick = take 24 nick) as ->.
  { unfold n, zlen. destruct (decide (length nick <= 24)%nat).
    - rewrite !take_ge; [done|lia|lia].
    - f_equal. lia. }
  assert (0 <= n <= 24) as Hn by (unfold n, zlen; lia).
  assert (zlen (take 24 nick) = n) as Hl by (unfold n, zlen; rewrite length_take; lia).
  set (p := _ ++ _). assert (zlen p = 65 + n) as Hp by (unfold p; rewrite !zlen_app; zlen_lia).
  unfold decode_announce. rewrite (proj2 (Z.ltb_ge _ _)) by lia.
  assert (slice 0 32 p = Some ed) as ->.
  { apply (slice_app 0 32 [] ed); [done|zlen_lia]. }
  assert (slice 32 64 p = Some dh) as -> by (unfold p; apply slice_app; zlen_lia).
  assert (index 64 p = Some (z2b n)) as ->.
  { unfold p. rewrite app_assoc. apply index_app. zlen_lia. }
  cbn [expect obind]. rewrite b2z_z2b_u8 by (unfold in_width; lia).
  assert ((65 + n >? zlen p) = false) as -> by lia.
  assert (slice 65 (65 + n) p = Some (take 24 nick)) as ->.
  { replace p with ((ed ++ dh ++ [z2b n]) ++ take 24 nick ++ [])
      by (unfold p; by rewrite app_nil_r, <- !app_assoc).
    apply slice_app; zlen_lia. }
  cbn [expect obind]. by rewrite utf8_lossy_valid.
Qed.

Lemma sync_roundtrip chan ds :
  zlen chan <= 255 → utf8_valid chan = true → Forall (λ d, length d = 8%nat) ds →
  decode_sync (encode_sync (SyncFilter_new chan ds)) = Ok (SyncFilter_new chan ds).
Proof.
  intros Hc Hv Hd. unfold encode_sync. cbn [SyncFilter_new sf_channel].
  rewrite take_zlen by lia. rewrite Z.min_l by lia.
  destruct (SyncFilter_new_digests chan ds) as (Hnd & Hs & Hin).
  set (l := sf_digests (SyncFilter_new chan ds)) in *.
  pose proof (zlen_nonneg chan).
  set (p := [z2b (zlen chan)] ++ chan ++ concat l).
  assert (zlen p = 1 + zlen chan + zlen (concat l)) as Hp
    by (unfold p; rewrite !zlen_app; zlen_lia).
  pose proof (zlen_nonneg (concat l)).
  assert (decode_sync p =
    let* cb := expect (index 0 p) in
    let clen := b2z cb in
    if 1 + clen >? zlen p then Err tt else
    let* chan := expect (slice 1 (1 + clen) p) in
    let channel := utf8_lossy chan in
    let* rest := expect (slice (1 + clen) (zlen p) p) in
    Ok (SyncFilter_new channel (chunks_exact 8 rest))) as -> by done.
  change (index 0 p) with (Some (z2b (zlen chan))). cbn [expect obind].
  rewrite b2z_z2b_u8 by (unfold in_width; lia).
  assert ((1 + zlen chan >? zlen p) = false) as -> by lia.
  assert (slice 1 (1 + zlen chan) p = Some chan) as -> by (unfold p; by apply slice_app).
  assert (slice (1 + zlen chan) (zlen p) p = Some (concat l)) as ->.
  { rewrite Hp. replace p with (([z2b (zlen chan)] ++ chan) ++ concat l ++ [])
      by (unfold p; by rewrite app_nil_r, <- !app_assoc).
    apply slice_app; rewrite zlen_app; zlen_lia. }
  cbn [expect obind]. rewrite utf8_lossy_valid by done.
  rewrite chunks_exact_concat; [|lia|].
  - f_equal. unfold SyncFilter_new. f_equal. unfold l. cbn [SyncFilter_new sf_digests].
    apply dedup_isort_id; done.
  - apply Forall_forall. intros d Hin'. apply Hin in Hin'. rewrite Forall_forall in Hd. by apply Hd.
Qed.

Section channel_roundtrip.
Context `{Lz4, !Lz4Laws}.

(** The layout of a channel payload, read back. *)
Lemma decode_channel_layout (z : byte) chan body cfg :
  zlen chan <= 255 → utf8_valid chan = true →
  decode_channel ([z] ++ [z2b (zlen chan)] ++ chan ++ body) cfg =
  let* text_bytes :=
    (if b2z z =? 1 then
       match decompress body cfg with Ok t => Ok t | Err _ => Err tt | Panic => Panic end
     else Ok body) in
  Ok (chan, utf8_lossy text_bytes).
Proof.
  intros Hc Hv. pose proof (zlen_nonneg chan). pose proof (zlen_nonneg body).
  set (p := _ ++ _). assert (zlen p = 2 + zlen chan + zlen body) as Hp
    by (unfold p; rewrite !zlen_app; zlen_lia).
  unfold decode_channel. rewrite (proj2 (Z.ltb_ge _ _)) by lia.
  change (index 0 p) with (Some z). change (index 1 p) with (Some (z2b (zlen chan))).
  cbn [expect obind]. rewrite b2z_z2b_u8 by (unfold in_width; lia).
  assert ((2 + zlen chan >? zlen p) = false) as -> by lia.
  assert (slice 2 (2 + zlen chan) p = Some chan) as ->.
  { replace p with ([z; z2b (zlen chan)] ++ chan ++ body) by done. by apply slice_app. }
  assert (slice (2 + zlen chan) (zlen p) p = Some body) as ->.
  { rewrite Hp. replace p with (([z; z2b (zlen chan)] ++ chan) ++ body ++ [])
      by (by rewrite app_nil_r, <- app_assoc).
    apply slice_app; zlen_lia. }
  cbn [expect obind]. by rewrite utf8_lossy_valid.
Qed.

(** What a receiver reads from a channel payload: the message, unless it was compressed from
    more than the receiver's output cap. *)
Lemma decode_encode_channel chan text cfg :
  zlen chan <= 255 → utf8_valid chan = true → utf8_valid text = true → zlen text < 2 ^ 32 →
  decode_channel (encode_channel chan text cfg) cfg =
  match maybe_compress text cfg with
  | Some _ => if zlen text >? decompress_max_bytes cfg then Err tt else Ok (chan, text)
  | None => Ok (chan, text)
  end.
Proof.
  intros Hc Hcv Htv Ht. unfold encode_channel. rewrite Z.min_l by lia.
  replace (take (Z.to_nat (zlen chan)) chan) with chan
    by (symmetry; apply take_ge; unfold zlen; lia).
  destruct (maybe_compress text cfg) as [c|] eqn:Ec; rewrite decode_channel_layout by done.
  - change (b2z (z2b 1) =? 1) with true. rewrite (decompress_maybe_compress _ _ _ Ht Ec).
    destruct (_ >? _); [done|]. cbn [obind]. by rewrite utf8_lossy_valid.
  - change (b2z (z2b 0) =? 1) with false. cbn [obind]. by rewrite utf8_lossy_valid.
Qed.

(** C40: the three payloads round-trip: an announce up to its 24-byte nickname, a sync filter
    exactly, and a channel message exactly when it was not compressed from more than
    [decompress_max_bytes] - a longer compressible text is unreadable for every receiver. *)
Theorem payload_roundtrips ed dh nick chan text ds cfg :
  length ed = 32%nat → length dh = 32%nat → utf8_valid (take 24 nick) = true →
  zlen chan <= 255 → utf8_valid chan = true → Forall (λ d, length d = 8%nat) ds →
  utf8_valid text = true → zlen text < 2 ^ 32 →
  decode_announce (encode_announce ed dh nick) = Ok (ed, dh, take 24 nick)
  ∧ decode_sync (encode_sync (SyncFilter_new chan ds)) = Ok (SyncFilter_new chan ds)
  ∧ (decode_channel (encode_channel chan text cfg) cfg = Ok (chan, text)
     ↔ maybe_compress text cfg = None ∨ zlen text <= decompress_max_bytes cfg).
Proof.
  intros. split; [by apply announce_roundtrip|]. split; [by apply sync_roundtrip|].
  rewrite decode_encode_channel by done.
  destruct (maybe_compress text cfg); [|split; [by left|done]].
  destruct (_ >? _) eqn:E; split; try done; try (right; lia). intros [?|?]; [done|lia].
Qed.
End channel_roundtrip.

(** ** Witnesses *)

Lemma payload_roundtrips_witness :
  let big := replicate (Z.to_nat 5000) Byte.x41 in
  decode_announce (encode_announce (zeroes 32) (zeroes 32) [Byte.x41])
    = Ok (zeroes 32, zeroes 32, take 24 [Byte.x41])
  ∧ decode_sync (encode_sync (SyncFilter_new DEFAULT_CHANNEL [zeroes 8; zeroes 8]))
    = Ok (SyncFilter_new DEFAULT_CHANNEL [zeroes 8; zeroes 8])
  ∧ (decode_channel (encode_channel DEFAULT_CHANNEL big Tunables_default) Tunables_default
     = Ok (DEFAULT_CHANNEL, big)
     ↔ maybe_compress big Tunables_default = None
       ∨ zlen big <= decompress_max_bytes Tunables_default).
Proof.
  apply payload_roundtrips; try done; try (by vm_compute).
  repeat constructor.
Defined.
