(* ===== verification/Node.v ===== *)
(** * Node: the orchestrator ([node.rs])

    [MeshNode] with every field of the source, one definition per method, in state-passing style:
    a method that mutates the node returns the new node. The clock is read as the field [now],
    which a single call does not change; the transport is the log of the calls made on it. An
    [unwrap] or an index out of range sets [panicked]. Hash maps whose iteration order shows
    are iterated by [hash_iter]. *)
From stdpp Require Import strings gmap.
From S2P Require Import Prelude Errors F64 Utf8 Clock External Transport Wire Config Frag Compress.
From S2P Require Import Relay Channels Store Identity Noise Payloads.

(** Something the UI should react to. *)
Inductive MeshEvent :=
  | MessageReceived (channel : rstring) (sender : EphId) (body : rstring) (timestamp_ms : Millis)
      (verified : bool)
  | PeerAppeared (fingerprint : Fingerprint) (eph : EphId) (petname : option rstring)
  | DmReceived (sender_fp : Fingerprint) (from_eph : EphId) (text : rstring) (kind : Z)
  | DmSession (peer_fp : Fingerprint) (verified : bool)
  | PeerKeyChanged (peer_fp : Fingerprint)
  | PeerLost (link : LinkId)
  | Stats (links seen pending_relays : Z).

#[export] Instance MeshEvent_eq_dec : EqDecision MeshEvent.
Proof. solve_decision. Defined.

Record LinkState := mkLinkState {
  mtu : Z;
  peer_eph : option EphId;
  peer_fp : option Fingerprint;
}.

Definition DM_HANDSHAKE_RETRY_MS : Millis := 2000.
Definition DM_HANDSHAKE_MAX_ATTEMPTS : Z := 12.
Definition DM_KIND_TEXT : Z := 0.
Definition DM_KIND_VERIFY_NOTICE : Z := 1.
Definition DM_KIND_VERIFY_ACK : Z := 2.
Definition DM_KIND_KEY_CHANGED : Z := 3.
Definition RESYNC_HANDSHAKE_THRESHOLD : Z := 2.
Definition XX_MSG1_LEN : Z := 32.

Section node.
Context `{Sha256, Ed25519, X25519, Snow, Lz4, Rand, HashIter, UnicodeCase}.
Context {S : Type} `{Store S}.

Record MeshNode := mkNode {
  identity : LocalIdentity;
  node_cfg : Tunables;
  sent : list transport_call;  (* calls made on the transport, oldest first *)
  now : Millis;  (* what the clock reads during the current call *)
  store : S;
  seen : SeenCache;
  rate : RateLimiter;
  scheduler : RelayScheduler;
  reassembler : Reassembler;
  rng : StdRng;
  links : gmap LinkId LinkState;
  eph_keys : gmap EphId bytes;
  subscribed : gset rstring;
  events : list MeshEvent;
  nickname : rstring;
  relays_fired : Z;
  noise_sessions : gmap Fingerprint NoiseSession;
  pending_dms : gmap Fingerprint (list rstring);
  fp_to_eph : gmap Fingerprint EphId;
  peer_static_dh : gmap Fingerprint bytes;
  pending_inbound_dms : gmap Fingerprint (list bytes);
  handshake_last_ms : gmap Fingerprint Millis;
  handshake_attempts : gmap Fingerprint Z;
  resync_pending : gmap Fingerprint Z;
  notice_pending : gset Fingerprint;
  panicked : bool;  (* an [unwrap], index or slice failed: the process is gone *)
}.

Definition set_sent (n : MeshNode) (x : list transport_call) : MeshNode :=
  mkNode (identity n) (node_cfg n) x (now n) (store n) (seen n) (rate n) (scheduler n)
    (reassembler n) (rng n) (links n) (eph_keys n) (subscribed n) (events n) (nickname n)
    (relays_fired n) (noise_sessions n) (pending_dms n) (fp_to_eph n) (peer_static_dh n)
    (pending_inbound_dms n) (handshake_last_ms n) (handshake_attempts n) (resync_pending n)
    (notice_pending n) (panicked n).
Definition set_now (n : MeshNode) (x : Millis) : MeshNode :=
  mkNode (identity n) (node_cfg n) (sent n) x (store n) (seen n) (rate n) (scheduler n)
    (reassembler n) (rng n) (links n) (eph_keys n) (subscribed n) (events n) (nickname n)
    (relays_fired n) (noise_sessions n) (pending_dms n) (fp_to_eph n) (peer_static_dh n)
    (pending_inbound_dms n) (handshake_last_ms n) (handshake_attempts n) (resync_pending n)
    (notice_pending n) (panicked n).
Definition set_store (n : MeshNode) (x : S) : MeshNode :=
  mkNode (identity n) (node_cfg n) (sent n) (now n) x (seen n) (rate n) (scheduler n)
    (reassembler n) (rng n) (links n) (eph_keys n) (subscribed n) (events n) (nickname n)
    (relays_fired n) (noise_sessions n) (pending_dms n) (fp_to_eph n) (peer_static_dh n)
    (pending_inbound_dms n) (handshake_last_ms n) (handshake_attempts n) (resync_pending n)
    (notice_pending n) (panicked n).
Definition set_seen (n : MeshNode) (x : SeenCache) : MeshNode :=
  mkNode (identity n) (node_cfg n) (sent n) (now n) (store n) x (rate n) (scheduler n)
    (reassembler n) (rng n) (links n) (eph_keys n) (subscribed n) (events n) (nickname n)
    (relays_fired n) (noise_sessions n) (pending_dms n) (fp_to_eph n) (peer_static_dh n)
    (pending_inbound_dms n) (handshake_last_ms n) (handshake_attempts n) (resync_pending n)
    (notice_pending n) (panicked n).
Definition set_rate (n : MeshNode) (x : RateLimiter) : MeshNode :=
  mkNode (identity n) (node_cfg n) (sent n) (now n) (store n) (seen n) x (scheduler n)
    (reassembler n) (rng n) (links n) (eph_keys n) (subscribed n) (events n) (nickname n)
    (relays_fired n) (noise_sessions n) (pending_dms n) (fp_to_eph n) (peer_static_dh n)
    (pending_inbound_dms n) (handshake_last_ms n) (handshake_attempts n) (resync_pending n)
    (notice_pending n) (panicked n).
Definition set_scheduler (n : MeshNode) (x : RelayScheduler) : MeshNode :=
  mkNode (identity n) (node_cfg n) (sent n) (now n) (store n) (seen n) (rate n) x (reassembler n)
    (rng n) (links n) (eph_keys n) (subscribed n) (events n) (nickname n) (relays_fired n)
    (noise_sessions n) (pending_dms n) (fp_to_eph n) (peer_static_dh n) (pending_inbound_dms n)
    (handshake_last_ms n) (handshake_attempts n) (resync_pending n) (notice_pending n)
    (panicked n).
Definition set_reassembler (n : MeshNode) (x : Reassembler) : MeshNode :=
  mkNode (identity n) (node_cfg n) (sent n) (now n) (store n) (seen n) (rate n) (scheduler n) x
    (rng n) (links n) (eph_keys n) (subscribed n) (events n) (nickname n) (relays_fired n)
    (noise_sessions n) (pending_dms n) (fp_to_eph n) (peer_static_dh n) (pending_inbound_dms n)
    (handshake_last_ms n) (handshake_attempts n) (resync_pending n) (notice_pending n)
    (panicked n).
Definition set_rng (n : MeshNode) (x : StdRng) : MeshNode :=
  mkNode (identity n) (node_cfg n) (sent n) (now n) (store n) (seen n) (rate n) (scheduler n)
    (reassembler n) x (links n) (eph_keys n) (subscribed n) (events n) (nickname n)
    (relays_fired n) (noise_sessions n) (pending_dms n) (fp_to_eph n) (peer_static_dh n)
    (pending_inbound_dms n) (handshake_last_ms n) (handshake_attempts n) (resync_pending n)
    (notice_pending n) (panicked n).
Definition set_links (n : MeshNode) (x : gmap LinkId LinkState) : MeshNode :=
  mkNode (identity n) (node_cfg n) (sent n) (now n) (store n) (seen n) (rate n) (scheduler n)
    (reassembler n) (rng n) x (eph_keys n) (subscribed n) (events n) (nickname n)
    (relays_fired n) (noise_sessions n) (pending_dms n) (fp_to_eph n) (peer_static_dh n)
    (pending_inbound_dms n) (handshake_last_ms n) (handshake_attempts n) (resync_pending n)
    (notice_pending n) (panicked n).
Definition set_eph_keys (n : MeshNode) (x : gmap EphId bytes) : MeshNode :=
  mkNode (identity n) (node_cfg n) (sent n) (now n) (store n) (seen n) (rate n) (scheduler n)
    (reassembler n) (rng n) (links n) x (subscribed n) (events n) (nickname n) (relays_fired n)
    (noise_sessions n) (pending_dms n) (fp_to_eph n) (peer_static_dh n) (pending_inbound_dms n)
    (handshake_last_ms n) (handshake_attempts n) (resync_pending n) (notice_pending n)
    (panicked n).
Definition set_subscribed (n : MeshNode) (x : gset rstring) : MeshNode :=
  mkNode (identity n) (node_cfg n) (sent n) (now n) (store n) (seen n) (rate n) (scheduler n)
    (reassembler n) (rng n) (links n) (eph_keys n) x (events n) (nickname n) (relays_fired n)
    (noise_sessions n) (pending_dms n) (fp_to_eph n) (peer_static_dh n) (pending_inbound_dms n)
    (handshake_last_ms n) (handshake_attempts n) (resync_pending n) (notice_pending n)
    (panicked n).
Definition set_events (n : MeshNode) (x : list MeshEvent) : MeshNode :=
  mkNode (identity n) (node_cfg n) (sent n) (now n) (store n) (seen n) (rate n) (scheduler n)
    (reassembler n) (rng n) (links n) (eph_keys n) (subscribed n) x (nickname n)
    (relays_fired n) (noise_sessions n) (pending_dms n) (fp_to_eph n) (peer_static_dh n)
    (pending_inbound_dms n) (handshake_last_ms n) (handshake_attempts n) (resync_pending n)
    (notice_pending n) (panicked n).
Definition set_relays_fired (n : MeshNode) (x : Z) : MeshNode :=
  mkNode (identity n) (node_cfg n) (sent n) (now n) (store n) (seen n) (rate n) (scheduler n)
    (reassembler n) (rng n) (links n) (eph_keys n) (subscribed n) (events n) (nickname n) x
    (noise_sessions n) (pending_dms n) (fp_to_eph n) (peer_static_dh n) (pending_inbound_dms n)
    (handshake_last_ms n) (handshake_attempts n) (resync_pending n) (notice_pending n)
    (panicked n).
Definition set_noise_sessions (n : MeshNode) (x : gmap Fingerprint NoiseSession) : MeshNode :=
  mkNode (identity n) (node_cfg n) (sent n) (now n) (store n) (seen n) (rate n) (scheduler n)
    (reassembler n) (rng n) (links n) (eph_keys n) (subscribed n) (events n) (nickname n)
    (relays_fired n) x (pending_dms n) (fp_to_eph n) (peer_static_dh n) (pending_inbound_dms n)
    (handshake_last_ms n) (handshake_attempts n) (resync_pending n) (notice_pending n)
    (panicked n).
Definition set_pending_dms (n : MeshNode) (x : gmap Fingerprint (list rstring)) : MeshNode :=
  mkNode (identity n) (node_cfg n) (sent n) (now n) (store n) (seen n) (rate n) (scheduler n)
    (reassembler n) (rng n) (links n) (eph_keys n) (subscribed n) (events n) (nickname n)
    (relays_fired n) (noise_sessions n) x (fp_to_eph n) (peer_static_dh n)
    (pending_inbound_dms n) (handshake_last_ms n) (handshake_attempts n) (resync_pending n)
    (notice_pending n) (panicked n).
Definition set_fp_to_eph (n : MeshNode) (x : gmap Fingerprint EphId) : MeshNode :=
  mkNode (identity n) (node_cfg n) (sent n) (now n) (store n) (seen n) (rate n) (scheduler n)
    (reassembler n) (rng n) (links n) (eph_keys n) (subscribed n) (events n) (nickname n)
    (relays_fired n) (noise_sessions n) (pending_dms n) x (peer_static_dh n)
    (pending_inbound_dms n) (handshake_last_ms n) (handshake_attempts n) (resync_pending n)
    (notice_pending n) (panicked n).
Definition set_peer_static_dh (n : MeshNode) (x : gmap Fingerprint bytes) : MeshNode :=
  mkNode (identity n) (node_cfg n) (sent n) (now n) (store n) (seen n) (rate n) (scheduler n)
    (reassembler n) (rng n) (links n) (eph_keys n) (subscribed n) (events n) (nickname n)
    (relays_fired n) (noise_sessions n) (pending_dms n) (fp_to_eph n) x (pending_inbound_dms n)
    (handshake_last_ms n) (handshake_attempts n) (resync_pending n) (notice_pending n)
    (panicked n).
Definition set_pending_inbound_dms (n : MeshNode) (x : gmap Fingerprint (list bytes)) : MeshNode :=
  mkNode (identity n) (node_cfg n) (sent n) (now n) (store n) (seen n) (rate n) (scheduler n)
    (reassembler n) (rng n) (links n) (eph_keys n) (subscribed n) (events n) (nickname n)
    (relays_fired n) (noise_sessions n) (pending_dms n) (fp_to_eph n) (peer_static_dh n) x
    (handshake_last_ms n) (handshake_attempts n) (resync_pending n) (notice_pending n)
    (panicked n).
Definition set_handshake_last_ms (n : MeshNode) (x : gmap Fingerprint Millis) : MeshNode :=
  mkNode (identity n) (node_cfg n) (sent n) (now n) (store n) (seen n) (rate n) (scheduler n)
    (reassembler n) (rng n) (links n) (eph_keys n) (subscribed n) (events n) (nickname n)
    (relays_fired n) (noise_sessions n) (pending_dms n) (fp_to_eph n) (peer_static_dh n)
    (pending_inbound_dms n) x (handshake_attempts n) (resync_pending n) (notice_pending n)
    (panicked n).
Definition set_handshake_attempts (n : MeshNode) (x : gmap Fingerprint Z) : MeshNode :=
  mkNode (identity n) (node_cfg n) (sent n) (now n) (store n) (seen n) (rate n) (scheduler n)
    (reassembler n) (rng n) (links n) (eph_keys n) (subscribed n) (events n) (nickname n)
    (relays_fired n) (noise_sessions n) (pending_dms n) (fp_to_eph n) (peer_static_dh n)
    (pending_inbound_dms n) (handshake_last_ms n) x (resync_pending n) (notice_pending n)
    (panicked n).
Definition set_resync_pending (n : MeshNode) (x : gmap Fingerprint Z) : MeshNode :=
  mkNode (identity n) (node_cfg n) (sent n) (now n) (store n) (seen n) (rate n) (scheduler n)
    (reassembler n) (rng n) (links n) (eph_keys n) (subscribed n) (events n) (nickname n)
    (relays_fired n) (noise_sessions n) (pending_dms n) (fp_to_eph n) (peer_static_dh n)
    (pending_inbound_dms n) (handshake_last_ms n) (handshake_attempts n) x (notice_pending n)
    (panicked n).
Definition set_notice_pending (n : MeshNode) (x : gset Fingerprint) : MeshNode :=
  mkNode (identity n) (node_cfg n) (sent n) (now n) (store n) (seen n) (rate n) (scheduler n)
    (reassembler n) (rng n) (links n) (eph_keys n) (subscribed n) (events n) (nickname n)
    (relays_fired n) (noise_sessions n) (pending_dms n) (fp_to_eph n) (peer_static_dh n)
    (pending_inbound_dms n) (handshake_last_ms n) (handshake_attempts n) (resync_pending n) x
    (panicked n).
Definition set_panicked (n : MeshNode) (x : bool) : MeshNode :=
  mkNode (identity n) (node_cfg n) (sent n) (now n) (store n) (seen n) (rate n) (scheduler n)
    (reassembler n) (rng n) (links n) (eph_keys n) (subscribed n) (events n) (nickname n)
    (relays_fired n) (noise_sessions n) (pending_dms n) (fp_to_eph n) (peer_static_dh n)
    (pending_inbound_dms n) (handshake_last_ms n) (handshake_attempts n) (resync_pending n)
    (notice_pending n) x.

Implicit Types n : MeshNode.

(** [MeshNode::new]. *)
Definition MeshNode_new (identity : LocalIdentity) (cfg : Tunables) (clock : Millis) (store : S)
    (nickname : rstring) (rng_seed : Z) : MeshNode := {|
  identity := identity; node_cfg := cfg; sent := []; now := clock; store := store;
  seen := SeenCache_new cfg; rate := RateLimiter_new cfg; scheduler := RelayScheduler_new cfg;
  reassembler := Reassembler_new cfg; rng := seed_from_u64 rng_seed;
  links := ∅; eph_keys := ∅; subscribed := {[ DEFAULT_CHANNEL ]}; events := [];
  nickname := nickname; relays_fired := 0;
  noise_sessions := ∅; pending_dms := ∅; fp_to_eph := ∅; peer_static_dh := ∅;
  pending_inbound_dms := ∅; handshake_last_ms := ∅; handshake_attempts := ∅;
  resync_pending := ∅; notice_pending := ∅; panicked := false;
|}.

(** ** Introspection *)

Definition node_eph_id n : EphId := eph_id (identity n).
Definition node_fingerprint n : Fingerprint := id_fingerprint (identity n).
Definition link_count n : Z := msize (links n).
Definition reset_relays_fired n : MeshNode := set_relays_fired n 0.
Definition take_events n : list MeshEvent * MeshNode := (events n, set_events n []).

(** ** Small steps: [self.field.push(..)] and the like *)

Definition push_event n (e : MeshEvent) : MeshNode := set_events n (events n ++ [e]).
Definition log_call n (c : transport_call) : MeshNode := set_sent n (sent n ++ [c]).
Definition panic n : MeshNode := set_panicked n true.
Definition observe_seen n (digest : bytes) : MeshNode :=
  set_seen n (observe (seen n) digest (now n)).2.

(** [.get(&fp).map(|s| s.is_ready()).unwrap_or(false)]. *)
Definition session_ready n (fp : Fingerprint) : bool :=
  match noise_sessions n !! fp with Some s => is_ready s | None => false end.

Definition has_session n (fp : Fingerprint) : bool := bool_decide (is_Some (noise_sessions n !! fp)).
Definition knows_eph n (fp : Fingerprint) : bool := bool_decide (is_Some (fp_to_eph n !! fp)).

Definition put_session n (fp : Fingerprint) (s : NoiseSession) : MeshNode :=
  set_noise_sessions n (<[fp := s]> (noise_sessions n)).
Definition drop_session n (fp : Fingerprint) : MeshNode :=
  set_noise_sessions n (delete fp (noise_sessions n)).
Definition touch_handshake n (fp : Fingerprint) : MeshNode :=
  set_handshake_last_ms n (<[fp := now n]> (handshake_last_ms n)).

(** ** Outbound fanout *)

Definition send_bytes n (link : LinkId) (bs digest : bytes) (mtu : Z) : MeshNode :=
  match split bs digest mtu with
  | Ok frames => foldl (λ n f, log_call n (Send link f)) n frames
  | _ => n
  end.

Definition link_mtu n (link : LinkId) : Z :=
  match links n !! link with Some l => mtu l | None => default_mtu (node_cfg n) end.

Definition broadcast n (pkt : Packet) (exclude : option LinkId) : MeshNode :=
  let bs := encode pkt in
  let dg := digest pkt in
  let targets := List.filter (λ il : LinkId * LinkState, negb (bool_decide (Some il.1 = exclude)))
                   (btree_iter (links n)) in
  foldl (λ n (il : LinkId * LinkState), send_bytes n il.1 bs dg (mtu il.2)) n targets.

Definition send_on_link n (link : LinkId) (pkt : Packet) : MeshNode :=
  send_bytes n link (encode pkt) (digest pkt) (link_mtu n link).

(** Signs a packet this node originates. *)
Definition originate n (t : MsgType) (ttl : Z) (recipient : option EphId) (payload : bytes) : Packet :=
  sign (Packet_new t ttl (now n) (node_eph_id n) recipient payload) (signing_key (identity n)).

Definition send_directed n (t : MsgType) (peer_fp : Fingerprint) (payload : bytes) : MeshNode :=
  match fp_to_eph n !! peer_fp with
  | None => n
  | Some recipient =>
      let ttl := origin_ttl (node_cfg n) t (msize (links n)) in
      let pkt := originate n t ttl (Some recipient) payload in
      let n := observe_seen n (digest pkt) in
      broadcast n pkt None
  end.

(** ** Commands *)

Definition join_channel n (name : rstring) : MeshNode :=
  set_subscribed n ({[ normalize name ]} ∪ subscribed n).

Definition send_channel_message n (channel text : rstring) : bytes * MeshNode :=
  let channel := normalize channel in
  let n := set_subscribed n ({[ channel ]} ∪ subscribed n) in
  let ttl := origin_ttl (node_cfg n) ChannelMessage (msize (links n)) in
  let payload := encode_channel channel text (node_cfg n) in
  let pkt := originate n ChannelMessage ttl None payload in
  let dg := digest pkt in
  let n := set_store n (put_channel_message (store n)
             {| sm_digest := dg; sm_channel := channel; sm_sender := node_eph_id n;
                sm_timestamp_ms := now n; sm_body := text; sm_raw := encode pkt |}) in
  let n := observe_seen n dg in
  (dg, broadcast n pkt None).

Definition announce n : MeshNode :=
  let payload := encode_announce (vk_as_bytes (id_verifying_key (identity n)))
                   (dh_public (identity n)) (nickname n) in
  let pkt := originate n Announce (origin_ttl (node_cfg n) Announce (msize (links n))) None payload in
  let n := observe_seen n (digest pkt) in
  broadcast n pkt None.

Definition peer_or_new n (fp : Fingerprint) : PeerRecord :=
  default {| fingerprint := fp; petname := None; verified := false; last_eph := zeroes 8;
             last_seen_ms := now n |} (get_peer (store n) fp).

Definition drop_peer_session_state n (fp : Fingerprint) : MeshNode :=
  let n := drop_session n fp in
  let n := set_pending_dms n (delete fp (pending_dms n)) in
  let n := set_pending_inbound_dms n (delete fp (pending_inbound_dms n)) in
  let n := set_handshake_last_ms n (delete fp (handshake_last_ms n)) in
  let n := set_handshake_attempts n (delete fp (handshake_attempts n)) in
  let n := set_resync_pending n (delete fp (resync_pending n)) in
  set_notice_pending n (notice_pending n ∖ {[ fp ]}).

Definition set_petname n (fp : Fingerprint) (name : rstring) : MeshNode :=
  let p := peer_or_new n fp in
  let p := {| fingerprint := fingerprint p;
              petname := if bool_decide (name = []) then None else Some name;
              verified := verified p; last_eph := last_eph p; last_seen_ms := last_seen_ms p |} in
  set_store n (upsert_peer (store n) p).

Definition peer_verified n (fp : Fingerprint) : bool :=
  match get_peer (store n) fp with Some p => verified p | None => false end.

Definition peer_petname n (fp : Fingerprint) : option rstring :=
  match get_peer (store n) fp with Some p => petname p | None => None end.

Definition set_verified (p : PeerRecord) (v : bool) : PeerRecord :=
  {| fingerprint := fingerprint p; petname := petname p; verified := v; last_eph := last_eph p;
     last_seen_ms := last_seen_ms p |}.

Definition panic_wipe n : MeshNode :=
  let n := set_store n (store_panic_wipe (store n)) in
  let n := set_eph_keys n ∅ in
  let n := set_noise_sessions n ∅ in
  let n := set_pending_dms n ∅ in
  let n := set_fp_to_eph n ∅ in
  let n := set_peer_static_dh n ∅ in
  let n := set_pending_inbound_dms n ∅ in
  let n := set_handshake_last_ms n ∅ in
  let n := set_handshake_attempts n ∅ in
  let n := set_resync_pending n ∅ in
  let n := set_notice_pending n ∅ in
  set_events n [].

(** ** Direct messages *)

Definition eph_to_fp n (eph : EphId) : option Fingerprint := sha256 <$> eph_keys n !! eph.

Definition begin_handshake n (peer_fp : Fingerprint) : MeshNode :=
  match new_initiator (dh_private_bytes (identity n)) with
  | Ok session =>
      match write_handshake session with
      | (Ok msg, session) =>
          let n := put_session n peer_fp session in
          let n := send_directed n NoiseHandshake peer_fp msg in
          let n := touch_handshake n peer_fp in
          set_handshake_attempts n
            (<[peer_fp := wrap 32 (default 0 (handshake_attempts n !! peer_fp) + 1)]>
               (handshake_attempts n))
      | _ => n
      end
  | _ => n
  end.

Definition encrypt_and_send_dm n (fp : Fingerprint) (kind : Z) (body : bytes) : MeshNode :=
  match noise_sessions n !! fp with
  | None => n
  | Some session =>
      let '(r, session') := encrypt session (z2b kind :: body) in
      let n := put_session n fp session' in
      match r with
      | Ok ciphertext => send_directed n DirectMessage fp ciphertext
      | _ => n
      end
  end.

Definition put_own_dm n (fp : Fingerprint) (is_mine : bool) (body : bytes) : MeshNode :=
  set_store n (put_dm (store n)
    {| dm_peer := fp; mine := is_mine; dm_timestamp_ms := now n; dm_body := body |}).

Definition send_control_dm n (fp : Fingerprint) (kind : Z) : MeshNode :=
  let n := put_own_dm n fp true [z2b kind] in
  encrypt_and_send_dm n fp kind [].

Definition try_send_verify_notice n (fp : Fingerprint) : MeshNode :=
  if session_ready n fp && bool_decide (fp ∈ notice_pending n) then
    let n := set_notice_pending n (notice_pending n ∖ {[ fp ]}) in
    send_control_dm n fp DM_KIND_VERIFY_NOTICE
  else n.

(** The kind prefix of a DM plaintext; anything not framed is legacy text. *)
Definition split_kind (plaintext : bytes) : Z * bytes :=
  match plaintext with
  | k :: rest => if b2z k <=? DM_KIND_VERIFY_ACK then (b2z k, rest) else (DM_KIND_TEXT, plaintext)
  | [] => (DM_KIND_TEXT, plaintext)
  end.

Definition decrypt_and_emit n (fp : Fingerprint) (ciphertext : bytes) : MeshNode :=
  match noise_sessions n !! fp with
  | None => n
  | Some session =>
      let '(r, session') := decrypt session ciphertext in
      let n := put_session n fp session' in
      match r with
      | Err _ => n
      | Panic => panic n
      | Ok plaintext =>
          let n := set_resync_pending n (delete fp (resync_pending n)) in
          let '(kind, body) := split_kind plaintext in
          let n := put_own_dm n fp false (if kind =? DM_KIND_TEXT then body else [z2b kind]) in
          let from_eph := default (zeroes 8) (fp_to_eph n !! fp) in
          let text := if kind =? DM_KIND_TEXT then utf8_lossy body else [] in
          let n := push_event n (DmReceived fp from_eph text kind) in
          if kind =? DM_KIND_VERIFY_NOTICE then send_control_dm n fp DM_KIND_VERIFY_ACK else n
      end
  end.

Definition send_dm n (peer_fp : Fingerprint) (text : rstring) : MeshNode :=
  let n := put_own_dm n peer_fp true text in
  if session_ready n peer_fp then encrypt_and_send_dm n peer_fp DM_KIND_TEXT text else
  if negb (knows_eph n peer_fp) then
    set_store n (queue_envelope (store n) peer_fp text (now n))
  else
    let n := set_pending_dms n
               (<[peer_fp := default [] (pending_dms n !! peer_fp) ++ [text]]> (pending_dms n)) in
    if negb (has_session n peer_fp) then begin_handshake n peer_fp
    else
      let n := set_handshake_attempts n (delete peer_fp (handshake_attempts n)) in
      set_handshake_last_ms n (delete peer_fp (handshake_last_ms n)).

Definition verify_peer n (fp : Fingerprint) : MeshNode :=
  let p := set_verified (peer_or_new n fp) true in
  let n := set_store n (upsert_peer (store n) p) in
  let n := set_store n (delete_dms (store n) fp true) in
  let n := set_notice_pending n ({[ fp ]} ∪ notice_pending n) in
  try_send_verify_notice n fp.

Definition unverify_peer n (fp : Fingerprint) : MeshNode :=
  let n := match get_peer (store n) fp with
           | Some p => set_store n (upsert_peer (store n) (set_verified p false))
           | None => n
           end in
  let n := set_store n (delete_dms (store n) fp true) in
  drop_peer_session_state n fp.

Definition forget_peer n (fp : Fingerprint) : MeshNode :=
  let n := set_store n (delete_dms (store n) fp false) in
  let n := set_store n (delete_peer (store n) fp) in
  let n := drop_peer_session_state n fp in
  set_fp_to_eph n (delete fp (fp_to_eph n)).

Definition start_dm_session n (peer_fp : Fingerprint) : MeshNode :=
  if session_ready n peer_fp then push_event n (DmSession peer_fp true)
  else if negb (knows_eph n peer_fp) then n
  else if negb (has_session n peer_fp) then begin_handshake n peer_fp
  else n.

(** Whether the session's authenticated key is the one the peer announced. *)
Definition session_bound n (fp : Fingerprint) : bool :=
  match noise_sessions n !! fp ≫= remote_static, peer_static_dh n !! fp with
  | Some remote, Some known => bool_decide (remote = known)
  | _, _ => false
  end.

Definition finish_session n (fp : Fingerprint) : MeshNode :=
  if negb (session_bound n fp) then
    let n := drop_session n fp in
    let n := set_pending_dms n (delete fp (pending_dms n)) in
    let n := set_handshake_last_ms n (delete fp (handshake_last_ms n)) in
    let n := set_handshake_attempts n (delete fp (handshake_attempts n)) in
    push_event n (DmSession fp false)
  else
    let n := set_handshake_last_ms n (delete fp (handshake_last_ms n)) in
    let n := set_handshake_attempts n (delete fp (handshake_attempts n)) in
    let n := set_resync_pending n (delete fp (resync_pending n)) in
    let n := push_event n (DmSession fp true) in
    let n := try_send_verify_notice n fp in
    let queued := default [] (pending_dms n !! fp) in
    let n := set_pending_dms n (delete fp (pending_dms n)) in
    let n := foldl (λ n text, encrypt_and_send_dm n fp DM_KIND_TEXT text) n queued in
    let inbound := default [] (pending_inbound_dms n !! fp) in
    let n := set_pending_inbound_dms n (delete fp (pending_inbound_dms n)) in
    foldl (λ n ct, decrypt_and_emit n fp ct) n inbound.

Definition advance_handshake n (fp : Fingerprint) : MeshNode :=
  match noise_sessions n !! fp with
  | None => panic n
  | Some session =>
      let finish n := if session_ready n fp then finish_session n fp else n in
      if is_ready session then finish n
      else
        match write_handshake session with
        | (Ok m, session') => finish (send_directed (put_session n fp session') NoiseHandshake fp m)
        | (_, session') => drop_session (put_session n fp session') fp
        end
  end.

(** The responder's half: read one message into the session, creating it when there is none. *)
Definition respond_handshake n (fp : Fingerprint) (payload : bytes) : MeshNode :=
  let with_session :=
    if negb (has_session n fp) then
      match new_responder (dh_private_bytes (identity n)) with
      | Ok s =>
          let n := put_session n fp s in
          let n := touch_handshake n fp in
          Some (set_handshake_attempts n
                  (<[fp := default 0 (handshake_attempts n !! fp)]> (handshake_attempts n)))
      | _ => None
      end
    else Some n in
  match with_session with
  | None => n
  | Some n =>
      match noise_sessions n !! fp with
      | None => panic n
      | Some session =>
          match read_handshake session payload with
          | (Ok _, session') =>
              let n := put_session n fp session' in
              let n := touch_handshake n fp in
              advance_handshake n fp
          | (_, session') => drop_session (put_session n fp session') fp
          end
      end
  end.

Definition handle_noise_handshake n (pkt : Packet) : MeshNode :=
  if negb (bool_decide (recipient pkt = Some (node_eph_id n))) then n else
  match eph_to_fp n (sender pkt) with
  | None => n
  | Some fp =>
      let after_resync :=
        if session_ready n fp then
          let tries := wrap 8 (default 0 (resync_pending n !! fp) + 1) in
          let n := set_resync_pending n (<[fp := tries]> (resync_pending n)) in
          if tries <? RESYNC_HANDSHAKE_THRESHOLD then (false, n)
          else
            let n := set_resync_pending n (delete fp (resync_pending n)) in
            (true, drop_session n fp)
        else (true, n) in
      let '(go_on, n) := after_resync in
      if negb go_on then n else
      let after_glare :=
        if zlen (payload pkt) =? XX_MSG1_LEN then
          match noise_sessions n !! fp with
          | Some session =>
              if is_handshaking session && initiator session then
                if bytes_ltb (node_fingerprint n) fp then (false, n)
                else (true, drop_session n fp)
              else (true, n)
          | None => (true, n)
          end
        else (true, n) in
      let '(go_on, n) := after_glare in
      if negb go_on then n else respond_handshake n fp (payload pkt)
  end.

Definition handle_direct_message n (pkt : Packet) : MeshNode :=
  if negb (bool_decide (recipient pkt = Some (node_eph_id n))) then n else
  match eph_to_fp n (sender pkt) with
  | None => n
  | Some fp =>
      if negb (session_ready n fp) then
        let buf := default [] (pending_inbound_dms n !! fp) in
        let buf := if zlen buf <? 32 then buf ++ [payload pkt] else buf in
        let n := set_pending_inbound_dms n (<[fp := buf]> (pending_inbound_dms n)) in
        if negb (has_session n fp) then begin_handshake n fp else n
      else decrypt_and_emit n fp (payload pkt)
  end.

(** ** Announces and links *)

Definition set_peer_fp (l : LinkState) (fp : option Fingerprint) : LinkState :=
  {| mtu := mtu l; peer_eph := peer_eph l; peer_fp := fp |}.

(** Fills in the fingerprints that learned announces resolve. *)
Definition resolve_links n : MeshNode :=
  let unresolved := List.filter
    (λ il : LinkId * LinkState, bool_decide (peer_fp il.2 = None)
                                && bool_decide (is_Some (peer_eph il.2)))
    (btree_iter (links n)) in
  foldl (λ n (il : LinkId * LinkState),
           match peer_eph il.2 with
           | None => panic n
           | Some eph =>
               match eph_to_fp n eph, links n !! il.1 with
               | Some fp, Some l => set_links n (<[il.1 := set_peer_fp l (Some fp)]> (links n))
               | _, _ => n
               end
           end) n unresolved.

(** The link ids per identity, each list ascending. *)
Definition links_by_fp n : gmap Fingerprint (list LinkId) :=
  foldl (λ m (il : LinkId * LinkState),
           match peer_fp il.2 with
           | Some fp => <[fp := default [] (m !! fp) ++ [il.1]]> m
           | None => m
           end) ∅ (btree_iter (links n)).

Definition dedup_links n : MeshNode :=
  let n := resolve_links n in
  let redundant := concat (map (λ fi : Fingerprint * list LinkId, drop 1 fi.2)
                             (btree_iter (links_by_fp n))) in
  foldl (λ n id, log_call (set_links n (delete id (links n))) (Close id)) n redundant.

Definition note_link_identity n (link : LinkId) (eph : EphId) : MeshNode :=
  let n := match links n !! link with
           | Some l =>
               if negb (bool_decide (peer_eph l = Some eph)) then
                 set_links n (<[link := {| mtu := mtu l; peer_eph := Some eph;
                                           peer_fp := None |}]> (links n))
               else n
           | None => n
           end in
  dedup_links n.

(** The key-change check of an announce: a marker row and an event for a known contact. *)
Definition note_key_change n (fp : Fingerprint) (prev : option bytes) (dh_pub : bytes) : MeshNode :=
  match prev with
  | Some p =>
      if negb (bool_decide (p = dh_pub)) && bool_decide (is_Some (get_peer (store n) fp)) then
        let n := put_own_dm n fp false [z2b DM_KIND_KEY_CHANGED] in
        push_event n (PeerKeyChanged fp)
      else n
  | None => n
  end.

(** What a correctly signed announce changes. *)
Definition accept_announce n (pkt : Packet) (pubkey dh_pub : bytes) (nick : rstring) : MeshNode :=
  let n := set_eph_keys n (<[sender pkt := pubkey]> (eph_keys n)) in
  let fp := sha256 pubkey in
  let n := set_fp_to_eph n (<[fp := sender pkt]> (fp_to_eph n)) in
  let prev := peer_static_dh n !! fp in
  let n := set_peer_static_dh n (<[fp := dh_pub]> (peer_static_dh n)) in
  let n := note_key_change n fp prev dh_pub in
  let existing := get_peer (store n) fp in
  let n := set_store n (upsert_peer (store n)
    {| fingerprint := fp;
       petname := match existing with Some p => petname p | None => None end;
       verified := match existing with Some p => verified p | None => false end;
       last_eph := sender pkt; last_seen_ms := timestamp_ms pkt |}) in
  let n := push_event n (PeerAppeared fp (sender pkt)
                           (if bool_decide (nick = []) then None else Some nick)) in
  let n := dedup_links n in
  let '(held, st) := take_envelopes (store n) fp in
  let n := set_store n st in
  foldl (λ n bs, send_dm n fp (utf8_lossy bs)) n held.

Definition handle_announce n (pkt : Packet) : MeshNode :=
  match decode_announce (payload pkt) with
  | Err _ => n
  | Panic => panic n
  | Ok (pubkey, dh_pub, nick) =>
      match vk_from_bytes pubkey with
      | None => n
      | Some vk =>
          if negb (is_ok (Wire.verify pkt vk)) then n
          else accept_announce n pkt pubkey dh_pub nick
      end
  end.

Definition handle_channel n (pkt : Packet) : MeshNode :=
  match decode_channel (payload pkt) (node_cfg n) with
  | Err _ => n
  | Panic => panic n
  | Ok (channel, text) =>
      let key := match eph_keys n !! sender pkt with
                 | Some pk => vk_from_bytes pk
                 | None => None
                 end in
      let verdict := match key with
                     | Some vk => if is_ok (Wire.verify pkt vk) then Some true else None
                     | None => Some false
                     end in
      match verdict with
      | None => n
      | Some verified =>
          let n := set_store n (put_channel_message (store n)
            {| sm_digest := digest pkt; sm_channel := channel; sm_sender := sender pkt;
               sm_timestamp_ms := timestamp_ms pkt; sm_body := text; sm_raw := encode pkt |}) in
          if bool_decide (channel ∈ subscribed n) then
            push_event n (MessageReceived channel (sender pkt) text (timestamp_ms pkt) verified)
          else n
      end
  end.

Definition handle_sync_request n (link : LinkId) (pkt : Packet) : MeshNode :=
  match decode_sync (payload pkt) with
  | Err _ => n
  | Panic => panic n
  | Ok remote =>
      let mine := SyncFilter_new (sf_channel remote) (channel_digests (store n) (sf_channel remote)) in
      foldl (λ n dg,
               match message_by_digest (store n) dg with
               | Some m =>
                   if negb (bool_decide (sm_raw m = []))
                   then send_bytes n link (sm_raw m) dg (link_mtu n link) else n
               | None => n
               end) n (missing_from mine remote)
  end.

Definition send_sync_requests n (link : LinkId) : MeshNode :=
  foldl (λ n channel,
           let filter := SyncFilter_new channel (channel_digests (store n) channel) in
           send_on_link n link (originate n SyncRequest 1 None (encode_sync filter)))
    n (btree_set_iter (subscribed n)).

(** ** Transport plumbing *)

Definition maybe_relay n (arrived_link : LinkId) (pkt : Packet) : MeshNode :=
  if ttl pkt <=? 1 then n else
  let degree := msize (links n) in
  let '(relay, rng1) := should_relay degree (node_cfg n) (rng n) in
  let n := set_rng n rng1 in
  if negb relay then n else
  let pkt := set_ttl pkt (ttl pkt - 1) in
  let '(delay, rng2) := relay_delay (node_cfg n) (rng n) in
  let n := set_rng n rng2 in
  set_scheduler n (schedule (scheduler n) (digest pkt) pkt arrived_link delay (now n)).

(** The handler of a packet's type. *)
Definition dispatch n (link : LinkId) (pkt : Packet) : MeshNode :=
  match msg_type pkt with
  | Announce => handle_announce n pkt
  | ChannelMessage => handle_channel n pkt
  | SyncRequest => handle_sync_request n link pkt
  | NoiseHandshake => handle_noise_handshake n pkt
  | DirectMessage => handle_direct_message n pkt
  | _ => n
  end.

(** A decoded packet: link tag, dedup, rate limit, handler, relay. *)
Definition on_packet n (link : LinkId) (pkt : Packet) : MeshNode :=
  let n := if bool_decide (msg_type pkt = SyncRequest)
           then note_link_identity n link (sender pkt) else n in
  let '(obs, seen') := observe (seen n) (digest pkt) (now n) in
  let n := set_seen n seen' in
  if negb (is_new obs) then n else
  let '(admitted, rate') := allow (rate n) (sender pkt) (now n) in
  let n := set_rate n rate' in
  if negb admitted then n else
  let n := dispatch n link pkt in
  maybe_relay n link pkt.

Definition on_frame n (link : LinkId) (frame : bytes) : MeshNode :=
  let '(r, reassembler') := ingest (reassembler n) frame (now n) in
  let n := set_reassembler n reassembler' in
  match r with
  | Panic => panic n
  | Err _ | Ok None => n
  | Ok (Some packet_bytes) =>
      match decode packet_bytes with
      | Panic => panic n
      | Err _ => n
      | Ok pkt => on_packet n link pkt
      end
  end.

Definition on_transport_event n (ev : TransportEvent) : MeshNode :=
  match ev with
  | LinkUp link mtu _ =>
      let n := set_links n (<[link := {| mtu := mtu; peer_eph := None; peer_fp := None |}]> (links n)) in
      let n := announce n in
      send_sync_requests n link
  | MtuChanged link mtu =>
      match links n !! link with
      | Some l => set_links n (<[link := {| mtu := mtu; peer_eph := peer_eph l;
                                            peer_fp := peer_fp l |}]> (links n))
      | None => n
      end
  | LinkDown link =>
      let n := set_links n (delete link (links n)) in
      push_event n (PeerLost link)
  | FrameReceived link frame => on_frame n link frame
  end.

(** Whether a handshake is due to be driven again. *)
Definition is_stalled n (now_ms : Millis) (fp : Fingerprint) : bool :=
  if session_ready n fp || negb (knows_eph n fp) then false
  else if DM_HANDSHAKE_MAX_ATTEMPTS <=? default 0 (handshake_attempts n !! fp) then false
  else DM_HANDSHAKE_RETRY_MS <=? sat_sub now_ms (default 0 (handshake_last_ms n !! fp)).

Definition retry_stalled_handshakes n (now_ms : Millis) : MeshNode :=
  let stalled := List.filter (is_stalled n now_ms) (map fst (hash_iter (handshake_attempts n))) in
  foldl (λ n fp, begin_handshake (drop_session n fp) fp) n stalled.

Definition tick n : Millis * MeshNode :=
  let now_ms := now n in
  let n := match due (scheduler n) now_ms (seen n) with
           | None => panic n
           | Some (ready, scheduler') =>
               let n := set_scheduler n scheduler' in
               foldl (λ n d,
                        let n := set_relays_fired n (wrap 64 (relays_fired n + 1)) in
                        broadcast n (due_packet d) (Some (exclude_link d))) n ready
           end in
  let n := set_seen n (Relay.evict_expired (seen n) now_ms).2 in
  let n := set_reassembler n (Frag.evict_expired (reassembler n) now_ms).2 in
  (250, retry_stalled_handshakes n now_ms).

(** ** Runs *)

(** Everything the platform can ask of a node, and the passage of time. *)
Inductive node_op :=
  | OpEvent (ev : TransportEvent)
  | OpTick
  | OpClock (delta : Millis)
  | OpTakeEvents
  | OpResetRelays
  | OpJoin (name : rstring)
  | OpSendChannel (channel text : rstring)
  | OpAnnounce
  | OpSendDm (fp : Fingerprint) (text : rstring)
  | OpStartSession (fp : Fingerprint)
  | OpVerify (fp : Fingerprint)
  | OpUnverify (fp : Fingerprint)
  | OpForget (fp : Fingerprint)
  | OpSetPetname (fp : Fingerprint) (name : rstring)
  | OpPanicWipe.

Definition node_step n (o : node_op) : MeshNode :=
  match o with
  | OpEvent ev => on_transport_event n ev
  | OpTick => (tick n).2
  | OpClock d => set_now n (sat_add 64 (now n) d)
  | OpTakeEvents => (take_events n).2
  | OpResetRelays => reset_relays_fired n
  | OpJoin c => join_channel n c
  | OpSendChannel c t => (send_channel_message n c t).2
  | OpAnnounce => announce n
  | OpSendDm fp t => send_dm n fp t
  | OpStartSession fp => start_dm_session n fp
  | OpVerify fp => verify_peer n fp
  | OpUnverify fp => unverify_peer n fp
  | OpForget fp => forget_peer n fp
  | OpSetPetname fp name => set_petname n fp name
  | OpPanicWipe => panic_wipe n
  end.

Definition node_run n (ops : list node_op) : MeshNode := foldl node_step n ops.
End node.
