(* ===== verification/NodeFrame.v ===== *)
(** * NodeFrame: one induction for every property of a node's steps

    A property of the node that survives each elementary update survives every method. [Frame]
    collects what has to be shown of the elementary updates: [R] relates the node before and
    after, and [Q fp] is the weaker relation that holds while the session with [fp] is in the
    middle of an update and has not been checked yet. The lemmas lift [R] from the updates to
    [node_step], in the order the source composes them. The unreachable panics are refuted on the
    way. *)
From stdpp Require Import strings gmap.
From S2P Require Import Prelude Errors F64 Utf8 Clock External Transport Wire Config Frag Compress.
From S2P Require Import Relay Channels Store Identity Noise Payloads Node.

(** ** The log of calls *)

Section fanout.
Context `{Sha256, Ed25519, X25519, Snow, Lz4, Rand, HashIter, UnicodeCase}.
Context {S : Type} `{Store S}.
#[local] Abbreviation Node := (MeshNode (S:=S)).
Implicit Types n : Node.

(** The frames of a packet for a link with the given MTU: none when it cannot be cut up. *)
Definition frames_for (pkt : Packet) (m : Z) : list bytes :=
  match split (encode pkt) (digest pkt) m with Ok fs => fs | _ => [] end.

Lemma set_sent_id n : set_sent n (sent n ++ []) = n.
Proof. rewrite app_nil_r. by destruct n. Qed.

Lemma send_bytes_sent n link bs dg m :
  send_bytes n link bs dg m =
  set_sent n (sent n ++ map (Send link) (match split bs dg m with Ok fs => fs | _ => [] end)).
Proof.
  unfold send_bytes. destruct (split bs dg m) as [fs|e|]; [|by rewrite set_sent_id..].
  revert n. induction fs as [|f fs IH]; intros n; cbn [foldl map].
  - by rewrite set_sent_id.
  - rewrite IH. unfold log_call. cbn. by rewrite <- app_assoc.
Qed.

Definition fanout (pkt : Packet) (il : LinkId * LinkState) : list transport_call :=
  map (Send il.1) (frames_for pkt (mtu il.2)).

Definition targets n (exclude : option LinkId) : list (LinkId * LinkState) :=
  List.filter (λ il : LinkId * LinkState, negb (bool_decide (Some il.1 = exclude)))
    (btree_iter (links n)).

(** A broadcast appends to the log of calls, link by link, and does nothing else. *)
Lemma broadcast_sent n pkt exclude :
  broadcast n pkt exclude =
  set_sent n (sent n ++ concat (map (fanout pkt) (targets n exclude))).
Proof.
  unfold broadcast. fold (targets n exclude). generalize (targets n exclude) as l.
  intros l. revert n. induction l as [|il l IH]; intros n; cbn [foldl map concat].
  - by rewrite set_sent_id.
  - rewrite IH, send_bytes_sent. cbn [sent set_sent]. by rewrite <- app_assoc.
Qed.

Lemma targets_known n exclude il : il ∈ targets n exclude → il.1 ∈ dom (links n).
Proof.
  intros Hin. apply list_elem_of_In, List.filter_In in Hin as [Hin _].
  destruct il as [l st]. apply list_elem_of_In, elem_of_btree_iter in Hin.
  by apply elem_of_dom_2 in Hin.
Qed.

(** Closing links one by one logs the closings and removes the links. *)
Lemma close_links n ids :
  foldl (λ n id, log_call (set_links n (delete id (links n))) (Close id)) n ids =
  set_links (set_sent n (sent n ++ map Close ids)) (foldl (λ m id, delete id m) (links n) ids).
Proof.
  revert n. induction ids as [|id ids IH]; intros n; cbn [foldl map].
  - rewrite set_sent_id. by destruct n.
  - rewrite IH. unfold log_call. cbn. by rewrite <- app_assoc.
Qed.

Lemma deleted_dom (m : gmap LinkId LinkState) ids :
  dom (foldl (λ m id, delete id m) m ids) ⊆ dom m.
Proof.
  revert m. induction ids as [|id ids IH]; intros m; [done|]. cbn [foldl].
  rewrite IH, dom_delete. set_solver.
Qed.

Lemma links_by_fp_known n fp ids : links_by_fp n !! fp = Some ids → ∀ l, l ∈ ids → l ∈ dom (links n).
Proof.
  unfold links_by_fp. assert (∀ il, il ∈ btree_iter (links n) → il.1 ∈ dom (links n)) as Hall.
  { intros [l st] Hin%elem_of_btree_iter. by apply elem_of_dom_2 in Hin. }
  assert (∀ fp ids, (∅ : gmap Fingerprint (list LinkId)) !! fp = Some ids →
            ∀ l, l ∈ ids → l ∈ dom (links n)) as Hnone by done.
  revert Hnone Hall fp ids. generalize (∅ : gmap Fingerprint (list LinkId)) as m.
  induction (btree_iter (links n)) as [|il ils IH]; intros m Hm Hall; [exact Hm|]. cbn [foldl].
  apply IH; [|by intros; apply Hall; right]. destruct (peer_fp il.2) as [fp'|]; [|exact Hm].
  intros fp ids. rewrite lookup_insert. case_decide as Hfp; [|apply Hm]. intros [= <-] l.
  rewrite elem_of_app, list_elem_of_singleton. intros [Hl| ->]; [|by apply Hall; left].
  destruct (m !! fp') as [old|] eqn:E; [by apply (Hm _ _ E)|by apply not_elem_of_nil in Hl].
Qed.

End fanout.

(** ** The frame *)

Section frame.
Context `{Sha256, Ed25519, X25519, Snow, Lz4, Rand, HashIter, UnicodeCase}.
Context `{!SnowLaws}.
Context {S : Type} `{Store S}.
#[local] Abbreviation Node := (MeshNode (S:=S)).
Implicit Types n : Node.

(** A validly signed announce binds the identity [fp] to the agreement key [dh]. *)
Definition announced (fp : Fingerprint) (dh : bytes) : Prop :=
  ∃ pkt pubkey nick vk,
    decode_announce (payload pkt) = Ok (pubkey, dh, nick) ∧ vk_from_bytes pubkey = Some vk
    ∧ Wire.verify pkt vk = Ok tt ∧ sha256 pubkey = fp.

(** A validly signed announce gives the wire id [eph] the signing key [pk]. *)
Definition eph_announced (eph : EphId) (pk : bytes) : Prop :=
  ∃ pkt dh nick vk,
    sender pkt = eph ∧ decode_announce (payload pkt) = Ok (pk, dh, nick)
    ∧ vk_from_bytes pk = Some vk ∧ Wire.verify pkt vk = Ok tt.

(** What a direct message shows of the plaintext that was decrypted. *)
Definition shown (plaintext : bytes) : Z * rstring :=
  let '(kind, body) := split_kind plaintext in
  (kind, if kind =? DM_KIND_TEXT then utf8_lossy body else []).

(** A message event says what the node knows: a message shown as verified is signed by the key on
    file for its sender, and a direct message was decrypted by the session with its sender. *)
Definition event_ok n (e : MeshEvent) : Prop :=
  match e with
  | MessageReceived channel s body ts true =>
      ∃ pkt pk vk c, eph_keys n !! s = Some pk ∧ vk_from_bytes pk = Some vk
        ∧ Wire.verify pkt vk = Ok tt ∧ sender pkt = s ∧ timestamp_ms pkt = ts
        ∧ decode_channel (payload pkt) c = Ok (channel, body)
  | DmReceived fp _ text kind =>
      ∃ s ct pt s', noise_sessions n !! fp = Some s' ∧ decrypt s ct = (Ok pt, s')
        ∧ shown pt = (kind, text)
  | _ => True
  end.

(** The session with [fp], if any, has been checked or has nothing to check yet. *)
Definition settled n (fp : Fingerprint) : Prop :=
  ∀ s, noise_sessions n !! fp = Some s → is_ready s = true → session_bound n fp = true.

(** The record an announce writes: what it says of trust is what was there before. *)
Definition keeps_trust n (p : PeerRecord) : Prop :=
  petname p = peer_petname n (fingerprint p) ∧ verified p = peer_verified n (fingerprint p).

(** Whether a call may be made: its link is one of the node's, or [L] allows it. *)
Definition call_ok (L : LinkId → Prop) n (c : transport_call) : Prop :=
  call_link c ∈ dom (links n) ∨ L (call_link c).

(** [L] says which links the environment may name. *)
Record Frame (L : LinkId → Prop) (R : relation Node) (Q : Fingerprint → relation Node) : Prop := {
  fr_R :: PreOrder R;
  fr_Q fp :: PreOrder (Q fp);
  fr_put n fp s : Q fp n (put_session n fp s);
  fq_drop n fp : Q fp n (drop_session n fp);
  fq_sent n fp cs : Forall (call_ok L n) cs → Q fp n (set_sent n (sent n ++ cs));
  fq_observe n fp d : Q fp n (observe_seen n d);
  fq_touch n fp : Q fp n (touch_handshake n fp);
  fq_attempts n fp x : Q fp n (set_handshake_attempts n x);
  fr_settle n n' fp : Q fp n n' → settled n' fp → R n n';
  fr_same n fp s s' :
    noise_sessions n !! fp = Some s → remote_static s' = remote_static s →
    is_ready s' = is_ready s → R n (put_session n fp s');
  fr_drop n fp : R n (drop_session n fp);
  fr_sent n cs : Forall (call_ok L n) cs → R n (set_sent n (sent n ++ cs));
  fr_now n x : R n (set_now n x);
  fr_observe n d t : R n (set_seen n (observe (seen n) d t).2);
  fr_seen_expire n t : R n (set_seen n (Relay.evict_expired (seen n) t).2);
  fr_rate n x : R n (set_rate n x);
  fr_scheduler n x : R n (set_scheduler n x);
  fr_ingest n f t : R n (set_reassembler n (ingest (reassembler n) f t).2);
  fr_expire n t : R n (set_reassembler n (Frag.evict_expired (reassembler n) t).2);
  fr_rng n x : R n (set_rng n x);
  fr_links n x : (∀ l, l ∈ dom x → l ∈ dom (links n) ∨ L l) → R n (set_links n x);
  fr_eph n eph pk :
    eph_announced eph pk → R n (set_eph_keys n (<[eph := pk]> (eph_keys n)));
  fr_subscribed n x : R n (set_subscribed n x);
  fr_push n e : event_ok n e → R n (push_event n e);
  fr_taken n : R n (set_events n []);
  fr_relays n x : R n (set_relays_fired n x);
  fr_pending_dms n x : R n (set_pending_dms n x);
  fr_fp_to_eph n x : R n (set_fp_to_eph n x);
  fr_last n x : R n (set_handshake_last_ms n x);
  fr_attempts n x : R n (set_handshake_attempts n x);
  fr_resync n x : R n (set_resync_pending n x);
  fr_notice n x : R n (set_notice_pending n x);
  fr_inbound_delete n fp :
    R n (set_pending_inbound_dms n (delete fp (pending_inbound_dms n)));
  fr_inbound_put n fp l :
    zlen l <= 32 ∨ pending_inbound_dms n !! fp = Some l →
    R n (set_pending_inbound_dms n (<[fp := l]> (pending_inbound_dms n)));
  fr_dh n fp dh :
    announced fp dh → R n (set_peer_static_dh n (<[fp := dh]> (peer_static_dh n)));
  fr_put_dm n d : R n (set_store n (put_dm (store n) d));
  fr_put_message n m : R n (set_store n (put_channel_message (store n) m));
  fr_queue n fp b t : R n (set_store n (queue_envelope (store n) fp b t));
  fr_take n fp : R n (set_store n (take_envelopes (store n) fp).2);
  fr_peer n p : keeps_trust n p → R n (set_store n (upsert_peer (store n) p));
}.

Context {L : LinkId → Prop}.
Context {R : relation Node} {Q : Fingerprint → relation Node} (HF : Frame L R Q).

#[local] Instance R_preorder : PreOrder R := fr_R _ _ _ HF.
#[local] Instance Q_preorder fp : PreOrder (Q fp) := fr_Q _ _ _ HF fp.

(** The updates that every frame allows unconditionally. *)
Ltac frame_update :=
  first
    [ simple apply (fr_drop _ _ _ HF)
    | simple apply (fr_observe _ _ _ HF)
    | simple apply (fr_seen_expire _ _ _ HF)
    | simple apply (fr_rate _ _ _ HF)
    | simple apply (fr_scheduler _ _ _ HF)
    | simple apply (fr_expire _ _ _ HF)
    | simple apply (fr_rng _ _ _ HF)
    | simple apply (fr_subscribed _ _ _ HF)
    | simple apply (fr_taken _ _ _ HF)
    | simple apply (fr_relays _ _ _ HF)
    | simple apply (fr_pending_dms _ _ _ HF)
    | simple apply (fr_fp_to_eph _ _ _ HF)
    | simple apply (fr_last _ _ _ HF)
    | simple apply (fr_attempts _ _ _ HF)
    | simple apply (fr_resync _ _ _ HF)
    | simple apply (fr_notice _ _ _ HF)
    | simple apply (fr_inbound_delete _ _ _ HF)
    | simple apply (fr_put_dm _ _ _ HF)
    | simple apply (fr_put_message _ _ _ HF)
    | simple apply (fr_queue _ _ _ HF)
    | simple apply (fr_take _ _ _ HF)
    | simple apply (fr_now _ _ _ HF) ].

#[local] Hint Extern 1 (R _ _) => frame_update : frame.

Lemma R_foldl {A} (f : Node → A → Node) l n :
  (∀ n x, x ∈ l → R n (f n x)) → R n (foldl f n l).
Proof.
  revert n. induction l as [|x l IH]; intros n Hf; [reflexivity|]. cbn [foldl].
  etrans; [apply Hf, list_elem_of_here|]. apply IH. intros. apply Hf. by right.
Qed.

(** One step of a frame proof: a [let] of a node is proved and generalized, a test is split, and
    an update at the head is peeled off by a lemma of the database. *)
Ltac frame_step :=
  lazymatch goal with
  | |- R ?n ?n => reflexivity
  | |- R ?n0 (let x := ?e in @?b x) =>
      lazymatch type of e with
      | Node =>
          let m := fresh "m" in let Hm := fresh "Hm" in
          let Hc := fresh "Hc" in
          assert (∀ m, R n0 m → R n0 (b m)) as Hc;
          [intros m Hm; cbv beta | refine (Hc e _); clear Hc]
      | _ => let g := eval cbv beta in (b e) in change (R n0 g)
      end
  | |- R ?n0 (match ?x with _ => _ end) => destruct x eqn:?
  | |- R ?n0 (foldl ?f ?m ?l) => etrans; [|apply R_foldl; intros]
  | |- R ?n0 ?m => first [assumption | etrans; [|solve [eauto with frame]]]
  end.

Ltac frame := repeat frame_step.

Lemma send_bytes_R n l b d m : L l → R n (send_bytes n l b d m).
Proof.
  intros Hl. rewrite send_bytes_sent. apply (fr_sent _ _ _ HF), Forall_map, Forall_true. by right.
Qed.
#[local] Hint Resolve send_bytes_R : frame.

Lemma fanout_ok n p x : Forall (call_ok L n) (concat (map (fanout p) (targets n x))).
Proof.
  apply Forall_concat, Forall_map, Forall_forall. intros il Hin. apply Forall_map, Forall_true.
  intros f. left. by eapply targets_known.
Qed.

Lemma broadcast_R n p x : R n (broadcast n p x).
Proof. rewrite broadcast_sent. apply (fr_sent _ _ _ HF), fanout_ok. Qed.
#[local] Hint Resolve broadcast_R : frame.

Lemma put_link_R n l st : is_Some (links n !! l) ∨ L l → R n (set_links n (<[l := st]> (links n))).
Proof.
  intros Hl. apply (fr_links _ _ _ HF). intros k. rewrite dom_insert, elem_of_union, elem_of_singleton.
  intros [->|Hk]; [|by left]. by rewrite elem_of_dom.
Qed.

Lemma send_on_link_R n l p : L l → R n (send_on_link n l p).
Proof. intros Hl. unfold send_on_link. frame. Qed.
#[local] Hint Resolve send_on_link_R : frame.

Lemma observe_seen_R n d : R n (observe_seen n d).
Proof. unfold observe_seen. frame. Qed.
Lemma push_event_R n e : event_ok n e → R n (push_event n e).
Proof. apply (fr_push _ _ _ HF). Qed.
Lemma touch_handshake_R n fp : R n (touch_handshake n fp).
Proof. unfold touch_handshake. frame. Qed.
Lemma put_own_dm_R n fp b x : R n (put_own_dm n fp b x).
Proof. unfold put_own_dm. frame. Qed.
#[local] Hint Resolve observe_seen_R push_event_R touch_handshake_R put_own_dm_R : frame.
#[local] Hint Extern 1 (event_ok _ _) => exact I : frame.

Lemma send_directed_R n t fp b : R n (send_directed n t fp b).
Proof. unfold send_directed. frame. Qed.
#[local] Hint Resolve send_directed_R : frame.

Lemma join_channel_R n c : R n (join_channel n c).
Proof. unfold join_channel. frame. Qed.

Lemma send_channel_message_R n c t : R n (send_channel_message n c t).2.
Proof. unfold send_channel_message. cbn [snd]. frame. Qed.

Lemma announce_R n : R n (announce n).
Proof. unfold announce. frame. Qed.
#[local] Hint Resolve announce_R : frame.

(** ** Sessions *)

Lemma put_lookup n fp s : noise_sessions (put_session n fp s) !! fp = Some s.
Proof. apply lookup_insert_eq. Qed.

Lemma unready_settled n fp s :
  noise_sessions n !! fp = Some s → is_ready s = false → settled n fp.
Proof. intros E Hr s' E' Hr'. congruence. Qed.

Lemma none_settled n fp : noise_sessions n !! fp = None → settled n fp.
Proof. intros E s E'. congruence. Qed.

Lemma encrypt_and_send_dm_R n fp k b : R n (encrypt_and_send_dm n fp k b).
Proof.
  unfold encrypt_and_send_dm. destruct (noise_sessions n !! fp) as [s|] eqn:Es; [|frame].
  destruct (encrypt_keeps s (z2b k :: b)) as (Hk1 & Hk2 & _).
  destruct (encrypt s (z2b k :: b)) as [r s']. cbn [snd] in *.
  pose proof (fr_same _ _ _ HF n fp s s' Es Hk1 Hk2). frame.
Qed.
#[local] Hint Resolve encrypt_and_send_dm_R : frame.

Lemma begin_handshake_R n fp : R n (begin_handshake n fp).
Proof.
  unfold begin_handshake. destruct (new_initiator _) as [s| |] eqn:Ei; [|frame..].
  destruct (write_handshake s) as [[m| |] s'] eqn:Ew; [|frame..].
  assert (R n (put_session n fp s')) as Hput.
  { eapply (fr_settle _ _ _ HF); [apply (fr_put _ _ _ HF)|].
    eapply unready_settled; [apply put_lookup|]. by eapply first_write_not_ready. }
  frame.
Qed.
#[local] Hint Resolve begin_handshake_R : frame.

Lemma send_control_dm_R n fp k : R n (send_control_dm n fp k).
Proof. unfold send_control_dm. frame. Qed.
#[local] Hint Resolve send_control_dm_R : frame.

Lemma try_send_verify_notice_R n fp : R n (try_send_verify_notice n fp).
Proof. unfold try_send_verify_notice. frame. Qed.
#[local] Hint Resolve try_send_verify_notice_R : frame.

Lemma decrypt_and_emit_R n fp ct : R n (decrypt_and_emit n fp ct).
Proof.
  unfold decrypt_and_emit. destruct (noise_sessions n !! fp) as [s|] eqn:Es; [|frame].
  pose proof (decrypt_window s ct) as Hw. destruct (decrypt s ct) as [r s'] eqn:Ed.
  destruct Hw as (Hr & Hk1 & Hk2 & _). pose proof (fr_same _ _ _ HF n fp s s' Es Hk1 Hk2).
  destruct r as [pt| |]; [|frame|done]. cbv zeta.
  destruct (split_kind pt) as [kind body] eqn:Ek.
  set (n1 := set_resync_pending (put_session n fp s') _).
  set (n2 := put_own_dm n1 fp false _).
  assert (R n n2) as Hn2 by (unfold n2, n1; frame).
  set (e := DmReceived _ _ _ _). assert (event_ok n2 e) as He.
  { exists s, ct, pt, s'. split; [apply lookup_insert_eq|]. split; [exact Ed|].
    unfold shown. by rewrite Ek. }
  assert (R n (push_event n2 e)) as Hn3 by (etrans; [exact Hn2|by apply push_event_R]). frame.
Qed.
#[local] Hint Resolve decrypt_and_emit_R : frame.

Lemma send_dm_R n fp t : R n (send_dm n fp t).
Proof. unfold send_dm. frame. Qed.
#[local] Hint Resolve send_dm_R : frame.

Lemma start_dm_session_R n fp : R n (start_dm_session n fp).
Proof. unfold start_dm_session. frame. Qed.

(** ** The handshake: from the weak relation back to the strong one *)

Lemma send_directed_Q fp' n t fp b : Q fp' n (send_directed n t fp b).
Proof.
  unfold send_directed. destruct (fp_to_eph n !! fp); [|reflexivity]. cbv zeta.
  rewrite broadcast_sent. etrans; [apply (fq_observe _ _ _ HF)|apply (fq_sent _ _ _ HF), fanout_ok].
Qed.

Lemma finish_session_R n n1 fp : Q fp n n1 → R n (finish_session n1 fp).
Proof.
  intros HQ. unfold finish_session. destruct (session_bound n1 fp) eqn:Eb; cbn [negb].
  - assert (R n n1) as HR.
    { eapply (fr_settle _ _ _ HF); [exact HQ|]. intros s _ _. exact Eb. }
    frame.
  - assert (R n (drop_session n1 fp)) as HR.
    { eapply (fr_settle _ _ _ HF); [etrans; [exact HQ|apply (fq_drop _ _ _ HF)]|].
      apply none_settled. apply lookup_delete_eq. }
    frame.
Qed.

Lemma maybe_finish_R n n1 fp :
  Q fp n n1 → R n (if session_ready n1 fp then finish_session n1 fp else n1).
Proof.
  intros HQ. destruct (session_ready n1 fp) eqn:Er; [by apply finish_session_R|].
  eapply (fr_settle _ _ _ HF); [exact HQ|]. intros s Es Hs. unfold session_ready in Er.
  rewrite Es in Er. congruence.
Qed.

Lemma drop_put_R n n1 fp s : Q fp n n1 → R n (drop_session (put_session n1 fp s) fp).
Proof.
  intros HQ. eapply (fr_settle _ _ _ HF).
  - etrans; [exact HQ|]. etrans; [apply (fr_put _ _ _ HF)|apply (fq_drop _ _ _ HF)].
  - apply none_settled. apply lookup_delete_eq.
Qed.

Lemma advance_handshake_R n n1 fp :
  Q fp n n1 → is_Some (noise_sessions n1 !! fp) → R n (advance_handshake n1 fp).
Proof.
  intros HQ [s Es]. unfold advance_handshake. rewrite Es. cbv zeta.
  destruct (is_ready s); [by apply maybe_finish_R|].
  destruct (write_handshake s) as [[m| |] s']; [|by apply drop_put_R..].
  apply maybe_finish_R. etrans; [|apply send_directed_Q].
  etrans; [exact HQ|]. apply (fr_put _ _ _ HF).
Qed.

Lemma put_session_fields n fp s :
  noise_sessions (touch_handshake (put_session n fp s) fp) !! fp = Some s.
Proof. apply lookup_insert_eq. Qed.

(** Reading one message into an existing session, and what follows. *)
Lemma read_session_R n n1 fp p :
  Q fp n n1 → is_Some (noise_sessions n1 !! fp) →
  R n match noise_sessions n1 !! fp with
      | None => panic n1
      | Some session =>
          match read_handshake session p with
          | (Ok _, session') =>
              let n := put_session n1 fp session' in
              let n := touch_handshake n fp in
              advance_handshake n fp
          | (_, session') => drop_session (put_session n1 fp session') fp
          end
      end.
Proof.
  intros HQ [s ->]. destruct (read_handshake s p) as [[u| |] s']; [|by apply drop_put_R..].
  cbv zeta. apply advance_handshake_R; [|rewrite put_session_fields; by eexists].
  etrans; [|apply (fq_touch _ _ _ HF)]. etrans; [exact HQ|apply (fr_put _ _ _ HF)].
Qed.

Lemma respond_handshake_R n fp p : R n (respond_handshake n fp p).
Proof.
  unfold respond_handshake, has_session. cbv zeta. case_bool_decide as Es; cbn [negb].
  - apply read_session_R; [reflexivity|done].
  - destruct (new_responder _) as [s| |]; [|reflexivity..]. apply read_session_R.
    + etrans; [etrans; [apply (fr_put _ _ _ HF)|apply (fq_touch _ _ _ HF)]|].
      apply (fq_attempts _ _ _ HF).
    + exists s. apply lookup_insert_eq.
Qed.
#[local] Hint Resolve respond_handshake_R : frame.

Lemma handle_noise_handshake_R n p : R n (handle_noise_handshake n p).
Proof.
  unfold handle_noise_handshake. frame_step; [reflexivity|].
  destruct (eph_to_fp n (sender p)) as [fp|]; [|reflexivity]. cbv zeta.
  assert (∀ go n1, (if session_ready n fp then
      let n0 := set_resync_pending n
        (<[fp:=wrap 8 (default 0 (resync_pending n !! fp) + 1)]> (resync_pending n)) in
      if wrap 8 (default 0 (resync_pending n !! fp) + 1) <? RESYNC_HANDSHAKE_THRESHOLD
      then (false, n0)
      else (true, drop_session (set_resync_pending n0 (delete fp (resync_pending n0))) fp)
    else (true, n)) = (go, n1) → R n n1) as Hresync.
  { intros go n1. destruct (session_ready n fp); [cbv zeta; destruct (_ <? _)|];
      intros [= _ <-]; frame. }
  cbv zeta in Hresync. destruct (if session_ready n fp then _ else _) as [go n1] eqn:E1.
  specialize (Hresync _ _ eq_refl). destruct go; cbn [negb]; [|exact Hresync].
  clear E1. assert (∀ go n2, (if zlen (payload p) =? XX_MSG1_LEN then
      match noise_sessions n1 !! fp with
      | Some session =>
          if is_handshaking session && initiator session then
            if bytes_ltb (node_fingerprint n1) fp then (false, n1)
            else (true, drop_session n1 fp)
          else (true, n1)
      | None => (true, n1)
      end else (true, n1)) = (go, n2) → R n n2) as Hglare.
  { intros go n2. repeat case_match; intros [= _ <-]; frame. }
  destruct (if zlen (payload p) =? XX_MSG1_LEN then _ else _) as [go n2] eqn:E2.
  specialize (Hglare _ _ eq_refl). destruct go; cbn [negb]; [|exact Hglare]. frame.
Qed.
#[local] Hint Resolve handle_noise_handshake_R : frame.

Lemma handle_direct_message_R n p : R n (handle_direct_message n p).
Proof.
  unfold handle_direct_message. frame_step; [reflexivity|].
  destruct (eph_to_fp n (sender p)) as [fp|]; [|reflexivity].
  destruct (negb (session_ready n fp)); [|frame]. cbv zeta.
  set (old := default [] (pending_inbound_dms n !! fp)).
  set (buf := if zlen old <? 32 then old ++ [payload p] else old).
  assert (R n (set_pending_inbound_dms n (<[fp := buf]> (pending_inbound_dms n)))) as Hput.
  { apply (fr_inbound_put _ _ _ HF). unfold buf. destruct (zlen old <? 32) eqn:E.
    - left. rewrite zlen_app. unfold zlen in *. cbn [length]. lia.
    - right. unfold old in *. destruct (pending_inbound_dms n !! fp); [done|].
      by vm_compute in E. }
  frame.
Qed.
#[local] Hint Resolve handle_direct_message_R : frame.

(** ** Links and announces *)

Lemma resolve_links_R n : R n (resolve_links n).
Proof.
  unfold resolve_links. cbv zeta. etrans; [|apply R_foldl]; [reflexivity|].
  intros n1 [id l] Hin. apply list_elem_of_In, List.filter_In in Hin as [_ Hin].
  apply andb_true_iff in Hin as [_ Hin%bool_decide_eq_true]. cbn [snd fst] in *.
  destruct Hin as [e ->]. destruct (eph_to_fp n1 e); [|reflexivity].
  destruct (links n1 !! id) eqn:El; [|reflexivity]. apply put_link_R. left. by eexists.
Qed.
#[local] Hint Resolve resolve_links_R : frame.

Lemma redundant_known n id :
  id ∈ concat (map (λ fi : Fingerprint * list LinkId, drop 1 fi.2) (btree_iter (links_by_fp n))) →
  id ∈ dom (links n).
Proof.
  rewrite list_elem_of_In, in_concat. intros (ids & Hids & Hin).
  apply in_map_iff in Hids as ([fp all] & <- & Hall). apply list_elem_of_In in Hall, Hin.
  apply elem_of_btree_iter in Hall. eapply links_by_fp_known; [exact Hall|].
  cbn in Hin. rewrite <- (take_drop 1 all). apply elem_of_app. by right.
Qed.

Lemma dedup_links_R n : R n (dedup_links n).
Proof.
  unfold dedup_links. cbv zeta. rewrite close_links. set (n1 := resolve_links n).
  pose proof (redundant_known n1) as Hknown. revert Hknown.
  generalize (concat (map (λ fi : Fingerprint * list LinkId, drop 1 fi.2)
    (btree_iter (links_by_fp n1)))) as ids. intros ids Hknown.
  assert (Forall (call_ok L n1) (map Close ids)) as Hok.
  { apply Forall_map, Forall_forall. intros id Hin. left. by apply Hknown. }
  etrans; [apply resolve_links_R|]. fold n1. etrans; [by apply (fr_sent _ _ _ HF), Hok|].
  apply (fr_links _ _ _ HF). intros l Hl. left. by apply deleted_dom in Hl.
Qed.
#[local] Hint Resolve dedup_links_R : frame.

Lemma note_link_identity_R n l e : R n (note_link_identity n l e).
Proof.
  unfold note_link_identity. destruct (links n !! l) as [st|] eqn:El; [|frame].
  assert (∀ x, R n (set_links n (<[l := x]> (links n)))) by (intros x; apply put_link_R; left; by eexists).
  frame.
Qed.
#[local] Hint Resolve note_link_identity_R : frame.

Lemma note_key_change_R n fp o d : R n (note_key_change n fp o d).
Proof. unfold note_key_change. frame. Qed.
#[local] Hint Resolve note_key_change_R : frame.

Lemma accept_announce_R n p pk dh nick :
  announced (sha256 pk) dh → eph_announced (sender p) pk → R n (accept_announce n p pk dh nick).
Proof.
  intros Hann Heph. cbv beta delta [accept_announce].
  frame_step; [|by apply (fr_eph _ _ _ HF)]. frame_step. frame_step; [|frame]. frame_step.
  frame_step; [|etrans; [exact Hm0|]; by apply (fr_dh _ _ _ HF)].
  frame_step; [|frame]. frame_step.
  frame_step.
  2: { etrans; [exact Hm2|]. apply (fr_peer _ _ _ HF). split; cbn.
       - unfold peer_petname. by destruct (get_peer _ _).
       - unfold peer_verified. by destruct (get_peer _ _). }
  frame_step; [|frame]. frame_step; [|frame].
  pose proof (fr_take _ _ _ HF m5 (sha256 pk)) as Ht.
  destruct (take_envelopes (store m5) (sha256 pk)) as [held st]. cbn [snd] in Ht. frame.
Qed.

Lemma handle_announce_R n p : R n (handle_announce n p).
Proof.
  unfold handle_announce. destruct (decode_announce (payload p)) as [[[pk dh] nick]| |] eqn:Ed;
    [|reflexivity|by apply decode_announce_no_panic in Ed].
  destruct (vk_from_bytes pk) as [vk|] eqn:Ev; [|reflexivity].
  destruct (negb (is_ok (Wire.verify p vk))) eqn:Es; [reflexivity|].
  assert (Wire.verify p vk = Ok tt) by by destruct (Wire.verify p vk) as [[]| |].
  apply accept_announce_R; [by exists p, pk, nick, vk|by exists p, dh, nick, vk].
Qed.
#[local] Hint Resolve handle_announce_R : frame.

Lemma handle_channel_R n p : R n (handle_channel n p).
Proof.
  unfold handle_channel. destruct (decode_channel _ _) as [[c t]| |] eqn:Ed;
    [|reflexivity|by apply decode_channel_no_panic in Ed]. cbv zeta.
  destruct (match match eph_keys n !! sender p with Some pk => vk_from_bytes pk | None => None end with
            | Some vk => if is_ok (Wire.verify p vk) then Some true else None
            | None => Some false end) as [v|] eqn:Ev; [|reflexivity].
  set (n1 := set_store n _). assert (R n n1) as Hn1 by (unfold n1; frame).
  case_bool_decide; [|exact Hn1]. etrans; [exact Hn1|]. apply push_event_R. destruct v; [|exact I].
  destruct (eph_keys n !! sender p) as [pk|] eqn:Ek; [|done].
  destruct (vk_from_bytes pk) as [vk|] eqn:Evk; [|done].
  destruct (Wire.verify p vk) as [[]| |] eqn:Es; [|done..]. by exists p, pk, vk, (node_cfg n).
Qed.

Lemma handle_sync_request_R n l p : L l → R n (handle_sync_request n l p).
Proof.
  intros Hl. unfold handle_sync_request. destruct (decode_sync _) as [remote| |] eqn:Ed;
    [frame|reflexivity|by apply decode_sync_no_panic in Ed].
Qed.

Lemma send_sync_requests_R n l : L l → R n (send_sync_requests n l).
Proof. intros Hl. unfold send_sync_requests. frame. Qed.
#[local] Hint Resolve handle_channel_R handle_sync_request_R send_sync_requests_R : frame.

(** ** Events, ticks and commands *)

Lemma maybe_relay_R n l p : R n (maybe_relay n l p).
Proof. unfold maybe_relay. frame. Qed.

Lemma dispatch_R n l p : L l → R n (dispatch n l p).
Proof. intros Hl. unfold dispatch. frame. Qed.
#[local] Hint Resolve maybe_relay_R dispatch_R : frame.

Lemma on_packet_R n l p : L l → R n (on_packet n l p).
Proof.
  intros Hl. unfold on_packet. cbv zeta.
  set (n1 := if bool_decide _ then _ else n).
  assert (R n n1) as Hn1 by (unfold n1; frame).
  assert (R n (set_seen n1 (observe (seen n1) (digest p) (now n1)).2)) as Hm
    by (etrans; [exact Hn1|apply (fr_observe _ _ _ HF)]).
  destruct (observe (seen n1) (digest p) (now n1)) as [obs seen']. cbn [snd] in Hm. frame.
Qed.
#[local] Hint Resolve on_packet_R : frame.

(** The reassembler's invariant is what rules out the one panic left. *)
Lemma on_frame_R n l f : L l → reassembler_ok (reassembler n) → R n (on_frame n l f).
Proof.
  intros Hl Hok. unfold on_frame. destruct (ingest_ok _ f (now n) Hok) as (Hp & _).
  pose proof (fr_ingest _ _ _ HF n f (now n)) as Hm.
  destruct (ingest (reassembler n) f (now n)) as [r ra]. cbn [fst snd] in *.
  destruct r as [[bs|]| |]; [|assumption|assumption|done].
  destruct (decode bs) as [pkt| |] eqn:Ed; [frame|assumption|by apply decode_total in Ed].
Qed.

(** The links an event brings with it. *)
Definition event_links (ev : TransportEvent) : Prop :=
  match ev with LinkUp l _ _ | FrameReceived l _ => L l | _ => True end.

Definition op_links (o : node_op) : Prop :=
  match o with OpEvent ev => event_links ev | _ => True end.

Lemma on_transport_event_R n ev :
  event_links ev → reassembler_ok (reassembler n) → R n (on_transport_event n ev).
Proof.
  intros Hl Hok. unfold on_transport_event. destruct ev as [l m hint|l|l f|l m].
  - assert (∀ x, R n (set_links n (<[l := x]> (links n)))) by (intros x; apply put_link_R; by right).
    frame.
  - assert (R n (set_links n (delete l (links n)))).
    { apply (fr_links _ _ _ HF). intros k. rewrite dom_delete. set_solver. }
    frame.
  - by apply on_frame_R.
  - destruct (links n !! l) eqn:El; [|reflexivity]. apply put_link_R. left. by eexists.
Qed.

Lemma retry_stalled_handshakes_R n t : R n (retry_stalled_handshakes n t).
Proof. unfold retry_stalled_handshakes. cbv zeta. frame. Qed.
#[local] Hint Resolve retry_stalled_handshakes_R : frame.

Lemma tick_R n : R n (tick n).2.
Proof.
  unfold tick. cbv zeta. rewrite due_spec. cbn [snd].
  etrans; [|apply retry_stalled_handshakes_R].
  etrans; [|apply (fr_expire _ _ _ HF)]. etrans; [|apply (fr_seen_expire _ _ _ HF)]. frame.
Qed.

(** The operations that decide about trust, or wipe. *)
Definition trust_op (o : node_op) : bool :=
  match o with
  | OpVerify _ | OpUnverify _ | OpForget _ | OpSetPetname _ _ | OpPanicWipe => true
  | _ => false
  end.

Lemma node_step_R n o :
  op_links o → reassembler_ok (reassembler n) → trust_op o = false → R n (node_step n o).
Proof.
  intros Hl Hok Ho. destruct o; try done; cbn [node_step].
  - by apply on_transport_event_R.
  - apply tick_R.
  - frame.
  - unfold take_events. cbn [snd]. frame.
  - unfold reset_relays_fired. frame.
  - apply join_channel_R.
  - apply send_channel_message_R.
  - apply announce_R.
  - apply send_dm_R.
  - apply start_dm_session_R.
Qed.

(** What the remaining operations need: any change of the store, and emptying the tables. *)
Record FrameWipe : Prop := {
  fw_upsert n p : R n (set_store n (upsert_peer (store n) p));
  fw_delete_peer n fp : R n (set_store n (delete_peer (store n) fp));
  fw_delete_dms n fp b : R n (set_store n (delete_dms (store n) fp b));
  fw_store_wipe n : R n (set_store n (store_panic_wipe (store n)));
  fw_sessions n : R n (set_noise_sessions n ∅);
  fw_dh n : R n (set_peer_static_dh n ∅);
  fw_inbound n : R n (set_pending_inbound_dms n ∅);
  fw_eph n : R n (set_eph_keys n ∅);
}.

Lemma drop_peer_session_state_R n fp : R n (drop_peer_session_state n fp).
Proof. unfold drop_peer_session_state. frame. Qed.
#[local] Hint Resolve drop_peer_session_state_R : frame.

Lemma node_step_all_R n o :
  FrameWipe → op_links o → reassembler_ok (reassembler n) → R n (node_step n o).
Proof.
  intros HW Hl Hok. destruct (trust_op o) eqn:Ho; [|by apply node_step_R].
  pose proof (fw_upsert HW). pose proof (fw_delete_peer HW). pose proof (fw_delete_dms HW).
  pose proof (fw_store_wipe HW). pose proof (fw_sessions HW). pose proof (fw_dh HW).
  pose proof (fw_inbound HW).
  pose proof (fw_eph HW).
  destruct o; try done; cbn [node_step].
  - unfold verify_peer. frame.
  - unfold unverify_peer. frame.
  - unfold forget_peer. frame.
  - unfold set_petname. frame.
  - unfold panic_wipe. frame.
Qed.
End frame.

(** Relations of the form "the invariant survives", lifted to runs. *)
Section runs.
Context `{Sha256, Ed25519, X25519, Snow, Lz4, Rand, HashIter, UnicodeCase}.
Context `{!SnowLaws}.
Context {S : Type} `{Store S}.
#[local] Abbreviation Node := (MeshNode (S:=S)).

(** A state property as a frame relation, when no session update can break it. *)
Definition keeps (P : Node → Prop) : relation Node := λ n n', P n → P n'.

#[export] Instance keeps_preorder P : PreOrder (keeps P).
Proof. split; [by intros n Hn|]. intros a b c Hab Hbc Ha. by apply Hbc, Hab. Qed.

Definition reassembling (n : Node) : Prop := reassembler_ok (reassembler n).

(** When it does not matter which links there are. *)
Definition any_link (l : LinkId) : Prop := True.

Lemma any_op o : op_links (L:=any_link) o.
Proof. by destruct o as [[]| | | | | | | | | | | | | |]. Qed.
#[local] Hint Resolve any_op : core.

Lemma reassembling_frame L : Frame L (keeps reassembling) (λ _, keeps reassembling).
Proof.
  split; try apply _; try (intros; by intros ?); try done.
  - intros n f t Hn. exact (proj1 (proj2 (ingest_ok _ f t Hn))).
  - intros n t Hn. exact (proj1 (evict_expired_ok _ t Hn)).
Qed.

Lemma node_step_reassembling n o : reassembling n → reassembling (node_step n o).
Proof.
  intros Hn. refine (node_step_all_R (reassembling_frame any_link) n o _ (any_op o) Hn Hn). split; intros; by intros ?.
Qed.

Lemma node_run_reassembling (n : Node) ops : reassembling n → reassembling (node_run n ops).
Proof.
  revert n. induction ops as [|o ops IH]; intros n Hn; [done|]. by apply IH, node_step_reassembling.
Qed.

Lemma MeshNode_new_reassembling i c t (s : S) nick seed :
  reassembling (MeshNode_new i c t s nick seed).
Proof. apply Reassembler_new_ok. Qed.

(** A relation every step has holds across a run. *)
Lemma node_run_R (R : relation Node) (ok : node_op → bool) (n : Node) ops :
  PreOrder R → reassembling n → (∀ n o, reassembling n → ok o = true → R n (node_step n o)) →
  Forall (λ o, ok o = true) ops → R n (node_run n ops).
Proof.
  intros HR Hn Hstep Hops. revert n Hn. induction Hops as [|o ops Ho Hops IH]; intros n Hn.
  - reflexivity.
  - etrans; [by apply Hstep|]. by apply IH, node_step_reassembling.
Qed.
End runs.
