(* ===== verification/Demo.v ===== *)
(** * Demo: two concrete nodes

    A pair of nodes over the toy libraries and the in-memory store, connected by one link, for the
    witnesses: they meet, exchange announces, shake hands and talk. *)
From stdpp Require Import strings gmap.
From S2P Require Import Prelude Errors F64 Utf8 Clock External Toy Transport Wire Config Frag.
From S2P Require Import Compress Relay Channels Store Identity Noise Payloads Node.

Definition DemoNode : Type := MeshNode (S:=MemoryStore).

Definition demo_node (seed : byte) : DemoNode :=
  MeshNode_new (from_seed (replicate 32 seed)) Tunables_default 1000
    (MemoryStore_new 1000 21600000 86400000 100) [seed] 7.

(** The frames a node has put on link 1, and their arrival at the other end. *)
Definition frames_out (n : DemoNode) : list bytes :=
  omap (λ c, match c with Send 1 f => Some f | _ => None end) (sent n).

Definition arrive (fs : list bytes) : list node_op :=
  map (λ f, OpEvent (FrameReceived 1 f)) fs.

(** What is new on the link after a run. *)
Definition new_frames (before after : DemoNode) : list bytes :=
  drop (length (frames_out before)) (frames_out after).

Definition link_up : list node_op := [OpEvent (LinkUp 1 512 None)].

Definition alice0 : DemoNode := demo_node Byte.x61.
Definition bob0 : DemoNode := demo_node Byte.x62.

(** What each is told is stored evaluated, so that a state is computed from the start in one run. *)
Definition alice1 : DemoNode := node_run alice0 link_up.
Definition bob1 : DemoNode := node_run bob0 link_up.

(** Both hear the other's announce. *)
Definition alice_hears : list node_op := Eval vm_compute in link_up ++ arrive (frames_out bob1).
Definition bob_hears : list node_op := Eval vm_compute in link_up ++ arrive (frames_out alice1).
Definition alice2 : DemoNode := node_run alice0 alice_hears.
Definition bob2 : DemoNode := node_run bob0 bob_hears.

Definition bob_fp : Fingerprint := Eval vm_compute in node_fingerprint bob0.
Definition alice_fp : Fingerprint := Eval vm_compute in node_fingerprint alice0.

(** Alice writes to Bob: message one goes out, Bob answers with message two. *)
Definition hello : rstring := [Byte.x68; Byte.x69].
Definition alice3 : DemoNode := node_run alice2 [OpSendDm bob_fp hello].
Definition message_one : list node_op := Eval vm_compute in arrive (new_frames alice2 alice3).
Definition bob3 : DemoNode := node_run bob2 message_one.
Definition alice_talks : list node_op := Eval vm_compute in
  alice_hears ++ [OpSendDm bob_fp hello] ++ arrive (new_frames bob2 bob3).
Definition alice4 : DemoNode := node_run alice0 alice_talks.
Definition bob_talks : list node_op := Eval vm_compute in
  bob_hears ++ message_one ++ arrive (new_frames alice3 alice4).
Definition bob4 : DemoNode := node_run bob0 bob_talks.

(** Alice's session is ready, and Bob has her message. *)
Example alice_session_ready : session_ready alice4 bob_fp = true.
Proof. by vm_compute. Qed.

Example bob_got_hello :
  last (events bob4) = Some (DmReceived alice_fp (node_eph_id alice0) hello DM_KIND_TEXT).
Proof. by vm_compute. Qed.
