(* ===== verification/NodeInvariants.v ===== *)
(** * NodeInvariants: what holds of a node in every reachable state

    No panic, trust that only the user changes, sessions bound to announced keys, bounded
    buffers: each is one instance of the frame of [NodeFrame]. *)
From stdpp Require Import strings gmap.
From S2P Require Import Prelude Errors F64 Utf8 Clock External Toy Transport Wire Config Frag.
From S2P Require Import Compress Relay Channels Store Identity Noise Payloads Node NodeFrame Demo.

Section invariants.
Context `{Sha256, Ed25519, X25519, Snow, Lz4, Rand, HashIter, UnicodeCase}.
Context `{!SnowLaws}.
Context {S : Type} `{Store S}.
#[local] Abbreviation Node := (MeshNode (S:=S)).

(** ** No panic *)

Definition alive (n : Node) : Prop := panicked n = false.

Lemma alive_frame L : Frame L (keeps alive) (λ _, keeps alive).
Proof. split; try apply _; try (intros; by intros ?); done. Qed.

Lemma node_run_alive identity cfg clock (s : S) nick seed ops :
  alive (node_run (MeshNode_new identity cfg clock s nick seed) ops).
Proof.
  apply (node_run_R (keeps alive) (λ _, true) (MeshNode_new identity cfg clock s nick seed) ops _);
    [| | |done].
  - apply MeshNode_new_reassembling.
  - intros n o Hn _. apply (node_step_all_R (alive_frame any_link)); [|apply any_op|done]. split; intros; by intros ?.
  - by apply Forall_true.
Qed.

(** C1: no sequence of frames, link events, ticks and user commands makes a node panic: every
    [unwrap] finds its value and every index and slice on bytes from the network is in range. *)
Theorem node_never_panics identity cfg clock (s : S) nick seed ops :
  panicked (node_run (MeshNode_new identity cfg clock s nick seed) ops) = false.
Proof. apply node_run_alive. Qed.

(** ** Trust *)

Definition trust_kept (n n' : Node) : Prop :=
  ∀ fp, peer_petname n' fp = peer_petname n fp ∧ peer_verified n' fp = peer_verified n fp.

Instance trust_kept_preorder : PreOrder trust_kept.
Proof.
  split; [done|]. intros a b c Hab Hbc fp. destruct (Hab fp), (Hbc fp). split; congruence.
Qed.

Lemma trust_of_store (n : Node) x :
  (∀ fp, get_peer x fp = get_peer (store n) fp) → trust_kept n (set_store n x).
Proof. intros Hg fp. unfold peer_petname, peer_verified. cbn. by rewrite Hg. Qed.

Lemma trust_frame `{!StoreLaws S} L : Frame L trust_kept (λ _, trust_kept).
Proof.
  split; try apply _; try done.
  - intros n d. apply trust_of_store. intros fp. apply get_put_dm.
  - intros n m. apply trust_of_store. intros fp. apply get_put_message.
  - intros n k b t. apply trust_of_store. intros fp. apply get_queue.
  - intros n k. apply trust_of_store. intros fp. apply get_take.
  - intros n p [Hp Hv] fp. unfold peer_petname, peer_verified in *. cbn.
    destruct (get_upsert (store n) p fp) as (p' & E1 & E2 & ->).
    case_decide as E; [|done]. subst fp. by rewrite E1, E2.
Qed.

(** C14: what a node says about a contact - the petname and whether it was verified in person -
    changes by the user's own commands only: no announce, message, handshake, sync, tick or
    ordinary send ever grants, revokes or renames anybody. *)
Theorem trust_only_by_user `{!StoreLaws S} identity cfg clock (s : S) nick seed before ops fp :
  Forall (λ o, trust_op o = false) ops →
  let n := node_run (MeshNode_new identity cfg clock s nick seed) before in
  peer_verified (node_run n ops) fp = peer_verified n fp
  ∧ peer_petname (node_run n ops) fp = peer_petname n fp.
Proof.
  intros Hops n.
  destruct (node_run_R trust_kept (λ o, negb (trust_op o)) n ops _) with (fp := fp) as [Hp Hv].
  - apply node_run_reassembling, MeshNode_new_reassembling.
  - intros m o Hm Ho. apply negb_true_iff in Ho. apply (node_step_R (trust_frame any_link)); [apply any_op|done..].
  - eapply Forall_impl; [exact Hops|]. cbn. by intros o ->.
  - done.
Qed.

(** ** Sessions *)

(** A session someone can talk over is bound to an announced key. *)
Definition authentic (n : Node) (fp : Fingerprint) : Prop :=
  ∀ s, noise_sessions n !! fp = Some s → is_ready s = true →
       ∃ dh, remote_static s = Some dh ∧ announced fp dh.

Definition keys_announced (n : Node) : Prop :=
  ∀ fp dh, peer_static_dh n !! fp = Some dh → announced fp dh.

(** ** Events *)

(** What stands behind an event, whatever has happened since: a message shown as verified was
    signed by a key that its sender's wire id had announced; a direct message was decrypted by a
    session bound to an agreement key its sender had announced. *)
Definition genuine (e : MeshEvent) : Prop :=
  match e with
  | MessageReceived channel s body ts true =>
      ∃ pkt pk vk c, eph_announced s pk ∧ vk_from_bytes pk = Some vk ∧ Wire.verify pkt vk = Ok tt
        ∧ sender pkt = s ∧ timestamp_ms pkt = ts ∧ decode_channel (payload pkt) c = Ok (channel, body)
  | DmReceived fp _ text kind =>
      ∃ session ct pt dh, is_ready session = true ∧ remote_static session = Some dh ∧ announced fp dh
        ∧ (decrypt session ct).1 = Ok pt ∧ shown pt = (kind, text)
  | _ => True
  end.

Record sound (n : Node) : Prop := {
  so_keys : map_Forall eph_announced (eph_keys n);
  so_dh : keys_announced n;
  so_sessions fp : authentic n fp;
  so_events : Forall genuine (events n);
}.

(** In the middle of an update of the session with [fp], nothing else of the above changes. *)
Definition updating (fp : Fingerprint) (n n' : Node) : Prop :=
  eph_keys n' = eph_keys n ∧ peer_static_dh n' = peer_static_dh n ∧ events n' = events n
  ∧ ∀ fp', fp' ≠ fp → noise_sessions n' !! fp' = noise_sessions n !! fp'.

Instance updating_preorder fp : PreOrder (updating fp).
Proof.
  split; [done|]. intros a b c (?&?&?&Hab) (?&?&?&Hbc). unfold updating.
  split_and!; try congruence. intros fp' Hne. rewrite Hbc by done. by apply Hab.
Qed.

Lemma settled_authentic (n : Node) fp : keys_announced n → settled n fp → authentic n fp.
Proof.
  intros Hk Hs s Es Hr. specialize (Hs s Es Hr). unfold session_bound in Hs. rewrite Es in Hs.
  cbn in Hs. destruct (remote_static s) as [dh|]; [|done].
  destruct (peer_static_dh n !! fp) as [known|] eqn:Ek; [|done].
  apply bool_decide_eq_true in Hs. subst known. exists dh. split; [done|]. by apply Hk.
Qed.

(** An event a sound node pushes is genuine. *)
Lemma event_genuine (n : Node) e : sound n → event_ok n e → genuine e.
Proof.
  intros [Hk Hd Hs _] He. destruct e as [c s b ts [|]| |fp eph text kind| | | |]; try exact I; cbn in *.
  - destruct He as (pkt & pk & vk & c0 & Epk & He). exists pkt, pk, vk, c0. split; [|exact He].
    by apply (Hk _ _ Epk).
  - destruct He as (s & ct & pt & s' & Es & Ed & Hsh).
    pose proof (decrypt_window s ct) as Hw. rewrite Ed in Hw. destruct Hw as (_ & Hk1 & Hk2 & _).
    destruct (is_ready s) eqn:Er.
    + destruct (Hs fp s' Es) as (dh & Hdh & Hann); [done|].
      exists s, ct, pt, dh. split_and!; try done; [congruence|by rewrite Ed].
    + destruct (decrypt_not_ready s ct Er) as [err E]. congruence.
Qed.

Lemma sound_frame L : Frame L (keeps sound) updating.
Proof.
  split; try apply _; try (by intros; intros []); try (by intros; repeat split); try done.
  - intros n fp s. split_and!; try done. intros fp' Hne. by apply lookup_insert_ne.
  - intros n fp. split_and!; try done. intros fp' Hne. by apply lookup_delete_ne.
  - intros n n' fp (E1 & E2 & E3 & E4) Hset [Hk Hd Hs He]. split.
    + by rewrite E1.
    + intros fp'. rewrite E2. apply Hd.
    + intros fp'. destruct (decide (fp' = fp)) as [->|Hne].
      * apply settled_authentic; [|done]. intros fp' dh. rewrite E2. apply Hd.
      * intros t. rewrite E4 by done. apply Hs.
    + by rewrite E3.
  - intros n fp s s' Es Hrs Hrd [Hk Hd Hs He]. split; try done. intros fp' t Et Hr. cbn in Et.
    apply lookup_insert_Some in Et as [[<- <-]|[_ Et]]; [|by apply (Hs fp')].
    rewrite Hrs. apply (Hs fp s Es). congruence.
  - intros n fp [Hk Hd Hs He]. split; try done. intros fp' t Et. cbn in Et.
    apply lookup_delete_Some in Et as [_ Et]. by apply (Hs fp').
  - intros n eph pk Hann [Hk Hd Hs He]. split; try done. by apply map_Forall_insert_2.
  - intros n e He Hn. pose proof (event_genuine n e Hn He) as Hg. destruct Hn as [Hk Hd Hs Hev].
    split; try done. cbn. apply Forall_app. split; [done|by constructor].
  - intros n fp dh Hann [Hk Hd Hs He]. split; try done. intros fp' dh' Hl. cbn in Hl.
    apply lookup_insert_Some in Hl as [[<- <-]|[_ Hl]]; [done|by apply Hd].
Qed.

Lemma sound_wipe : FrameWipe (R:=keeps sound).
Proof.
  split; intros n; [by intros p []|by intros fp []|by intros fp b []|by intros []| | |by intros []|];
    intros [Hk Hd Hs He]; split; try done; try apply map_Forall_empty;
    intros fp x Hx; destruct (lookup_empty_Some (M:=gmap Fingerprint) _ _ Hx).
Qed.

Lemma node_run_sound identity cfg clock (s : S) nick seed ops :
  sound (node_run (MeshNode_new identity cfg clock s nick seed) ops).
Proof.
  apply (node_run_R (keeps sound) (λ _, true) (MeshNode_new identity cfg clock s nick seed) ops _).
  - apply MeshNode_new_reassembling.
  - intros n o Hn _. by apply (node_step_all_R (sound_frame any_link) n o sound_wipe); [apply any_op|].
  - by apply Forall_true.
  - split.
    + apply map_Forall_empty.
    + intros fp dh Hl. destruct (lookup_empty_Some (M:=gmap Fingerprint) _ _ Hl).
    + intros fp t Es. destruct (lookup_empty_Some (M:=gmap Fingerprint) _ _ Es).
    + constructor.
Qed.

(** C2: in every reachable state, whoever a node can exchange encrypted messages with under an
    identity proved, in a completed handshake, possession of an agreement key for which there is
    an announce validly signed by that very identity: there is no session with a
    man in the middle who has no announce signed by the peer. *)
Theorem sessions_are_authenticated identity cfg clock (s : S) nick seed ops fp session :
  noise_sessions (node_run (MeshNode_new identity cfg clock s nick seed) ops) !! fp = Some session →
  is_ready session = true →
  ∃ dh, remote_static session = Some dh ∧ announced fp dh.
Proof. apply so_sessions, node_run_sound. Qed.

(** C3: in every reachable state, every event waiting for the user is what it claims to be. A
    channel message shown as verified was carried, with this text and time, by a packet whose
    signature checks under the key its sender's wire id has announced itself with; a direct
    message is the plaintext of a ciphertext that authenticated in a session bound to an
    agreement key announced under the sender's identity. *)
Theorem events_are_genuine identity cfg clock (s : S) nick seed ops :
  Forall genuine (events (node_run (MeshNode_new identity cfg clock s nick seed) ops)).
Proof. apply so_events, node_run_sound. Qed.

Lemma session_of_ready (n : Node) fp :
  session_ready n fp = true → ∃ s, noise_sessions n !! fp = Some s ∧ is_ready s = true.
Proof.
  unfold session_ready. destruct (noise_sessions n !! fp) as [s|]; [|done]. by exists s.
Qed.

(** ** Buffers *)

Record buffers_ok (cfg : Tunables) (n : Node) : Prop := {
  bo_inbound : map_Forall (λ _ l, zlen l <= 32) (pending_inbound_dms n);
  bo_reassembler : reassembler_ok (reassembler n) ∧ Frag.cfg (reassembler n) = cfg;
  bo_seen : seen_ok (seen n) ∧ seen_cfg (seen n) = cfg;
}.

Lemma buffers_observe cfg (n : Node) d t :
  buffers_ok cfg n → buffers_ok cfg (set_seen n (observe (seen n) d t).2).
Proof.
  intros [Hi Hr [Hs Hc]]. split; cbn; [done|done|].
  destruct (observe_ok _ d t Hs) as [Hs' Hc']. split; [done|congruence].
Qed.

Lemma buffers_frame cfg L : Frame L (keeps (buffers_ok cfg)) (λ _, keeps (buffers_ok cfg)).
Proof.
  split; try apply _; try (by intros; intros []); try done.
  - intros n _ d Hn. by apply buffers_observe.
  - intros n d t Hn. by apply buffers_observe.
  - intros n t [Hi Hr [Hs Hc]]. split; cbn -[Relay.evict_expired]; [done|done|].
    destruct (seen_evict_expired_ok _ t Hs) as [Hs' Hc']. split; [done|congruence].
  - intros n f t [Hi [Hr Hc] Hs]. split; cbn; [done| |done].
    destruct (ingest_ok _ f t Hr) as (_ & Hr' & Hc'). split; [done|congruence].
  - intros n t [Hi [Hr Hc] Hs]. split; cbn -[Frag.evict_expired]; [done| |done].
    destruct (evict_expired_ok _ t Hr) as (Hr' & Hc'). split; [done|congruence].
  - intros n fp [Hi Hr Hs]. split; [by apply map_Forall_delete|done|done].
  - intros n fp l Hl [Hi Hr Hs]. split; [|done|done]. apply map_Forall_insert_2; [|done].
    destruct Hl as [|Hl]; [done|]. by apply (Hi fp).
Qed.

(** C30: whatever arrives, a node holds at most 32 undelivered ciphertexts per identity, at most
    [reassembly_slots] partial messages and at most [seen_cache_capacity] digests (one, when
    those are zero). *)
Theorem node_buffers_bounded identity cfg clock (s : S) nick seed ops :
  let n := node_run (MeshNode_new identity cfg clock s nick seed) ops in
  map_Forall (λ _ l, zlen l <= 32) (pending_inbound_dms n)
  ∧ in_flight (reassembler n) <= Z.max 1 (reassembly_slots cfg)
  ∧ seen_len (seen n) <= Z.max 1 (seen_cache_capacity cfg).
Proof.
  intros n. assert (buffers_ok cfg n) as [Hi [Hr Hc] [Hs Hc']].
  { apply (node_run_R (keeps (buffers_ok cfg)) (λ _, true)
      (MeshNode_new identity cfg clock s nick seed) ops _).
    - apply MeshNode_new_reassembling.
    - intros m o Hm _. apply (node_step_all_R (buffers_frame cfg any_link)); [|apply any_op|done].
      split; intros; intros []; split; try done.
    - by apply Forall_true.
    - split; [apply map_Forall_empty| |].
      + split; [apply Reassembler_new_ok|done].
      + split; [apply seen_new_ok|done]. }
  split; [done|]. split.
  - pose proof (ro_slots _ Hr) as Hb. by rewrite Hc in Hb.
  - destruct Hs as [Hb _]. by rewrite Hc' in Hb.
Qed.
End invariants.

(** ** Witnesses *)

Lemma node_never_panics_witness : panicked (node_run alice0 alice_talks) = false.
Proof. apply node_never_panics. Defined.

(** Bob hears nothing but traffic after Alice verified and named him. *)
Lemma trust_only_by_user_witness :
  let n := node_run alice0 (alice_hears ++ [OpVerify bob_fp; OpSetPetname bob_fp hello]) in
  peer_verified (node_run n (OpTick :: arrive (frames_out bob3))) bob_fp = peer_verified n bob_fp
  ∧ peer_petname (node_run n (OpTick :: arrive (frames_out bob3))) bob_fp = peer_petname n bob_fp.
Proof. apply trust_only_by_user. by vm_compute; repeat constructor. Defined.

Lemma sessions_are_authenticated_witness :
  ∃ session, noise_sessions (node_run alice0 alice_talks) !! bob_fp = Some session
    ∧ is_ready session = true ∧ ∃ dh, remote_static session = Some dh ∧ announced bob_fp dh.
Proof.
  assert (session_ready (node_run alice0 alice_talks) bob_fp = true) as Hready by (by vm_compute).
  destruct (session_of_ready _ _ Hready) as (s & Es & Hr). exists s. split; [exact Es|].
  split; [exact Hr|].
  exact (sessions_are_authenticated (from_seed (replicate 32 Byte.x61)) Tunables_default 1000
    (MemoryStore_new 1000 21600000 86400000 100) [Byte.x61] 7 alice_talks bob_fp s Es Hr).
Defined.

(** Bob's events after the exchange, Alice's greeting among them. *)
Lemma events_are_genuine_witness : Forall genuine (events (node_run bob0 bob_talks)).
Proof. apply events_are_genuine. Defined.

Lemma node_buffers_bounded_witness :
  map_Forall (λ _ l, zlen l <= 32) (pending_inbound_dms (node_run alice0 alice_talks))
  ∧ in_flight (reassembler (node_run alice0 alice_talks)) <= Z.max 1 (reassembly_slots Tunables_default)
  ∧ seen_len (seen (node_run alice0 alice_talks)) <= Z.max 1 (seen_cache_capacity Tunables_default).
Proof.
  exact (node_buffers_bounded (from_seed (replicate 32 Byte.x61)) Tunables_default 1000
    (MemoryStore_new 1000 21600000 86400000 100) [Byte.x61] 7 alice_talks).
Defined.
