(* ===== verification/NodeRelay.v ===== *)
(** * NodeRelay: what a node puts on its links, and what the neighbour makes of it

    Fanout and split horizon, delivery across one hop, duplicates, the hop counter and the
    pruning of redundant links: the flooding part of [node.rs]. *)
From stdpp Require Import strings gmap.
From S2P Require Import Prelude Errors F64 Utf8 Clock External Toy Transport Wire Config Frag.
From S2P Require Import Compress Relay Channels Store Identity Noise Payloads Node NodeFrame Demo.

Section relaying.
Context `{Sha256, Ed25519, X25519, Snow, Lz4, Rand, HashIter, UnicodeCase}.
Context {S : Type} `{Store S}.
#[local] Abbreviation Node := (MeshNode (S:=S)).
Implicit Types n : Node.

(** ** Fanout *)

(** The frames a node has put on a link, oldest first. *)
Definition frame_on (l : LinkId) (c : transport_call) : option bytes :=
  match c with
  | Send l' f => if decide (l' = l) then Some f else None
  | Close _ => None
  end.

Definition sent_on (l : LinkId) n : list bytes := omap (frame_on l) (sent n).

Lemma omap_app' {A B} (f : A → option B) l k : omap f (l ++ k) = omap f l ++ omap f k.
Proof. induction l as [|x l IH]; [done|]. cbn. destruct (f x); cbn; by rewrite IH. Qed.

Lemma omap_frame_on l l' fs : omap (frame_on l) (map (Send l') fs) = if decide (l' = l) then fs else [].
Proof. induction fs as [|f fs IH]; cbn; [by case_decide|]. rewrite IH. by case_decide. Qed.

(** Of a fanout over links with distinct ids, each link gets its own frames. *)
Lemma omap_fanout pkt l (ils : list (LinkId * LinkState)) :
  NoDup (map fst ils) →
  omap (frame_on l) (concat (map (fanout pkt) ils)) =
  match List.find (λ il, bool_decide (il.1 = l)) ils with
  | Some il => frames_for pkt (mtu il.2)
  | None => []
  end.
Proof.
  induction ils as [|[l' st] ils IH]; [done|]. cbn [map concat fst]. intros [Hni Hnd]%NoDup_cons.
  rewrite omap_app'. unfold fanout at 1. cbn [fst snd]. rewrite omap_frame_on, IH by done.
  cbn [List.find fst]. destruct (decide (l' = l)) as [->|Hne].
  - rewrite bool_decide_eq_true_2 by done. cbn [snd].
    destruct (List.find _ ils) as [[l2 st2]|] eqn:Ef; [|by rewrite app_nil_r]. exfalso.
    apply find_some in Ef as [Hin Hl2]. apply bool_decide_eq_true in Hl2. cbn in Hl2. subst l2.
    apply Hni, list_elem_of_In, (in_map fst _ _ Hin).
  - by rewrite bool_decide_eq_false_2.
Qed.

Lemma find_target n exclude l :
  List.find (λ il, bool_decide (il.1 = l)) (targets n exclude) =
  if bool_decide (Some l = exclude) then None else (λ st, (l, st)) <$> links n !! l.
Proof.
  destruct (List.find _ _) as [[l' st]|] eqn:Ef.
  - apply find_some in Ef as [Hin Hl]. apply bool_decide_eq_true in Hl. cbn in Hl. subst l'.
    apply List.filter_In in Hin as [Hin Hex]. apply negb_true_iff in Hex. cbn in Hex. rewrite Hex.
    apply list_elem_of_In, elem_of_btree_iter in Hin. by rewrite Hin.
  - case_bool_decide as Hex; [done|]. destruct (links n !! l) as [st|] eqn:El; [|done]. exfalso.
    assert (In (l, st) (targets n exclude)) as Hin.
    { apply List.filter_In. split; [by apply list_elem_of_In, elem_of_btree_iter|].
      cbn. by rewrite bool_decide_eq_false_2. }
    pose proof (find_none _ _ Ef _ Hin) as Hf. cbn in Hf. by rewrite bool_decide_eq_true_2 in Hf.
Qed.

(** What a broadcast adds to one link: the packet's frames for the link's MTU, unless the link is
    gone or is the one excluded. *)
Lemma sent_on_broadcast n pkt exclude l :
  sent_on l (broadcast n pkt exclude) =
  sent_on l n ++
  (if bool_decide (Some l = exclude) then []
   else match links n !! l with Some st => frames_for pkt (mtu st) | None => [] end).
Proof.
  rewrite broadcast_sent. unfold sent_on. cbn [sent set_sent]. rewrite omap_app'. f_equal.
  rewrite omap_fanout.
  - rewrite find_target. case_bool_decide; [done|]. by destruct (links n !! l).
  - apply NoDup_map_filter, btree_iter_NoDup.
Qed.

(** ** One hop *)

Definition on_frames n (link : LinkId) (fs : list bytes) : Node :=
  foldl (λ n f, on_frame n link f) n fs.

Definition at_time (t : Millis) (fs : list bytes) : list (bytes * Millis) := map (λ f, (f, t)) fs.

(** Frames that complete nothing only change the reassembler. *)
Lemma on_frames_pending n link fs :
  (∀ k o, (ingest_all (reassembler n) (at_time (now n) fs)).1 !! k = Some o → o = Ok None) →
  on_frames n link fs =
  set_reassembler n (ingest_all (reassembler n) (at_time (now n) fs)).2.
Proof.
  revert n. induction fs as [|f fs IH]; intros n Ho; [by destruct n|].
  unfold on_frames in *. cbn [foldl at_time map ingest_all] in *. unfold on_frame at 2.
  destruct (ingest (reassembler n) f (now n)) as [o r1].
  destruct (ingest_all r1 (map (λ f, (f, now n)) fs)) as [os r2] eqn:E. cbn [fst snd] in *.
  rewrite (Ho 0%nat o eq_refl). rewrite IH; cbn [reassembler set_reassembler now].
  - unfold at_time. by rewrite E.
  - unfold at_time. rewrite E. intros k o' Hk. by apply (Ho (Datatypes.S k)).
Qed.

Lemma on_frame_last n link f bs pkt r :
  ingest (reassembler n) f (now n) = (Ok (Some bs), r) → decode bs = Ok pkt →
  on_frame n link f = on_packet (set_reassembler n r) link pkt.
Proof. intros E Ed. unfold on_frame. by rewrite E, Ed. Qed.

Lemma set_reassembler_same n r : r = reassembler n → set_reassembler n r = n.
Proof. intros ->. by destruct n. Qed.

Lemma fst_at_time t fs : (at_time t fs).*1 = fs.
Proof. induction fs as [|f fs IH]; [done|]. cbn. by f_equal. Qed.

Lemma no_foreign d t (fs : list bytes) :
  (∀ g, g ∈ fs → frame_digest g = Some d) → List.filter (foreign d) (at_time t fs) = [].
Proof.
  intros Hd. induction fs as [|g fs IH]; [done|]. cbn [at_time map List.filter].
  unfold foreign at 1. cbn [fst]. rewrite bool_decide_eq_true_2 by apply Hd, list_elem_of_here.
  apply IH. intros g' Hg'. apply Hd. by right.
Qed.

Lemma reassembler_eq (r r' : Reassembler) : slots r' = slots r → Frag.cfg r' = Frag.cfg r → r' = r.
Proof. destruct r, r'. cbn. by intros -> ->. Qed.

Section chunked.
Context (r : Reassembler) (d : bytes) (cs : list bytes) (t : Millis).
Context (Hok : reassembler_ok r) (Hd : length d = 8%nat) (Hn : 0 < zlen cs < 2 ^ 16).
Context (Hcap : zlen (concat cs) <= reassembly_max_bytes (Frag.cfg r)).
Context (Hnone : slots r !! d = None).
Context (Hroom : msize (slots r) < reassembly_slots (Frag.cfg r)).

#[local] Abbreviation chunk_frame i c := (fragment_frame d (Z.of_nat i) (zlen cs) c).

(** After frames that are all chunks but the [m]th. *)
Lemma own_prefix m pre :
  (m < length cs)%nat →
  (∀ g, g ∈ pre → ∃ i c, cs !! i = Some c ∧ i ≠ m ∧ g = chunk_frame i c) →
  let '(os, r') := ingest_all r (at_time t pre) in
  (∀ k o, os !! k = Some o → o = Ok None) ∧ reassembler_ok r' ∧ Frag.cfg r' = Frag.cfg r
  ∧ slot_for cs (slots r' !! d)
  ∧ (∀ j, arrived (slots r' !! d) j ↔ ∃ c, cs !! j = Some c ∧ chunk_frame j c ∈ pre)
  ∧ (is_Some (slots r' !! d) ∨ msize (slots r') < reassembly_slots (Frag.cfg r')).
Proof using Hok Hd Hn Hcap Hnone Hroom.
  intros Hm Hpre.
  assert (∀ g, g ∈ pre → frame_digest g = Some d) as Hdg.
  { intros g (i & c & _ & _ & ->)%Hpre. by apply fragment_frame_digest. }
  pose proof (ingest_prefix r d cs (at_time t pre) m Hd Hn Hcap Hok) as Hp.
  rewrite Hnone, fst_at_time, (no_foreign d t pre Hdg), zlen_nil in Hp.
  destruct (ingest_all r (at_time t pre)) as [os r'].
  destruct Hp as (P1 & P2 & P3 & P4 & P5 & P6 & P7); try done.
  { intros g Hg _. by apply Hpre. }
  { by intros (p & c & ? & _). }
  { lia. }
  split_and!; try done.
  - intros k o Hk. pose proof (lookup_lt_Some _ _ _ Hk) as Hl. rewrite P2 in Hl.
    destruct (lookup_lt_is_Some_2 _ _ Hl) as [g Hg]. apply (P1 k g o Hg Hk), Hdg.
    rewrite <- (fst_at_time t pre). apply list_elem_of_fmap_2. by eapply list_elem_of_lookup_2.
  - intros j. rewrite P6. split; [|by right]. intros [(p & c & ? & _)|]; done.
Qed.

(** Such frames leave the slots of all other messages alone. *)
Lemma own_delete m pre :
  (m < length cs)%nat →
  (∀ g, g ∈ pre → ∃ i c, cs !! i = Some c ∧ i ≠ m ∧ g = chunk_frame i c) →
  delete d (slots (ingest_all r (at_time t pre)).2) = slots r.
Proof using Hok Hd Hn Hcap Hnone Hroom.
  intros Hm. induction pre as [|g pre IH] using rev_ind; intros Hpre.
  { cbn. by apply delete_id. }
  assert (∀ g', g' ∈ pre → ∃ i c, cs !! i = Some c ∧ i ≠ m ∧ g' = chunk_frame i c) as Hpre'.
  { intros g' Hg'. apply Hpre, elem_of_app. by left. }
  specialize (IH Hpre'). pose proof (own_prefix m pre Hm Hpre') as Hst.
  destruct (Hpre g) as (i & c & Hi & _ & ->); [apply elem_of_app; right; by constructor|].
  unfold at_time. rewrite map_app. cbn [map]. change (map (λ f, (f, t)) pre) with (at_time t pre).
  rewrite ingest_all_app. destruct (ingest_all r (at_time t pre)) as [os r1]. cbn [snd] in *.
  destruct Hst as (_ & Hok1 & Hc1 & Hs1 & _ & Hr1). cbn [ingest_all].
  pose proof (ingest_own r1 d cs i c t Hok1 Hd Hn Hi) as Hown.
  rewrite Hc1 in Hown. specialize (Hown Hcap Hs1). rewrite <- Hc1 in Hown. specialize (Hown Hr1).
  destruct (ingest r1 (chunk_frame i c) t) as [o r2]. cbn [fst snd] in *.
  destruct Hown as [(_ & -> & _)|(_ & p & -> & _)]; rewrite <- IH.
  - by rewrite delete_delete_eq.
  - by rewrite delete_insert_eq.
Qed.
End chunked.

(** A reassembler that has room for a message of which it holds nothing. *)
Record ready_for (r : Reassembler) (d : bytes) (size : Z) : Prop := {
  rf_ok : reassembler_ok r;
  rf_fresh : slots r !! d = None;
  rf_room : msize (slots r) < reassembly_slots (Frag.cfg r);
  rf_cap : size <= reassembly_max_bytes (Frag.cfg r);
}.

(** [f] is the last frame to come in: every other one is among [pre], in any order and number. *)
Definition last_missing (frames pre : list bytes) (f : bytes) : Prop :=
  f ∈ frames ∧ (∀ g, g ∈ pre → g ∈ frames) ∧ (∀ g, g ∈ frames → (g ∈ pre ↔ g ≠ f)).

Lemma chunks_delivered n link d cs pkt pre f :
  ready_for (reassembler n) d (zlen (concat cs)) → length d = 8%nat → 0 < zlen cs < 2 ^ 16 →
  last_missing (imap (λ i c, fragment_frame d (Z.of_nat i) (zlen cs) c) cs) pre f →
  decode (concat cs) = Ok pkt →
  on_frames n link (pre ++ [f]) = on_packet n link pkt.
Proof.
  intros [Hok Hnone Hroom Hcap] Hd Hn (Hf & Hpre & Hall) Hdec.
  assert (∀ g, g ∈ imap (λ i c, fragment_frame d (Z.of_nat i) (zlen cs) c) cs ↔
    ∃ i c, cs !! i = Some c ∧ g = fragment_frame d (Z.of_nat i) (zlen cs) c) as Hin.
  { intros g. rewrite elem_of_lookup_imap. split; intros (i & c & ? & ?); by exists i, c. }
  apply Hin in Hf as (m & c & Hm & ->). pose proof (lookup_lt_Some _ _ _ Hm) as Hml.
  set (frame_of := λ i c, fragment_frame d (Z.of_nat i) (zlen cs) c) in *.
  assert (∀ g, g ∈ pre → ∃ i c, cs !! i = Some c ∧ i ≠ m ∧ g = frame_of i c) as Hown.
  { intros g Hg. destruct (proj1 (Hin g) (Hpre g Hg)) as (i & c' & Hi & ->).
    exists i, c'. split; [done|]. split; [|done]. intros ->.
    rewrite Hm in Hi. injection Hi as <-. by apply (proj1 (Hall _ (Hpre _ Hg)) Hg). }
  pose proof (own_prefix _ d cs (now n) Hok Hd Hn Hcap Hnone Hroom m pre Hml Hown) as Hst.
  pose proof (own_delete _ d cs (now n) Hok Hd Hn Hcap Hnone Hroom m pre Hml Hown) as Hdel.
  pose proof (on_frames_pending n link pre) as Hpend. unfold on_frames in *.
  rewrite foldl_app. cbn [foldl].
  destruct (ingest_all (reassembler n) (at_time (now n) pre)) as [os r1] eqn:E1. cbn [fst snd] in *.
  destruct Hst as (Hos & Hok1 & Hc1 & Hs1 & Harr & Hr1). rewrite (Hpend Hos).
  pose proof (ingest_own r1 d cs m c (now n) Hok1 Hd Hn Hm) as Hlast.
  rewrite Hc1 in Hlast. specialize (Hlast Hcap Hs1). rewrite <- Hc1 in Hlast. specialize (Hlast Hr1).
  destruct (ingest_ok r1 (frame_of m c) (now n) Hok1) as (_ & _ & Hc2).
  change (fragment_frame d (Z.of_nat m) (zlen cs) c) with (frame_of m c) in Hlast |- *.
  destruct Hlast as [(Ho & Hs2 & _)|(_ & p & _ & _ & _ & Hto & j & Hj & Hnj)].
  - destruct (ingest r1 (frame_of m c) (now n)) as [o r2] eqn:E2. cbn [fst snd] in *. subst o.
    rewrite (on_frame_last (set_reassembler n r1) link (frame_of m c) _ pkt r2 E2 Hdec).
    f_equal. rewrite (reassembler_eq (reassembler n) r2); [by destruct n|congruence..].
  - exfalso. apply Hnj, Hto. destruct (decide (j = m)) as [|Hne]; [by left|right].
    destruct (lookup_lt_is_Some_2 _ _ Hj) as [c' Hc']. apply Harr. exists c'. split; [done|].
    apply Hall; [apply Hin; by exists j, c'|]. intros E.
    by apply Hne, (fragment_frame_inj d cs j m c' c Hd (proj2 Hn) Hc' Hm).
Qed.

Lemma frames_delivered n link d bs m frames pkt pre f :
  ready_for (reassembler n) d (zlen bs) → length d = 8%nat → split bs d m = Ok frames →
  last_missing frames pre f → decode bs = Ok pkt →
  on_frames n link (pre ++ [f]) = on_packet n link pkt.
Proof.
  intros Hr Hd (_ & [[_ ->]|(cs & <- & Hn & _ & ->)])%split_Ok Hlast Hdec.
  - destruct Hlast as (->%list_elem_of_singleton & Hpre & Hall). destruct pre as [|g pre].
    + unfold on_frames. cbn [app foldl].
      rewrite (on_frame_last n link _ bs pkt (reassembler n)); [|done|done]. by destruct n.
    + exfalso. pose proof (Hpre g (list_elem_of_here _ _)) as Hg.
      apply (Hall g Hg); [apply list_elem_of_here|]. by apply list_elem_of_singleton.
  - by apply (chunks_delivered n link d cs).
Qed.

(** C12: one hop works. A broadcast puts on every link but the excluded one exactly the frames of
    the packet for that link's MTU, and a neighbour that receives those frames - in any order,
    with any repetitions before the last missing one - handles exactly the packet that was sent,
    once, as if it had come in one piece. *)
Theorem hop_delivery `{!Sha256Laws} (a b : Node) pkt exclude l st link pre f :
  packet_canonical pkt → links a !! l = Some st → Some l ≠ exclude →
  ready_for (reassembler b) (digest pkt) (zlen (encode pkt)) →
  last_missing (frames_for pkt (mtu st)) pre f →
  sent_on l (broadcast a pkt exclude) = sent_on l a ++ frames_for pkt (mtu st)
  ∧ (∀ x, exclude = Some x → sent_on x (broadcast a pkt exclude) = sent_on x a)
  ∧ on_frames b link (pre ++ [f]) = on_packet b link pkt.
Proof.
  intros Hc Hl Hex Hr Hlast. split_and!.
  - by rewrite sent_on_broadcast, Hl, bool_decide_eq_false_2.
  - intros x ->. by rewrite sent_on_broadcast, bool_decide_eq_true_2, app_nil_r.
  - unfold frames_for in Hlast. destruct (split _ _ _) as [frames|e|] eqn:Es.
    + by apply (frames_delivered b link (digest pkt) (encode pkt) (mtu st) frames);
        [|apply digest_length| | |apply encode_complete].
    + destruct Hlast as [Hf _]. by apply not_elem_of_nil in Hf.
    + destruct Hlast as [Hf _]. by apply not_elem_of_nil in Hf.
Qed.

(** ** Duplicates *)

Definition on_copies n (pkt : Packet) (ls : list LinkId) : Node :=
  foldl (λ n l, on_packet n l pkt) n ls.

(** The counter of a digest after [k] more copies, saturating at the width of [u32]. *)
Definition heard (e : SeenEntry) (k : Z) : SeenEntry :=
  {| Relay.first_seen_ms := Relay.first_seen_ms e; entry_hear_count := sat_add 32 (entry_hear_count e) k |}.

Definition count_copies n (pkt : Packet) (e : SeenEntry) (k : Z) : Node :=
  set_seen n (set_seen_map (seen n) (<[digest pkt := heard e k]> (seen_map (seen n)))).

Lemma on_packet_duplicate n link pkt e :
  msg_type pkt ≠ SyncRequest → seen_map (seen n) !! digest pkt = Some e →
  on_packet n link pkt = count_copies n pkt e 1.
Proof.
  intros Ht Hs. unfold on_packet. rewrite bool_decide_eq_false_2 by done. unfold observe.
  by rewrite Hs.
Qed.

(** A packet seen before is only counted: however many more copies come in, over whatever
    links, nothing is parsed, answered, charged to its sender or relayed again - the sole effect
    is that its hear count, which later suppresses our own rebroadcast, grows by the number of
    copies, saturating. *)
Theorem duplicates_only_counted n pkt e l ls :
  msg_type pkt ≠ SyncRequest → seen_map (seen n) !! digest pkt = Some e →
  0 <= entry_hear_count e < 2 ^ 32 →
  on_copies n pkt (l :: ls) = count_copies n pkt e (zlen (l :: ls)).
Proof.
  intros Ht. unfold on_copies. revert n e l. induction ls as [|l2 ls IH]; intros n e l Hs He.
  { cbn [foldl]. by apply on_packet_duplicate. }
  change (foldl (λ n l, on_packet n l pkt) n (l :: l2 :: ls))
    with (foldl (λ n l, on_packet n l pkt) (on_packet n l pkt) (l2 :: ls)).
  rewrite (on_packet_duplicate n l pkt e) by done.
  rewrite (IH (count_copies n pkt e 1) (heard e 1) l2).
  - unfold count_copies. cbn [seen set_seen seen_map set_seen_map].
    rewrite insert_insert_eq, !zlen_cons. pose proof (zlen_nonneg ls).
    assert (heard (heard e 1) (1 + zlen ls) = heard e (1 + (1 + zlen ls))) as ->; [|done].
    unfold heard, sat_add. cbn. f_equal. lia.
  - cbn. by rewrite lookup_insert_eq.
  - unfold heard, sat_add. cbn. lia.
Qed.

(** A packet over its sender's rate is dropped, but has been recorded as seen: copies of it that
    arrive when the sender is within its rate again are duplicates. *)
Lemma throttled_is_lost n link pkt :
  msg_type pkt ≠ SyncRequest → seen_map (seen n) !! digest pkt = None →
  (allow (rate n) (sender pkt) (now n)).1 = false →
  ∃ e c r, on_packet n link pkt = set_rate (set_seen n c) r
    ∧ seen_map (seen (on_packet n link pkt)) !! digest pkt = Some e.
Proof.
  intros Ht Hs Ha. unfold on_packet. rewrite bool_decide_eq_false_2 by done.
  unfold observe. rewrite Hs. cbn [is_new negb rate set_seen now].
  destruct (allow (rate n) (sender pkt) (now n)) as [ok r]. cbn [fst] in Ha. subst ok. cbn [negb].
  do 3 eexists. split; [done|]. apply lookup_insert_eq.
Qed.

(** ** Rebroadcasts *)

(** What a due rebroadcast puts on a link. *)
Definition relay_frames (ls : gmap LinkId LinkState) (l : LinkId) (d : DueRelay) : list bytes :=
  if bool_decide (exclude_link d = l) then []
  else match ls !! l with Some st => frames_for (due_packet d) (mtu st) | None => [] end.

Definition relay_step n (d : DueRelay) : Node :=
  broadcast (set_relays_fired n (wrap 64 (relays_fired n + 1))) (due_packet d) (Some (exclude_link d)).

Lemma relay_loop_sent l ready n :
  sent_on l (foldl relay_step n ready) =
    sent_on l n ++ concat (map (relay_frames (links n) l) ready)
  ∧ ∃ s r, foldl relay_step n ready = set_sent (set_relays_fired n r) s.
Proof.
  revert n. induction ready as [|d ready IH]; intros n; cbn [foldl map concat].
  { rewrite app_nil_r. split; [done|]. exists (sent n), (relays_fired n). by destruct n. }
  destruct (IH (relay_step n d)) as [-> (s & r & ->)].
  unfold relay_step. rewrite sent_on_broadcast, broadcast_sent. split; [|by eexists _, _].
  unfold sent_on. cbn [sent links set_sent set_relays_fired]. rewrite <- app_assoc. do 2 f_equal.
  unfold relay_frames. destruct (decide (exclude_link d = l)) as [<-|Hne].
  - by rewrite !bool_decide_eq_true_2.
  - rewrite !bool_decide_eq_false_2; [done|done|congruence].
Qed.

Definition quiet n (t : Millis) : Prop := ∀ fp, is_stalled n t fp = false.

Lemma retry_quiet n t : quiet n t → retry_stalled_handshakes n t = n.
Proof.
  intros Hq. unfold retry_stalled_handshakes.
  assert (List.filter (is_stalled n t) (map fst (hash_iter (handshake_attempts n))) = []) as ->; [|done].
  induction (map fst _) as [|fp l IH]; [done|]. cbn [List.filter]. by rewrite Hq.
Qed.

(** A tick without handshakes to retry: exactly the due rebroadcasts go out. *)
Lemma tick_sent n ready sched' l :
  quiet n (now n) → due (scheduler n) (now n) (seen n) = Some (ready, sched') →
  sent_on l (tick n).2 = sent_on l n ++ concat (map (relay_frames (links n) l) ready)
  ∧ scheduler (tick n).2 = sched'.
Proof.
  intros Hq Hd. unfold tick. rewrite Hd. cbn [snd].
  destruct (relay_loop_sent l ready (set_scheduler n sched')) as [Hs (s & r & E)].
  unfold relay_step in Hs, E. rewrite E in Hs |- *. cbn [links set_scheduler] in Hs.
  rewrite retry_quiet.
  - split; [exact Hs|done].
  - intros fp. apply Hq.
Qed.

(** Waiting rebroadcasts are filed under their digest. *)
Definition keyed (s : RelayScheduler) : Prop :=
  map_Forall (λ d p, digest (pend_packet p) = d) (pending s).

Lemma digest_set_ttl pkt t : digest (set_ttl pkt t) = digest pkt.
Proof. by apply digest_of_signature. Qed.

(** When a packet accepted now for relaying is due. *)
Definition relay_due_at n : Millis :=
  now n + (relay_delay (node_cfg n) (should_relay (msize (links n)) (node_cfg n) (rng n)).2).1.

Lemma maybe_relay_schedules n link pkt :
  1 < ttl pkt → (should_relay (msize (links n)) (node_cfg n) (rng n)).1 = true →
  pending (scheduler n) !! digest pkt = None → 0 <= relay_due_at n < 2 ^ 64 →
  ∃ rng', maybe_relay n link pkt =
    set_scheduler (set_rng n rng')
      {| pending := <[digest pkt := {| pend_packet := set_ttl pkt (ttl pkt - 1);
                                       send_at_ms := relay_due_at n;
                                       pend_exclude_link := link |}]> (pending (scheduler n));
         sched_cfg := sched_cfg (scheduler n) |}.
Proof.
  intros Ht Hr Hp Hw. unfold maybe_relay, relay_due_at in *.
  rewrite (proj2 (Z.leb_gt _ _)) by done.
  destruct (should_relay _ _ _) as [b rng1]. cbn [fst snd] in *. subst b. cbn [negb rng set_rng].
  cbn [node_cfg set_rng]. destruct (relay_delay (node_cfg n) rng1) as [delay rng2]. cbn [fst] in *.
  exists rng2. unfold schedule. rewrite digest_set_ttl. cbn [scheduler set_rng now]. rewrite Hp.
  unfold wrap. by rewrite Z.mod_small.
Qed.

Lemma elem_of_map_to_due d (l : list (bytes * Pending)) :
  d ∈ map to_due l ↔ ∃ k p, d = to_due (k, p) ∧ (k, p) ∈ l.
Proof.
  rewrite list_elem_of_In, in_map_iff. split.
  - intros ([k p] & <- & Hin%list_elem_of_In). by exists k, p.
  - intros (k & p & -> & Hin%list_elem_of_In). by exists (k, p).
Qed.

(** The rebroadcast of a packet is among the due ones exactly when its own entry is due. *)
Lemma mine_due s t c d q :
  keyed s → pending s !! d = Some q →
  to_due (d, q) ∈ map to_due (List.filter (λ kp : bytes * Pending,
      (send_at_ms kp.2 <=? t) && (hear_count c kp.1 <? suppression_threshold (sched_cfg s)))
      (btree_iter (pending s)))
  → hear_count c d < suppression_threshold (sched_cfg s)
    ∧ ∃ q', pending s !! d = Some q' ∧ send_at_ms q' <= t.
Proof.
  intros Hk Hq (k & p & E & Hin)%elem_of_map_to_due. apply elem_of_filter_list in Hin as [Hin Hb].
  apply elem_of_btree_iter in Hin. cbn in Hb. unfold to_due in E. cbn in E. injection E as Ep _.
  pose proof (Hk _ _ Hin) as E1. pose proof (Hk _ _ Hq) as E2. cbn beta in E1, E2.
  rewrite <- Ep, E2 in E1. subst k.
  apply andb_true_iff in Hb as [?%Z.leb_le ?%Z.ltb_lt]. split; [done|]. by exists p.
Qed.

(** C21: the life of a rebroadcast. A packet on its last hop is never relayed. Any other one that
    wins the coin toss waits out its jitter, drawn from the configured window, and then goes out at the next tick - on every link
    but the one it came from, with the hop counter one lower and the same signature and digest -
    exactly when fewer than [suppression_threshold] copies of it were heard meanwhile; either way
    the entry is gone after its deadline, and before it nothing of the packet is sent. *)
Theorem relay_life `{!RandLaws} n link pkt t heard_then :
  let m := set_seen (set_now (maybe_relay n link pkt) t) heard_then in
  let mine := {| due_packet := set_ttl pkt (ttl pkt - 1); exclude_link := link |} in
  1 < ttl pkt → (should_relay (msize (links n)) (node_cfg n) (rng n)).1 = true →
  pending (scheduler n) !! digest pkt = None → keyed (scheduler n) →
  0 <= relay_due_at n < 2 ^ 64 → quiet n t →
  (∀ p, ttl p <= 1 → maybe_relay n link p = n)
  ∧ digest (due_packet mine) = digest pkt
  ∧ now n + jitter_min_ms (node_cfg n) <= relay_due_at n
    <= now n + Z.max (jitter_min_ms (node_cfg n)) (jitter_max_ms (node_cfg n))
  ∧ ∃ ready, (∀ l, sent_on l (tick m).2 = sent_on l n ++ concat (map (relay_frames (links n) l) ready))
    ∧ (mine ∈ ready ↔ relay_due_at n <= t
                      ∧ hear_count heard_then (digest pkt) < suppression_threshold (sched_cfg (scheduler n)))
    ∧ (pending (scheduler (tick m).2) !! digest pkt = None ↔ relay_due_at n <= t).
Proof.
  intros m mine Ht Hr Hp Hk Hw Hq. split.
  { intros p Hp1. unfold maybe_relay. by rewrite (proj2 (Z.leb_le _ _)). }
  split; [apply digest_set_ttl|]. split.
  { unfold relay_due_at. pose proof (relay_delay_bounds (node_cfg n)
      (should_relay (msize (links n)) (node_cfg n) (rng n)).2). lia. }
  destruct (maybe_relay_schedules n link pkt Ht Hr Hp Hw) as [rng' E]. unfold m. rewrite E.
  set (q := {| pend_packet := set_ttl pkt (ttl pkt - 1); send_at_ms := relay_due_at n;
               pend_exclude_link := link |}).
  set (sch := {| pending := <[digest pkt := q]> (pending (scheduler n));
                 sched_cfg := sched_cfg (scheduler n) |}).
  assert (pending sch !! digest pkt = Some q) as Hq' by apply lookup_insert_eq.
  set (n2 := set_seen _ _). pose proof (due_spec sch t heard_then) as Hd.
  eexists. split; [|split].
  - intros l. destruct (tick_sent n2 _ _ l Hq Hd) as [Hs _]. exact Hs.
  - change mine with (to_due (digest pkt, q)). split.
    + intros Hin. apply mine_due in Hin as (? & q' & E' & ?); [|apply map_Forall_insert_2;
        [by apply digest_set_ttl|done]|done]. rewrite Hq' in E'. injection E' as <-. done.
    + intros [Hle Hlt]. apply elem_of_map_to_due. exists (digest pkt), q. split; [done|].
      apply elem_of_filter_list. split; [by apply elem_of_btree_iter|].
      cbn. rewrite (proj2 (Z.leb_le _ _)), (proj2 (Z.ltb_lt _ _)) by done. done.
  - destruct (tick_sent n2 _ _ 0 Hq Hd) as [_ ->]. cbn [pending]. split.
    + intros En. destruct (decide (relay_due_at n <= t)); [done|]. exfalso.
      assert (map_retain (λ _ p, t <? send_at_ms p) (pending sch) !! digest pkt = Some q) as E2;
        [|by rewrite E2 in En].
      apply map_retain_lookup. split; [done|]. cbn. apply Z.ltb_lt. lia.
    + intros Hle. apply option_eq. intros p. rewrite map_retain_lookup, Hq'. split; [|done].
      intros [[= <-] Hlt%Z.ltb_lt]. cbn in Hlt. lia.
Qed.

(** ** Redundant links *)

(** A link with the identity filled in that the announces heard so far give its peer. *)
Definition resolved n (st : LinkState) : LinkState :=
  match peer_fp st, peer_eph st ≫= eph_to_fp n with
  | None, Some fp => set_peer_fp st (Some fp)
  | _, _ => st
  end.

(** The resolution loop over pending links only ever touches [links]. *)
Definition resolve_step n (il : LinkId * LinkState) : Node :=
  match peer_eph il.2 with
  | None => panic n
  | Some eph =>
      match eph_to_fp n eph, links n !! il.1 with
      | Some fp, Some l => set_links n (<[il.1 := set_peer_fp l (Some fp)]> (links n))
      | _, _ => n
      end
  end.

Lemma resolve_loop (ils : list (LinkId * LinkState)) n :
  NoDup (map fst ils) → (∀ l st, (l, st) ∈ ils → links n !! l = Some st ∧ peer_fp st = None ∧ is_Some (peer_eph st)) →
  ∃ ls, foldl resolve_step n ils = set_links n ls
    ∧ ∀ l, ls !! l = if decide (l ∈ map fst ils) then resolved n <$> links n !! l else links n !! l.
Proof.
  revert n. induction ils as [|[l0 st0] ils IH]; intros n Hnd Hin.
  { exists (links n). split; [by destruct n|]. intros l. by rewrite decide_False by apply not_elem_of_nil. }
  destruct (Hin l0 st0 (list_elem_of_here _ _)) as (Hl0 & Hfp & [eph He]).
  change (map fst ((l0, st0) :: ils)) with (l0 :: map fst ils) in *. apply NoDup_cons in Hnd as [Hni Hnd].
  assert (∃ ls0, resolve_step n (l0, st0) = set_links n ls0
    ∧ ∀ l, ls0 !! l = if decide (l = l0) then resolved n <$> links n !! l else links n !! l)
    as (ls0 & E0 & Hls0).
  { unfold resolve_step. cbn [fst snd]. rewrite He, Hl0. destruct (eph_to_fp n eph) as [fp|] eqn:Efp.
    - eexists. split; [done|]. intros l. case_decide as El; [subst l|by rewrite lookup_insert_ne].
      rewrite lookup_insert_eq, Hl0. cbn. unfold resolved. rewrite Hfp, He. cbn. by rewrite Efp.
    - exists (links n). split; [by destruct n|]. intros l. case_decide as El; [subst l|done].
      rewrite Hl0. cbn. unfold resolved. rewrite Hfp, He. cbn. by rewrite Efp. }
  destruct (IH (set_links n ls0)) as (ls & E & Hls); [done| |].
  { intros l st Hl. destruct (Hin l st) as [? ?]; [by right|]. split; [|done]. cbn.
    rewrite Hls0, decide_False; [done|]. intros ->. apply Hni, list_elem_of_In, in_map_iff.
    exists (l0, st). split; [done|by apply list_elem_of_In]. }
  exists ls. split; [cbn [foldl]; rewrite E0; exact E|]. intros l. rewrite Hls. cbn [links set_links]. rewrite Hls0.
  destruct (decide (l = l0)) as [->|Hne].
  - rewrite decide_False, (decide_True (P:=l0 ∈ l0 :: _)) by (done || apply list_elem_of_here). done.
  - assert (l ∈ l0 :: map fst ils ↔ l ∈ map fst ils) as Hiff by (rewrite elem_of_cons; tauto).
    by rewrite (decide_ext _ _ _ _ Hiff).
Qed.

Lemma resolve_links_spec n :
  ∃ ls, resolve_links n = set_links n ls ∧ ∀ l, ls !! l = resolved n <$> links n !! l.
Proof.
  unfold resolve_links. set (ils := List.filter _ (btree_iter (links n))).
  assert (Hin : ∀ l st, (l, st) ∈ ils ↔
    links n !! l = Some st ∧ peer_fp st = None ∧ is_Some (peer_eph st)).
  { intros l st. unfold ils. rewrite elem_of_filter_list, elem_of_btree_iter. cbn.
    by rewrite andb_true_iff, !bool_decide_eq_true. }
  destruct (resolve_loop ils n) as (ls & E & Hls).
  { unfold ils. apply NoDup_map_filter, btree_iter_NoDup. }
  { intros l st. apply Hin. }
  exists ls. split; [exact E|]. intros l. rewrite Hls. case_decide as Hl; [done|].
  destruct (links n !! l) as [st|] eqn:El; [|done]. cbn. f_equal. unfold resolved.
  destruct (peer_fp st) eqn:Ef; [done|]. destruct (peer_eph st) as [eph|] eqn:Ee; [|done]. exfalso.
  apply Hl, list_elem_of_In, in_map_iff. exists (l, st). split; [done|].
  apply list_elem_of_In, Hin. split; [done|]. split; [done|]. rewrite Ee. by eexists.
Qed.

Definition has_fp (fp : Fingerprint) (il : LinkId * LinkState) : bool :=
  bool_decide (peer_fp il.2 = Some fp).

Definition group_step (m : gmap Fingerprint (list LinkId)) (il : LinkId * LinkState) :=
  match peer_fp il.2 with
  | Some fp => <[fp := default [] (m !! fp) ++ [il.1]]> m
  | None => m
  end.

Lemma group_loop (ils : list (LinkId * LinkState)) m fp :
  default [] (foldl group_step m ils !! fp) =
  default [] (m !! fp) ++ map fst (List.filter (has_fp fp) ils).
Proof.
  revert m. induction ils as [|[l st] ils IH]; intros m; cbn [foldl List.filter].
  { by rewrite app_nil_r. }
  rewrite IH. unfold group_step, has_fp at 2. cbn [fst snd].
  destruct (peer_fp st) as [fp'|]; [|by rewrite bool_decide_eq_false_2].
  destruct (decide (fp' = fp)) as [->|Hne].
  - rewrite lookup_insert_eq, bool_decide_eq_true_2 by done. cbn [default from_option map fst].
    unfold id. by rewrite <- app_assoc.
  - rewrite lookup_insert_ne, bool_decide_eq_false_2 by congruence. done.
Qed.

(** The ids of the links to one identity, ascending. *)
Lemma links_by_fp_spec n fp :
  default [] (links_by_fp n !! fp) = map fst (List.filter (has_fp fp) (btree_iter (links n))).
Proof.
  pose proof (group_loop (btree_iter (links n)) ∅ fp) as E. by rewrite lookup_empty in E.
Qed.

Definition ids_of n (fp : Fingerprint) : list LinkId :=
  map fst (List.filter (has_fp fp) (btree_iter (links n))).

Lemma elem_of_ids_of n fp l :
  l ∈ ids_of n fp ↔ ∃ st, links n !! l = Some st ∧ peer_fp st = Some fp.
Proof.
  unfold ids_of. rewrite list_elem_of_In, in_map_iff. split.
  - intros ([l' st] & <- & Hin%list_elem_of_In). apply elem_of_filter_list in Hin as [Hin Hb].
    exists st. apply elem_of_btree_iter in Hin. by apply bool_decide_eq_true in Hb.
  - intros (st & Hl & Hf). exists (l, st). split; [done|]. apply list_elem_of_In, elem_of_filter_list.
    split; [by apply elem_of_btree_iter|]. by apply bool_decide_eq_true.
Qed.

Lemma ids_of_ascending n fp : StronglySorted Z.lt (ids_of n fp).
Proof.
  unfold ids_of. pose proof (sorted_by_filter _ (has_fp fp) _ (btree_iter_sorted (links n))) as Hs.
  pose proof (NoDup_map_filter fst (has_fp fp) _ (btree_iter_NoDup (links n))) as Hnd.
  induction Hs as [|[l st] ils Hs IH Hx]; [constructor|].
  change (map fst ((l, st) :: ils)) with (l :: map fst ils) in *.
  apply NoDup_cons in Hnd as [Hni Hnd]. constructor; [by apply IH|].
  apply Forall_forall. intros l' Hl'. assert (l ≠ l') as Hne by (by intros ->).
  apply list_elem_of_In, in_map_iff in Hl' as ([l2 st2] & <- & Hin%list_elem_of_In).
  rewrite Forall_forall in Hx. specialize (Hx _ Hin). cbn in Hx, Hne |- *. apply Z.leb_le in Hx. lia.
Qed.

Lemma elem_of_drop1 (ids : list LinkId) l :
  StronglySorted Z.lt ids → l ∈ drop 1 ids ↔ l ∈ ids ∧ ∃ l2, l2 ∈ ids ∧ l2 < l.
Proof.
  destruct 1 as [|h ids Hs Hh].
  { split; [intros Hl|intros [Hl _]]; by apply not_elem_of_nil in Hl. }
  cbn [drop]. rewrite drop_0. rewrite Forall_forall in Hh. split.
  - intros Hl. split; [by right|]. exists h. split; [apply list_elem_of_here|by apply Hh].
  - intros [[->|Hl]%elem_of_cons (l2 & [->|Hl2]%elem_of_cons & Hlt)]; try done; [lia|].
    specialize (Hh _ Hl2). lia.
Qed.

Definition redundant n : list LinkId :=
  concat (map (λ fi : Fingerprint * list LinkId, drop 1 fi.2) (btree_iter (links_by_fp n))).

Lemma links_by_fp_lookup n fp ids : links_by_fp n !! fp = Some ids → ids = ids_of n fp.
Proof. intros E. pose proof (links_by_fp_spec n fp) as Hs. by rewrite E in Hs. Qed.

(** Redundant is a link with a lower one to the same identity. *)
Lemma elem_of_redundant n l :
  l ∈ redundant n ↔ ∃ fp st l2 st2, links n !! l = Some st ∧ peer_fp st = Some fp
    ∧ links n !! l2 = Some st2 ∧ peer_fp st2 = Some fp ∧ l2 < l.
Proof.
  unfold redundant. rewrite list_elem_of_In, in_concat. setoid_rewrite in_map_iff. split.
  - intros (ids' & ([fp ids] & <- & Hin%list_elem_of_In) & Hl%list_elem_of_In).
    apply elem_of_btree_iter, links_by_fp_lookup in Hin as ->. cbn [snd] in Hl.
    apply elem_of_drop1 in Hl as [Hl (l2 & Hl2 & Hlt)]; [|apply ids_of_ascending].
    apply elem_of_ids_of in Hl as (st & ? & ?), Hl2 as (st2 & ? & ?). by exists fp, st, l2, st2.
  - intros (fp & st & l2 & st2 & Hl & Hf & Hl2 & Hf2 & Hlt).
    assert (l ∈ ids_of n fp) as Hin by (apply elem_of_ids_of; by exists st).
    pose proof (links_by_fp_spec n fp) as Hs. fold (ids_of n fp) in Hs.
    destruct (links_by_fp n !! fp) as [ids|] eqn:E; cbn in Hs; [|by rewrite <- Hs in Hin; apply not_elem_of_nil in Hin].
    unfold id in Hs. subst ids. exists (drop 1 (ids_of n fp)). split.
    + exists (fp, ids_of n fp). split; [done|]. by apply list_elem_of_In, elem_of_btree_iter.
    + apply list_elem_of_In, elem_of_drop1; [apply ids_of_ascending|]. split; [done|].
      exists l2. split; [|done]. apply elem_of_ids_of. by exists st2.
Qed.

Lemma NoDup_concat_disjoint {A B} (f : A → list B) (l : list A) :
  (∀ x, x ∈ l → NoDup (f x)) → (∀ x y b, x ∈ l → y ∈ l → b ∈ f x → b ∈ f y → x = y) → NoDup l →
  NoDup (concat (map f l)).
Proof.
  induction l as [|x l IH]; intros Hf Hd Hnd; [constructor|]. cbn [map concat].
  apply NoDup_cons in Hnd as [Hx Hnd]. apply NoDup_app. split_and!.
  - apply Hf, list_elem_of_here.
  - intros b Hb Hin. apply Hx. apply list_elem_of_In, in_concat in Hin as (l' & Hin & Hb').
    apply in_map_iff in Hin as (y & <- & Hy). apply list_elem_of_In in Hy, Hb'.
    rewrite (Hd x y b); [done|apply list_elem_of_here|by right|done..].
  - apply IH; [|by intros; eapply Hd; try done; right|done]. intros y Hy. apply Hf. by right.
Qed.

Lemma redundant_NoDup n : NoDup (redundant n).
Proof.
  assert (Hids : ∀ fi, fi ∈ btree_iter (links_by_fp n) → fi.2 = ids_of n fi.1).
  { intros [fp ids] Hin%elem_of_btree_iter. by apply links_by_fp_lookup. }
  apply NoDup_concat_disjoint.
  - intros fi Hin. rewrite (Hids _ Hin).
    assert (NoDup (ids_of n fi.1)) as Hnd by apply NoDup_map_filter, btree_iter_NoDup.
    destruct Hnd; [constructor|]. cbn [drop]. by rewrite drop_0.
  - intros fi fj l Hi Hj Hl Hl2. rewrite (Hids _ Hi) in Hl. rewrite (Hids _ Hj) in Hl2.
    apply elem_of_drop1 in Hl as [Hl _]; [|apply ids_of_ascending].
    apply elem_of_drop1 in Hl2 as [Hl2 _]; [|apply ids_of_ascending].
    apply elem_of_ids_of in Hl as (st & E1 & F1), Hl2 as (st2 & E2 & F2).
    rewrite E1 in E2. injection E2 as <-. rewrite F1 in F2. injection F2 as F2.
    pose proof (Hids _ Hi). pose proof (Hids _ Hj). destruct fi, fj. cbn in *. congruence.
  - apply (NoDup_fmap_1 fst), btree_iter_NoDup.
Qed.

Lemma close_loop ids n :
  ∃ ls, foldl (λ n id, log_call (set_links n (delete id (links n))) (Close id)) n ids
    = set_sent (set_links n ls) (sent n ++ map Close ids)
  ∧ ∀ l, ls !! l = if decide (l ∈ ids) then None else links n !! l.
Proof.
  revert n. induction ids as [|i ids IH]; intros n; cbn [foldl map].
  { exists (links n). rewrite app_nil_r. split; [by destruct n|]. intros l.
    by rewrite decide_False by apply not_elem_of_nil. }
  destruct (IH (log_call (set_links n (delete i (links n))) (Close i))) as (ls & E & Hls).
  exists ls. rewrite E. unfold log_call. cbn. rewrite <- app_assoc. split; [done|].
  intros l. rewrite Hls. cbn. destruct (decide (l = i)) as [->|Hne].
  - rewrite lookup_delete_eq, (decide_True (P:=i ∈ i :: _)) by apply list_elem_of_here.
    by case_decide.
  - rewrite lookup_delete_ne by done.
    assert (l ∈ i :: ids ↔ l ∈ ids) as Hiff by (rewrite elem_of_cons; tauto).
    by rewrite (decide_ext _ _ _ _ Hiff).
Qed.

(** A link is kept when no lower one leads to the same identity. *)
Definition kept n (l : LinkId) (st : LinkState) : Prop :=
  ∀ fp l2 st2, peer_fp (resolved n st) = Some fp → links n !! l2 = Some st2 →
    peer_fp (resolved n st2) = Some fp → l <= l2.

(** C23: redundant links are pruned to exactly one per identity. Afterwards a link is up exactly
    when it was up and is the lowest one to its peer's identity, as far as the announces heard so
    far identify peers; links to unidentified peers stay. Each link that went down was closed on
    the transport, once, and nothing else was sent. *)
Theorem dedup_keeps_lowest n :
  let n' := dedup_links n in
  (∀ l st', links n' !! l = Some st' ↔
     ∃ st, links n !! l = Some st ∧ st' = resolved n st ∧ kept n l st)
  ∧ ∃ closed, sent n' = sent n ++ map Close closed ∧ NoDup closed
    ∧ ∀ l, l ∈ closed ↔ is_Some (links n !! l) ∧ links n' !! l = None.
Proof.
  intros n'. destruct (resolve_links_spec n) as (rs & E & Hrs).
  unfold n', dedup_links. rewrite E. fold (redundant (set_links n rs)).
  destruct (close_loop (redundant (set_links n rs)) (set_links n rs)) as (ls & -> & Hls).
  cbn [links set_links set_sent sent] in Hls |- *.
  assert (∀ l st, links n !! l = Some st → kept n l st ↔ l ∉ redundant (set_links n rs)) as Hred.
  { intros l st Hl. rewrite elem_of_redundant. cbn. unfold kept. split.
    - intros Hk (fp & st1 & l2 & st2 & E1 & F1 & E2 & F2 & Hlt). rewrite Hrs, Hl in E1.
      rewrite Hrs in E2. destruct (links n !! l2) as [st2'|] eqn:El2; [|done]. cbn in E1, E2.
      injection E1 as <-. injection E2 as <-. specialize (Hk fp l2 st2' F1 El2 F2). lia.
    - intros Hno fp l2 st2 F1 E2 F2. apply dec_stable. intros Hlt. apply Hno.
      exists fp, (resolved n st), l2, (resolved n st2). rewrite !Hrs, Hl, E2. split_and!; try done. lia. }
  split.
  - intros l st'. rewrite Hls, Hrs. split.
    + case_decide as Hd; [done|]. destruct (links n !! l) as [st|] eqn:El; [|done]. cbn.
      intros [= <-]. exists st. split; [done|]. split; [done|].
      by apply (Hred l st El).
    + intros (st & El & -> & Hk). rewrite decide_False; [by rewrite El|]. by apply (Hred l st El).
  - eexists. split; [done|]. split; [apply redundant_NoDup|]. intros l. rewrite Hls. split.
    + intros Hin. rewrite decide_True by done. split; [|done].
      apply elem_of_redundant in Hin as (fp & st & _ & _ & El & _). cbn in El. rewrite Hrs in El.
      destruct (links n !! l); [by eexists|done].
    + intros [[st El] Hn]. case_decide as Hd; [done|]. by rewrite Hrs, El in Hn.
Qed.
End relaying.

(** ** Witnesses *)

Lemma quiet_without_peers (n : DemoNode) t : fp_to_eph n = ∅ → quiet n t.
Proof.
  intros E fp. unfold is_stalled, knows_eph. rewrite E, lookup_empty. cbn. by rewrite orb_true_r.
Qed.

(** A packet of 600 bytes and more in two fragments, the second one arriving first and twice. *)
Lemma hop_delivery_witness :
  let pkt := demo_packet 600 in
  ∃ f0 f1, frames_for pkt 512 = [f0; f1]
  ∧ sent_on 1 (broadcast alice1 pkt None) = sent_on 1 alice1 ++ [f0; f1]
  ∧ (∀ x, None = Some x → sent_on x (broadcast alice1 pkt None) = sent_on x alice1)
  ∧ on_frames bob0 1 ([f1; f1] ++ [f0]) = on_packet bob0 1 pkt.
Proof.
  cbv zeta. do 2 eexists. split; [vm_compute; reflexivity|].
  refine (hop_delivery alice1 bob0 (demo_packet 600) None 1
    {| mtu := 512; peer_eph := None; peer_fp := None |} 1 [_; _] _ _ _ _ _ _).
  - by apply demo_packet_canonical.
  - by vm_compute.
  - done.
  - split; [apply Reassembler_new_ok|by vm_compute..].
  - split; [|split].
    + apply (bool_decide_eq_true_1 _). by vm_compute.
    + refine (proj1 (Forall_forall (λ g, _) _) _). apply (bool_decide_eq_true_1 _). by vm_compute.
    + refine (proj1 (Forall_forall (λ g, _) _) _). apply (bool_decide_eq_true_1 _). by vm_compute.
Defined.

Lemma duplicates_only_counted_witness :
  let n := observe_seen bob1 (digest (demo_packet 3)) in
  ∃ e, on_copies n (demo_packet 3) [1; 1; 2] = count_copies n (demo_packet 3) e 3.
Proof.
  cbv zeta. eexists. apply duplicates_only_counted; [done|by vm_compute|by vm_compute].
Defined.

Lemma relay_life_witness :
  let m := set_seen (set_now (maybe_relay bob1 9 (demo_packet 3)) 5000) (seen bob1) in
  ∃ ready, (∀ l, sent_on l (tick m).2 = sent_on l bob1 ++ concat (map (relay_frames (links bob1) l) ready))
    ∧ ({| due_packet := set_ttl (demo_packet 3) (ttl (demo_packet 3) - 1); exclude_link := 9 |} ∈ ready
       ↔ relay_due_at bob1 <= 5000
         ∧ hear_count (seen bob1) (digest (demo_packet 3))
           < suppression_threshold (sched_cfg (scheduler bob1)))
    ∧ (pending (scheduler (tick m).2) !! digest (demo_packet 3) = None ↔ relay_due_at bob1 <= 5000).
Proof.
  apply (relay_life bob1 9 (demo_packet 3) 5000 (seen bob1)).
  - by vm_compute.
  - by vm_compute.
  - by vm_compute.
  - intros d p E. by vm_compute in E.
  - by vm_compute.
  - apply quiet_without_peers. by vm_compute.
Defined.

(** ** The link tag is taken from an unauthenticated packet

    Bob has a link to Alice and a second one, with a lower id, to somebody else. A sync request
    under Alice's wire id that nobody signed, heard on the lower link after each link was tagged,
    makes Bob close the link to Alice. *)
Definition unsigned_request : Packet :=
  Packet_new SyncRequest 1 1000 (node_eph_id alice0) None (encode_sync (SyncFilter_new DEFAULT_CHANNEL [])).

Definition bob_linked : DemoNode :=
  on_packet (node_run bob2 [OpEvent (LinkUp 0 512 None)]) 1
    (originate alice1 SyncRequest 1 None (encode_sync (SyncFilter_new DEFAULT_CHANNEL []))).

Example forged_tag_closes_link :
  links bob_linked !! 1 ≠ None
  ∧ links (on_packet bob_linked 0 unsigned_request) !! 1 = None
  ∧ last (sent (on_packet bob_linked 0 unsigned_request)) = Some (Close 1).
Proof. split; [|split; by vm_compute]. by vm_compute. Qed.
