(* ===== verification/NodeTalk.v ===== *)
(** * NodeTalk: two nodes talking

    Answering a sync request, direct messages from end to end, and the exchange that confirms a
    verification: the conversations of [node.rs], with both parties in the statement. *)
From stdpp Require Import strings gmap.
From S2P Require Import Prelude Errors F64 Utf8 Clock External Toy Transport Wire Config Frag.
From S2P Require Import Compress Relay Channels Store Identity Noise Payloads Node NodeFrame Demo.

Section talk.
Context `{Sha256, Ed25519, X25519, Snow, Lz4, Rand, HashIter, UnicodeCase}.
Context {S : Type} `{Store S}.
#[local] Abbreviation Node := (MeshNode (S:=S)).
Implicit Types n a b : Node.

(** ** Sync *)

(** The frames that carry a stored message over a link: its original bytes, if it has any. *)
Definition stored_frames n (link : LinkId) (d : bytes) : list bytes :=
  match message_by_digest (store n) d with
  | Some m =>
      if bool_decide (sm_raw m = []) then []
      else match split (sm_raw m) d (link_mtu n link) with Ok fs => fs | _ => [] end
  | None => []
  end.

Lemma sync_answer_loop n link ds :
  foldl (λ n dg,
     match message_by_digest (store n) dg with
     | Some m =>
         if negb (bool_decide (sm_raw m = []))
         then send_bytes n link (sm_raw m) dg (link_mtu n link) else n
     | None => n
     end) n ds =
  set_sent n (sent n ++ concat (map (λ d, map (Send link) (stored_frames n link d)) ds)).
Proof.
  revert n. induction ds as [|d ds IH]; intros n; cbn [foldl map concat].
  { by rewrite set_sent_id. }
  set (f := foldl _). assert (∀ n', store n' = store n → links n' = links n → node_cfg n' = node_cfg n →
    ∀ d, stored_frames n' link d = stored_frames n link d) as Hsf.
  { intros n' E1 E2 E3 d'. unfold stored_frames, link_mtu. by rewrite E1, E2, E3. }
  unfold f. rewrite IH. unfold stored_frames at 2.
  destruct (message_by_digest (store n) d) as [m|]; [|done].
  case_bool_decide; [done|]. cbn [negb]. rewrite send_bytes_sent. cbn [sent set_sent].
  rewrite <- app_assoc. do 2 f_equal.
Qed.

(** A neighbour's sync request is answered with exactly what it lacks. When the request
    lists what [b] holds for a channel, [a] puts on that link, and on no other, the original
    signed bytes of every message of the channel that [a] has and [b] has not, each once, cut up
    for the link; nothing else about [a] changes. *)
Theorem sync_request_answered (a b : Node) link pkt channel :
  zlen channel <= 255 → utf8_valid channel = true →
  Forall (λ d, length d = 8%nat) (channel_digests (store b) channel) →
  payload pkt = encode_sync (SyncFilter_new channel (channel_digests (store b) channel)) →
  ∃ ds, NoDup ds
    ∧ (∀ d, d ∈ ds ↔ d ∈ channel_digests (store a) channel ∧ d ∉ channel_digests (store b) channel)
    ∧ handle_sync_request a link pkt =
      set_sent a (sent a ++ concat (map (λ d, map (Send link) (stored_frames a link d)) ds)).
Proof.
  intros Hc Hv Hd Hp. unfold handle_sync_request. rewrite Hp, sync_roundtrip by done.
  eexists. split; [apply missing_from_nodup|]. split; [|apply sync_answer_loop].
  intros d. rewrite elem_of_missing_from. cbn [sf_channel SyncFilter_new].
  destruct (SyncFilter_new_digests channel (channel_digests (store b) channel)) as (_ & _ & Hin).
  by rewrite Hin.
Qed.

(** ** Direct messages *)

(** [a] can write to [b]: each knows the other's wire id, and they share a working session. *)
Record conversing a b (fa fb : Fingerprint) (sa sb : NoiseSession) `{!SnowPaired} : Prop := {
  cv_a : noise_sessions a !! fb = Some sa;
  cv_b : noise_sessions b !! fa = Some sb;
  cv_talking : talking sa sb;
  cv_to_b : fp_to_eph a !! fb = Some (node_eph_id b);
  cv_to_a : fp_to_eph b !! fa = Some (node_eph_id a);
  cv_is_a : eph_to_fp b (node_eph_id a) = Some fa;
  cv_is_b : eph_to_fp a (node_eph_id b) = Some fb;
}.

(** The packet that carries a ciphertext from [n] to the wire id [eph]. *)
Definition dm_packet n (eph : EphId) (ct : bytes) : Packet :=
  originate n DirectMessage (origin_ttl (node_cfg n) DirectMessage (msize (links n))) (Some eph) ct.

(** The node after it has put one packet of its own on all its links. *)
Definition flooded n (pkt : Packet) : Node :=
  set_sent (observe_seen n (digest pkt)) (sent n ++ concat (map (fanout pkt) (targets n None))).

Lemma send_dm_packet n fp eph ct :
  fp_to_eph n !! fp = Some eph →
  send_directed n DirectMessage fp ct = flooded n (dm_packet n eph ct).
Proof. intros E. unfold send_directed. rewrite E. cbv zeta. by rewrite broadcast_sent. Qed.

Lemma encrypt_and_send_sent n fp eph s k body ct s' :
  noise_sessions n !! fp = Some s → fp_to_eph n !! fp = Some eph →
  encrypt s (z2b k :: body) = (Ok ct, s') →
  encrypt_and_send_dm n fp k body = flooded (put_session n fp s') (dm_packet n eph ct).
Proof.
  intros Es Ef Ee. unfold encrypt_and_send_dm. rewrite Es, Ee.
  exact (send_dm_packet (put_session n fp s') fp eph ct Ef).
Qed.

Lemma handle_dm_packet n m fp s ct :
  eph_to_fp m (node_eph_id n) = Some fp → noise_sessions m !! fp = Some s → is_ready s = true →
  handle_direct_message m (dm_packet n (node_eph_id m) ct) = decrypt_and_emit m fp ct.
Proof.
  intros Ef Es Hr. unfold handle_direct_message.
  change (recipient (dm_packet n (node_eph_id m) ct)) with (Some (node_eph_id m)).
  change (sender (dm_packet n (node_eph_id m) ct)) with (node_eph_id n).
  rewrite bool_decide_eq_true_2 by done. cbn [negb]. rewrite Ef. unfold session_ready.
  by rewrite Es, Hr.
Qed.

(** What a node records of a plaintext of kind [k] before it reacts to it. *)
Definition noted n (fp : Fingerprint) (s' : NoiseSession) (k : Z) (body : bytes) : Node :=
  let n := put_session n fp s' in
  let n := set_resync_pending n (delete fp (resync_pending n)) in
  let n := put_own_dm n fp false (if k =? DM_KIND_TEXT then body else [z2b k]) in
  push_event n (DmReceived fp (default (zeroes 8) (fp_to_eph n !! fp))
                  (if k =? DM_KIND_TEXT then utf8_lossy body else []) k).

Lemma decrypt_and_emit_noted n fp s ct k body s' :
  0 <= k <= DM_KIND_VERIFY_ACK →
  noise_sessions n !! fp = Some s → decrypt s ct = (Ok (z2b k :: body), s') →
  decrypt_and_emit n fp ct =
  if k =? DM_KIND_VERIFY_NOTICE then send_control_dm (noted n fp s' k body) fp DM_KIND_VERIFY_ACK
  else noted n fp s' k body.
Proof.
  intros Hk Es Ed. unfold decrypt_and_emit. rewrite Es, Ed. unfold split_kind.
  unfold DM_KIND_VERIFY_ACK in *.
  rewrite b2z_z2b_u8 by (unfold in_width; lia). by rewrite (proj2 (Z.leb_le _ _)) by lia.
Qed.

Lemma decrypt_and_emit_refused n fp s ct e :
  noise_sessions n !! fp = Some s → (decrypt s ct).1 = Err e →
  decrypt_and_emit n fp ct = put_session n fp (decrypt s ct).2.
Proof. intros Es Ed. unfold decrypt_and_emit. rewrite Es. destruct (decrypt s ct) as [r s']. by cbn in *; subst r. Qed.

(** C9: a direct message arrives. When [a] writes to [b] over their session, [a] keeps its copy
    and puts a packet addressed to [b] on its links; [b], on handling that packet, shows exactly
    this text from [a], once, stores it, and sends nothing; the two can go on talking, and the
    packet does nothing when it is replayed. *)
Theorem dm_delivered `{!SnowPaired, !SnowLaws} a b fa fb sa sb text ct sa' :
  conversing a b fa fb sa sb → encrypt sa (z2b DM_KIND_TEXT :: text) = (Ok ct, sa') →
  let pkt := dm_packet a (node_eph_id b) ct in
  let a' := send_dm a fb text in
  let b' := handle_direct_message b pkt in
  recipient pkt = Some (node_eph_id b) ∧ msg_type pkt = DirectMessage
  ∧ sent a' = sent a ++ concat (map (fanout pkt) (targets a None))
  ∧ store a' = put_dm (store a) {| dm_peer := fb; mine := true; dm_timestamp_ms := now a; dm_body := text |}
  ∧ events b' = events b ++ [DmReceived fa (node_eph_id a) (utf8_lossy text) DM_KIND_TEXT]
  ∧ store b' = put_dm (store b) {| dm_peer := fa; mine := false; dm_timestamp_ms := now b; dm_body := text |}
  ∧ sent b' = sent b
  ∧ (∃ sb', conversing a' b' fa fb sa' sb')
  ∧ let b'' := handle_direct_message b' pkt in
    events b'' = events b' ∧ store b'' = store b' ∧ sent b'' = sent b'.
Proof.
  intros [Ea Eb Ht Hab Hba Hia Hib] He pkt a' b'.
  destruct (in_step_ready _ _ (proj1 Ht)) as [Hra Hrb].
  destruct (talk_one sa sb _ ct sa' Ht He) as (sb' & Ed & Ht' & e & Hrep).
  assert (a' = flooded (put_session (put_own_dm a fb true text) fb sa') pkt) as Ea'.
  { unfold a', send_dm. assert (session_ready (put_own_dm a fb true text) fb = true) as ->.
    { unfold session_ready. cbn. by rewrite Ea. }
    
    exact (encrypt_and_send_sent (put_own_dm a fb true text) fb (node_eph_id b) sa DM_KIND_TEXT text ct sa' Ea Hab He). }
  assert (b' = noted b fa sb' DM_KIND_TEXT text) as Eb'.
  { unfold b', pkt. rewrite (handle_dm_packet a b fa sb ct Hia Eb Hrb).
    by rewrite (decrypt_and_emit_noted b fa sb ct DM_KIND_TEXT text sb'). }
  assert (is_ready sb' = true) as Hrb' by apply (in_step_ready _ _ (proj1 Ht')).
  assert (noise_sessions b' !! fa = Some sb') as Eb2 by (rewrite Eb'; apply lookup_insert_eq).
  split_and!; try done.
  - by rewrite Ea'.
  - by rewrite Ea'.
  - rewrite Eb'. cbn. by rewrite Hba.
  - by rewrite Eb'.
  - by rewrite Eb'.
  - exists sb'. split; try done; [rewrite Ea'; apply lookup_insert_eq|by rewrite Ea', Eb'..].
  - unfold pkt. assert (node_eph_id b = node_eph_id b') as -> by by rewrite Eb'.
    rewrite (handle_dm_packet a b' fa sb' ct); [|by rewrite Eb'|done|done].
    by rewrite (decrypt_and_emit_refused b' fa sb' ct e Eb2 Hrep).
Qed.

Lemma send_control_sent n fp eph s k ct s' :
  noise_sessions n !! fp = Some s → fp_to_eph n !! fp = Some eph →
  encrypt s [z2b k] = (Ok ct, s') →
  send_control_dm n fp k =
  flooded (put_session (put_own_dm n fp true [z2b k]) fp s') (dm_packet n eph ct).
Proof.
  intros Es Ef Ee.
  exact (encrypt_and_send_sent (put_own_dm n fp true [z2b k]) fp eph s k [] ct s' Es Ef Ee).
Qed.

(** What [verify_peer] does to trust before it tells the peer. *)
Definition trusted n (fp : Fingerprint) : Node :=
  let n := set_store n (upsert_peer (store n) (set_verified (peer_or_new n fp) true)) in
  let n := set_store n (delete_dms (store n) fp true) in
  let n := set_notice_pending n ({[ fp ]} ∪ notice_pending n) in
  set_notice_pending n (notice_pending n ∖ {[ fp ]}).

Lemma verify_peer_ready n fp :
  session_ready n fp = true →
  verify_peer n fp = send_control_dm (trusted n fp) fp DM_KIND_VERIFY_NOTICE.
Proof.
  intros Hr. unfold verify_peer, try_send_verify_notice. cbv zeta.
  set (m := set_notice_pending _ _). assert (session_ready m fp = true) as -> by exact Hr.
  rewrite bool_decide_eq_true_2; [done|]. unfold m. cbn. set_solver.
Qed.

Lemma peer_verified_trusted `{!StoreLaws S} n fp :
  fingerprint (peer_or_new n fp) = fp → peer_verified (trusted n fp) fp = true.
Proof.
  intros Hf. unfold peer_verified, trusted. cbn -[peer_or_new].
  rewrite get_delete_dms. set (p := set_verified _ _).
  destruct (get_upsert (store n) p fp) as (p' & _ & Hv & ->).
  rewrite decide_True; [by rewrite Hv|]. by rewrite <- Hf at 1.
Qed.

(** C13: verifying a peer in person is confirmed both ways and stops there. Over a session the
    two share, marking [b] verified makes [a] send [b] one notice; [b] shows it and answers with
    one acknowledgement; [a] shows that and sends nothing more. [b] is then verified for [a], no
    notice is owed any more, what [b] thinks of [a] is unchanged, and the session still works. *)
Theorem verification_exchange `{!SnowPaired, !SnowLaws, !StoreLaws S}
    a b fa fb sa sb ct1 sa' ct2 sb' :
  conversing a b fa fb sa sb → fingerprint (peer_or_new a fb) = fb →
  encrypt sa [z2b DM_KIND_VERIFY_NOTICE] = (Ok ct1, sa') →
  encrypt (decrypt sb ct1).2 [z2b DM_KIND_VERIFY_ACK] = (Ok ct2, sb') →
  let notice := dm_packet a (node_eph_id b) ct1 in
  let ack := dm_packet b (node_eph_id a) ct2 in
  let a1 := verify_peer a fb in
  let b1 := handle_direct_message b notice in
  let a2 := handle_direct_message a1 ack in
  sent a1 = sent a ++ concat (map (fanout notice) (targets a None))
  ∧ events b1 = events b ++ [DmReceived fa (node_eph_id a) [] DM_KIND_VERIFY_NOTICE]
  ∧ sent b1 = sent b ++ concat (map (fanout ack) (targets b None))
  ∧ events a2 = events a ++ [DmReceived fb (node_eph_id b) [] DM_KIND_VERIFY_ACK]
  ∧ sent a2 = sent a1
  ∧ peer_verified a2 fb = true ∧ fb ∉ notice_pending a2
  ∧ (∀ fp, peer_verified b1 fp = peer_verified b fp)
  ∧ ∃ sa'', conversing a2 b1 fa fb sa'' sb'.
Proof.
  intros [Ea Eb Ht Hab Hba Hia Hib] Hfp He1 He2 notice ack a1 b1 a2.
  destruct (in_step_ready _ _ (proj1 Ht)) as [Hra Hrb].
  destruct (talk_one sa sb _ ct1 sa' Ht He1) as (sb1 & Ed1 & [Ht1 Ht2] & _).
  rewrite Ed1 in He2. cbn [snd] in He2.
  destruct (talk_one sb1 sa' _ ct2 sb' (conj Ht2 Ht1) He2) as (sa2 & Ed2 & [Ht3 Ht4] & _).
  assert (a1 = flooded (put_session (put_own_dm (trusted a fb) fb true [z2b DM_KIND_VERIFY_NOTICE])
    fb sa') notice) as Ea1.
  { unfold a1. rewrite verify_peer_ready; [|unfold session_ready; by rewrite Ea].
    exact (send_control_sent (trusted a fb) fb (node_eph_id b) sa DM_KIND_VERIFY_NOTICE ct1 sa' Ea Hab He1). }
  set (nb := noted b fa sb1 DM_KIND_VERIFY_NOTICE []).
  assert (noise_sessions nb !! fa = Some sb1) as Enb by apply lookup_insert_eq.
  assert (b1 = flooded (put_session (put_own_dm nb fa true [z2b DM_KIND_VERIFY_ACK]) fa sb') ack) as Eb1.
  { unfold b1, notice. rewrite (handle_dm_packet a b fa sb ct1 Hia Eb Hrb).
    rewrite (decrypt_and_emit_noted b fa sb ct1 DM_KIND_VERIFY_NOTICE [] sb1) by done.
    exact (send_control_sent nb fa (node_eph_id a) sb1 DM_KIND_VERIFY_ACK ct2 sb' Enb Hba He2). }
  assert (noise_sessions a1 !! fb = Some sa') as Ea1s by (rewrite Ea1; apply lookup_insert_eq).
  assert (a2 = noted a1 fb sa2 DM_KIND_VERIFY_ACK []) as Ea2.
  { unfold a2, ack. assert (node_eph_id a = node_eph_id a1) as -> by by rewrite Ea1.
    rewrite (handle_dm_packet b a1 fb sa' ct2); [|by rewrite Ea1|done|apply (in_step_ready _ _ Ht1)].
    by rewrite (decrypt_and_emit_noted a1 fb sa' ct2 DM_KIND_VERIFY_ACK [] sa2). }
  split_and!.
  - by rewrite Ea1.
  - rewrite Eb1. cbn. by rewrite Hba.
  - by rewrite Eb1.
  - rewrite Ea2. cbn. rewrite Ea1. cbn. by rewrite Hab.
  - by rewrite Ea2.
  - rewrite Ea2. unfold peer_verified. cbn [store noted push_event set_events put_own_dm set_store].
    cbn. rewrite get_put_dm, Ea1. cbn. rewrite get_put_dm. by apply (peer_verified_trusted a fb).
  - rewrite Ea2. cbn. rewrite Ea1. cbn. set_solver.
  - intros fp. rewrite Eb1. unfold peer_verified. cbn. by rewrite !get_put_dm.
  - exists sa2. split; try done.
    + rewrite Ea2. apply lookup_insert_eq.
    + rewrite Eb1. apply lookup_insert_eq.
    + rewrite Ea2. cbn. by rewrite Ea1, Eb1.
    + rewrite Ea2, Eb1. cbn. by rewrite Ea1.
    + rewrite Ea2, Eb1. cbn. by rewrite Ea1.
    + rewrite Ea2, Eb1. unfold eph_to_fp. cbn. by rewrite Ea1.
Qed.
End talk.

(** ** Witnesses *)

(** Alice has a message Bob lacks, and hears his request. *)
Definition alice_said : DemoNode := (send_channel_message alice1 DEFAULT_CHANNEL hello).2.
Definition bob_asks : Packet :=
  originate bob1 SyncRequest 1 None
    (encode_sync (SyncFilter_new DEFAULT_CHANNEL (channel_digests (store bob1) DEFAULT_CHANNEL))).

Lemma sync_request_answered_witness :
  ∃ ds, NoDup ds
    ∧ (∀ d, d ∈ ds ↔ d ∈ channel_digests (store alice_said) DEFAULT_CHANNEL
                     ∧ d ∉ channel_digests (store bob1) DEFAULT_CHANNEL)
    ∧ handle_sync_request alice_said 1 bob_asks =
      set_sent alice_said
        (sent alice_said ++ concat (map (λ d, map (Send 1) (stored_frames alice_said 1 d)) ds)).
Proof.
  apply (sync_request_answered alice_said bob1 1 bob_asks DEFAULT_CHANNEL).
  - by vm_compute.
  - by vm_compute.
  - apply (bool_decide_eq_true_1 _). by vm_compute.
  - done.
Defined.

(** The session of a node with a peer. *)
Definition the_session (n : DemoNode) (fp : Fingerprint) : NoiseSession :=
  default (toy_session true) (noise_sessions n !! fp).

(** A decidable form of [conversing] for the toy sessions. *)
Definition demo_ready (n : DemoNode) (fp : Fingerprint) : option toy_ts :=
  match noise_sessions n !! fp with
  | Some s => match inner s with Transport ts => Some ts | _ => None end
  | None => None
  end.

Definition in_step_demo (ts tr : option toy_ts) : bool :=
  match ts, tr with
  | Some ts, Some tr => ts_receiving_nonce tr <=? ts_sending_nonce ts
  | _, _ => false
  end.

Definition conversing_demo (a b : DemoNode) (fa fb : Fingerprint) : bool :=
  in_step_demo (demo_ready a fb) (demo_ready b fa) && in_step_demo (demo_ready b fa) (demo_ready a fb)
  && bool_decide (fp_to_eph a !! fb = Some (node_eph_id b))
  && bool_decide (fp_to_eph b !! fa = Some (node_eph_id a))
  && bool_decide (eph_to_fp b (node_eph_id a) = Some fa)
  && bool_decide (eph_to_fp a (node_eph_id b) = Some fb).

Lemma demo_conversing a b fa fb :
  conversing_demo a b fa fb = true →
  conversing a b fa fb (the_session a fb) (the_session b fa).
Proof.
  unfold conversing_demo. rewrite !andb_true_iff, !bool_decide_eq_true.
  intros [[[[[H1 H2] H3] H4] H5] H6]. unfold demo_ready, the_session in *.
  destruct (noise_sessions a !! fb) as [sa|] eqn:Ea; [|done].
  destruct (noise_sessions b !! fa) as [sb|] eqn:Eb; [|by destruct (inner sa)].
  destruct (inner sa) as [|ts|] eqn:Eia; [done| |done].
  destruct (inner sb) as [|tr|] eqn:Eib; [done| |done].
  unfold in_step_demo in *. apply Z.leb_le in H1, H2. cbn [default from_option id].
  split; try done. split; [by exists ts, tr|by exists tr, ts].
Qed.

Definition ok_or (r : outcome Error bytes) : bytes := match r with Ok b => b | _ => [] end.

Lemma encrypt_ok (s : NoiseSession) pt :
  is_ok (encrypt s pt).1 = true → encrypt s pt = (Ok (ok_or (encrypt s pt).1), (encrypt s pt).2).
Proof. destruct (encrypt s pt) as [[ct| |] s']; [done|done|done]. Qed.

(** Alice writes to Bob over the session they have. *)
Lemma dm_delivered_witness :
  let sa := the_session alice4 bob_fp in
  let ct := ok_or (encrypt sa (z2b DM_KIND_TEXT :: hello)).1 in
  let b' := handle_direct_message bob4 (dm_packet alice4 (node_eph_id bob4) ct) in
  conversing alice4 bob4 alice_fp bob_fp sa (the_session bob4 alice_fp)
  ∧ events b' = events bob4 ++ [DmReceived alice_fp (node_eph_id alice4) (utf8_lossy hello) DM_KIND_TEXT].
Proof.
  intros sa ct b'.
  assert (conversing alice4 bob4 alice_fp bob_fp sa (the_session bob4 alice_fp)) as Hc
    by (apply demo_conversing; by vm_compute).
  split; [exact Hc|].
  assert (encrypt sa (z2b DM_KIND_TEXT :: hello) = (Ok ct, (encrypt sa (z2b DM_KIND_TEXT :: hello)).2))
    as He by (apply encrypt_ok; by vm_compute).
  exact (proj1 (proj2 (proj2 (proj2 (proj2 (dm_delivered alice4 bob4 alice_fp bob_fp sa
    (the_session bob4 alice_fp) hello ct _ Hc He)))))).
Defined.

(** Alice verifies Bob. *)
Lemma verification_exchange_witness :
  let sa := the_session alice4 bob_fp in
  let sb := the_session bob4 alice_fp in
  let ct1 := ok_or (encrypt sa [z2b DM_KIND_VERIFY_NOTICE]).1 in
  let ct2 := ok_or (encrypt (decrypt sb ct1).2 [z2b DM_KIND_VERIFY_ACK]).1 in
  let a1 := verify_peer alice4 bob_fp in
  let a2 := handle_direct_message a1 (dm_packet bob4 (node_eph_id alice4) ct2) in
  events a2 = events alice4 ++ [DmReceived bob_fp (node_eph_id bob4) [] DM_KIND_VERIFY_ACK]
  ∧ sent a2 = sent a1.
Proof.
  intros sa sb ct1 ct2 a1 a2.
  assert (conversing alice4 bob4 alice_fp bob_fp sa sb) as Hc
    by (apply demo_conversing; by vm_compute).
  assert (fingerprint (peer_or_new alice4 bob_fp) = bob_fp) as Hf
    by (apply (bool_decide_eq_true_1 _); by vm_compute).
  assert (encrypt sa [z2b DM_KIND_VERIFY_NOTICE] = (Ok ct1, (encrypt sa [z2b DM_KIND_VERIFY_NOTICE]).2))
    as He1 by (apply encrypt_ok; by vm_compute).
  assert (encrypt (decrypt sb ct1).2 [z2b DM_KIND_VERIFY_ACK] =
    (Ok ct2, (encrypt (decrypt sb ct1).2 [z2b DM_KIND_VERIFY_ACK]).2))
    as He2 by (apply encrypt_ok; by vm_compute).
  pose proof (verification_exchange alice4 bob4 alice_fp bob_fp sa sb ct1 _ ct2 _ Hc Hf He1 He2) as Hx.
  cbv zeta in Hx. destruct Hx as (_ & _ & _ & Hev & Hsent & _). split; [exact Hev|exact Hsent].
Defined.
