(* ===== verification/NodeCommands.v ===== *)
(** * NodeCommands: what the user's commands and the timer do

    The commands that decide about trust and forget, and the retries of stalled handshakes from
    the periodic tick: the remaining entry points of [node.rs]. *)
From stdpp Require Import strings gmap.
From S2P Require Import Prelude Errors F64 Utf8 Clock External Toy Transport Wire Config Frag.
From S2P Require Import Compress Relay Channels Store Identity Noise Payloads Node NodeFrame Demo.
From S2P Require Import NodeRelay.

Section commands.
Context `{Sha256, Ed25519, X25519, Snow, Lz4, Rand, HashIter, UnicodeCase}.
Context {S : Type} `{Store S}.
#[local] Abbreviation Node := (MeshNode (S:=S)).
Implicit Types n : Node.

(** ** Forgetting *)

(** Nothing is left of the live state with a peer. *)
Record no_session n (fp : Fingerprint) : Prop := {
  ns_session : noise_sessions n !! fp = None;
  ns_outbound : pending_dms n !! fp = None;
  ns_inbound : pending_inbound_dms n !! fp = None;
  ns_retry : handshake_attempts n !! fp = None ∧ handshake_last_ms n !! fp = None;
  ns_resync : resync_pending n !! fp = None;
  ns_notice : fp ∉ notice_pending n;
}.

Lemma drop_peer_no_session n fp : no_session (drop_peer_session_state n fp) fp.
Proof. split; cbn; try split; try apply lookup_delete_eq. set_solver. Qed.

Lemma no_session_eph n fp x : no_session n fp → no_session (set_fp_to_eph n x) fp.
Proof. intros [A B C D E F]. exact (Build_no_session (set_fp_to_eph n x) fp A B C D E F). Qed.

(** The parts of a node that know nothing of people. *)
Definition machinery n :=
  (identity n, node_cfg n, sent n, now n, (seen n, rate n, scheduler n, reassembler n),
   (rng n, links n, subscribed n, nickname n, relays_fired n), panicked n).

(** The live state with a peer, its announced keys and its address. *)
Definition live_state n (q : Fingerprint) :=
  (noise_sessions n !! q, pending_dms n !! q, pending_inbound_dms n !! q,
   (handshake_attempts n !! q, handshake_last_ms n !! q, resync_pending n !! q),
   bool_decide (q ∈ notice_pending n), peer_static_dh n !! q, fp_to_eph n !! q).

(** What is stored about or for a peer. *)
Record same_records n n' (q : Fingerprint) : Prop := {
  sr_contact : get_peer (store n') q = get_peer (store n) q;
  sr_thread k : in_width 63 k → dm_history (store n') q k = dm_history (store n) q k;
}.

(** What a command about [fp] leaves alone: the machinery, the events, the announced keys, the
    stored messages, what is held for anybody, and all there is of any other peer. *)
Record only_about n n' (fp : Fingerprint) : Prop := {
  oa_machinery : machinery n' = machinery n;
  oa_events : events n' = events n;
  oa_keys : eph_keys n' = eph_keys n ∧ peer_static_dh n' = peer_static_dh n;
  oa_messages d : message_by_digest (store n') d = message_by_digest (store n) d;
  oa_held q : (take_envelopes (store n') q).1 = (take_envelopes (store n) q).1;
  oa_live q : q ≠ fp → live_state n' q = live_state n q;
  oa_records q : q ≠ fp → same_records n n' q;
}.

Lemma live_drop n fp q : q ≠ fp → live_state (drop_peer_session_state n fp) q = live_state n q.
Proof.
  intros Hq. unfold live_state. cbn. rewrite !lookup_delete_ne by done.
  by rewrite (bool_decide_ext (q ∈ notice_pending n ∖ {[ fp ]}) (q ∈ notice_pending n)) by set_solver.
Qed.

Section forgetting.
Context `{!StoreLaws S, !StoreScope S}.

(** Both commands drop the live state and change the store, each in its own way. *)
Lemma only_about_store n fp (st : S) :
  (∀ d, message_by_digest st d = message_by_digest (store n) d) →
  (∀ q, (take_envelopes st q).1 = (take_envelopes (store n) q).1) →
  (∀ q, q ≠ fp → get_peer st q = get_peer (store n) q
     ∧ ∀ k, in_width 63 k → dm_history st q k = dm_history (store n) q k) →
  only_about n (drop_peer_session_state (set_store n st) fp) fp.
Proof.
  intros Hm He Hq. split; try done.
  - intros q Hne. by rewrite live_drop.
  - intros q Hne. destruct (Hq q Hne). by split.
Qed.

(** The record of a contact whose trust is taken back. *)
Definition distrusted n (fp : Fingerprint) : S :=
  match get_peer (store n) fp with
  | Some p => upsert_peer (store n) (set_verified p false)
  | None => store n
  end.

Lemma unverify_peer_store n fp :
  unverify_peer n fp = drop_peer_session_state (set_store n (delete_dms (distrusted n fp) fp true)) fp.
Proof. unfold unverify_peer, distrusted. by destruct (get_peer (store n) fp). Qed.

Lemma distrusted_spec n fp :
  (∀ rec, get_peer (store n) fp = Some rec → fingerprint rec = fp) →
  (∀ q, get_peer (distrusted n fp) q = get_peer (store n) q
        ∨ q = fp ∧ ∃ p p', get_peer (store n) fp = Some p ∧ get_peer (distrusted n fp) fp = Some p'
                     ∧ petname p' = petname p ∧ verified p' = false)
  ∧ (get_peer (store n) fp = None → get_peer (distrusted n fp) fp = None)
  ∧ (∀ q k, in_width 63 k → dm_history (distrusted n fp) q k = dm_history (store n) q k)
  ∧ (∀ d, message_by_digest (distrusted n fp) d = message_by_digest (store n) d)
  ∧ ∀ q, (take_envelopes (distrusted n fp) q).1 = (take_envelopes (store n) q).1.
Proof.
  intros Hrec. unfold distrusted. destruct (get_peer (store n) fp) as [p|] eqn:Ep.
  2: { split_and!; try done. intros q. by left. }
  specialize (Hrec p eq_refl). set (p0 := set_verified p false).
  assert (∀ q, ∃ p', petname p' = petname p ∧ verified p' = false
    ∧ get_peer (upsert_peer (store n) p0) q = if decide (q = fp) then Some p' else get_peer (store n) q) as Hup.
  { intros q. destruct (get_upsert (store n) p0 q) as (p' & ? & ? & E). exists p'. rewrite E. cbn. by rewrite Hrec. }
  split_and!; [|done| | |].
  - intros q. destruct (Hup q) as (p' & Hn & Hv & E). destruct (decide (q = fp)) as [->|Hne]; [right|by left].
    split; [done|]. by exists p, p'.
  - intros q k. apply history_upsert.
  - intros d. apply messages_upsert.
  - intros q. apply held_upsert.
Qed.

Lemma unverify_only n fp :
  (∀ rec, get_peer (store n) fp = Some rec → fingerprint rec = fp) →
  only_about n (unverify_peer n fp) fp ∧ fp_to_eph (unverify_peer n fp) = fp_to_eph n.
Proof.
  intros Hrec. destruct (distrusted_spec n fp Hrec) as (Hg & _ & Hh & Hm & He).
  rewrite unverify_peer_store. split; [|done]. apply only_about_store.
  - intros d. by rewrite messages_delete_dms.
  - intros q. by rewrite held_delete_dms.
  - intros q Hne. rewrite get_delete_dms. split; [by destruct (Hg q) as [|[-> _]]|].
    intros k Hk. by rewrite history_others, Hh.
Qed.

Lemma only_about_address n n' fp x :
  only_about n n' fp → (∀ q, q ≠ fp → x !! q = fp_to_eph n' !! q) → only_about n (set_fp_to_eph n' x) fp.
Proof.
  intros [A B C D E F G] Hx. split; [exact A|exact B|exact C|exact D|exact E| |].
  - intros q Hq. rewrite <- (F q Hq). unfold live_state. cbn. by rewrite Hx.
  - intros q Hq. destruct (G q Hq) as [G1 G2]. by split.
Qed.

Lemma set_store_twice n (x y : S) : set_store (set_store n x) y = set_store n y.
Proof. done. Qed.

Lemma forget_only n fp : only_about n (forget_peer n fp) fp.
Proof.
  unfold forget_peer. cbv zeta. rewrite (set_store_twice n).
  assert (∀ x, store (set_store n x) = x) as -> by done.
  apply only_about_address; [|intros q Hq; by rewrite lookup_delete_ne]. apply only_about_store.
  - intros d. by rewrite messages_delete_peer, messages_delete_dms.
  - intros q. by rewrite held_delete_peer, held_delete_dms.
  - intros q Hne. rewrite get_delete, decide_False, get_delete_dms by done. split; [done|].
    intros k Hk. by rewrite history_delete_peer, history_others.
Qed.

End forgetting.

(** ** Retries *)

Definition attempts n (fp : Fingerprint) : Z := default 0 (handshake_attempts n !! fp).

(** What the retry machinery knows of a peer. *)
Definition retry_state n (fp : Fingerprint) :=
  (handshake_attempts n !! fp, handshake_last_ms n !! fp, noise_sessions n !! fp).

(** A fresh initiator with its first message. *)
Definition fresh_handshake n (s : NoiseSession) (msg : bytes) : Prop :=
  ∃ s0, new_initiator (dh_private_bytes (identity n)) = Ok s0 ∧ write_handshake s0 = (Ok msg, s).

Lemma begin_handshake_state n fp s msg q :
  fresh_handshake n s msg →
  retry_state (begin_handshake n fp) q =
    (if decide (q = fp) then (Some (wrap 32 (attempts n fp + 1)), Some (now n), Some s)
     else retry_state n q)
  ∧ identity (begin_handshake n fp) = identity n ∧ now (begin_handshake n fp) = now n.
Proof.
  intros (s0 & Hi & Hw). unfold begin_handshake. rewrite Hi, Hw. cbv zeta.
  set (m := send_directed _ _ _ _).
  assert (handshake_attempts m = handshake_attempts n ∧ handshake_last_ms m = handshake_last_ms n
    ∧ noise_sessions m = <[fp := s]> (noise_sessions n) ∧ identity m = identity n ∧ now m = now n)
    as (E1 & E2 & E3 & E4 & E5).
  { unfold m, send_directed. cbn [fp_to_eph put_session set_noise_sessions].
    destruct (fp_to_eph n !! fp); [cbv zeta; by rewrite broadcast_sent|done]. }
  split; [|done]. unfold retry_state, attempts. cbn. rewrite E1, E2, E3, E5.
  case_decide as Hq; [subst q; by rewrite !lookup_insert_eq|by rewrite !lookup_insert_ne].
Qed.

Lemma retry_loop n fps s msg q :
  NoDup fps → fresh_handshake n s msg →
  let n' := foldl (λ n fp, begin_handshake (drop_session n fp) fp) n fps in
  retry_state n' q =
    (if decide (q ∈ fps) then (Some (wrap 32 (attempts n q + 1)), Some (now n), Some s)
     else retry_state n q)
  ∧ identity n' = identity n ∧ now n' = now n.
Proof.
  intros Hnd. revert n. induction Hnd as [|fp fps Hni Hnd IH]; intros n Hf; cbn [foldl].
  { split; [|done]. by rewrite decide_False by apply not_elem_of_nil. }
  destruct (begin_handshake_state (drop_session n fp) fp s msg q Hf) as (Eq & Ei & En).
  destruct (begin_handshake_state (drop_session n fp) fp s msg fp Hf) as (Efp & _ & _).
  set (n1 := begin_handshake _ fp) in *.
  assert (fresh_handshake n1 s msg) as Hf1 by (unfold fresh_handshake; rewrite Ei; exact Hf).
  destruct (IH n1 Hf1) as (IHq & IHi & IHn). cbv zeta in IHq. rewrite IHq, IHi, IHn, Ei, En, Eq.
  split; [|done]. cbn [now drop_session set_noise_sessions].
  destruct (decide (q = fp)) as [->|Hne].
  - rewrite decide_False, (decide_True (P:=fp ∈ fp :: fps)) by (done || apply list_elem_of_here).
    done.
  - assert (q ∈ fp :: fps ↔ q ∈ fps) as Hiff by (rewrite elem_of_cons; tauto).
    rewrite (decide_ext _ _ _ _ Hiff).
    assert (retry_state (drop_session n fp) q = retry_state n q) as Es
      by (unfold retry_state; cbn; by rewrite lookup_delete_ne).
    case_decide; [|done]. rewrite Es in Eq. unfold attempts. injection Eq as -> _ _. done.
Qed.

(** The peers whose handshake a tick starts again. *)
Definition retried n (fp : Fingerprint) : bool :=
  bool_decide (is_Some (handshake_attempts n !! fp)) && is_stalled n (now n) fp.

(** The part of a tick before the retries leaves all of this alone. *)
Lemma tick_before_retry n :
  ∃ m, (tick n).2 = retry_stalled_handshakes m (now n) ∧ identity m = identity n ∧ now m = now n
    ∧ handshake_attempts m = handshake_attempts n ∧ (∀ fp, retry_state m fp = retry_state n fp)
    ∧ ∀ t fp, is_stalled m t fp = is_stalled n t fp.
Proof.
  unfold tick. rewrite due_spec. cbn [snd].
  set (ready := map to_due _). set (sched := {| pending := _; sched_cfg := _ |}).
  destruct (relay_loop_sent 0 ready (set_scheduler n sched)) as [_ (s & r & E)].
  unfold relay_step in E. rewrite E. eexists. split; [done|]. done.
Qed.

Lemma tick_retry_state `{!HashIterLaws} n s msg fp :
  fresh_handshake n s msg →
  retry_state (tick n).2 fp =
    (if retried n fp then (Some (wrap 32 (attempts n fp + 1)), Some (now n), Some s)
     else retry_state n fp)
  ∧ identity (tick n).2 = identity n ∧ now (tick n).2 = now n.
Proof.
  intros Hf. destruct (tick_before_retry n) as (m & -> & Ei & En & Ea & Er & Hs).
  unfold retry_stalled_handshakes. set (fps := List.filter _ _).
  assert (NoDup fps) as Hnd.
  { unfold fps. apply NoDup_ListNoDup, List.NoDup_filter, NoDup_ListNoDup, hash_iter_NoDup. }
  assert (fresh_handshake m s msg) as Hfm by (unfold fresh_handshake; by rewrite Ei).
  destruct (retry_loop m fps s msg fp Hnd Hfm) as (Eq & Ei2 & En2). cbv zeta in Eq.
  rewrite Eq, Ei2, En2, Er, Ei, En. split; [|done].
  assert (fp ∈ fps ↔ retried n fp = true) as Hin.
  { unfold fps, retried. rewrite elem_of_filter_list, andb_true_iff, bool_decide_eq_true, Hs, <- Ea.
    split; intros [Hk Hst]; (split; [|done]).
    - apply list_elem_of_In, in_map_iff in Hk as ([k v] & <- & Hk%list_elem_of_In).
      apply elem_of_hash_iter in Hk. by eexists.
    - destruct Hk as [v Hv]. apply list_elem_of_In, in_map_iff. exists (fp, v). split; [done|].
      by apply list_elem_of_In, elem_of_hash_iter. }
  assert (attempts m fp = attempts n fp) as -> by (unfold attempts; by rewrite Ea).
  destruct (retried n fp); [by rewrite decide_True by by apply Hin|].
  rewrite decide_False; [done|]. intros Hc%Hin. done.
Qed.

Lemma retried_iff n fp :
  retried n fp = true ↔
  is_Some (handshake_attempts n !! fp) ∧ session_ready n fp = false ∧ knows_eph n fp = true
  ∧ attempts n fp < DM_HANDSHAKE_MAX_ATTEMPTS
  ∧ DM_HANDSHAKE_RETRY_MS <= sat_sub (now n) (default 0 (handshake_last_ms n !! fp)).
Proof.
  unfold retried, is_stalled. fold (attempts n fp). rewrite andb_true_iff, bool_decide_eq_true.
  destruct (session_ready n fp), (knows_eph n fp); cbn [orb negb]; try (split; naive_solver).
  destruct (DM_HANDSHAKE_MAX_ATTEMPTS <=? attempts n fp) eqn:E.
  - apply Z.leb_le in E. split; [naive_solver|]. intros (_ & _ & _ & Hlt & _). lia.
  - apply Z.leb_gt in E. rewrite Z.leb_le. naive_solver.
Qed.

Lemma retried_wrap n fp :
  0 <= attempts n fp → retried n fp = true → wrap 32 (attempts n fp + 1) = attempts n fp + 1.
Proof.
  intros H0' (_ & _ & _ & Hlt & _)%retried_iff. unfold DM_HANDSHAKE_MAX_ATTEMPTS in Hlt.
  unfold wrap. apply Z.mod_small. lia.
Qed.

(** Time passing, with nothing coming in and no command given. *)
Definition timer_op (o : node_op) : bool :=
  match o with OpTick | OpClock _ => true | _ => false end.

Lemma timer_step `{!HashIterLaws} n s msg fp o :
  timer_op o = true → fresh_handshake n s msg → 0 <= attempts n fp →
  let n' := node_step n o in
  fresh_handshake n' s msg ∧ attempts n fp <= attempts n' fp
  ∧ attempts n' fp <= Z.max DM_HANDSHAKE_MAX_ATTEMPTS (attempts n fp).
Proof.
  intros Ho Hf Hn n'. destruct o; try done; unfold n'; cbn [node_step]; [|split; [exact Hf|]].
  2: { change (attempts (set_now n _) fp) with (attempts n fp). lia. }
  destruct (tick_retry_state n s msg fp Hf) as (Er & Ei & _).
  split; [unfold fresh_handshake; rewrite Ei; exact Hf|].
  assert (attempts (tick n).2 fp =
    default 0 (if retried n fp then Some (wrap 32 (attempts n fp + 1)) else handshake_attempts n !! fp))
    as ->.
  { unfold attempts at 1. apply (f_equal (λ x, x.1.1)) in Er.
    destruct (retried n fp); cbn [retry_state fst] in Er; by rewrite Er. }
  destruct (retried n fp) eqn:E; [|fold (attempts n fp); lia].
  pose proof (retried_wrap n fp Hn E) as Hw. apply retried_iff in E as (_ & _ & _ & Hlt & _).
  cbn [default from_option id]. unfold id. lia.
Qed.

(** C29: stalled handshakes are driven again, within a budget. A tick restarts the handshake with
    a peer - a fresh initiator session, one more attempt, the clock noted - exactly when one was
    begun, no session is ready, the peer's address is known, fewer than
    [DM_HANDSHAKE_MAX_ATTEMPTS] attempts were made and [DM_HANDSHAKE_RETRY_MS] have passed since
    the last progress; otherwise it leaves the session alone. However long it is left to its
    timer, a node never gets past the budget. *)
Theorem retry_budget `{!HashIterLaws} n s msg fp :
  fresh_handshake n s msg → 0 <= attempts n fp →
  retry_state (tick n).2 fp =
    (if retried n fp then (Some (attempts n fp + 1), Some (now n), Some s) else retry_state n fp)
  ∧ (retried n fp = true ↔
     is_Some (handshake_attempts n !! fp) ∧ session_ready n fp = false ∧ knows_eph n fp = true
     ∧ attempts n fp < DM_HANDSHAKE_MAX_ATTEMPTS
     ∧ DM_HANDSHAKE_RETRY_MS <= sat_sub (now n) (default 0 (handshake_last_ms n !! fp)))
  ∧ ∀ ops, Forall (λ o, timer_op o = true) ops →
      attempts (node_run n ops) fp <= Z.max DM_HANDSHAKE_MAX_ATTEMPTS (attempts n fp).
Proof.
  intros Hf Hn. split; [|split; [apply retried_iff|]].
  - destruct (tick_retry_state n s msg fp Hf) as (-> & _).
    destruct (retried n fp) eqn:E; [|done]. by rewrite retried_wrap.
  - intros ops Hops. unfold node_run. revert n Hf Hn.
    induction Hops as [|o ops Ho Hops IH]; intros n Hf Hn; cbn [foldl]; [lia|].
    destruct (timer_step n s msg fp o Ho Hf Hn) as (Hf' & Hge & Hle).
    specialize (IH _ Hf' ltac:(lia)). lia.
Qed.
End commands.

(** ** Witnesses *)


Lemma demo_fresh (n : DemoNode) : ∃ s msg, fresh_handshake n s msg.
Proof. do 3 eexists. split; reflexivity. Qed.

(** Alice's first message to Bob got lost. *)
Lemma retry_budget_witness :
  let n := node_run alice3 [OpClock 2000] in
  ∃ s, retry_state (tick n).2 bob_fp = (Some 2, Some 3000, Some s)
    ∧ ∀ ops, Forall (λ o, timer_op o = true) ops →
        attempts (node_run n ops) bob_fp <= Z.max DM_HANDSHAKE_MAX_ATTEMPTS (attempts n bob_fp).
Proof.
  intros n.
  destruct (demo_fresh n) as (s & msg & Hf).
  assert (retried n bob_fp = true) as E1 by (by vm_compute).
  assert (attempts n bob_fp = 1) as E2 by (by vm_compute).
  assert (now n = 3000) as E3 by (by vm_compute).
  clearbody n. exists s. destruct (retry_budget n s msg bob_fp Hf) as (Hr & _ & Hb).
  - by rewrite E2.
  - split; [|exact Hb]. by rewrite Hr, E1, E2, E3.
Defined.
