(* ===== verification/NodeHandshake.v ===== *)
(** * NodeHandshake: a handshake between two nodes, step by step

    The three messages of the Noise pattern through both nodes, with whatever texts wait for the
    session on either side and whatever ciphertexts came before it was ready: the lemmas that the
    theorems on first contact, held messages and lost sessions share. *)
From stdpp Require Import strings gmap.
From S2P Require Import Prelude Errors F64 Utf8 Clock External Toy Transport Wire Config Frag.
From S2P Require Import Compress Relay Channels Store Identity Noise Payloads Node NodeFrame Demo.
From S2P Require Import NodeTalk.

(** ** The sessions of one handshake *)

Section sessions.
Context `{Snow, X25519, !X25519Laws, !SnowPaired, !SnowXX}.

(** A session that can write [k] more messages before its counter is exhausted. *)
Definition can_write (s : NoiseSession) (k : Z) : Prop :=
  ∃ ts, inner s = Transport ts ∧ ts_sending_nonce ts + k <= 2 ^ 64 - 1.

Lemma can_write_encrypt s pt k :
  can_write s (k + 1) → 0 <= k → zlen pt + 16 <= 65535 →
  ∃ ct s', encrypt s pt = (Ok ct, s') ∧ can_write s' k.
Proof.
  intros (ts & Es & Hk) Hk0 Hpt. unfold encrypt. rewrite Es.
  destruct (ts_write_ok ts pt (zlen pt + 64)) as (ct & ts' & Ew); [lia..|]. rewrite Ew. cbn.
  do 2 eexists. split; [done|]. exists ts'. split; [done|].
  rewrite (ts_write_nonce _ _ _ _ _ Ew). lia.
Qed.

Lemma can_write_one s t : can_write s (2 ^ 64 - 1) → can_write s (zlen [t : rstring]).
Proof. intros (ts & Es & Hn). exists ts. split; [done|]. change (zlen [t]) with 1. lia. Qed.

(** Texts sealed one after the other. *)
Fixpoint sealed (s : NoiseSession) (texts : list rstring) (cts : list bytes) (s' : NoiseSession) : Prop :=
  match texts, cts with
  | [], [] => s' = s
  | t :: texts, ct :: cts =>
      ∃ s1, encrypt s (z2b DM_KIND_TEXT :: t) = (Ok ct, s1) ∧ sealed s1 texts cts s'
  | _, _ => False
  end.

Lemma sealed_exists s texts :
  can_write s (zlen texts) → Forall (λ t, zlen t + 17 <= 65535) texts →
  ∃ cts s', sealed s texts cts s'.
Proof.
  intros Hs Ht. revert s Hs. induction Ht as [|t texts Ht Hts IH]; intros s Hs; [by exists [], s|].
  rewrite zlen_cons in Hs. rewrite Z.add_comm in Hs.
  destruct (can_write_encrypt s (z2b DM_KIND_TEXT :: t) (zlen texts) Hs) as (ct & s1 & Ee & Hs1);
    [apply zlen_nonneg|rewrite zlen_cons; lia|].
  destruct (IH s1 Hs1) as (cts & s' & E). exists (ct :: cts), s', s1. done.
Qed.

Lemma sealed_length s texts cts s' : sealed s texts cts s' → length texts = length cts.
Proof.
  revert s cts. induction texts as [|t texts IH]; intros s [|ct cts]; cbn; try done.
  intros (s1 & _ & E). f_equal. by eapply IH.
Qed.

(** The states of the initiator's and the responder's session and the three messages. *)
Record Handshaken := mkHandshaken {
  hk_i0 : NoiseSession; hk_i1 : NoiseSession; hk_i2 : NoiseSession; hk_i3 : NoiseSession;
  hk_r0 : NoiseSession; hk_r1 : NoiseSession; hk_r2 : NoiseSession; hk_r3 : NoiseSession;
  hk_m1 : bytes; hk_m2 : bytes; hk_m3 : bytes;
}.

(** The sessions of a handshake between the static secrets [x] and [y] that lost no message. *)
Record handshake_of (x y : XSecret) (k : Handshaken) : Prop := {
  ho_initiator : new_initiator (xs_to_bytes x) = Ok (hk_i0 k);
  ho_write1 : write_handshake (hk_i0 k) = (Ok (hk_m1 k), hk_i1 k);
  ho_responder : new_responder (xs_to_bytes y) = Ok (hk_r0 k);
  ho_read1 : read_handshake (hk_r0 k) (hk_m1 k) = (Ok tt, hk_r1 k);
  ho_write2 : write_handshake (hk_r1 k) = (Ok (hk_m2 k), hk_r2 k);
  ho_read2 : read_handshake (hk_i1 k) (hk_m2 k) = (Ok tt, hk_i2 k);
  ho_write3 : write_handshake (hk_i2 k) = (Ok (hk_m3 k), hk_i3 k);
  ho_read3 : read_handshake (hk_r2 k) (hk_m3 k) = (Ok tt, hk_r3 k);
  ho_open : is_ready (hk_i1 k) = false ∧ is_ready (hk_r1 k) = false ∧ is_ready (hk_r2 k) = false
            ∧ is_ready (hk_i2 k) = false;
  ho_static_i : remote_static (hk_i3 k) = Some (xs_public y);
  ho_static_r : remote_static (hk_r3 k) = Some (xs_public x);
  ho_talking : talking (hk_i3 k) (hk_r3 k);
  ho_writes : can_write (hk_i3 k) (2 ^ 64 - 1) ∧ can_write (hk_r3 k) (2 ^ 64 - 1);
  ho_lengths : zlen (hk_m1 k) = XX_MSG1_LEN ∧ zlen (hk_m2 k) = 96 ∧ zlen (hk_m3 k) = 64;
}.

Lemma sealed_one x y k text :
  handshake_of x y k → zlen text + 17 <= 65535 → ∃ ct s', sealed (hk_i3 k) [text] [ct] s'.
Proof.
  intros Hk Hl. destruct (sealed_exists (hk_i3 k) [text]) as ([|ct [|? ?]] & s' & Hs);
    [apply can_write_one, (ho_writes _ _ _ Hk)|by constructor|by apply sealed_length in Hs|
     by exists ct, s'|by apply sealed_length in Hs].
Qed.

(** Reading and writing that do not finish the handshake, and the ones that do. *)
Lemma write_on hs r m hs' :
  hs_write_message hs [] 1024 = (inl m, hs') → hs_is_handshake_finished hs' = false →
  write_handshake (mkNoiseSession (Handshake hs) r) = (Ok m, mkNoiseSession (Handshake hs') r).
Proof. intros E F. unfold write_handshake. cbn [inner]. rewrite E. unfold maybe_transition. cbn. by rewrite F. Qed.

Lemma read_on hs r m u hs' :
  hs_read_message hs m 1024 = (inl u, hs') → hs_is_handshake_finished hs' = false →
  read_handshake (mkNoiseSession (Handshake hs) r) m = (Ok tt, mkNoiseSession (Handshake hs') r).
Proof. intros E F. unfold read_handshake. cbn [inner]. rewrite E. unfold maybe_transition. cbn. by rewrite F. Qed.

Lemma write_last hs r m hs' ts :
  hs_write_message hs [] 1024 = (inl m, hs') → hs_is_handshake_finished hs' = true →
  hs_into_transport_mode hs' = inl ts →
  write_handshake (mkNoiseSession (Handshake hs) r) = (Ok m, mkNoiseSession (Transport ts) r).
Proof.
  intros E F T. unfold write_handshake. cbn [inner]. rewrite E. unfold maybe_transition. cbn. by rewrite F, T.
Qed.

Lemma read_last hs r m u hs' ts :
  hs_read_message hs m 1024 = (inl u, hs') → hs_is_handshake_finished hs' = true →
  hs_into_transport_mode hs' = inl ts →
  read_handshake (mkNoiseSession (Handshake hs) r) m = (Ok tt, mkNoiseSession (Transport ts) r).
Proof.
  intros E F T. unfold read_handshake. cbn [inner]. rewrite E. unfold maybe_transition. cbn. by rewrite F, T.
Qed.

Lemma remote_static_transport ts r x :
  ts_get_remote_static ts = Some (xs_public x) →
  remote_static (mkNoiseSession (Transport ts) r) = Some (xs_public x).
Proof. intros E. unfold remote_static. cbn. rewrite E. unfold zlen. by rewrite xs_public_length. Qed.

Lemma handshake_exists x y : ∃ k, handshake_of x y k.
Proof.
  destruct xx_params as [p Hp].
  destruct (xx_run p x y 1024 Hp ltac:(done)) as (i0 & r0 & m1 & i1 & u1 & r1 & m2 & r2 & u2 & i2 & m3
    & i3 & u3 & r3 & ti & tr & Bi & Br & W1 & R1 & W2 & R2 & W3 & R3 & Fi1 & Fr1 & Fr2 & Fi2 & Fi3 & Fr3
    & Ti & Tr & Si & Sr & Pir & Pri & Ni & Ni' & Nr & Nr' & L1 & L2 & L3).
  set (I := λ h, mkNoiseSession (Handshake h) true). set (R := λ h, mkNoiseSession (Handshake h) false).
  exists (mkHandshaken (I i0) (I i1) (I i2) (mkNoiseSession (Transport ti) true)
    (R r0) (R r1) (R r2) (mkNoiseSession (Transport tr) false) m1 m2 m3).
  split; cbn [hk_i0 hk_i1 hk_i2 hk_i3 hk_r0 hk_r1 hk_r2 hk_r3 hk_m1 hk_m2 hk_m3]; try done.
  - unfold new_initiator, params. unfold PATTERN. rewrite Hp. cbn. by rewrite Bi.
  - by apply write_on.
  - unfold new_responder, params. unfold PATTERN. rewrite Hp. cbn. by rewrite Br.
  - by eapply read_on.
  - by apply write_on.
  - by eapply read_on.
  - by eapply write_last.
  - by eapply read_last.
  - by apply remote_static_transport.
  - by apply remote_static_transport.
  - split; [exists ti, tr|exists tr, ti]; (split_and!; [done..|lia]).
  - split; eexists; (split; [reflexivity|lia]).
Qed.
End sessions.

Section handshake.
Context `{Sha256, Ed25519, X25519, Snow, Lz4, Rand, HashIter, UnicodeCase}.
Context {S : Type} `{Store S}.
#[local] Abbreviation Node := (MeshNode (S:=S)).
Implicit Types n : Node.

(** ** Packets *)

(** The packet that carries a handshake message from [n] to the wire id [eph]. *)
Definition hs_packet n (eph : EphId) (body : bytes) : Packet :=
  originate n NoiseHandshake (origin_ttl (node_cfg n) NoiseHandshake (msize (links n))) (Some eph) body.

Lemma send_hs_packet n fp eph body :
  fp_to_eph n !! fp = Some eph →
  send_directed n NoiseHandshake fp body = flooded n (hs_packet n eph body).
Proof. intros E. unfold send_directed. rewrite E. cbv zeta. by rewrite broadcast_sent. Qed.

(** What a packet of its own adds to the log of a node. *)
Definition flood_of n (pkt : Packet) : list transport_call := concat (map (fanout pkt) (targets n None)).

Lemma flooded_all n pkts :
  ∃ sn, foldl flooded n pkts = set_sent (set_seen n sn) (sent n ++ concat (map (flood_of n) pkts)).
Proof.
  revert n. induction pkts as [|p pkts IH]; intros n.
  - exists (seen n). cbn. rewrite app_nil_r. by destruct n.
  - cbn [foldl map concat]. destruct (IH (flooded n p)) as [sn ->]. exists sn.
    rewrite app_assoc. reflexivity.
Qed.

(** Texts sealed for a peer and sent, one packet each. *)
Lemma send_texts n fp eph s texts cts s' :
  noise_sessions n !! fp = Some s → fp_to_eph n !! fp = Some eph → sealed s texts cts s' →
  foldl (λ n text, encrypt_and_send_dm n fp DM_KIND_TEXT text) n texts
  = foldl flooded (put_session n fp s') (map (dm_packet n eph) cts).
Proof.
  revert n s cts. induction texts as [|t texts IH]; intros n s [|ct cts]; cbn [sealed foldl map]; try done.
  - intros Es _ ->. unfold put_session. rewrite insert_id by done. by destruct n.
  - intros Es Ef (s1 & Ee & Hs). rewrite (encrypt_and_send_sent n fp eph s _ t ct s1 Es Ef Ee).
    rewrite (IH _ s1 cts); [|apply lookup_insert_eq|exact Ef|exact Hs].
    f_equal. unfold put_session, flooded.
    cbn [noise_sessions set_sent observe_seen set_seen set_noise_sessions].
    by rewrite insert_insert_eq.
Qed.

(** ** What a packet of the node's own depends on *)

Record sends_alike n n' : Prop := {
  sa_links : links n' = links n;
  sa_cfg : node_cfg n' = node_cfg n;
  sa_now : now n' = now n;
  sa_identity : identity n' = identity n;
}.

#[export] Instance sends_alike_po : PreOrder sends_alike.
Proof. split; [by intros n; split|]. intros n1 n2 n3 [] []. split; by etrans. Qed.

Lemma originate_alike n n' t k r p : sends_alike n n' → originate n' t k r p = originate n t k r p.
Proof. intros [_ _ E3 E4]. unfold originate, node_eph_id. by rewrite E3, E4. Qed.

Lemma hs_packet_alike n n' eph body : sends_alike n n' → hs_packet n' eph body = hs_packet n eph body.
Proof. intros E. unfold hs_packet. rewrite (originate_alike n n') by done. by destruct E as [-> -> _ _]. Qed.

Lemma dm_packet_alike n n' eph ct : sends_alike n n' → dm_packet n' eph ct = dm_packet n eph ct.
Proof. intros E. unfold dm_packet. rewrite (originate_alike n n') by done. by destruct E as [-> -> _ _]. Qed.

Lemma eph_id_alike n n' : sends_alike n n' → node_eph_id n' = node_eph_id n.
Proof. intros [_ _ _ E]. unfold node_eph_id. by rewrite E. Qed.

Lemma flood_of_alike n n' p : sends_alike n n' → flood_of n' p = flood_of n p.
Proof. intros [E _ _ _]. unfold flood_of, targets. by rewrite E. Qed.

(** ** Two nodes that know each other *)

(** [n] has heard [m]'s announce, under the identity [fp], and has no receipt of trust for it. *)
Record met n (m : Node) (fp : Fingerprint) : Prop := {
  kn_to : fp_to_eph n !! fp = Some (node_eph_id m);
  kn_is : eph_to_fp n (node_eph_id m) = Some fp;
  kn_key : peer_static_dh n !! fp = Some (dh_public (identity m));
  kn_notice : fp ∉ notice_pending n;
}.

(** ... and is in the session [s] with it, where [texts] wait to be sent and [early] to be read. *)
Record midway n (m : Node) (fp : Fingerprint) (s : NoiseSession) (texts : list rstring) (early : list bytes)
    : Prop := {
  mw_knows : met n m fp;
  mw_session : noise_sessions n !! fp = Some s;
  mw_texts : default [] (pending_dms n !! fp) = texts;
  mw_early : default [] (pending_inbound_dms n !! fp) = early;
}.

(** ** The session opens *)

Definition opened n (fp : Fingerprint) : Node :=
  let n := set_handshake_last_ms n (delete fp (handshake_last_ms n)) in
  let n := set_handshake_attempts n (delete fp (handshake_attempts n)) in
  let n := set_resync_pending n (delete fp (resync_pending n)) in
  push_event n (DmSession fp true).

(** The node once its waiting texts have gone out as [pkts], and before it reads what came early. *)
Definition wrapped_up n (fp : Fingerprint) (s' : NoiseSession) (pkts : list Packet) : Node :=
  let n := set_pending_dms (opened n fp) (delete fp (pending_dms n)) in
  set_pending_inbound_dms (foldl flooded (put_session n fp s') pkts)
    (delete fp (pending_inbound_dms n)).

Lemma finish_midway n m fp s texts early cts s' :
  midway n m fp s texts early → remote_static s = Some (dh_public (identity m)) →
  sealed s texts cts s' →
  finish_session n fp =
  foldl (λ n ct, decrypt_and_emit n fp ct)
    (wrapped_up n fp s' (map (dm_packet n (node_eph_id m)) cts)) early.
Proof.
  intros [[Et _ Ek En] Es Ex Ei] Hr Hs. unfold finish_session.
  assert (session_bound n fp = true) as ->.
  { unfold session_bound. rewrite Es, Ek. cbn. rewrite Hr. by apply bool_decide_eq_true. }
  cbn [negb]. fold (opened n fp). cbv zeta.
  assert (try_send_verify_notice (opened n fp) fp = opened n fp) as ->.
  { unfold try_send_verify_notice. rewrite (bool_decide_eq_false_2 _ En). by rewrite andb_false_r. }
  change (pending_dms (opened n fp)) with (pending_dms n). rewrite Ex.
  set (n1 := set_pending_dms _ _). rewrite (send_texts n1 fp (node_eph_id m) s texts cts s' Es Et Hs).
  unfold wrapped_up. fold n1. change (dm_packet n1) with (dm_packet n).
  destruct (flooded_all (put_session n1 fp s') (map (dm_packet n (node_eph_id m)) cts)) as [sn ->].
  cbn [pending_inbound_dms set_sent set_seen put_session set_noise_sessions].
  change (pending_inbound_dms n1) with (pending_inbound_dms n). by rewrite Ei.
Qed.

Lemma wrapped_up_fields n fp s' pkts :
  let n' := wrapped_up n fp s' pkts in
  sent n' = sent n ++ concat (map (flood_of n) pkts)
  ∧ events n' = events n ++ [DmSession fp true] ∧ store n' = store n ∧ now n' = now n
  ∧ noise_sessions n' = <[fp := s']> (noise_sessions n)
  ∧ fp_to_eph n' = fp_to_eph n ∧ eph_keys n' = eph_keys n ∧ identity n' = identity n
  ∧ pending_dms n' = delete fp (pending_dms n)
  ∧ pending_inbound_dms n' = delete fp (pending_inbound_dms n)
  ∧ handshake_attempts n' = delete fp (handshake_attempts n).
Proof.
  cbv zeta. unfold wrapped_up. set (n1 := put_session _ _ _).
  destruct (flooded_all n1 pkts) as [sn ->]. split_and!; reflexivity.
Qed.

(** ** The handlers *)

(** A handshake packet for a node that is in no working session and, unless the body is no first
    message, in none at all. *)
Lemma handle_handshake_reads n (m : Node) fp body :
  eph_to_fp n (node_eph_id m) = Some fp → session_ready n fp = false →
  noise_sessions n !! fp = None ∨ zlen body ≠ XX_MSG1_LEN →
  handle_noise_handshake n (hs_packet m (node_eph_id n) body) = respond_handshake n fp body.
Proof.
  intros Ef Er Hb. unfold handle_noise_handshake.
  change (recipient (hs_packet m (node_eph_id n) body)) with (Some (node_eph_id n)).
  change (sender (hs_packet m (node_eph_id n) body)) with (node_eph_id m).
  change (payload (hs_packet m (node_eph_id n) body)) with body.
  rewrite bool_decide_eq_true_2 by done. cbn [negb]. rewrite Ef, Er. cbv zeta. cbn [negb].
  destruct Hb as [->|Hb]; [by destruct (_ =? _)|]. by rewrite (proj2 (Z.eqb_neq _ _) Hb).
Qed.

(** The node after it has answered a first message. *)
Definition answered n (fp : Fingerprint) (r0 r1 r2 : NoiseSession) (p2 : Packet) : Node :=
  let n := touch_handshake (put_session n fp r0) fp in
  let n := set_handshake_attempts n
             (<[fp := default 0 (handshake_attempts n !! fp)]> (handshake_attempts n)) in
  flooded (put_session (touch_handshake (put_session n fp r1) fp) fp r2) p2.

Lemma respond_first n fp eph r0 m1 r1 m2 r2 :
  fp_to_eph n !! fp = Some eph → noise_sessions n !! fp = None →
  new_responder (dh_private_bytes (identity n)) = Ok r0 → read_handshake r0 m1 = (Ok tt, r1) →
  is_ready r1 = false → write_handshake r1 = (Ok m2, r2) → is_ready r2 = false →
  respond_handshake n fp m1 = answered n fp r0 r1 r2 (hs_packet n eph m2).
Proof.
  intros Ef Es En Er Ho1 Ew Ho2. unfold respond_handshake.
  assert (has_session n fp = false) as -> by (unfold has_session; by rewrite Es).
  cbn [negb]. rewrite En. cbv zeta.
  set (n1 := set_handshake_attempts _ _).
  assert (noise_sessions n1 !! fp = Some r0) as -> by apply lookup_insert_eq.
  rewrite Er. cbv zeta. unfold advance_handshake. cbv zeta.
  set (n2 := touch_handshake (put_session n1 fp r1) fp).
  assert (noise_sessions n2 !! fp = Some r1) as -> by apply lookup_insert_eq.
  rewrite Ho1, Ew. rewrite (send_hs_packet (put_session n2 fp r2) fp eph m2 Ef).
  change (hs_packet (put_session n2 fp r2) eph m2) with (hs_packet n eph m2).
  set (n3 := flooded _ _).
  assert (session_ready n3 fp = false) as ->; [|reflexivity].
  unfold session_ready. assert (noise_sessions n3 !! fp = Some r2) as -> by apply lookup_insert_eq. done.
Qed.

Lemma respond_again n fp s body s' :
  noise_sessions n !! fp = Some s → read_handshake s body = (Ok tt, s') →
  respond_handshake n fp body = advance_handshake (touch_handshake (put_session n fp s') fp) fp.
Proof.
  intros Es Er. unfold respond_handshake.
  assert (has_session n fp = true) as -> by (unfold has_session; by rewrite Es).
  cbn [negb]. by rewrite Es, Er.
Qed.

Lemma advance_writes n fp eph s body s' :
  fp_to_eph n !! fp = Some eph → noise_sessions n !! fp = Some s → is_ready s = false →
  write_handshake s = (Ok body, s') → is_ready s' = true →
  advance_handshake n fp = finish_session (flooded (put_session n fp s') (hs_packet n eph body)) fp.
Proof.
  intros Ef Es Ho Ew Hr. unfold advance_handshake. rewrite Es, Ho, Ew. cbv zeta.
  rewrite (send_hs_packet (put_session n fp s') fp eph body Ef).
  change (hs_packet (put_session n fp s') eph body) with (hs_packet n eph body). set (n1 := flooded _ _).
  assert (session_ready n1 fp = true) as ->; [|reflexivity].
  unfold session_ready. assert (noise_sessions n1 !! fp = Some s') as -> by apply lookup_insert_eq. done.
Qed.

Lemma advance_ready n fp s :
  noise_sessions n !! fp = Some s → is_ready s = true → advance_handshake n fp = finish_session n fp.
Proof.
  intros Es Hr. unfold advance_handshake. rewrite Es, Hr. cbv zeta. unfold session_ready. by rewrite Es, Hr.
Qed.

(** Another session with the same peer keeps a node midway. *)
Lemma midway_put n m fp s texts early s' :
  midway n m fp s texts early → midway (touch_handshake (put_session n fp s') fp) m fp s' texts early.
Proof. intros [[] ? ? ?]. split; [by split|apply lookup_insert_eq|done..]. Qed.

(** ** The three messages *)

Section messages.
Context `{!SnowLaws, !X25519Laws, !SnowPaired, !SnowXX}.
Implicit Types m : Node.

(** The initiator when it has written the third message. *)
Definition third_sent n (fp : Fingerprint) (s2 s3 : NoiseSession) (p3 : Packet) : Node :=
  flooded (put_session (touch_handshake (put_session n fp s2) fp) fp s3) p3.

Lemma third_sent_dms n fp s2 s3 p3 eph cts :
  map (dm_packet (third_sent n fp s2 s3 p3) eph) cts = map (dm_packet n eph) cts.
Proof. reflexivity. Qed.

Lemma done_fields n fp s2 s3 p3 s' pkts :
  let n' := wrapped_up (third_sent n fp s2 s3 p3) fp s' pkts in
  sent n' = sent n ++ flood_of n p3 ++ concat (map (flood_of n) pkts)
  ∧ events n' = events n ++ [DmSession fp true] ∧ store n' = store n ∧ now n' = now n
  ∧ noise_sessions n' !! fp = Some s' ∧ fp_to_eph n' = fp_to_eph n ∧ eph_keys n' = eph_keys n
  ∧ identity n' = identity n.
Proof.
  cbv zeta. destruct (wrapped_up_fields (third_sent n fp s2 s3 p3) fp s' pkts)
    as (Hse & Hev & Hst & Hn & Hses & Hto & Hek & Hid & _).
  split_and!; try done; [|by rewrite Hses, lookup_insert_eq].
  rewrite Hse, app_assoc. reflexivity.
Qed.

(** The node after it has sent a first message of its own. *)
Definition initiating n (fp : Fingerprint) (s1 : NoiseSession) (p1 : Packet) : Node :=
  let n := touch_handshake (flooded (put_session n fp s1) p1) fp in
  set_handshake_attempts n
    (<[fp := wrap 32 (default 0 (handshake_attempts n !! fp) + 1)]> (handshake_attempts n)).

Lemma begin_handshake_sends n fp eph x y k :
  handshake_of x y k → x = dh_secret (identity n) → fp_to_eph n !! fp = Some eph →
  begin_handshake n fp = initiating n fp (hk_i1 k) (hs_packet n eph (hk_m1 k)).
Proof.
  intros [Hi Hw _ _ _ _ _ _ _ _ _ _ _ _] -> Ef. unfold begin_handshake.
  change (dh_private_bytes (identity n)) with (xs_to_bytes (dh_secret (identity n))). rewrite Hi, Hw. cbv zeta.
  by rewrite (send_hs_packet (put_session n fp (hk_i1 k)) fp eph (hk_m1 k) Ef).
Qed.

Lemma initiating_midway n m fp s1 p1 :
  met n m fp →
  midway (initiating n fp s1 p1) m fp s1
    (default [] (pending_dms n !! fp)) (default [] (pending_inbound_dms n !! fp)).
Proof. intros []. split; [by split|apply lookup_insert_eq|done..]. Qed.

(** A responder without a session answers the first message. *)
Lemma first_message_answered n m fp x y k :
  handshake_of x y k → y = dh_secret (identity n) → met n m fp → noise_sessions n !! fp = None →
  let n' := handle_noise_handshake n (hs_packet m (node_eph_id n) (hk_m1 k)) in
  n' = answered n fp (hk_r0 k) (hk_r1 k) (hk_r2 k) (hs_packet n (node_eph_id m) (hk_m2 k)).
Proof.
  intros [_ _ Hr0 Hr1 Hw2 _ _ _ (_ & Ho1 & Ho2 & _) _ _ _ _ _] -> [Et Ei _ _] Es. cbv zeta.
  rewrite (handle_handshake_reads n m fp (hk_m1 k) Ei); [| |by left].
  - by apply respond_first with (m1 := hk_m1 k).
  - unfold session_ready. by rewrite Es.
Qed.

Lemma answered_midway n m fp r0 r1 r2 p2 :
  met n m fp →
  midway (answered n fp r0 r1 r2 p2) m fp r2
    (default [] (pending_dms n !! fp)) (default [] (pending_inbound_dms n !! fp)).
Proof. intros []. split; [by split|apply lookup_insert_eq|done..]. Qed.

(** The initiator reads the second message and sends the third, and what waits for the session. *)
Lemma initiator_done n m fp x y k texts early cts s' :
  handshake_of x y k → y = dh_secret (identity m) → midway n m fp (hk_i1 k) texts early →
  sealed (hk_i3 k) texts cts s' →
  let n3 := third_sent n fp (hk_i2 k) (hk_i3 k) (hs_packet n (node_eph_id m) (hk_m3 k)) in
  handle_noise_handshake n (hs_packet m (node_eph_id n) (hk_m2 k)) =
  foldl (λ n ct, decrypt_and_emit n fp ct)
    (wrapped_up n3 fp s' (map (dm_packet n (node_eph_id m)) cts)) early.
Proof.
  intros [_ _ _ _ _ Hr2 Hw3 _ (Ho1 & _ & _ & Ho2) Hst _ Ht _ (_ & Hl & _)] -> Hm Hs n3.
  pose proof (mw_knows _ _ _ _ _ _ Hm) as Hkn. pose proof (mw_session _ _ _ _ _ _ Hm) as E1.
  rewrite (handle_handshake_reads n m fp (hk_m2 k) (kn_is _ _ _ Hkn));
    [|unfold session_ready; by rewrite E1|right; by rewrite Hl].
  rewrite (respond_again n fp (hk_i1 k) (hk_m2 k) (hk_i2 k) E1 Hr2).
  set (n2 := touch_handshake (put_session n fp (hk_i2 k)) fp).
  assert (midway n2 m fp (hk_i2 k) texts early) as Hm2 by by apply (midway_put n m fp (hk_i1 k)).
  rewrite (advance_writes n2 fp (node_eph_id m) (hk_i2 k) (hk_m3 k) (hk_i3 k)
    (kn_to _ _ _ Hkn) (mw_session _ _ _ _ _ _ Hm2) Ho2 Hw3) by apply (in_step_ready _ _ (proj1 Ht)).
  change (hs_packet n2 (node_eph_id m) (hk_m3 k)) with (hs_packet n (node_eph_id m) (hk_m3 k)).
  change (flooded _ _) with n3. assert (midway n3 m fp (hk_i3 k) texts early) as Hm3.
  { destruct Hm2 as [[] ? ? ?]. split; [by split|apply lookup_insert_eq|done..]. }
  rewrite (finish_midway n3 m fp (hk_i3 k) texts early cts s' Hm3 Hst Hs).
  assert (map (dm_packet n3 (node_eph_id m)) cts = map (dm_packet n (node_eph_id m)) cts) as -> by apply third_sent_dms.
  reflexivity.
Qed.

(** The responder reads the third message, sends what waits at its end and reads what came early. *)
Lemma responder_done n m fp x y k texts early cts s' :
  handshake_of x y k → x = dh_secret (identity m) → midway n m fp (hk_r2 k) texts early →
  sealed (hk_r3 k) texts cts s' →
  let n3 := touch_handshake (put_session n fp (hk_r3 k)) fp in
  handle_noise_handshake n (hs_packet m (node_eph_id n) (hk_m3 k)) =
  foldl (λ n ct, decrypt_and_emit n fp ct)
    (wrapped_up n3 fp s' (map (dm_packet n (node_eph_id m)) cts)) early.
Proof.
  intros [_ _ _ _ _ _ _ Hr3 (_ & _ & Ho & _) _ Hst Ht _ (_ & _ & Hl)] -> Hm Hs n3.
  pose proof (mw_knows _ _ _ _ _ _ Hm) as Hkn. pose proof (mw_session _ _ _ _ _ _ Hm) as E1.
  rewrite (handle_handshake_reads n m fp (hk_m3 k) (kn_is _ _ _ Hkn));
    [|unfold session_ready; by rewrite E1|right; by rewrite Hl].
  rewrite (respond_again n fp (hk_r2 k) (hk_m3 k) (hk_r3 k) E1 Hr3). fold n3.
  assert (midway n3 m fp (hk_r3 k) texts early) as Hm3 by by apply (midway_put n m fp (hk_r2 k)).
  rewrite (advance_ready n3 fp (hk_r3 k) (mw_session _ _ _ _ _ _ Hm3))
    by apply (in_step_ready _ _ (proj1 Ht)).
  by apply (finish_midway n3 m fp (hk_r3 k) texts early cts s').
Qed.
End messages.

(** ** The texts at the other end *)

Section arrival.
Context `{!SnowLaws, !SnowPaired}.
Implicit Types m : Node.

(** A text from the peer [fp] as the user sees it, and as it is stored. *)
Definition text_event (fp : Fingerprint) (eph : EphId) (text : rstring) : MeshEvent :=
  DmReceived fp eph (utf8_lossy text) DM_KIND_TEXT.

Definition keep_text (fp : Fingerprint) (t : Millis) (st : S) (text : rstring) : S :=
  put_dm st {| dm_peer := fp; mine := false; dm_timestamp_ms := t; dm_body := text |}.

(** Reading in order what was sealed in order. *)
Lemma read_texts n fp eph s sr texts cts s' :
  talking s sr → sealed s texts cts s' →
  noise_sessions n !! fp = Some sr → fp_to_eph n !! fp = Some eph →
  let n' := foldl (λ n ct, decrypt_and_emit n fp ct) n cts in
  events n' = events n ++ map (text_event fp eph) texts
  ∧ store n' = foldl (keep_text fp (now n)) (store n) texts
  ∧ sent n' = sent n ∧ (∃ sr', noise_sessions n' !! fp = Some sr' ∧ talking s' sr')
  ∧ now n' = now n ∧ fp_to_eph n' = fp_to_eph n ∧ eph_keys n' = eph_keys n ∧ identity n' = identity n.
Proof.
  revert n s sr cts. induction texts as [|t texts IH]; intros n s sr [|ct cts] Ht; cbn [sealed]; try done.
  - intros -> Es Ef. cbn. rewrite app_nil_r. split_and!; try done. by exists sr.
  - intros (s1 & Ee & Hs) Es Ef. cbn [foldl map].
    destruct (talk_one s sr _ ct s1 Ht Ee) as (sr1 & Ed & Ht1 & _).
    rewrite (decrypt_and_emit_noted n fp sr ct DM_KIND_TEXT t sr1) by done.
    change (DM_KIND_TEXT =? DM_KIND_VERIFY_NOTICE) with false. cbv iota.
    set (n1 := noted n fp sr1 DM_KIND_TEXT t).
    destruct (IH n1 s1 sr1 cts Ht1 Hs (lookup_insert_eq _ _ _) Ef)
      as (-> & -> & -> & Hsr & -> & -> & -> & ->).
    split_and!; try reflexivity; [|exact Hsr].
    change (events n1) with (events n ++ [DmReceived fp (default (zeroes 8) (fp_to_eph n !! fp))
      (utf8_lossy t) DM_KIND_TEXT]). by rewrite Ef, <- app_assoc.
Qed.

Definition receive (eph : EphId) (m n : Node) (ct : bytes) : Node :=
  handle_direct_message n (dm_packet m eph ct).

(** Ciphertexts that arrive while the handshake is under way wait, up to 32 of them. *)
Lemma texts_wait n m w fp s texts early cts :
  midway n m fp s texts early → is_ready s = false → zlen (early ++ cts) <= 32 →
  node_eph_id w = node_eph_id m →
  ∃ x, foldl (receive (node_eph_id n) w) n cts = set_pending_inbound_dms n x
    ∧ default [] (x !! fp) = early ++ cts.
Proof.
  intros [Hkn Es Ex Ei] Ho Hl Ew.
  assert (∀ cts x, zlen (default [] (x !! fp) ++ cts) <= 32 →
    ∃ x', foldl (receive (node_eph_id n) w) (set_pending_inbound_dms n x) cts
          = set_pending_inbound_dms n x' ∧ default [] (x' !! fp) = default [] (x !! fp) ++ cts) as Hgen.
  { clear cts Hl. intros cts. induction cts as [|ct cts IH]; intros x Hl.
    - exists x. by rewrite app_nil_r.
    - cbn [foldl]. unfold receive at 2. unfold handle_direct_message.
      change (recipient (dm_packet w (node_eph_id n) ct)) with (Some (node_eph_id n)).
      change (sender (dm_packet w (node_eph_id n) ct)) with (node_eph_id w).
      change (payload (dm_packet w (node_eph_id n) ct)) with ct.
      rewrite bool_decide_eq_true_2 by done. cbn [negb].
      assert (eph_to_fp (set_pending_inbound_dms n x) (node_eph_id w) = Some fp) as ->
        by (rewrite Ew; apply (kn_is _ _ _ Hkn)).
      assert (session_ready (set_pending_inbound_dms n x) fp = false) as ->
        by (unfold session_ready; cbn; by rewrite Es).
      cbn [negb]. cbv zeta. cbn [pending_inbound_dms set_pending_inbound_dms].
      set (q := default [] (x !! fp)) in *. rewrite zlen_app, zlen_cons in Hl.
      pose proof (zlen_nonneg cts). rewrite (proj2 (Z.ltb_lt _ _)) by lia.
      set (x1 := <[fp := q ++ [ct]]> x).
      change (set_pending_inbound_dms (set_pending_inbound_dms n x) x1) with (set_pending_inbound_dms n x1).
      assert (has_session (set_pending_inbound_dms n x1) fp = true) as ->
        by (unfold has_session; cbn; by rewrite Es).
      cbn [negb]. assert (default [] (x1 !! fp) = q ++ [ct]) as Eq by (by unfold x1; rewrite lookup_insert_eq).
      destruct (IH x1) as (x' & E & Hx).
      { rewrite Eq, !zlen_app, zlen_cons. change (zlen []) with 0. lia. }
      exists x'. rewrite E, Hx, Eq. by rewrite <- app_assoc. }
  destruct (Hgen cts (pending_inbound_dms n)) as (x & E & Hx); rewrite Ei in *; [done|].
  exists x. split; [|exact Hx]. rewrite <- E. by destruct n.
Qed.

(** Ciphertexts that arrive over a session in order are read at once. *)
Lemma texts_read n w fp s sr texts cts s' :
  talking s sr → sealed s texts cts s' → noise_sessions n !! fp = Some sr →
  eph_to_fp n (node_eph_id w) = Some fp →
  foldl (receive (node_eph_id n) w) n cts = foldl (λ n ct, decrypt_and_emit n fp ct) n cts.
Proof.
  remember (node_eph_id n) as e eqn:Ee. revert n s sr texts Ee.
  induction cts as [|ct cts IH]; intros n s sr [|t texts] -> Ht; cbn [sealed foldl]; try done.
  intros (s1 & Een & Hs) Es Hw.
  assert (receive (node_eph_id n) w n ct = decrypt_and_emit n fp ct) as ->.
  { apply (handle_dm_packet w n fp sr ct Hw Es), (in_step_ready _ _ (proj1 Ht)). }
  destruct (talk_one s sr _ ct s1 Ht Een) as (sr1 & Ed & Ht1 & _).
  rewrite (decrypt_and_emit_noted n fp sr ct DM_KIND_TEXT t sr1) by done.
  change (DM_KIND_TEXT =? DM_KIND_VERIFY_NOTICE) with false. cbv iota.
  exact (IH (noted n fp sr1 DM_KIND_TEXT t) s1 sr1 texts eq_refl Ht1 Hs (lookup_insert_eq _ _ _) Hw).
Qed.

Lemma sealed_split s texts cts s' j :
  sealed s texts cts s' →
  ∃ s1, sealed s (take j texts) (take j cts) s1 ∧ sealed s1 (drop j texts) (drop j cts) s'.
Proof.
  revert s texts cts. induction j as [|j IH]; intros s texts cts; [by exists s|].
  destruct texts as [|t texts], cts as [|ct cts]; cbn [sealed take drop]; try done.
  - intros ->. by exists s.
  - intros (s1 & Ee & Hs). destruct (IH s1 texts cts Hs) as (s2 & H1' & H2').
    exists s2. split; [by exists s1|done].
Qed.

Lemma midway_peer n m m' fp s texts early :
  identity m' = identity m → midway n m fp s texts early → midway n m' fp s texts early.
Proof.
  intros E [[] ? ? ?]. split; [|done..]. unfold node_eph_id in *. split; unfold node_eph_id; rewrite ?E; done.
Qed.
End arrival.

(** ** The responder's half of a conversation that begins with a handshake *)

(** [n] has answered the first message of the peer's handshake. The third message and the
    ciphertexts behind it come in this order, or with the first [j] of them before it. *)
Lemma texts_arrive `{!SnowLaws, !X25519Laws, !SnowPaired, !SnowXX} n (m p w : Node) fp x y k texts cts s' j :
  handshake_of x y k → x = dh_secret (identity m) →
  midway n m fp (hk_r2 k) [] [] → sealed (hk_i3 k) texts cts s' → (j <= 32)%nat →
  identity p = identity m → identity w = identity m →
  let e := node_eph_id n in
  let n3 := handle_noise_handshake (foldl (receive e w) n (take j cts)) (hs_packet p e (hk_m3 k)) in
  let n' := foldl (receive e w) n3 (drop j cts) in
  events n' = events n ++ DmSession fp true :: map (text_event fp (node_eph_id m)) texts
  ∧ store n' = foldl (keep_text fp (now n)) (store n) texts
  ∧ sent n' = sent n ∧ (∃ sr, noise_sessions n' !! fp = Some sr ∧ talking s' sr)
  ∧ fp_to_eph n' = fp_to_eph n ∧ eph_keys n' = eph_keys n ∧ identity n' = identity n.
Proof.
  intros Hk Hx Hm Hs Hj Ep Ew e n3 n'. subst n3 n'. pose proof (mw_knows _ _ _ _ _ _ Hm) as Hkn.
  assert (node_eph_id w = node_eph_id m) as Eew by (unfold node_eph_id; by rewrite Ew).
  destruct (texts_wait n m w fp (hk_r2 k) [] [] (take j cts) Hm) as (q & E1 & Hq); [|cbn [app]|done|].
  { apply (ho_open _ _ _ Hk). }
  { unfold zlen. rewrite length_take. lia. }
  fold e in E1. rewrite E1. set (n1 := set_pending_inbound_dms n q).
  assert (midway n1 m fp (hk_r2 k) [] (take j cts)) as Hm1.
  { destruct Hm as [[] ? ? ?]. by split. }
  change (hs_packet p e) with (hs_packet p (node_eph_id n1)).
  rewrite (responder_done n1 p fp x y k [] (take j cts) [] (hk_r3 k) Hk (eq_trans Hx (f_equal _ (eq_sym Ep)))
    (midway_peer n1 m p fp _ _ _ Ep Hm1) eq_refl). cbn [map].
  set (n2 := wrapped_up _ fp (hk_r3 k) []).
  assert (noise_sessions n2 !! fp = Some (hk_r3 k)) as Es2 by apply lookup_insert_eq.
  destruct (sealed_split _ _ _ _ j Hs) as (s1 & Hs1 & Hs2).
  destruct (read_texts n2 fp (node_eph_id m) (hk_i3 k) (hk_r3 k) _ _ s1 (ho_talking _ _ _ Hk) Hs1 Es2
    (kn_to _ _ _ Hkn)) as (_ & _ & _ & (sr & Es3 & Ht3) & _ & _ & Ek3 & Ei3).
  set (n4 := foldl _ n2 (take j cts)) in *.
  assert (node_eph_id n4 = e) as Ee4 by (unfold node_eph_id; by rewrite Ei3).
  rewrite <- Ee4. rewrite (texts_read n4 w fp s1 sr _ _ s' Ht3 Hs2 Es3).
  2: { unfold eph_to_fp. rewrite Ek3, Eew. apply (kn_is _ _ _ Hkn). }
  unfold n4. rewrite <- foldl_app, take_drop.
  destruct (read_texts n2 fp (node_eph_id m) (hk_i3 k) (hk_r3 k) texts cts s' (ho_talking _ _ _ Hk) Hs Es2
    (kn_to _ _ _ Hkn)) as (-> & -> & -> & Hsr & _ & -> & -> & ->).
  split_and!; try reflexivity; [|exact Hsr].
  change (events n2) with (events n ++ [DmSession fp true]). by rewrite <- app_assoc.
Qed.

(** Two nodes that knew each other and now have the two ends of a working session. *)
Lemma conversing_after `{!SnowPaired} (a a' b b' : Node) fa fb sa sb :
  met a b fb → met b a fa → talking sa sb →
  noise_sessions a' !! fb = Some sa → noise_sessions b' !! fa = Some sb →
  fp_to_eph a' = fp_to_eph a → eph_keys a' = eph_keys a → identity a' = identity a →
  fp_to_eph b' = fp_to_eph b → eph_keys b' = eph_keys b → identity b' = identity b →
  conversing a' b' fa fb sa sb.
Proof.
  intros [Ha1 Ha2 _ _] [Hb1 Hb2 _ _] Ht Ea Eb E1 E2 E3 F1 F2 F3. unfold eph_to_fp, node_eph_id in *.
  split; [done..| | | |]; unfold eph_to_fp, node_eph_id; by rewrite ?E1, ?E2, ?E3, ?F1, ?F2, ?F3.
Qed.

Lemma met_peer n (m m' : Node) fp : identity m' = identity m → met n m fp → met n m' fp.
Proof. intros E []. unfold node_eph_id in *. split; unfold node_eph_id; rewrite ?E; done. Qed.

(** ** The whole exchange

    [a] has sent the first message of a handshake, and [texts] wait for its end; [b] knows [a] and
    has no session with it. Each packet is handled by the node it is addressed to, and the first
    [j] ciphertexts overtake the third message. *)
Lemma handshake_carries `{!SnowLaws, !X25519Laws, !SnowPaired, !SnowXX} (a b w : Node) fa fb k texts cts s' :
  handshake_of (dh_secret (identity a)) (dh_secret (identity b)) k →
  midway a b fb (hk_i1 k) texts [] → sealed (hk_i3 k) texts cts s' →
  met b a fa → noise_sessions b !! fa = None →
  pending_dms b !! fa = None → pending_inbound_dms b !! fa = None → identity w = identity a →
  let p2 := hs_packet b (node_eph_id a) (hk_m2 k) in
  let p3 := hs_packet a (node_eph_id b) (hk_m3 k) in
  let a2 := handle_noise_handshake a p2 in
  let b1 := handle_noise_handshake b (hs_packet w (node_eph_id b) (hk_m1 k)) in
  sent b1 = sent b ++ flood_of b p2 ∧ events b1 = events b
  ∧ sent a2 = sent a ++ flood_of a p3 ++ concat (map (flood_of a) (map (dm_packet a (node_eph_id b)) cts))
  ∧ events a2 = events a ++ [DmSession fb true] ∧ store a2 = store a
  ∧ ∀ j : nat, (j <= 32)%nat →
    let receives := foldl (receive (node_eph_id b) a) in
    let b' := receives (handle_noise_handshake (receives b1 (take j cts)) p3) (drop j cts) in
    events b' = events b ++ DmSession fa true :: map (text_event fa (node_eph_id a)) texts
    ∧ store b' = foldl (keep_text fa (now b)) (store b) texts ∧ sent b' = sent b1
    ∧ ∃ sa sb, conversing a2 b' fa fb sa sb.
Proof.
  intros Hk Ha Hs Hkb Es Ep Ei Ew. cbv zeta.
  assert (node_eph_id w = node_eph_id a) as Ee by (unfold node_eph_id; by rewrite Ew).
  rewrite (first_message_answered b w fa _ _ k Hk eq_refl (met_peer b a w fa Ew Hkb) Es), Ee.
  set (p2 := hs_packet b _ _). set (b1 := answered b fa _ _ _ p2).
  assert (midway b1 a fa (hk_r2 k) [] []) as Hb1.
  { pose proof (answered_midway b a fa (hk_r0 k) (hk_r1 k) (hk_r2 k) p2 Hkb) as Hm. by rewrite Ep, Ei in Hm. }
  unfold p2. rewrite (initiator_done a b fb _ _ k texts [] cts s' Hk eq_refl Ha Hs). cbn [foldl].
  destruct (done_fields a fb (hk_i2 k) (hk_i3 k) (hs_packet a (node_eph_id b) (hk_m3 k)) s'
    (map (dm_packet a (node_eph_id b)) cts)) as (Hse & Hev & Hst & _ & Hses & Hto & Hek & Hid).
  split; [reflexivity|]. split; [reflexivity|]. split; [exact Hse|]. split; [exact Hev|].
  split; [exact Hst|]. intros j Hj.
  destruct (texts_arrive b1 a a a fa _ _ k texts cts s' j Hk eq_refl Hb1 Hs Hj eq_refl eq_refl)
    as (He & Hst' & Hse' & (sr & Hsr & Ht) & Hf & Hk' & Hi).
  split; [exact He|]. split; [exact Hst'|]. split; [exact Hse'|]. exists s', sr.
  by apply (conversing_after a _ b _ fa fb s' sr); try done; apply Ha.
Qed.
End handshake.
