(* ===== verification/NodeContact.v ===== *)
(** * NodeContact: the first message to a new contact

    From the command that writes to a contact without a session, through the three messages of the
    handshake it starts, to the text that was waiting for it. *)
From stdpp Require Import strings gmap.
From S2P Require Import Prelude Errors F64 Utf8 Clock External Toy Transport Wire Config Frag.
From S2P Require Import Compress Relay Channels Store Identity Noise Payloads Node NodeFrame Demo.
From S2P Require Import NodeTalk NodeHandshake.

Section contact.
Context `{Sha256, Ed25519, X25519, Snow, Lz4, Rand, HashIter, UnicodeCase}.
Context {S : Type} `{Store S}.
#[local] Abbreviation Node := (MeshNode (S:=S)).
Implicit Types n a b : Node.

(** [n] has heard [m]'s announce, under the identity [fp], and has had nothing to do with it yet. *)
Record aware n (m : Node) (fp : Fingerprint) : Prop := {
  aw_knows : met n m fp;
  aw_session : noise_sessions n !! fp = None;
  aw_text : pending_dms n !! fp = None;
  aw_early : pending_inbound_dms n !! fp = None;
}.

(** ** The command: the text waits, the first message goes out *)

Definition started n (fp : Fingerprint) (text : rstring) (s1 : NoiseSession) (p1 : Packet) : Node :=
  let n := put_own_dm n fp true text in
  initiating (set_pending_dms n (<[fp := [text]]> (pending_dms n))) fp s1 p1.

Lemma send_dm_first `{!SnowLaws, !X25519Laws, !SnowPaired, !SnowXX} n m fp text x y k :
  handshake_of x y k → x = dh_secret (identity n) → aware n m fp →
  send_dm n fp text = started n fp text (hk_i1 k) (hs_packet n (node_eph_id m) (hk_m1 k)).
Proof.
  intros Hk Hx [[Ef _ _ _] Es Ep _]. unfold send_dm. cbv zeta. set (n1 := put_own_dm n fp true text).
  assert (session_ready n1 fp = false) as -> by (unfold session_ready; cbn; by rewrite Es).
  assert (knows_eph n1 fp = true) as -> by (unfold knows_eph; cbn; by rewrite Ef).
  cbn [negb]. set (n2 := set_pending_dms n1 _).
  assert (has_session n2 fp = false) as -> by (unfold has_session; cbn; by rewrite Es).
  cbn [negb]. rewrite (begin_handshake_sends n2 fp (node_eph_id m) x y k Hk Hx Ef).
  unfold n2, n1, started. cbn [pending_dms put_own_dm set_store]. by rewrite Ep.
Qed.

Lemma started_midway n m fp text s1 p1 :
  aware n m fp → midway (started n fp text s1 p1) m fp s1 [text] [].
Proof.
  intros [[] _ _ He].
  split; [by split|apply lookup_insert_eq|cbn; by rewrite lookup_insert_eq|cbn; by rewrite He].
Qed.

Lemma started_fields n m fp text s1 p1 :
  let n' := started n fp text s1 p1 in
  sent n' = sent n ++ flood_of n p1 ∧ events n' = events n
  ∧ store n' = put_dm (store n) {| dm_peer := fp; mine := true; dm_timestamp_ms := now n; dm_body := text |}
  ∧ sends_alike n n' ∧ scheduler n' = scheduler n
  ∧ handshake_attempts n' = <[fp := wrap 32 (default 0 (handshake_attempts n !! fp) + 1)]> (handshake_attempts n)
  ∧ handshake_last_ms n' = <[fp := now n]> (handshake_last_ms n)
  ∧ (aware n m fp → midway n' m fp s1 [text] []).
Proof. split_and!; try done. apply started_midway. Qed.

(** C4: a first message finds its way. When [a] writes to a contact [b] it has no session with, the
    text waits and a handshake starts; with each packet handled by the node it is addressed to,
    the three handshake messages authenticate both sides, [a] sends the text over the new session
    by itself, and [b] shows it, once, as written, and stores it - no matter whether the
    ciphertext arrives after the last handshake message or overtakes it. Each side is told that a
    session with a verified key is open, [b] sends one packet and [a] three, and the two can go on
    talking. *)
Theorem first_contact `{!SnowLaws, !X25519Laws, !SnowPaired, !SnowXX} a b fa fb text :
  aware a b fb → aware b a fa → zlen text + 17 <= 65535 →
  ∃ m1 m2 m3 ct,
    let p1 := hs_packet a (node_eph_id b) m1 in
    let p2 := hs_packet b (node_eph_id a) m2 in
    let p3 := hs_packet a (node_eph_id b) m3 in
    let p4 := dm_packet a (node_eph_id b) ct in
    let a1 := send_dm a fb text in
    let b1 := handle_noise_handshake b p1 in
    let a2 := handle_noise_handshake a1 p2 in
    sent a1 = sent a ++ flood_of a p1
    ∧ sent a2 = sent a1 ++ flood_of a p3 ++ flood_of a p4
    ∧ events a2 = events a ++ [DmSession fb true]
    ∧ store a2 = put_dm (store a) {| dm_peer := fb; mine := true; dm_timestamp_ms := now a; dm_body := text |}
    ∧ sent b1 = sent b ++ flood_of b p2 ∧ events b1 = events b
    ∧ (let b' := handle_direct_message (handle_noise_handshake b1 p3) p4 in
       events b' = events b ++ [DmSession fa true; DmReceived fa (node_eph_id a) (utf8_lossy text) DM_KIND_TEXT]
       ∧ store b' = put_dm (store b) {| dm_peer := fa; mine := false; dm_timestamp_ms := now b; dm_body := text |}
       ∧ sent b' = sent b1 ∧ ∃ sa sb, conversing a2 b' fa fb sa sb)
    ∧ (let b' := handle_noise_handshake (handle_direct_message b1 p4) p3 in
       events b' = events b ++ [DmSession fa true; DmReceived fa (node_eph_id a) (utf8_lossy text) DM_KIND_TEXT]
       ∧ store b' = put_dm (store b) {| dm_peer := fa; mine := false; dm_timestamp_ms := now b; dm_body := text |}
       ∧ sent b' = sent b1 ∧ ∃ sa sb, conversing a2 b' fa fb sa sb).
Proof.
  intros Ha Hb Hlen.
  destruct (handshake_exists (dh_secret (identity a)) (dh_secret (identity b))) as [k Hk].
  destruct (sealed_one _ _ k text Hk Hlen) as (ct & s' & Hs).
  exists (hk_m1 k), (hk_m2 k), (hk_m3 k), ct. cbv zeta.
  rewrite (send_dm_first a b fb text _ _ k Hk eq_refl Ha).
  destruct (started_fields a b fb text (hk_i1 k) (hs_packet a (node_eph_id b) (hk_m1 k)))
    as (Hs1 & Hev1 & Hst1 & Hal & _ & _ & _ & Ha1%(λ f, f Ha)).
  set (a1 := started a fb text _ _) in *. clearbody a1.
  rewrite <- !(hs_packet_alike a a1), <- (dm_packet_alike a a1), <- !(flood_of_alike a a1) by done.
  rewrite <- !(hs_packet_alike a a1), <- !(flood_of_alike a a1) in Hs1 by done.
  rewrite <- !(eph_id_alike a a1) by done. rewrite <- (sa_identity _ _ Hal) in Hk.
  destruct (handshake_carries a1 b a1 fa fb k [text] [ct] s' Hk Ha1 Hs
    (met_peer b a a1 fa (sa_identity _ _ Hal) (aw_knows _ _ _ Hb))
    (aw_session _ _ _ Hb) (aw_text _ _ _ Hb) (aw_early _ _ _ Hb) eq_refl)
    as (Hsb & Hevb & Hse & Hev & Hst & Hd).
  split; [exact Hs1|]. split.
  { etrans; [exact Hse|]. cbn [map concat]. by rewrite (app_nil_r (flood_of a1 _)). }
  split; [by etrans; [exact Hev|rewrite Hev1]|]. split; [by etrans; [exact Hst|]|].
  split; [exact Hsb|]. split; [exact Hevb|].
  split; [exact (Hd 0%nat ltac:(lia))|exact (Hd 1%nat ltac:(lia))].
Qed.
End contact.

(** ** Witness: Alice and Bob, who have heard each other's announces *)

Lemma demo_aware (n m : DemoNode) fp :
  bool_decide (fp_to_eph n !! fp = Some (node_eph_id m))
  && bool_decide (eph_to_fp n (node_eph_id m) = Some fp)
  && bool_decide (peer_static_dh n !! fp = Some (dh_public (identity m)))
  && negb (has_session n fp) && bool_decide (pending_dms n !! fp = None)
  && bool_decide (pending_inbound_dms n !! fp = None) && bool_decide (fp ∉ notice_pending n) = true →
  aware n m fp.
Proof.
  rewrite !andb_true_iff, !bool_decide_eq_true, negb_true_iff. intros [[[[[[? ?] ?] Hs] ?] ?] ?].
  split; [by split| |done..]. unfold has_session in Hs. apply bool_decide_eq_false in Hs.
  by destruct (noise_sessions n !! fp) as [s|]; [destruct Hs; by exists s|].
Qed.

Lemma first_contact_witness :
  ∃ m1 m2 m3 ct,
    let a1 := send_dm alice2 bob_fp hello in
    let b1 := handle_noise_handshake bob2 (hs_packet alice2 (node_eph_id bob2) m1) in
    let a2 := handle_noise_handshake a1 (hs_packet bob2 (node_eph_id alice2) m2) in
    events a2 = events alice2 ++ [DmSession bob_fp true]
    ∧ let b' := handle_noise_handshake (handle_direct_message b1 (dm_packet alice2 (node_eph_id bob2) ct))
                  (hs_packet alice2 (node_eph_id bob2) m3) in
      events b' = events bob2 ++ [DmSession alice_fp true;
                                  DmReceived alice_fp (node_eph_id alice2) (utf8_lossy hello) DM_KIND_TEXT].
Proof.
  destruct (first_contact alice2 bob2 alice_fp bob_fp hello) as
    (m1 & m2 & m3 & ct & _ & _ & Hev & _ & _ & _ & _ & Hb & _).
  - apply demo_aware. by vm_compute.
  - apply demo_aware. by vm_compute.
  - by vm_compute.
  - exists m1, m2, m3, ct. split; [exact Hev|exact Hb].
Defined.
