(* ===== verification/NodeHeld.v ===== *)
(** * NodeHeld: messages written while the recipient was away

    Store and forward: texts for a contact whose address is unknown are held in the store; its
    next announce releases them into a handshake, and they arrive behind it in the order they were
    written in. *)
From stdpp Require Import strings gmap.
From S2P Require Import Prelude Errors F64 Utf8 Clock External Toy Transport Wire Config Frag.
From S2P Require Import Compress Relay Channels Store Identity Noise Payloads Node NodeFrame Demo.
From S2P Require Import NodeRelay NodeTalk NodeHandshake NodeContact.

Section held.
Context `{Sha256, Ed25519, X25519, Snow, Lz4, Rand, HashIter, UnicodeCase}.
Context {S : Type} `{Store S}.
#[local] Abbreviation Node := (MeshNode (S:=S)).
Implicit Types n : Node.

(** ** Writing *)

(** To a peer whose address is unknown: the text is kept and held, nothing is sent. *)
Lemma send_dm_holds n fp text :
  noise_sessions n !! fp = None → fp_to_eph n !! fp = None →
  send_dm n fp text
  = let n1 := put_own_dm n fp true text in set_store n1 (queue_envelope (store n1) fp text (now n)).
Proof.
  intros Es Ef. unfold send_dm. cbv zeta. set (n1 := put_own_dm n fp true text).
  assert (session_ready n1 fp = false) as -> by (unfold session_ready; cbn; by rewrite Es).
  assert (knows_eph n1 fp = false) as ->; [|done].
  unfold knows_eph. cbn. rewrite Ef. apply bool_decide_eq_false_2. by intros [].
Qed.

(** To a peer whose handshake is under way: the text waits behind the others. *)
Lemma send_dm_waits n m fp s texts text :
  midway n m fp s texts [] → is_ready s = false →
  let n' := send_dm n fp text in
  midway n' m fp s (texts ++ [text]) [] ∧ sends_alike n n' ∧ sent n' = sent n ∧ events n' = events n
  ∧ store n' = put_dm (store n) {| dm_peer := fp; mine := true; dm_timestamp_ms := now n; dm_body := text |}.
Proof.
  intros [[Et Ei Ek En] Es Ex Ee] Hr n'. unfold n', send_dm. cbv zeta. set (n1 := put_own_dm n fp true text).
  assert (session_ready n1 fp = false) as -> by (unfold session_ready; cbn; by rewrite Es).
  assert (knows_eph n1 fp = true) as -> by (unfold knows_eph; cbn; by rewrite Et).
  cbn [negb]. set (n2 := set_pending_dms n1 _).
  assert (has_session n2 fp = true) as -> by (unfold has_session; cbn; by rewrite Es). cbn [negb].
  split_and!; [|by split|done|done|done]. split; [by split|done| |done].
  cbn. by rewrite lookup_insert_eq, Ex.
Qed.

(** A text of the node's own in its store. *)
Definition keep_own (fp : Fingerprint) (t : Millis) (st : S) (text : rstring) : S :=
  put_dm st {| dm_peer := fp; mine := true; dm_timestamp_ms := t; dm_body := text |}.

Lemma send_dms_wait n m fp s texts more :
  midway n m fp s texts [] → is_ready s = false →
  let n' := foldl (λ n t, send_dm n fp t) n more in
  midway n' m fp s (texts ++ more) [] ∧ sends_alike n n' ∧ sent n' = sent n ∧ events n' = events n
  ∧ store n' = foldl (keep_own fp (now n)) (store n) more.
Proof.
  intros Hm Hr. cbv zeta. revert n texts Hm. induction more as [|t more IH]; intros n texts Hm; cbn [foldl].
  { rewrite app_nil_r. by split_and!. }
  destruct (send_dm_waits n m fp s texts t Hm Hr) as (Hm1 & Ha1 & E1 & E2 & E3).
  destruct (IH _ _ Hm1) as (Hm2 & Ha2 & -> & -> & ->). rewrite <- app_assoc in Hm2.
  split_and!; [done|by etrans|done|done|]. by rewrite E3, (sa_now _ _ Ha1).
Qed.

(** Several texts to a contact there is no session with: one handshake, for all of them. *)
Lemma send_dms_first `{!SnowLaws, !X25519Laws, !SnowPaired, !SnowXX} n (m : Node) fp x y k texts :
  handshake_of x y k → x = dh_secret (identity n) → aware n m fp → texts ≠ [] →
  let n' := foldl (λ n t, send_dm n fp t) n texts in
  midway n' m fp (hk_i1 k) texts [] ∧ sends_alike n n' ∧ events n' = events n
  ∧ sent n' = sent n ++ flood_of n (hs_packet n (node_eph_id m) (hk_m1 k))
  ∧ store n' = foldl (keep_own fp (now n)) (store n) texts.
Proof.
  intros Hk Hx Ha Hne. destruct texts as [|t texts]; [done|]. cbn [foldl]. cbv zeta.
  rewrite (send_dm_first n m fp t x y k Hk Hx Ha). set (n1 := started n fp t _ _).
  pose proof (started_midway n m fp t (hk_i1 k) (hs_packet n (node_eph_id m) (hk_m1 k)) Ha) as Hm. fold n1 in Hm.
  destruct (send_dms_wait n1 m fp (hk_i1 k) [t] texts Hm) as (Hm' & Ha' & -> & -> & ->).
  { apply (ho_open _ _ _ Hk). }
  assert (sends_alike n n1) as Ha1 by by split.
  split_and!; [done|by etrans|reflexivity..].
Qed.

(** ** The announce *)

(** The announce a node sends. *)
Definition announce_packet n : Packet :=
  originate n Announce (origin_ttl (node_cfg n) Announce (msize (links n))) None
    (encode_announce (vk_as_bytes (id_verifying_key (identity n))) (dh_public (identity n)) (nickname n)).

Lemma announce_sends n : announce n = flooded n (announce_packet n).
Proof. unfold announce. cbv zeta. by rewrite broadcast_sent. Qed.

(** What is known of its sender afterwards. *)
Definition introduced n (m : Node) (fp : Fingerprint) : PeerRecord :=
  {| fingerprint := fp;
     petname := match get_peer (store n) fp with Some p => petname p | None => None end;
     verified := match get_peer (store n) fp with Some p => verified p | None => false end;
     last_eph := node_eph_id m; last_seen_ms := now m |}.

Lemma note_key_change_same n fp prev k :
  (∀ p, prev = Some p → p = k) → note_key_change n fp prev k = n.
Proof.
  intros Hk. unfold note_key_change. destruct prev as [p|]; [|done].
  by rewrite (Hk p eq_refl), bool_decide_eq_true_2.
Qed.

Lemma dedup_loop n : ∃ ls closed, dedup_links n = set_links (set_sent n (sent n ++ map Close closed)) ls.
Proof.
  unfold dedup_links. destruct (resolve_links_spec n) as (rs & -> & _). cbv zeta. rewrite close_links.
  by do 2 eexists.
Qed.

(** An announce under keys that have not changed: its sender is known afterwards, and what was held
    for it is written to it anew. *)
Lemma announce_heard `{!Ed25519Laws, !X25519Laws} n (m : Node) held st :
  let fp := node_fingerprint m in
  (∀ k, peer_static_dh n !! fp = Some k → k = dh_public (identity m)) →
  fp ∉ notice_pending n → utf8_valid (take 24 (nickname m)) = true →
  take_envelopes (upsert_peer (store n) (introduced n m fp)) fp = (held, st) →
  ∃ n1 closed,
    handle_announce n (announce_packet m) = foldl (λ n bs, send_dm n fp (utf8_lossy bs)) n1 held
    ∧ met n1 m fp ∧ store n1 = st ∧ sent n1 = sent n ++ map Close closed
    ∧ (∃ who, events n1 = events n ++ [PeerAppeared fp (node_eph_id m) who])
    ∧ noise_sessions n1 = noise_sessions n ∧ pending_dms n1 = pending_dms n
    ∧ pending_inbound_dms n1 = pending_inbound_dms n
    ∧ node_cfg n1 = node_cfg n ∧ now n1 = now n ∧ identity n1 = identity n.
Proof.
  intros fp Hkey Hnotice Hnick Htake. unfold handle_announce.
  change (payload (announce_packet m)) with (encode_announce (vk_as_bytes (id_verifying_key (identity m)))
    (dh_public (identity m)) (nickname m)).
  rewrite announce_roundtrip; [|apply vk_as_bytes_length|apply xs_public_length|done].
  change (id_verifying_key (identity m)) with (verifying_key (signing_key (identity m))).
  rewrite vk_from_as_bytes.
  assert (Wire.verify (announce_packet m) (verifying_key (signing_key (identity m))) = Ok tt) as ->
    by apply verify_sign.
  cbn [negb is_ok]. unfold accept_announce. cbv zeta.
  change (sha256 (vk_as_bytes (verifying_key (signing_key (identity m))))) with fp.
  set (n0 := set_peer_static_dh _ _).
  change (sender (announce_packet m)) with (node_eph_id m).
  change (timestamp_ms (announce_packet m)) with (now m).
  rewrite (note_key_change_same n0 fp) by exact Hkey.
  change (get_peer (store n0) fp) with (get_peer (store n) fp). fold (introduced n m fp).
  set (n2 := push_event _ _). destruct (dedup_loop n2) as (ls & closed & ->).
  change (store (set_links _ ls)) with (upsert_peer (store n) (introduced n m fp)). rewrite Htake.
  eexists _, closed. split; [reflexivity|]. split_and!; try reflexivity; [|by eexists].
  split; [apply lookup_insert_eq| |apply lookup_insert_eq|exact Hnotice].
  unfold eph_to_fp. cbn. by rewrite lookup_insert_eq.
Qed.
End held.

(** ** Over [MemoryStore] *)

Section memory.
Context `{Sha256, Ed25519, X25519, Snow, Lz4, Rand, HashIter, UnicodeCase}.
#[local] Abbreviation Node := (MeshNode (S:=MemoryStore)).
Implicit Types n a b : Node.

(** The user writes [w.2] a while [w.1] after what came before. *)
Definition writing (fp : Fingerprint) (ws : list (Millis * rstring)) : list node_op :=
  concat (map (λ w, [OpClock w.1; OpSendDm fp w.2]) ws).

Definition duration (ws : list (Millis * rstring)) : Z := foldr (λ w t, w.1 + t) 0 ws.

Definition mailbox (s : MemoryStore) (fp : Fingerprint) : list Envelope := default [] (envelopes s !! fp).

Lemma take_mailbox s fp :
  mem_take_envelopes s fp = (map packet_bytes (mailbox s fp), set_envelopes s (delete fp (envelopes s))).
Proof. unfold mem_take_envelopes, mailbox. by destruct (envelopes s !! fp). Qed.

(** One more envelope, while the mailbox has room and nothing in it is too old. *)
Lemma queue_keeps s fp text t :
  Forall (λ e, sat_sub t (queued_ms e) < env_ttl_ms s) (mailbox s fp) →
  zlen (mailbox s fp) < env_max_per_peer s →
  mailbox (mem_queue_envelope s fp text t) fp
  = mailbox s fp ++ [{| packet_bytes := text; queued_ms := t |}].
Proof.
  intros Hold Hroom. unfold mailbox, mem_queue_envelope in *. cbn [envelopes set_envelopes].
  rewrite lookup_insert_eq. cbn [default from_option id]. set (q := default [] (envelopes s !! fp)) in *.
  assert (List.filter (λ e, sat_sub t (queued_ms e) <? env_ttl_ms s) q = q) as ->.
  { clear Hroom. induction Hold as [|e q He Hq IH]; [done|]. cbn [List.filter].
    rewrite (proj2 (Z.ltb_lt _ _) He). by rewrite IH. }
  assert (excess (env_max_per_peer s) (q ++ [{| packet_bytes := text; queued_ms := t |}]) = 0%nat) as ->;
    [|done].
  clearbody q. unfold excess, zlen in *. rewrite length_app. cbn [length]. lia.
Qed.

(** A run of texts, each put behind the others; the rest of the node stays as it was. *)
Lemma writing_holds n fp ws t0 :
  noise_sessions n !! fp = None → fp_to_eph n !! fp = None →
  Forall (λ w, 0 <= w.1) ws → t0 <= now n < 2 ^ 64 →
  Forall (λ e, t0 <= queued_ms e) (mailbox (store n) fp) →
  now n + duration ws < t0 + env_ttl_ms (store n) →
  zlen (mailbox (store n) fp) + zlen ws <= env_max_per_peer (store n) →
  ∃ st t, node_run n (writing fp ws) = set_now (set_store n st) t
    ∧ map packet_bytes (mailbox st fp) = map packet_bytes (mailbox (store n) fp) ++ map snd ws.
Proof.
  intros Es Ef Hd. revert n Es Ef. induction Hd as [|[d text] ws Hd Hds IH]; intros n Es Ef Ht Hold Hage Hroom.
  { exists (store n), (now n). rewrite app_nil_r. split; [by destruct n|done]. }
  cbn [writing map concat]. unfold node_run. rewrite foldl_app. cbn [foldl node_step fst snd].
  cbn [duration foldr fst] in Hage. fold (duration ws) in Hage. rewrite zlen_cons in Hroom. cbn in Hd.
  assert (0 <= duration ws) as Hdur.
  { clear -Hds. induction Hds as [|w ws Hw Hws IH]; [done|]. cbn. fold (duration ws). lia. }
  pose proof (zlen_nonneg ws).
  set (n1 := set_now n (sat_add 64 (now n) d)). assert (now n <= now n1 <= now n + d /\ now n1 < 2 ^ 64) as Hn1.
  { unfold n1, sat_add. cbn [now set_now]. lia. }
  rewrite (send_dm_holds n1 fp text Es Ef). cbv zeta. set (st1 := queue_envelope _ fp text (now n1)).
  set (n2 := set_store _ st1).
  assert (mailbox st1 fp = mailbox (store n) fp ++ [{| packet_bytes := text; queued_ms := now n1 |}]) as Eq.
  { unfold st1. apply (queue_keeps (mem_put_dm (store n) _)).
    - eapply Forall_impl; [exact Hold|]. intros e He. cbv beta in *. unfold sat_sub.
      change (env_ttl_ms (mem_put_dm _ _)) with (env_ttl_ms (store n)). lia.
    - change (mailbox (mem_put_dm (store n) _) fp) with (mailbox (store n) fp).
      cbn [env_max_per_peer mem_put_dm set_dms]. lia. }
  fold (writing fp ws) (node_run n2 (writing fp ws)). destruct (IH n2 Es Ef) as (st & t & -> & Hst).
  - change (now n2) with (now n1). lia.
  - change (store n2) with st1. rewrite Eq. apply Forall_app. split; [done|].
    constructor; [cbn [queued_ms]; lia|done].
  - change (now n2) with (now n1). change (env_ttl_ms (store n2)) with (env_ttl_ms (store n)). lia.
  - change (store n2) with st1. change (env_max_per_peer st1) with (env_max_per_peer (store n)).
    rewrite Eq, zlen_app, zlen_cons, zlen_nil. lia.
  - exists st, t. split; [done|]. rewrite Hst. change (store n2) with st1. rewrite Eq, map_app, <- app_assoc. done.
Qed.

(** The peer [fp] is out of reach: no session with it, no address, and nothing held for it yet. *)
Record away n (fp : Fingerprint) : Prop := {
  ay_session : noise_sessions n !! fp = None;
  ay_address : fp_to_eph n !! fp = None;
  ay_text : pending_dms n !! fp = None;
  ay_early : pending_inbound_dms n !! fp = None;
  ay_notice : fp ∉ notice_pending n;
  ay_mailbox : mailbox (store n) fp = [];
}.

(** What the announce releases: one handshake, for all the texts. *)
Lemma announce_releases `{!Ed25519Laws, !X25519Laws, !SnowLaws, !SnowPaired, !SnowXX} n (m : Node) k texts :
  let fp := node_fingerprint m in
  handshake_of (dh_secret (identity n)) (dh_secret (identity m)) k →
  noise_sessions n !! fp = None → pending_dms n !! fp = None → pending_inbound_dms n !! fp = None →
  fp ∉ notice_pending n → (∀ key, peer_static_dh n !! fp = Some key → key = dh_public (identity m)) →
  utf8_valid (take 24 (nickname m)) = true →
  map packet_bytes (mailbox (store n) fp) = texts → texts ≠ [] →
  Forall (λ t, utf8_valid t = true) texts →
  let n' := handle_announce n (announce_packet m) in
  midway n' m fp (hk_i1 k) texts [] ∧ identity n' = identity n
  ∧ (∃ closed, sent n' = sent n ++ map Close closed ++ flood_of n' (hs_packet n' (node_eph_id m) (hk_m1 k)))
  ∧ mailbox (store n') fp = [].
Proof.
  intros fp Hk Es Ep Ei Hnot Hkey Hnick Hbox Hne Hutf n'.
  destruct (announce_heard n m texts (set_envelopes (mem_upsert_peer (store n) (introduced n m fp))
    (delete fp (envelopes (store n)))) Hkey Hnot Hnick)
    as (n1 & closed & E & Hkn & Hst & Hse & _ & Hs & Hpd & Hpi & Hcfg & Hnow & Hid).
  { rewrite <- Hbox. exact (take_mailbox (mem_upsert_peer (store n) (introduced n m fp)) fp). }
  fold fp in E, Hkn. assert (n' = foldl (λ n t, send_dm n fp t) n1 texts) as En.
  { etrans; [exact E|]. clear -Hutf. generalize n1. induction Hutf as [|t texts Ht Hts IH]; intros x; [done|].
    cbn [foldl]. by rewrite (utf8_lossy_valid t Ht). }
  destruct (send_dms_first n1 m fp _ _ k texts Hk) as (Hm & Ha & _ & Hsent & Hstore); [by rewrite Hid| |done|].
  { split; [done|by rewrite Hs|by rewrite Hpd|by rewrite Hpi]. }
  rewrite <- En in *. split; [exact Hm|]. split; [by rewrite (sa_identity _ _ Ha)|]. split.
  - exists closed. rewrite Hsent, Hse, <- app_assoc.
    by rewrite (flood_of_alike n1 n'), (hs_packet_alike n1 n') by done.
  - rewrite Hstore, Hst. generalize (now n1). intros t.
    assert (∀ ts s, envelopes (foldl (keep_own fp t) s ts) = envelopes s) as Henv.
    { intros ts. induction ts as [|x ts IH]; intros s; [done|]. cbn [foldl]. by rewrite IH. }
    unfold mailbox. rewrite Henv. cbn [envelopes set_envelopes]. by rewrite lookup_delete_eq.
Qed.

(** C6: store and forward. Texts written for a contact out of reach are not sent; when, however much
    later, its announce is heard, they are released: one handshake starts, and at its end each text
    goes out in a packet of its own, in the order they were written in. The contact shows and
    stores all of them in that order, each once and as written, no matter how many of the
    ciphertexts, up to 32, overtake the last handshake message; nothing is left held, and the two
    can go on talking. *)
Theorem held_texts_delivered `{!Ed25519Laws, !X25519Laws, !SnowLaws, !SnowPaired, !SnowXX} a b fa ws later :
  let fb := node_fingerprint b in
  let texts := map snd ws in
  away a fb → (∀ key, peer_static_dh a !! fb = Some key → key = dh_public (identity b)) →
  aware b a fa → utf8_valid (take 24 (nickname b)) = true →
  ws ≠ [] → zlen ws <= env_max_per_peer (store a) → zlen ws < 2 ^ 64 →
  Forall (λ w, 0 <= w.1 ∧ utf8_valid w.2 = true ∧ zlen w.2 + 17 <= 65535) ws →
  in_width 64 (now a) → duration ws < env_ttl_ms (store a) →
  let a0 := node_run a (writing fb ws ++ [OpClock later]) in
  let a1 := handle_announce a0 (announce_packet b) in
  sent a0 = sent a ∧ events a0 = events a ∧ announce b = flooded b (announce_packet b)
  ∧ ∃ m1 m2 m3 cts closed,
    let p1 := hs_packet a1 (node_eph_id b) m1 in
    let p2 := hs_packet b (node_eph_id a) m2 in
    let p3 := hs_packet a1 (node_eph_id b) m3 in
    let b1 := handle_noise_handshake b p1 in
    let a2 := handle_noise_handshake a1 p2 in
    sent a1 = sent a ++ map Close closed ++ flood_of a1 p1
    ∧ sent b1 = sent b ++ flood_of b p2
    ∧ sent a2 = sent a1 ++ flood_of a1 p3
                ++ concat (map (flood_of a1) (map (dm_packet a1 (node_eph_id b)) cts))
    ∧ length cts = length texts ∧ mailbox (store a2) fb = []
    ∧ ∀ j : nat, (j <= 32)%nat →
      let receives := foldl (receive (node_eph_id b) a1) in
      let b' := receives (handle_noise_handshake (receives b1 (take j cts)) p3) (drop j cts) in
      events b' = events b ++ DmSession fa true
                     :: map (λ t, DmReceived fa (node_eph_id a) t DM_KIND_TEXT) texts
      ∧ store b' = foldl (keep_text fa (now b)) (store b) texts
      ∧ ∃ sa sb, conversing a2 b' fa fb sa sb.
Proof.
  intros fb texts [Es Ef Ep Ei Hnot Hbox] Hkey Hb Hnick Hne Hcap Hw64 Hws Hnow Hdur a0 a1.
  destruct (writing_holds a fb ws (now a) Es Ef) as (st & t & Ew & Hst);
    [by eapply Forall_impl; [exact Hws|]; intros w [? _]|unfold in_width in Hnow; lia|by rewrite Hbox|lia
    |by rewrite Hbox, zlen_nil|].
  assert (∃ t', a0 = set_now (set_store a st) t') as [t' Ea0].
  { unfold a0, node_run in *. rewrite foldl_app, Ew. cbn [foldl node_step]. by eexists. }
  rewrite Hbox in Hst. cbn [map app] in Hst. fold texts in Hst.
  destruct (handshake_exists (dh_secret (identity a)) (dh_secret (identity b))) as [k Hk].
  destruct (sealed_exists (hk_i3 k) texts) as (cts & s' & Hs).
  { destruct (proj1 (ho_writes _ _ _ Hk)) as (ts & ? & ?). exists ts. split; [done|].
    unfold texts, zlen in *. rewrite length_map. lia. }
  { apply Forall_map. eapply Forall_impl; [exact Hws|]. by intros w (_ & _ & ?). }
  destruct (announce_releases a0 b k texts) as (Ha1 & Eid & (closed & Hse) & Hmb);
    rewrite ?Ea0; try done; [by destruct ws| |].
  { apply Forall_map. eapply Forall_impl; [exact Hws|]. by intros w (_ & ? & _). }
  rewrite <- ?Ea0 in *. fold fb in Ha1, Hmb. fold a1 in Ha1, Eid, Hse, Hmb.
  assert (identity a1 = identity a) as Eida by (rewrite Eid, Ea0; done).
  assert (sent a0 = sent a ∧ events a0 = events a) as [Hse0 Hev0] by (by rewrite Ea0).
  split; [exact Hse0|]. split; [exact Hev0|]. split; [apply announce_sends|].
  exists (hk_m1 k), (hk_m2 k), (hk_m3 k), cts, closed. clearbody a1. cbv zeta.
  assert (node_eph_id a1 = node_eph_id a) as Ee by (unfold node_eph_id; by rewrite Eida). rewrite <- Ee.
  rewrite <- Eida in Hk.
  destruct (handshake_carries a1 b a1 fa fb k texts cts s' Hk Ha1 Hs (met_peer b a a1 fa Eida (aw_knows _ _ _ Hb))
    (aw_session _ _ _ Hb) (aw_text _ _ _ Hb) (aw_early _ _ _ Hb) eq_refl)
    as (Hsb & _ & Hse2 & _ & Hst2 & Hd).
  split; [by rewrite Hse, Hse0|]. split; [exact Hsb|]. split; [exact Hse2|].
  split; [symmetry; exact (sealed_length _ _ _ _ Hs)|]. split; [by rewrite Hst2|]. intros j Hj.
  destruct (Hd j Hj) as (He & Hst' & _ & Hcv). split; [|split; [exact Hst'|exact Hcv]].
  etrans; [exact He|]. do 2 f_equal. apply map_ext_in.
  intros x (w & <- & Hw)%in_map_iff. unfold text_event. rewrite utf8_lossy_valid; [done|].
  apply list_elem_of_In in Hw. by apply (proj1 (Forall_forall _ _) Hws w Hw).
Qed.
End memory.

(** ** Witness: Alice writes twice before she has ever heard of Bob *)

Definition demo_letters : list (Millis * rstring) := [(5, hello); (7, [Byte.x21])].

Lemma demo_away (n : DemoNode) fp :
  negb (has_session n fp) && bool_decide (fp_to_eph n !! fp = None)
  && bool_decide (pending_dms n !! fp = None) && bool_decide (pending_inbound_dms n !! fp = None)
  && bool_decide (fp ∉ notice_pending n) && (zlen (mailbox (store n) fp) =? 0) = true →
  away n fp.
Proof.
  rewrite !andb_true_iff, !bool_decide_eq_true, negb_true_iff, Z.eqb_eq. intros [[[[[Hs ?] ?] ?] ?] Hb].
  split; [|done..|].
  - unfold has_session in Hs. apply bool_decide_eq_false in Hs.
    by destruct (noise_sessions n !! fp) as [s|]; [destruct Hs; by exists s|].
  - by destruct (mailbox (store n) fp).
Qed.

Lemma held_texts_delivered_witness :
  let a0 := node_run alice1 (writing bob_fp demo_letters ++ [OpClock 90000000]) in
  let a1 := handle_announce a0 (announce_packet bob2) in
  sent a0 = sent alice1
  ∧ ∃ m1 m3 cts,
    let b1 := handle_noise_handshake bob2 (hs_packet a1 (node_eph_id bob2) m1) in
    let receives := foldl (receive (node_eph_id bob2) a1) in
    events (receives (handle_noise_handshake (receives b1 (take 1 cts))
              (hs_packet a1 (node_eph_id bob2) m3)) (drop 1 cts))
    = events bob2 ++ DmSession alice_fp true ::
        [DmReceived alice_fp (node_eph_id alice1) hello DM_KIND_TEXT;
         DmReceived alice_fp (node_eph_id alice1) [Byte.x21] DM_KIND_TEXT].
Proof.
  destruct (held_texts_delivered alice1 bob2 alice_fp demo_letters 90000000)
    as (Hs & _ & _ & m1 & m2 & m3 & cts & closed & _ & _ & _ & _ & _ & Hd).
  - apply demo_away. by vm_compute.
  - assert (peer_static_dh alice1 !! node_fingerprint bob2 = None) as -> by (by vm_compute). done.
  - apply demo_aware. by vm_compute.
  - by vm_compute.
  - done.
  - by vm_compute.
  - by vm_compute.
  - by repeat constructor; vm_compute.
  - by vm_compute.
  - by vm_compute.
  - split; [exact Hs|]. exists m1, m3, cts. exact (proj1 (Hd 1%nat ltac:(lia))).
Defined.

(** The sender's own thread shows a text that was held twice: [send_dm] keeps it when it is written
    and again when it is released. *)
Example held_texts_kept_twice :
  let a1 := handle_announce (node_run alice1 (writing bob_fp demo_letters)) (announce_packet bob2) in
  map (λ d, (dm_timestamp_ms d, dm_body d)) (dm_history (store a1) bob_fp 10)
  = [(1005, hello); (1012, [Byte.x21]); (1012, hello); (1012, [Byte.x21])].
Proof. by vm_compute. Qed.
