(* ===== verification/NodeRecovery.v ===== *)
(** * NodeRecovery: a session of which one end was lost

    A node that restarts has forgotten its sessions, and the other end does not know. The node
    that restarted starts a handshake, repeats it from its timer, and the other end gives up its
    half of the old session at the second attempt - and not before. *)
From stdpp Require Import strings gmap.
From S2P Require Import Prelude Errors F64 Utf8 Clock External Toy Transport Wire Config Frag.
From S2P Require Import Compress Relay Channels Store Identity Noise Payloads Node NodeFrame Demo.
From S2P Require Import NodeRelay NodeTalk NodeCommands NodeHandshake NodeContact.

Section recovery.
Context `{Sha256, Ed25519, X25519, Snow, Lz4, Rand, HashIter, UnicodeCase}.
Context {S : Type} `{Store S}.
#[local] Abbreviation Node := (MeshNode (S:=S)).
Implicit Types n : Node.

(** ** The end that has not noticed *)

(** [n] holds a session with the peer [fp] that is ready, whatever became of its other end, and has
    nothing else to do with it. *)
Record in_session n (m : Node) (fp : Fingerprint) (s : NoiseSession) : Prop := {
  is_knows : met n m fp;
  is_session : noise_sessions n !! fp = Some s;
  is_open : is_ready s = true;
  is_text : pending_dms n !! fp = None;
  is_early : pending_inbound_dms n !! fp = None;
}.

(** A handshake message over a session that is ready is counted and not read. *)
Lemma stray_handshake n m (w : Node) fp s body :
  in_session n m fp s → node_eph_id w = node_eph_id m → resync_pending n !! fp = None →
  handle_noise_handshake n (hs_packet w (node_eph_id n) body)
  = set_resync_pending n (<[fp := 1]> (resync_pending n)).
Proof.
  intros [[_ Ei _ _] Es Ho _ _] Ew Er. unfold handle_noise_handshake.
  change (recipient (hs_packet w (node_eph_id n) body)) with (Some (node_eph_id n)).
  change (sender (hs_packet w (node_eph_id n) body)) with (node_eph_id w).
  rewrite bool_decide_eq_true_2, Ew, Ei by done. cbn [negb].
  assert (session_ready n fp = true) as -> by (unfold session_ready; by rewrite Es, Ho).
  by rewrite Er.
Qed.

(** The end that gives up its session, and what it remembers. *)
Definition given_up n (fp : Fingerprint) : Node :=
  drop_session (set_resync_pending n (delete fp (resync_pending n))) fp.

Lemma given_up_fields n m fp s x :
  in_session n m fp s →
  let n' := given_up (set_resync_pending n x) fp in
  sends_alike n n' ∧ sent n' = sent n ∧ events n' = events n ∧ store n' = store n
  ∧ met n' m fp ∧ noise_sessions n' !! fp = None
  ∧ pending_dms n' !! fp = None ∧ pending_inbound_dms n' !! fp = None.
Proof.
  intros [[] ? ? ? ?]. split_and!; first [done | by split | apply lookup_delete_eq].
Qed.

(** At the second one in a row it gives the session up and reads the message as a first contact. *)
Lemma second_handshake n m (w : Node) fp s body :
  in_session n m fp s → node_eph_id w = node_eph_id m → resync_pending n !! fp = Some 1 →
  handle_noise_handshake n (hs_packet w (node_eph_id n) body)
  = handle_noise_handshake (given_up n fp) (hs_packet w (node_eph_id n) body).
Proof.
  intros [[_ Ei _ _] Es Ho _ _] Ew Er. set (x := given_up n fp).
  assert (noise_sessions x !! fp = None) as Ex by apply lookup_delete_eq.
  change (node_eph_id n) with (node_eph_id x) at 2.
  rewrite (handle_handshake_reads x w fp body);
    [|rewrite Ew; exact Ei|unfold session_ready; by rewrite Ex|by left].
  unfold handle_noise_handshake.
  change (recipient (hs_packet w (node_eph_id n) body)) with (Some (node_eph_id n)).
  change (sender (hs_packet w (node_eph_id n) body)) with (node_eph_id w).
  change (payload (hs_packet w (node_eph_id n) body)) with body.
  rewrite bool_decide_eq_true_2, Ew, Ei by done. cbn [negb].
  assert (session_ready n fp = true) as -> by (unfold session_ready; by rewrite Es, Ho).
  rewrite Er. cbv zeta. change (wrap 8 (default 0 (Some 1) + 1) <? RESYNC_HANDSHAKE_THRESHOLD) with false.
  cbv iota. set (y := drop_session _ fp).
  assert (y = x) as ->.
  { unfold y, x, given_up. f_equal. unfold set_resync_pending. cbn [resync_pending].
    f_equal. by rewrite delete_insert_eq. }
  cbn [negb]. rewrite Ex. by destruct (_ =? _).
Qed.

(** Reading one message of the session's shows that its other end is alive: the count starts anew. *)
Lemma encrypt_and_send_resync n fp k body :
  resync_pending (encrypt_and_send_dm n fp k body) = resync_pending n.
Proof.
  unfold encrypt_and_send_dm. destruct (noise_sessions n !! fp) as [s|]; [|done].
  destruct (encrypt s _) as [[ct| |] s']; [|done..]. unfold send_directed.
  destruct (_ !! fp); [|done]. cbv zeta. by rewrite broadcast_sent.
Qed.

Lemma message_clears_count n fp s ct pt s' :
  noise_sessions n !! fp = Some s → decrypt s ct = (Ok pt, s') →
  resync_pending (decrypt_and_emit n fp ct) = delete fp (resync_pending n).
Proof.
  intros Es Ed. unfold decrypt_and_emit. rewrite Es, Ed. destruct (split_kind pt) as [k body].
  destruct (k =? DM_KIND_VERIFY_NOTICE); [|done]. unfold send_control_dm. by rewrite encrypt_and_send_resync.
Qed.

(** ** The end that has restarted: its timer *)

Lemma midway_later n (m : Node) fp s texts early t :
  midway n m fp s texts early → midway (set_now n t) m fp s texts early.
Proof. intros [[] ? ? ?]. split; [by split|done..]. Qed.

(** A tick with nothing to relay drives the stalled handshakes and does nothing else that shows. *)
Lemma tick_idle n :
  pending (scheduler n) = ∅ →
  ∃ sc se re, (tick n).2
    = retry_stalled_handshakes (set_reassembler (set_seen (set_scheduler n sc) se) re) (now n).
Proof.
  intros E. unfold tick. rewrite due_spec, E. assert (btree_iter (∅ : gmap bytes Pending) = []) as -> by done.
  cbn [List.filter map foldl snd]. by do 3 eexists.
Qed.

Lemma hash_iter_single `{!HashIterLaws} {V} (k : Fingerprint) (v : V) : hash_iter {[ k := v ]} = [(k, v)].
Proof.
  apply Permutation_singleton_r. rewrite <- (map_to_list_singleton k v). apply hash_iter_perm.
Qed.

Lemma tick_retries `{!SnowLaws, !X25519Laws, !SnowPaired, !SnowXX, !HashIterLaws} n (m : Node) fp s texts early k v t0 :
  pending (scheduler n) = ∅ → handshake_attempts n = {[ fp := v ]} → 0 <= v < DM_HANDSHAKE_MAX_ATTEMPTS →
  handshake_last_ms n !! fp = Some t0 → t0 + DM_HANDSHAKE_RETRY_MS <= now n →
  handshake_of (dh_secret (identity n)) (dh_secret (identity m)) k →
  midway n m fp s texts early → is_ready s = false →
  let n' := (tick n).2 in
  midway n' m fp (hk_i1 k) texts early
  ∧ sent n' = sent n ++ flood_of n (hs_packet n (node_eph_id m) (hk_m1 k))
  ∧ events n' = events n ∧ store n' = store n ∧ identity n' = identity n
  ∧ links n' = links n ∧ node_cfg n' = node_cfg n ∧ now n' = now n.
Proof.
  intros Hp Ha Hv Ht Hage Hk [Hkn Es Ex Ee] Hr n'. unfold n'. destruct (tick_idle n Hp) as (sc & se & re & ->).
  set (n1 := set_reassembler _ re). unfold retry_stalled_handshakes.
  change (handshake_attempts n1) with (handshake_attempts n). rewrite Ha, hash_iter_single. cbn [map fst List.filter].
  assert (is_stalled n1 (now n) fp = true) as ->.
  { unfold is_stalled. assert (session_ready n1 fp = false) as -> by (unfold session_ready; cbn; by rewrite Es).
    assert (knows_eph n1 fp = true) as -> by (unfold knows_eph; cbn; by rewrite (kn_to _ _ _ Hkn)).
    cbn [orb negb]. change (handshake_attempts n1) with (handshake_attempts n).
    change (handshake_last_ms n1) with (handshake_last_ms n). rewrite Ha, Ht, lookup_singleton_eq.
    cbn [default from_option id]. unfold DM_HANDSHAKE_MAX_ATTEMPTS, DM_HANDSHAKE_RETRY_MS, sat_sub in *.
    rewrite (proj2 (Z.leb_gt _ _)) by lia. apply Z.leb_le. lia. }
  cbn [foldl]. set (n2 := drop_session n1 fp). assert (met n2 m fp) as Hkn2 by (destruct Hkn; by split).
  rewrite (begin_handshake_sends n2 fp (node_eph_id m) _ _ k Hk eq_refl (kn_to _ _ _ Hkn2)).
  split; [|by split_and!].
  pose proof (initiating_midway n2 m fp (hk_i1 k) (hs_packet n2 (node_eph_id m) (hk_m1 k)) Hkn2) as Hm.
  change (pending_dms n2) with (pending_dms n) in Hm.
  change (pending_inbound_dms n2) with (pending_inbound_dms n) in Hm. by rewrite Ex, Ee in Hm.
Qed.

(** The same, some time after the first attempt. *)
Lemma retry_later `{!SnowLaws, !X25519Laws, !SnowPaired, !SnowXX, !HashIterLaws} n (m : Node) fp s texts k v t0 t :
  pending (scheduler n) = ∅ → handshake_attempts n = {[ fp := v ]} → 0 <= v < DM_HANDSHAKE_MAX_ATTEMPTS →
  handshake_last_ms n !! fp = Some t0 → t0 + DM_HANDSHAKE_RETRY_MS <= t →
  handshake_of (dh_secret (identity n)) (dh_secret (identity m)) k →
  midway n m fp s texts [] → is_ready s = false →
  let n' := (tick (set_now n t)).2 in
  midway n' m fp (hk_i1 k) texts []
  ∧ sent n' = sent n ++ flood_of n' (hs_packet n' (node_eph_id m) (hk_m1 k))
  ∧ events n' = events n ∧ identity n' = identity n.
Proof.
  intros Hp Ha Hv Ht Hage Hk Hm Hr n'. set (nt := set_now n t).
  destruct (tick_retries nt m fp s texts [] k v t0 Hp Ha Hv Ht Hage Hk (midway_later n m fp s texts [] t Hm) Hr)
    as (Hm' & Hse & Hev & _ & Hid & Hl & Hc & Hn). split; [exact Hm'|].
  split; [|split; [exact Hev|exact Hid]]. assert (sends_alike nt n') as Hal by by split.
  rewrite (flood_of_alike nt n'), (hs_packet_alike nt n') by done. exact Hse.
Qed.

(** C5: a lost session heals. [a] has restarted and knows nothing of the session that [b] still
    holds. [a] writes, which starts a handshake. [b] counts the first message of it and changes
    nothing else - and forgets the count as soon as anything decrypts under the old session, so a
    stray or forged handshake message does no harm to a live one. When [a]'s timer repeats the
    handshake, two seconds or more later, [b] gives the old session up and answers; the text that
    waited is delivered over the new session, once, as written, in whichever order the last
    handshake message and the ciphertext arrive, and both can go on talking. *)
Theorem session_recovered `{!SnowLaws, !X25519Laws, !SnowPaired, !SnowXX, !HashIterLaws} a b fa fb sb text d :
  aware a b fb → handshake_attempts a = ∅ → pending (scheduler a) = ∅ →
  in_session b a fa sb → resync_pending b !! fa = None → zlen text + 17 <= 65535 →
  DM_HANDSHAKE_RETRY_MS <= d → now a + d < 2 ^ 64 →
  ∃ m1 m2 m3 ct,
    let a1 := send_dm a fb text in
    let b1 := handle_noise_handshake b (hs_packet a1 (node_eph_id b) m1) in
    let a2 := node_run a1 [OpClock d; OpTick] in
    let p1 := hs_packet a2 (node_eph_id b) m1 in
    let p2 := hs_packet b (node_eph_id a) m2 in
    let p3 := hs_packet a2 (node_eph_id b) m3 in
    let p4 := dm_packet a2 (node_eph_id b) ct in
    let b2 := handle_noise_handshake b1 p1 in
    let a3 := handle_noise_handshake a2 p2 in
    sent a1 = sent a ++ flood_of a1 (hs_packet a1 (node_eph_id b) m1)
    ∧ b1 = set_resync_pending b (<[fa := 1]> (resync_pending b))
    ∧ (∀ ct0 pt s', decrypt sb ct0 = (Ok pt, s') → resync_pending (decrypt_and_emit b1 fa ct0) !! fa = None)
    ∧ sent a2 = sent a1 ++ flood_of a2 p1
    ∧ sent b2 = sent b ++ flood_of b p2 ∧ events b2 = events b
    ∧ sent a3 = sent a2 ++ flood_of a2 p3 ++ flood_of a2 p4
    ∧ events a3 = events a ++ [DmSession fb true]
    ∧ ∀ b', b' = handle_direct_message (handle_noise_handshake b2 p3) p4
            ∨ b' = handle_noise_handshake (handle_direct_message b2 p4) p3 →
      events b' = events b ++ [DmSession fa true; DmReceived fa (node_eph_id a) (utf8_lossy text) DM_KIND_TEXT]
      ∧ store b' = put_dm (store b) {| dm_peer := fa; mine := false; dm_timestamp_ms := now b; dm_body := text |}
      ∧ ∃ sa' sb', conversing a3 b' fa fb sa' sb'.
Proof.
  intros Ha Hatt Hidle Hb Hcount Hlen Hd Hclock.
  destruct (handshake_exists (dh_secret (identity a)) (dh_secret (identity b))) as [k Hk].
  destruct (sealed_one _ _ k text Hk Hlen) as (ct & s' & Hs).
  exists (hk_m1 k), (hk_m2 k), (hk_m3 k), ct. cbv zeta.
  rewrite (send_dm_first a b fb text _ _ k Hk eq_refl Ha).
  destruct (started_fields a b fb text (hk_i1 k) (hs_packet a (node_eph_id b) (hk_m1 k)))
    as (Hs1 & Hev1 & _ & Hal & Hsch & Hat1 & Hla1 & Ha1%(λ f, f Ha)).
  set (a1 := started a fb text _ _) in *. clearbody a1.
  rewrite <- !(hs_packet_alike a a1), <- !(flood_of_alike a a1) in Hs1 by done.
  rewrite Hatt, lookup_empty in Hat1. change (wrap 32 (default 0 None + 1)) with 1 in Hat1.
  rewrite (stray_handshake b a a1 fa sb (hk_m1 k) Hb (eph_id_alike _ _ Hal) Hcount).
  set (b1 := set_resync_pending b _).
  change (node_run a1 [OpClock d; OpTick]) with (tick (set_now a1 (sat_add 64 (now a1) d))).2.
  assert (sat_add 64 (now a1) d = now a + d) as -> by (unfold sat_add; rewrite (sa_now _ _ Hal); lia).
  assert (pending (scheduler a1) = ∅) as Hp1 by (by rewrite Hsch).
  assert (handshake_attempts a1 = {[ fb := 1 ]}) as Hatt1 by (by rewrite Hat1, insert_empty).
  assert (handshake_last_ms a1 !! fb = Some (now a)) as Hlast1 by (by rewrite Hla1, lookup_insert_eq).
  rewrite <- (sa_identity _ _ Hal) in Hk.
  destruct (retry_later a1 b fb (hk_i1 k) [text] k 1 (now a) (now a + d) Hp1 Hatt1 ltac:(done) Hlast1
    ltac:(lia) Hk Ha1 (proj1 (ho_open _ _ _ Hk))) as (Ha2 & Hse2 & Hev2 & Hid2).
  set (a2 := (tick (set_now a1 (now a + d))).2) in *. clearbody a2.
  assert (identity a2 = identity a) as Eid by (by rewrite Hid2, (sa_identity _ _ Hal)).
  split; [exact Hs1|]. split; [reflexivity|]. split.
  { intros ct0 pt s0 E. rewrite (message_clears_count b1 fa sb ct0 pt s0 (is_session _ _ _ _ Hb) E).
    apply lookup_delete_eq. }
  split; [exact Hse2|].
  assert (in_session b1 a fa sb) as Hb1 by (destruct Hb as [[] ? ? ? ?]; by split).
  assert (node_eph_id a2 = node_eph_id a) as Ee by (unfold node_eph_id; by rewrite Eid).
  change (hs_packet a2 (node_eph_id b)) with (hs_packet a2 (node_eph_id b1)).
  rewrite (second_handshake b1 a a2 fa sb (hk_m1 k) Hb1 Ee) by apply lookup_insert_eq.
  destruct (given_up_fields b a fa sb (<[fa := 1]> (resync_pending b)) Hb)
    as (Hal0 & Es0 & Ev0 & Est0 & Hk0 & Hn0 & Hp0 & Hi0).
  change (node_eph_id b1) with (node_eph_id b). fold b1 in Hal0, Es0, Ev0, Est0, Hk0, Hn0, Hp0, Hi0.
  set (b0 := given_up b1 fa) in *. clearbody b0.
  destruct (handshake_carries a2 b0 a2 fa fb k [text] [ct] s') as (Hsb & Hevb & Hse & Hev & _ & Hdel);
    [by rewrite Hid2, (sa_identity _ _ Hal0)|by apply (midway_peer a2 b b0 fb), Ha2; apply Hal0|exact Hs
    |by apply (met_peer b0 a a2 fa Eid)|done..|].
  rewrite ?Ee, ?(eph_id_alike b b0), ?(hs_packet_alike b b0), ?(flood_of_alike b b0), ?(sa_now b b0),
    ?Es0, ?Ev0, ?Est0 in * by done.
  split; [exact Hsb|]. split; [exact Hevb|]. split.
  { etrans; [exact Hse|]. cbn [map concat]. by rewrite (app_nil_r (flood_of a2 _)). }
  split; [by rewrite Hev, Hev2, Hev1|]. intros b' Hb'.
  destruct Hb' as [-> | ->];
    [destruct (Hdel 0%nat ltac:(lia)) as (He & Hst & _ & Hcv)|destruct (Hdel 1%nat ltac:(lia)) as (He & Hst & _ & Hcv)];
    (split; [exact He|split; [exact Hst|exact Hcv]]).
Qed.
End recovery.

(** ** Witness: Alice restarts, Bob still holds the session they had *)

Lemma demo_in_session (n m : DemoNode) fp :
  bool_decide (fp_to_eph n !! fp = Some (node_eph_id m))
  && bool_decide (eph_to_fp n (node_eph_id m) = Some fp)
  && bool_decide (peer_static_dh n !! fp = Some (dh_public (identity m)))
  && bool_decide (fp ∉ notice_pending n) && session_ready n fp
  && bool_decide (pending_dms n !! fp = None) && bool_decide (pending_inbound_dms n !! fp = None) = true →
  ∃ s, in_session n m fp s.
Proof.
  rewrite !andb_true_iff, !bool_decide_eq_true. intros [[[[[[? ?] ?] ?] Hs] ?] ?].
  unfold session_ready in Hs. destruct (noise_sessions n !! fp) as [s|] eqn:E; [|done].
  exists s. by split.
Qed.

(** Alice after the restart: she has heard Bob's announce again and relayed it. *)
Definition alice_back : DemoNode := node_run alice2 [OpClock 1000; OpTick].

Lemma session_recovered_witness :
  session_ready bob4 alice_fp = true
  ∧ ∃ m1 m2 m3 ct,
    let a1 := send_dm alice_back bob_fp hello in
    let b1 := handle_noise_handshake bob4 (hs_packet a1 (node_eph_id bob4) m1) in
    let a2 := node_run a1 [OpClock 2000; OpTick] in
    let b2 := handle_noise_handshake b1 (hs_packet a2 (node_eph_id bob4) m1) in
    let a3 := handle_noise_handshake a2 (hs_packet bob4 (node_eph_id alice_back) m2) in
    let b3 := handle_direct_message (handle_noise_handshake b2 (hs_packet a2 (node_eph_id bob4) m3))
                (dm_packet a2 (node_eph_id bob4) ct) in
    events a3 = events alice_back ++ [DmSession bob_fp true]
    ∧ events b3 = events bob4 ++ [DmSession alice_fp true;
                                  DmReceived alice_fp (node_eph_id alice_back) (utf8_lossy hello) DM_KIND_TEXT].
Proof.
  split; [by vm_compute|].
  destruct (demo_in_session bob4 alice_back alice_fp) as [sb Hsb]; [by vm_compute|].
  destruct (session_recovered alice_back bob4 alice_fp bob_fp sb hello 2000)
    as (m1 & m2 & m3 & ct & _ & _ & _ & _ & _ & _ & _ & Hev & Hb).
  - apply demo_aware. by vm_compute.
  - apply (bool_decide_eq_true_1 _). by vm_compute.
  - apply (bool_decide_eq_true_1 _). by vm_compute.
  - exact Hsb.
  - apply (bool_decide_eq_true_1 _). by vm_compute.
  - by vm_compute.
  - done.
  - by vm_compute.
  - exists m1, m2, m3, ct. split; [exact Hev|]. exact (proj1 (Hb _ (or_introl eq_refl))).
Defined.
