(* ===== verification/NodeGlare.v ===== *)
(** * NodeGlare: two nodes that write to each other at the same time

    Both have started a handshake when the first message of the other's arrives. One attempt has
    to give way, and the texts that wait on both sides have to find their way over the session
    that comes out of the other. *)
From stdpp Require Import strings gmap.
From S2P Require Import Prelude Errors F64 Utf8 Clock External Toy Transport Wire Config Frag.
From S2P Require Import Compress Relay Channels Store Identity Noise Payloads Node NodeFrame Demo.
From S2P Require Import NodeTalk NodeHandshake NodeContact.

(** ** Roles *)

Section roles.
Context `{Snow, X25519}.

Lemma write_keeps_role s r s' : write_handshake s = (r, s') → initiator s' = initiator s.
Proof.
  unfold write_handshake. destruct (inner s); [|by intros [= _ <-]..].
  destruct (hs_write_message _ _ _) as [[buf|] hs']; [|by intros [= _ <-]].
  unfold maybe_transition. cbn. destruct (hs_is_handshake_finished hs'); [|by intros [= _ <-]].
  by destruct (hs_into_transport_mode hs'); intros [= _ <-].
Qed.

Lemma read_keeps_role s m r s' : read_handshake s m = (r, s') → initiator s' = initiator s.
Proof.
  unfold read_handshake. destruct (inner s); [|by intros [= _ <-]..].
  destruct (hs_read_message _ _ _) as [[buf|] hs']; [|by intros [= _ <-]].
  unfold maybe_transition. cbn. destruct (hs_is_handshake_finished hs'); [|by intros [= _ <-]].
  by destruct (hs_into_transport_mode hs'); intros [= _ <-].
Qed.

Lemma new_initiator_role x s : new_initiator x = Ok s → initiator s = true.
Proof.
  unfold new_initiator. destruct params; [|done..]. cbn [obind].
  destruct (map_err _); [|done..]. cbn [obind]. by intros [= <-].
Qed.

Lemma new_responder_role x s : new_responder x = Ok s → initiator s = false.
Proof.
  unfold new_responder. destruct params; [|done..]. cbn [obind].
  destruct (map_err _); [|done..]. cbn [obind]. by intros [= <-].
Qed.

(** A session that reads a handshake message was waiting for one. *)
Lemma reads_handshaking s m s' : read_handshake s m = (Ok tt, s') → is_handshaking s = true.
Proof. unfold read_handshake, is_handshaking. by destruct (inner s). Qed.

Context `{!X25519Laws, !SnowPaired, !SnowXX}.

Lemma handshake_roles x y k :
  handshake_of x y k →
  initiator (hk_i1 k) = true ∧ is_handshaking (hk_i1 k) = true
  ∧ initiator (hk_r2 k) = false ∧ is_handshaking (hk_r2 k) = true.
Proof.
  intros [Hi Hw1 Hr Hr1 Hw2 Hr2 _ Hr3 _ _ _ _ _ _]. split_and!.
  - by rewrite (write_keeps_role _ _ _ Hw1), (new_initiator_role _ _ Hi).
  - exact (reads_handshaking _ _ _ Hr2).
  - by rewrite (write_keeps_role _ _ _ Hw2), (read_keeps_role _ _ _ _ Hr1), (new_responder_role _ _ Hr).
  - exact (reads_handshaking _ _ _ Hr3).
Qed.
End roles.

Section glare.
Context `{Sha256, Ed25519, X25519, Snow, Lz4, Rand, HashIter, UnicodeCase}.
Context {S : Type} `{Store S}.
#[local] Abbreviation Node := (MeshNode (S:=S)).
Implicit Types n m a b : Node.

(** ** The tie-break *)

(** [n] has an attempt of its own under way when the first message of [m]'s arrives: the lower
    fingerprint keeps its attempt, the other one drops it and reads the message. *)
Lemma handle_glare n m fp s texts early body :
  midway n m fp s texts early → is_handshaking s = true → initiator s = true →
  zlen body = XX_MSG1_LEN →
  handle_noise_handshake n (hs_packet m (node_eph_id n) body) =
  if bytes_ltb (node_fingerprint n) fp then n
  else respond_handshake (drop_session n fp) fp body.
Proof.
  intros [[_ Ef _ _] Es _ _] Hh Hi Hl. unfold handle_noise_handshake.
  change (recipient (hs_packet m (node_eph_id n) body)) with (Some (node_eph_id n)).
  change (sender (hs_packet m (node_eph_id n) body)) with (node_eph_id m).
  change (payload (hs_packet m (node_eph_id n) body)) with body.
  rewrite bool_decide_eq_true_2, Ef by done. cbn [negb].
  assert (session_ready n fp = false) as ->.
  { unfold session_ready. rewrite Es. unfold is_ready, is_handshaking in *. by destruct (inner s). }
  cbn [negb]. rewrite Hl, Z.eqb_refl, Es, Hh, Hi. cbn [andb].
  by destruct (bytes_ltb (node_fingerprint n) fp).
Qed.

(** The side that gives way answers, and its texts go on waiting. *)
Lemma gives_way `{!SnowLaws, !X25519Laws, !SnowPaired, !SnowXX} n m fp s texts early x k :
  handshake_of x (dh_secret (identity n)) k →
  midway n m fp s texts early → is_handshaking s = true → initiator s = true →
  bytes_ltb (node_fingerprint n) fp = false →
  let p2 := hs_packet n (node_eph_id m) (hk_m2 k) in
  let n' := handle_noise_handshake n (hs_packet m (node_eph_id n) (hk_m1 k)) in
  midway n' m fp (hk_r2 k) texts early
  ∧ sent n' = sent n ++ flood_of n p2 ∧ events n' = events n ∧ store n' = store n ∧ sends_alike n n'
  ∧ fp_to_eph n' = fp_to_eph n ∧ eph_keys n' = eph_keys n.
Proof.
  intros Hk Hm Hh Hi Hlt p2 n'.
  assert (zlen (hk_m1 k) = XX_MSG1_LEN) as Hl by apply (ho_lengths _ _ _ Hk).
  unfold n'. rewrite (handle_glare n m fp s texts early (hk_m1 k) Hm Hh Hi Hl), Hlt.
  set (d := drop_session n fp).
  assert (met d m fp) as Hd by (destruct Hm as [[] _ _ _]; by split).
  destruct Hk as [_ _ Hr0 Hr1 Hw2 _ _ _ (_ & Ho1 & Ho2 & _) _ _ _ _ _].
  rewrite (respond_first d fp (node_eph_id m) (hk_r0 k) (hk_m1 k) (hk_r1 k) (hk_m2 k) (hk_r2 k)
    (kn_to _ _ _ Hd) (lookup_delete_eq _ _) Hr0 Hr1 Ho1 Hw2 Ho2).
  split; [|by split_and!].
  pose proof (answered_midway d m fp (hk_r0 k) (hk_r1 k) (hk_r2 k) (hs_packet d (node_eph_id m) (hk_m2 k)) Hd) as Hm2.
  change (pending_dms d) with (pending_dms n) in Hm2.
  change (pending_inbound_dms d) with (pending_inbound_dms n) in Hm2.
  by rewrite (mw_texts _ _ _ _ _ _ Hm), (mw_early _ _ _ _ _ _ Hm) in Hm2.
Qed.

(** ** One text over an open session *)

Lemma read_one n fp eph s ct t s' :
  noise_sessions n !! fp = Some s → fp_to_eph n !! fp = Some eph →
  decrypt s ct = (Ok (z2b DM_KIND_TEXT :: t), s') →
  let n' := decrypt_and_emit n fp ct in
  events n' = events n ++ [text_event fp eph t] ∧ store n' = keep_text fp (now n) (store n) t
  ∧ sent n' = sent n ∧ noise_sessions n' !! fp = Some s'
  ∧ fp_to_eph n' = fp_to_eph n ∧ eph_keys n' = eph_keys n ∧ identity n' = identity n.
Proof.
  intros Es Ef Ed. cbv zeta. rewrite (decrypt_and_emit_noted n fp s ct DM_KIND_TEXT t s') by done.
  change (DM_KIND_TEXT =? DM_KIND_VERIFY_NOTICE) with false. cbv iota.
  split_and!; try reflexivity; [|apply lookup_insert_eq].
  change (events (noted n fp s' DM_KIND_TEXT t)) with (events n ++ [DmReceived fp
    (default (zeroes 8) (fp_to_eph n !! fp)) (utf8_lossy t) DM_KIND_TEXT]). by rewrite Ef.
Qed.

(** A node whose session has just opened, and that hears one text over it. *)
Lemma opens_and_reads n m fp s pkts ct t s' e :
  e = node_eph_id n → met n m fp → is_ready s = true → decrypt s ct = (Ok (z2b DM_KIND_TEXT :: t), s') →
  let w := wrapped_up n fp s pkts in
  let n' := handle_direct_message w (dm_packet m e ct) in
  n' = decrypt_and_emit w fp ct ∧ sent n' = sent w
  ∧ events n' = events n ++ [DmSession fp true; text_event fp (node_eph_id m) t]
  ∧ store n' = keep_text fp (now n) (store n) t ∧ noise_sessions n' !! fp = Some s'
  ∧ fp_to_eph n' = fp_to_eph n ∧ eph_keys n' = eph_keys n ∧ identity n' = identity n.
Proof.
  intros -> [Et Ei _ _] Hr Ed. cbv zeta.
  destruct (wrapped_up_fields n fp s pkts) as (_ & Wev & Wst & Wn & Wses & Wto & Wek & Wid & _).
  set (w := wrapped_up _ _ _ _) in *. clearbody w.
  assert (noise_sessions w !! fp = Some s) as Ws by by rewrite Wses, lookup_insert_eq.
  assert (handle_direct_message w (dm_packet m (node_eph_id n) ct) = decrypt_and_emit w fp ct) as ->.
  { assert (node_eph_id n = node_eph_id w) as -> by (unfold node_eph_id; by rewrite Wid).
    apply (handle_dm_packet m w fp s ct); [unfold eph_to_fp; by rewrite Wek|exact Ws|exact Hr]. }
  destruct (read_one w fp (node_eph_id m) s ct t s') as (Rev & Rst & Rse & Rses & Rto & Rek & Rid);
    [exact Ws|by rewrite Wto|exact Ed|].
  split; [done|]. rewrite Rev, Rst, Rto, Rek, Rid, Wev, Wst, Wn, Wto, Wek, Wid, <- app_assoc.
  by split_and!.
Qed.

(** ** Both sides have a text for the session that opens *)

(** The responder when it has read the third message, [q] waiting at its end. *)
Definition third_read n (fp : Fingerprint) (s3 : NoiseSession) (q : gmap Fingerprint (list bytes)) : Node :=
  touch_handshake (put_session (set_pending_inbound_dms n q) fp s3) fp.

Lemma third_read_fields n m fp s3 q :
  let n' := third_read n fp s3 q in
  sends_alike n n' ∧ sent n' = sent n ∧ events n' = events n ∧ store n' = store n ∧ now n' = now n
  ∧ fp_to_eph n' = fp_to_eph n ∧ eph_keys n' = eph_keys n ∧ identity n' = identity n
  ∧ (met n m fp → met n' m fp).
Proof. split_and!; try done. intros []. by split. Qed.

Lemma set_same_inbound n : set_pending_inbound_dms n (pending_inbound_dms n) = n.
Proof. by destruct n. Qed.

(** It reads the third message with nothing waiting, and with the initiator's text waiting. *)
Lemma reads_third `{!SnowLaws, !X25519Laws, !SnowPaired, !SnowXX} n m fp x k t ct s' :
  handshake_of (dh_secret (identity m)) x k → midway n m fp (hk_r2 k) [t] [] →
  sealed (hk_r3 k) [t] [ct] s' →
  handle_noise_handshake n (hs_packet m (node_eph_id n) (hk_m3 k))
  = wrapped_up (third_read n fp (hk_r3 k) (pending_inbound_dms n)) fp s' [dm_packet n (node_eph_id m) ct].
Proof.
  intros Hk Hm Hs. pose proof (responder_done n m fp _ _ k [t] [] [ct] s' Hk eq_refl Hm Hs) as E.
  cbv zeta in E. rewrite foldl_nil, map_one in E. unfold third_read. by rewrite set_same_inbound.
Qed.

Lemma reads_third_late `{!SnowLaws, !X25519Laws, !SnowPaired, !SnowXX} n m fp x k t cm ct s' :
  handshake_of (dh_secret (identity m)) x k → midway n m fp (hk_r2 k) [t] [] →
  sealed (hk_r3 k) [t] [ct] s' →
  ∃ q, handle_noise_handshake (handle_direct_message n (dm_packet m (node_eph_id n) cm))
         (hs_packet m (node_eph_id n) (hk_m3 k))
       = decrypt_and_emit (wrapped_up (third_read n fp (hk_r3 k) q) fp s' [dm_packet n (node_eph_id m) ct]) fp cm.
Proof.
  intros Hk Hm Hs.
  destruct (texts_wait n m m fp (hk_r2 k) [t] [] [cm] Hm (proj1 (proj2 (proj2 (ho_open _ _ _ Hk))))
    ltac:(done) eq_refl) as (q & Ew & Hcm). rewrite foldl_one in Ew. unfold receive in Ew.
  exists q. rewrite Ew. unfold third_read. set (nq := set_pending_inbound_dms n q).
  assert (midway nq m fp (hk_r2 k) [t] [cm]) as Hnq by (destruct Hm as [[] ? ? ?]; by split).
  assert (sends_alike n nq) as Hal by by split. clearbody nq.
  pose proof (responder_done nq m fp _ _ k [t] [cm] [ct] s' Hk eq_refl Hnq Hs) as E.
  cbv zeta in E. rewrite foldl_one, map_one in E.
  by rewrite (dm_packet_alike n nq), (eph_id_alike n nq) in E by done.
Qed.

(** What the responder shows, keeps and sends, either way. *)
Lemma responder_reads `{!SnowLaws, !X25519Laws, !SnowPaired, !SnowXX} n m fp x k t tm ct cm s' s'' b4 :
  handshake_of (dh_secret (identity m)) x k → midway n m fp (hk_r2 k) [t] [] →
  sealed (hk_r3 k) [t] [ct] s' → is_ready s' = true →
  decrypt s' cm = (Ok (z2b DM_KIND_TEXT :: tm), s'') →
  let p3 := hs_packet m (node_eph_id n) (hk_m3 k) in
  let dm := dm_packet m (node_eph_id n) cm in
  let n3 := handle_noise_handshake n p3 in
  b4 = handle_direct_message n3 dm ∨ b4 = handle_noise_handshake (handle_direct_message n dm) p3 →
  sent n3 = sent n ++ flood_of n (dm_packet n (node_eph_id m) ct) ∧ sent b4 = sent n3
  ∧ events b4 = events n ++ [DmSession fp true; text_event fp (node_eph_id m) tm]
  ∧ store b4 = keep_text fp (now n) (store n) tm ∧ noise_sessions b4 !! fp = Some s''
  ∧ fp_to_eph b4 = fp_to_eph n ∧ eph_keys b4 = eph_keys n ∧ identity b4 = identity n.
Proof.
  intros Hk Hm Hs Hr Ed p3 dm n3 Hb4.
  pose proof (reads_third n m fp x k t ct s' Hk Hm Hs) as E3. fold p3 in E3. fold n3 in E3.
  assert (∃ q, b4 = decrypt_and_emit (wrapped_up (third_read n fp (hk_r3 k) q) fp s'
    [dm_packet n (node_eph_id m) ct]) fp cm) as [q ->].
  { destruct Hb4 as [->| ->]; [|exact (reads_third_late n m fp x k t cm ct s' Hk Hm Hs)].
    exists (pending_inbound_dms n). rewrite E3.
    destruct (third_read_fields n m fp (hk_r3 k) (pending_inbound_dms n)) as (Hal & _ & _ & _ & _ & _ & _ & _ & Hmet).
    set (nq := third_read n fp _ _) in *. clearbody nq.
    exact (proj1 (opens_and_reads nq m fp s' _ cm tm s'' _ (eq_sym (eph_id_alike _ _ Hal))
      (Hmet (mw_knows _ _ _ _ _ _ Hm)) Hr Ed)). }
  set (pkts := [dm_packet n (node_eph_id m) ct]) in *.
  assert (∀ q, sent (wrapped_up (third_read n fp (hk_r3 k) q) fp s' pkts)
    = sent n ++ flood_of n (dm_packet n (node_eph_id m) ct)) as Hw.
  { intros q'. destruct (third_read_fields n m fp (hk_r3 k) q') as (Hal & Tse & _).
    destruct (wrapped_up_fields (third_read n fp (hk_r3 k) q') fp s' pkts) as (-> & _).
    rewrite Tse. unfold pkts. rewrite map_one, concat_one. by rewrite (flood_of_alike n _ _ Hal). }
  destruct (third_read_fields n m fp (hk_r3 k) q)
    as (Hal & Tse & Tev & Tst & Tn & Tto & Tek & Tid & Hmet%(λ f, f (mw_knows _ _ _ _ _ _ Hm))).
  pose proof (Hw q) as Hwq. set (nq := third_read n fp (hk_r3 k) q) in *. clearbody nq.
  destruct (opens_and_reads nq m fp s' pkts cm tm s'' (node_eph_id n) (eq_sym (eph_id_alike _ _ Hal)) Hmet Hr Ed)
    as (<- & Ese & Eev & Est & Ess & Eto & Eek & Eid).
  rewrite Hwq in Ese. rewrite Tev in Eev. rewrite Tst, Tn in Est. rewrite E3, Hw.
  rewrite Tto in Eto. rewrite Tek in Eek. rewrite Tid in Eid. by split_and!.
Qed.

Lemma encrypts_text s (t : rstring) `{!SnowLaws, !X25519Laws, !SnowPaired, !SnowXX} :
  can_write s (2 ^ 64 - 1) → zlen t + 17 <= 65535 →
  ∃ ct s', encrypt s (z2b DM_KIND_TEXT :: t) = (Ok ct, s').
Proof.
  intros Hs Hl. destruct (can_write_encrypt s (z2b DM_KIND_TEXT :: t) (2 ^ 64 - 2)) as (ct & s' & E & _);
    [exact Hs|done|rewrite zlen_cons; lia|]. by exists ct, s'.
Qed.

(** [a] waits for the second message and [b] has sent it; each has one text for the other. The two
    texts cross, and [a]'s may come after its third message or before it. *)
Lemma texts_cross `{!SnowLaws, !X25519Laws, !SnowPaired, !SnowXX} a b fa fb k ta tb ca cb sa sb :
  handshake_of (dh_secret (identity a)) (dh_secret (identity b)) k →
  midway a b fb (hk_i1 k) [ta] [] → midway b a fa (hk_r2 k) [tb] [] →
  encrypt (hk_i3 k) (z2b DM_KIND_TEXT :: ta) = (Ok ca, sa) →
  encrypt (hk_r3 k) (z2b DM_KIND_TEXT :: tb) = (Ok cb, sb) →
  let p3 := hs_packet a (node_eph_id b) (hk_m3 k) in
  let da := dm_packet a (node_eph_id b) ca in
  let db := dm_packet b (node_eph_id a) cb in
  let a3 := handle_noise_handshake a (hs_packet b (node_eph_id a) (hk_m2 k)) in
  let b3 := handle_noise_handshake b p3 in
  let a4 := handle_direct_message a3 db in
  sent a3 = sent a ++ flood_of a p3 ++ flood_of a da ∧ sent b3 = sent b ++ flood_of b db
  ∧ events a4 = events a ++ [DmSession fb true; text_event fb (node_eph_id b) tb]
  ∧ store a4 = keep_text fb (now a) (store a) tb ∧ sent a4 = sent a3
  ∧ ∀ b4, b4 = handle_direct_message b3 da
          ∨ b4 = handle_noise_handshake (handle_direct_message b da) p3 →
    events b4 = events b ++ [DmSession fa true; text_event fa (node_eph_id a) ta]
    ∧ store b4 = keep_text fa (now b) (store b) ta ∧ sent b4 = sent b3
    ∧ ∃ sa' sb', conversing a4 b4 fa fb sa' sb'.
Proof.
  intros Hk Ha Hb Ea Eb p3 da db a3 b3 a4.
  destruct (talk_cross _ _ _ _ _ _ _ _ (ho_talking _ _ _ Hk) Ea Eb) as (sa' & sb' & Da & Db & Ht).
  pose proof (mw_knows _ _ _ _ _ _ Ha) as Hka. pose proof (mw_knows _ _ _ _ _ _ Hb) as Hkb.
  destruct (ho_talking _ _ _ Hk) as [Hab Hba].
  assert (is_ready sa = true) as Hra
    by apply (in_step_ready _ _ (in_step_back_encrypt _ _ _ _ _ Hba Ea)).
  assert (is_ready sb = true) as Hrb
    by apply (in_step_ready _ _ (in_step_back_encrypt _ _ _ _ _ Hab Eb)).
  assert (sealed (hk_i3 k) [ta] [ca] sa) as Hsa by by exists sa.
  assert (sealed (hk_r3 k) [tb] [cb] sb) as Hsb by by exists sb.
  pose proof (initiator_done a b fb _ _ k [ta] [] [ca] sa Hk eq_refl Ha Hsa) as Ea3.
  cbv zeta in Ea3. cbn [foldl map] in Ea3. fold p3 da in Ea3. fold a3 in Ea3.
  set (na := third_sent a fb (hk_i2 k) (hk_i3 k) p3) in *.
  assert (met na b fb) as Hna by (destruct Hka; by split).
  destruct (opens_and_reads na b fb sa [da] cb tb sa' (node_eph_id a) eq_refl Hna Hra Db)
    as (_ & Ase & Aev & Ast & Ass & Ato & Aek & Aid).
  rewrite <- Ea3 in Ase, Aev, Ast, Ass, Ato, Aek, Aid.
  pose proof (λ b4, responder_reads b a fa _ k tb ta cb ca sb sb' b4 Hk Hb Hsb Hrb Da) as Hb4.
  split.
  { rewrite Ea3. destruct (wrapped_up_fields na fb sa [da]) as (-> & _). cbn [map concat].
    rewrite app_nil_r, app_assoc. reflexivity. }
  split; [exact (proj1 (Hb4 _ (or_introl eq_refl)))|].
  split; [exact Aev|]. split; [exact Ast|]. split; [exact Ase|].
  intros b4 Hor. destruct (Hb4 b4 Hor) as (_ & Bse & Bev & Bst & Bss & Bto & Bek & Bid).
  split; [exact Bev|]. split; [exact Bst|]. split; [exact Bse|]. exists sa', sb'.
  exact (conversing_after a a4 b b4 fa fb sa' sb' Hka Hkb Ht Ass Bss Ato Aek Aid Bto Bek Bid).
Qed.

(** C22: simultaneous handshakes resolve, and nothing that was written is lost. [a] and [b] have
    each written to the other without a session, so each has started a handshake when it gets the
    other's first message; [a] has the lower fingerprint. [a] goes on as if it had not got that
    message. [b] drops its own attempt, becomes the responder of [a]'s and answers it, and its text
    goes on waiting. The other two messages open the session on both sides; [a]'s text goes out
    with the third message and [b]'s when that message arrives, and the two texts cross: each side
    is told of the session once and shows and stores the other's text once, as written, also if
    [a]'s text overtakes the third message. Nothing else is sent, and the two can go on talking. *)
Theorem glare_resolved `{!SnowLaws, !X25519Laws, !SnowPaired, !SnowXX} a b fa fb (ta tb : rstring) :
  aware a b fb → aware b a fa → fa = node_fingerprint a → fb = node_fingerprint b →
  bytes_ltb fa fb = true → zlen ta + 17 <= 65535 → zlen tb + 17 <= 65535 →
  ∃ ma mb m2 m3 ca cb : bytes,
    let pa := hs_packet a (node_eph_id b) ma in
    let pb := hs_packet b (node_eph_id a) mb in
    let p2 := hs_packet b (node_eph_id a) m2 in
    let p3 := hs_packet a (node_eph_id b) m3 in
    let da := dm_packet a (node_eph_id b) ca in
    let db := dm_packet b (node_eph_id a) cb in
    let a1 := send_dm a fb ta in
    let b1 := send_dm b fa tb in
    let b2 := handle_noise_handshake b1 pa in
    let a3 := handle_noise_handshake a1 p2 in
    let b3 := handle_noise_handshake b2 p3 in
    let a4 := handle_direct_message a3 db in
    sent a1 = sent a ++ flood_of a pa ∧ sent b1 = sent b ++ flood_of b pb
    ∧ handle_noise_handshake a1 pb = a1
    ∧ sent b2 = sent b1 ++ flood_of b p2
    ∧ (∃ s, noise_sessions b2 !! fa = Some s ∧ is_handshaking s = true ∧ initiator s = false)
    ∧ sent a3 = sent a1 ++ flood_of a p3 ++ flood_of a da ∧ sent b3 = sent b2 ++ flood_of b db
    ∧ events a4 = events a ++ [DmSession fb true; text_event fb (node_eph_id b) tb]
    ∧ store a4 = keep_text fb (now a) (put_dm (store a)
        {| dm_peer := fb; mine := true; dm_timestamp_ms := now a; dm_body := ta |}) tb
    ∧ sent a4 = sent a3
    ∧ ∀ b4, b4 = handle_direct_message b3 da
            ∨ b4 = handle_noise_handshake (handle_direct_message b2 da) p3 →
      events b4 = events b ++ [DmSession fa true; text_event fa (node_eph_id a) ta]
      ∧ store b4 = keep_text fa (now b) (put_dm (store b)
          {| dm_peer := fa; mine := true; dm_timestamp_ms := now b; dm_body := tb |}) ta
      ∧ sent b4 = sent b3
      ∧ ∃ sa sb, conversing a4 b4 fa fb sa sb.
Proof.
  intros Ha Hb Efa Efb Hlt Hla Hlb.
  destruct (handshake_exists (dh_secret (identity a)) (dh_secret (identity b))) as [k Hk].
  destruct (handshake_exists (dh_secret (identity b)) (dh_secret (identity a))) as [kb Hkb].
  destruct (handshake_roles _ _ k Hk) as (Ra & Oa & Rr & Or).
  destruct (handshake_roles _ _ kb Hkb) as (Rb & Ob & _).
  destruct (encrypts_text (hk_i3 k) ta (proj1 (ho_writes _ _ _ Hk)) Hla) as (ca & sa & Eca).
  destruct (encrypts_text (hk_r3 k) tb (proj2 (ho_writes _ _ _ Hk)) Hlb) as (cb & sb & Ecb).
  exists (hk_m1 k), (hk_m1 kb), (hk_m2 k), (hk_m3 k), ca, cb. cbv zeta.
  rewrite (send_dm_first a b fb ta _ _ k Hk eq_refl Ha), (send_dm_first b a fa tb _ _ kb Hkb eq_refl Hb).
  destruct (started_fields a b fb ta (hk_i1 k) (hs_packet a (node_eph_id b) (hk_m1 k)))
    as (Hsa1 & Hea1 & Hta1 & Ala & _ & _ & _ & Ha1%(λ f, f Ha)).
  destruct (started_fields b a fa tb (hk_i1 kb) (hs_packet b (node_eph_id a) (hk_m1 kb)))
    as (Hsb1 & Heb1 & Htb1 & Alb & _ & _ & _ & Hb1%(λ f, f Hb)).
  set (a1 := started a fb ta _ _) in *. set (b1 := started b fa tb _ _) in *. clearbody a1 b1.
  assert (node_fingerprint a1 = fa ∧ node_fingerprint b1 = fb) as [Fa Fb].
  { unfold node_fingerprint. by rewrite (sa_identity _ _ Ala), (sa_identity _ _ Alb). }
  assert (zlen (hk_m1 kb) = XX_MSG1_LEN) as Hl by apply (ho_lengths _ _ _ Hkb).
  pose proof (handle_glare a1 b fb (hk_i1 k) [ta] [] (hk_m1 kb) Ha1 Oa Ra Hl) as Eg. rewrite Fa, Hlt in Eg.
  destruct (gives_way b1 a fa (hk_i1 kb) [tb] [] (dh_secret (identity a)) k) as (Hb2 & Hsb2 & Heb2 & Htb2 & Alb2 & _);
    [by rewrite (sa_identity _ _ Alb)|exact Hb1|exact Ob|exact Rb| |].
  { rewrite Fb, bytes_ltb_trichotomy, Hlt; [done|]. by apply bytes_ltb_spec in Hlt as [_ ?]. }
  rewrite (eph_id_alike b b1) in Hb2, Hsb2, Heb2, Htb2, Alb2 by done.
  set (b2 := handle_noise_handshake b1 _) in *. clearbody b2.
  assert (sends_alike b b2) as Alb' by by etrans.
  pose proof (texts_cross a1 b2 fa fb k ta tb ca cb sa sb) as Hx.
  rewrite (sa_identity _ _ Ala), (sa_identity _ _ Alb') in Hx.
  specialize (Hx Hk (midway_peer a1 b b2 fb _ _ _ (sa_identity _ _ Alb') Ha1)
    (midway_peer b2 a a1 fa _ _ _ (sa_identity _ _ Ala) Hb2) Eca Ecb). cbv zeta in Hx.
  rewrite ?(eph_id_alike a a1), ?(hs_packet_alike a a1), ?(dm_packet_alike a a1), ?(flood_of_alike a a1),
    ?(eph_id_alike b b2), ?(hs_packet_alike b b2), ?(dm_packet_alike b b2), ?(flood_of_alike b b2),
    ?(sa_now _ _ Ala), ?(sa_now _ _ Alb') in Hx by done.
  rewrite ?(hs_packet_alike b b1), ?(flood_of_alike b b1) in Hsb2 by done.
  rewrite (eph_id_alike a a1) in Eg by done.
  rewrite Heb2, Heb1, Htb2, Htb1, Hea1, Hta1 in Hx. destruct Hx as (X1 & X2 & X3 & X4 & X5 & X6).
  split; [exact Hsa1|]. split; [exact Hsb1|]. split; [exact Eg|]. split; [exact Hsb2|].
  split; [exists (hk_r2 k); split_and!; [exact (mw_session _ _ _ _ _ _ Hb2)|done..]|].
  by split_and!.
Qed.
End glare.

(** ** Witness: Alice and Bob, who have heard each other's announces, both write first *)

Lemma glare_resolved_witness :
  ∃ ma mb m2 m3 ca cb : bytes,
    let a := bob2 in
    let b := alice2 in
    let b2 := handle_noise_handshake (send_dm b bob_fp hello) (hs_packet a (node_eph_id b) ma) in
    let a3 := handle_noise_handshake (send_dm a alice_fp hello) (hs_packet b (node_eph_id a) m2) in
    let a4 := handle_direct_message a3 (dm_packet b (node_eph_id a) cb) in
    let b4 := handle_noise_handshake (handle_direct_message b2 (dm_packet a (node_eph_id b) ca))
                (hs_packet a (node_eph_id b) m3) in
    handle_noise_handshake (send_dm a alice_fp hello) (hs_packet b (node_eph_id a) mb) = send_dm a alice_fp hello
    ∧ events a4 = events a ++ [DmSession alice_fp true; text_event alice_fp (node_eph_id b) hello]
    ∧ events b4 = events b ++ [DmSession bob_fp true; text_event bob_fp (node_eph_id a) hello].
Proof.
  destruct (glare_resolved bob2 alice2 bob_fp alice_fp hello hello) as
    (ma & mb & m2 & m3 & ca & cb & _ & _ & Hg & _ & _ & _ & _ & Ha & _ & _ & Hb).
  - apply demo_aware. by vm_compute.
  - apply demo_aware. by vm_compute.
  - apply (bool_decide_eq_true_1 _). by vm_compute.
  - apply (bool_decide_eq_true_1 _). by vm_compute.
  - by vm_compute.
  - by vm_compute.
  - by vm_compute.
  - exists ma, mb, m2, m3, ca, cb. split; [exact Hg|]. split; [exact Ha|].
    exact (proj1 (Hb _ (or_intror eq_refl))).
Defined.
