(* ===== verification/NodeFlood.v ===== *)
(** * NodeFlood: a channel message on its way through many nodes

    The life of a flooded message over a line of nodes, from the origin's command through the
    frames on every link, the reassembly, the handler and the rebroadcast of each node on the way. *)
From stdpp Require Import strings gmap.
From S2P Require Import Prelude Errors F64 Utf8 Clock External Toy Transport Wire Config Frag.
From S2P Require Import Compress Relay Channels Store Identity Noise Payloads Node NodeFrame Demo.
From S2P Require Import NodeRelay.

(** ** Packets with another hop counter *)

Lemma canonical_set_ttl p t : packet_canonical p → in_width 8 t → packet_canonical (set_ttl p t).
Proof. intros [[] ? ? ? ?] Ht. by split. Qed.

Lemma encode_set_ttl_length p t : zlen (encode (set_ttl p t)) = zlen (encode p).
Proof. unfold encode, zlen. by rewrite !length_app. Qed.

Lemma btree_iter_single {V} (k : bytes) (v : V) : btree_iter (<[k := v]> (∅ : gmap bytes V)) = [(k, v)].
Proof.
  apply Permutation_singleton_r. rewrite btree_iter_perm.
  by rewrite insert_empty, map_to_list_singleton.
Qed.

Section flood.
Context `{Sha256, Ed25519, X25519, Snow, Lz4, Rand, HashIter, UnicodeCase}.
Context {S : Type} `{Store S}.
#[local] Abbreviation Node := (MeshNode (S:=S)).
Implicit Types n : Node.

(** ** One node on the way *)

(** A node on the way, with a link [st_in] to the node before it and a link [st_out] to the node
    after it: the frames as they come in over [st_in], and the time of the tick after the jitter. *)
Record Stop := mkStop {
  st_node : Node;
  st_in : LinkId;
  st_out : LinkId;
  st_heard : list bytes;
  st_tick : Millis;
}.

(** What the node is after the frames and the tick. *)
Definition heard_all (s : Stop) : Node := on_frames (st_node s) (st_in s) (st_heard s).
Definition pass (s : Stop) : Node := (tick (set_now (heard_all s) (st_tick s))).2.

(** The frames it has put on the link to the next node. *)
Definition emitted (s : Stop) : list bytes :=
  drop (length (sent_on (st_out s) (st_node s))) (sent_on (st_out s) (pass s)).

(** What a link makes of frames: of none nothing comes in; of some all come in, in any order, and
    with any repetitions before the last missing one. *)
Definition delivers (frames heard : list bytes) : Prop :=
  match frames with
  | [] => heard = []
  | _ => ∃ pre f, heard = pre ++ [f] ∧ last_missing frames pre f
  end.

(** Each node hears what its link makes of whatever the node before it has put there - of nothing,
    when that node has put nothing there. *)
Fixpoint carried (frames : list bytes) (stops : list Stop) : Prop :=
  match stops with
  | [] => True
  | s :: stops => delivers frames (st_heard s) ∧ carried (emitted s) stops
  end.

(** What a message needs of a node on the way: room in the reassembler, a digest not seen before, a
    sender within its rate, nothing else to relay, a coin that falls for relaying, a tick after the
    jitter, no handshake to retry, and another link to go on over. *)
Record receptive (pkt : Packet) (s : Stop) : Prop := {
  rc_room : ready_for (reassembler (st_node s)) (digest pkt) (zlen (encode pkt));
  rc_fresh : seen_map (seen (st_node s)) !! digest pkt = None;
  rc_admitted : (allow (rate (st_node s)) (sender pkt) (now (st_node s))).1 = true;
  rc_idle : pending (scheduler (st_node s)) = ∅;
  rc_coin : (should_relay (msize (links (st_node s))) (node_cfg (st_node s)) (rng (st_node s))).1 = true;
  rc_clock : 0 <= relay_due_at (st_node s) < 2 ^ 64 ∧ relay_due_at (st_node s) <= st_tick s;
  rc_threshold : 1 < suppression_threshold (sched_cfg (scheduler (st_node s)));
  rc_quiet : quiet (st_node s) (st_tick s);
  rc_on : st_out s ≠ st_in s;
}.

(** ** What the handler does *)

(** The node after a fresh channel packet was accepted, before it is relayed. *)
Definition taken_in n (pkt : Packet) (channel text : rstring) (known : bool) : Node :=
  let n := set_seen n (observe (seen n) (digest pkt) (now n)).2 in
  let n := set_rate n (allow (rate n) (sender pkt) (now n)).2 in
  let n := set_store n (put_channel_message (store n)
    {| sm_digest := digest pkt; sm_channel := channel; sm_sender := sender pkt;
       sm_timestamp_ms := timestamp_ms pkt; sm_body := text; sm_raw := encode pkt |}) in
  if bool_decide (channel ∈ subscribed n)
  then push_event n (MessageReceived channel (sender pkt) text (timestamp_ms pkt) known) else n.

(** Whether the key the node has for the sender, if any, vouches for the packet. *)
Definition vouched n (pkt : Packet) : option bool :=
  match match eph_keys n !! sender pkt with Some pk => vk_from_bytes pk | None => None end with
  | Some vk => if is_ok (Wire.verify pkt vk) then Some true else None
  | None => Some false
  end.

Lemma on_packet_channel n link pkt channel text known :
  msg_type pkt = ChannelMessage → seen_map (seen n) !! digest pkt = None →
  (allow (rate n) (sender pkt) (now n)).1 = true →
  decode_channel (payload pkt) (node_cfg n) = Ok (channel, text) → vouched n pkt = Some known →
  on_packet n link pkt = maybe_relay (taken_in n pkt channel text known) link pkt.
Proof.
  intros Ht Hs Ha Hd Hv. unfold on_packet. rewrite Ht, bool_decide_eq_false_2 by done. unfold taken_in.
  unfold observe. rewrite Hs. cbn [is_new negb rate set_seen now snd].
  destruct (allow (rate n) (sender pkt) (now n)) as [ok r]. cbn [fst] in Ha. subst ok. cbn [negb snd].
  f_equal. unfold dispatch. rewrite Ht. unfold handle_channel. cbn [node_cfg set_rate set_seen].
  rewrite Hd. cbv zeta. unfold vouched in Hv. cbn [eph_keys set_rate set_seen]. by rewrite Hv.
Qed.

Lemma accepted_fields n pkt channel text known :
  let m := taken_in n pkt channel text known in
  links m = links n ∧ node_cfg m = node_cfg n ∧ rng m = rng n ∧ scheduler m = scheduler n
  ∧ now m = now n ∧ sent m = sent n ∧ seen m = (observe (seen n) (digest pkt) (now n)).2
  ∧ (∀ t, quiet n t → quiet m t) ∧ relay_due_at m = relay_due_at n.
Proof. unfold taken_in. cbv zeta. by destruct (bool_decide _). Qed.

(** ** What the tick does *)

(** A tick without handshakes to retry changes neither the store nor the events. *)
Lemma tick_keeps n : quiet n (now n) → store (tick n).2 = store n ∧ events (tick n).2 = events n.
Proof.
  intros Hq. unfold tick. rewrite due_spec. cbn [snd].
  set (ready := map to_due _). set (sched' := {| pending := _; sched_cfg := _ |}).
  destruct (relay_loop_sent 0 ready (set_scheduler n sched')) as [_ (s & r & E)].
  unfold relay_step in E. rewrite E. rewrite retry_quiet; [done|]. intros fp. apply Hq.
Qed.

(** The frames of a rebroadcast on the link to the next node: of the packet with one hop less, cut
    up for that link. *)
Definition onward (n : Node) (out : LinkId) (pkt : Packet) : list bytes :=
  match links n !! out with Some st => frames_for (set_ttl pkt (ttl pkt - 1)) (mtu st) | None => [] end.

(** A node with nothing else to relay, when the tick comes after the jitter. *)
Lemma tick_relays n link pkt out t e :
  1 < ttl pkt → (should_relay (msize (links n)) (node_cfg n) (rng n)).1 = true →
  pending (scheduler n) = ∅ → 0 <= relay_due_at n < 2 ^ 64 → relay_due_at n <= t → quiet n t →
  seen_map (seen n) !! digest pkt = Some e →
  entry_hear_count e < suppression_threshold (sched_cfg (scheduler n)) → out ≠ link →
  let m := set_now (maybe_relay n link pkt) t in
  sent_on out (tick m).2 = sent_on out n ++ onward n out pkt ∧ quiet m (now m).
Proof.
  intros Ht Hr Hp Hw Hle Hq He Hlt Hout m.
  assert (pending (scheduler n) !! digest pkt = None) as Hnone by by rewrite Hp.
  destruct (maybe_relay_schedules n link pkt Ht Hr Hnone Hw) as [rng' E]. unfold m. rewrite E, Hp.
  set (m' := set_now _ t). assert (quiet m' (now m')) as Hqm by exact Hq. split; [|exact Hqm].
  rewrite (proj1 (tick_sent m' _ _ out Hqm (due_spec _ _ _))).
  unfold m'. cbn [scheduler set_now set_scheduler pending sched_cfg]. rewrite btree_iter_single.
  cbn [List.filter fst snd send_at_ms now set_now seen set_scheduler set_rng].
  rewrite (proj2 (Z.leb_le _ _)) by done. unfold hear_count. rewrite He.
  rewrite (proj2 (Z.ltb_lt _ _)) by done. cbn [andb map concat]. rewrite app_nil_r. f_equal.
  unfold relay_frames, onward. cbn [to_due exclude_link pend_exclude_link due_packet pend_packet snd links set_now].
  rewrite bool_decide_eq_false_2 by congruence. done.
Qed.

(** On its last hop a packet is not relayed. *)
Lemma tick_rests n link pkt out t :
  ttl pkt <= 1 → pending (scheduler n) = ∅ → quiet n t →
  let m := set_now (maybe_relay n link pkt) t in
  sent_on out (tick m).2 = sent_on out n ∧ quiet m (now m).
Proof.
  intros Ht Hp Hq m. unfold m, maybe_relay. rewrite (proj2 (Z.leb_le _ _)) by done.
  assert (quiet (set_now n t) (now (set_now n t))) as Hqm by exact Hq. split; [|exact Hqm].
  rewrite (proj1 (tick_sent (set_now n t) _ _ out Hqm (due_spec _ _ _))).
  cbn [scheduler set_now]. rewrite Hp. apply app_nil_r.
Qed.

Lemma maybe_relay_keeps n link pkt :
  store (maybe_relay n link pkt) = store n ∧ events (maybe_relay n link pkt) = events n.
Proof.
  unfold maybe_relay. destruct (_ <=? _); [done|]. destruct (should_relay _ _ _) as [[] r]; [|done].
  cbn [negb]. by destruct (relay_delay _ _).
Qed.

(** ** One node, from the frames to the tick *)

Section one.
Context `{!Sha256Laws} (pkt : Packet) (m : Z) (s : Stop) (channel text : rstring) (known : bool).
Context (Hc : packet_canonical pkt) (Ht : msg_type pkt = ChannelMessage) (Hs : receptive pkt s).
Context (pre : list bytes) (f : bytes) (Hheard : st_heard s = pre ++ [f]).
Context (Hlast : last_missing (frames_for pkt m) pre f).
Context (Hdec : decode_channel (payload pkt) (node_cfg (st_node s)) = Ok (channel, text)).
Context (Hv : vouched (st_node s) pkt = Some known).
#[local] Abbreviation a := (taken_in (st_node s) pkt channel text known).

Lemma heard_all_spec : heard_all s = maybe_relay a (st_in s) pkt.
Proof.
  destruct Hs as [Hroom Hfresh Hadm _ _ _ _ _ _]. unfold heard_all. rewrite Hheard.
  unfold frames_for in Hlast.
  destruct (split (encode pkt) (digest pkt) m) as [frames|e|] eqn:Es;
    [|destruct Hlast as [Hf _]; by apply not_elem_of_nil in Hf..].
  rewrite (frames_delivered _ (st_in s) (digest pkt) (encode pkt) m frames pkt);
    [|done|apply digest_length|done|done|by apply encode_complete].
  by apply on_packet_channel.
Qed.

Lemma pass_frames :
  sent_on (st_out s) (pass s) = sent_on (st_out s) (st_node s)
    ++ (if 1 <? ttl pkt then onward (st_node s) (st_out s) pkt else [])
  ∧ quiet (set_now (heard_all s) (st_tick s)) (st_tick s).
Proof.
  destruct Hs as [_ Hfresh _ Hidle Hcoin [Hw Hle] Hthr Hq Hon].
  destruct (accepted_fields (st_node s) pkt channel text known)
    as (El & Ec & Er & Es & En & Et & Ee & Eq & Ed).
  assert (seen_map (seen a) !! digest pkt
    = Some {| Relay.first_seen_ms := now (st_node s); entry_hear_count := 1 |}) as Hseen.
  { rewrite Ee. unfold observe. rewrite Hfresh. apply lookup_insert_eq. }
  assert (sent_on (st_out s) a = sent_on (st_out s) (st_node s)) as Esent by (unfold sent_on; by rewrite Et).
  assert (onward a (st_out s) pkt = onward (st_node s) (st_out s) pkt) as Eon
    by (unfold onward; by rewrite El).
  rewrite <- El, <- Ec, <- Er in Hcoin. rewrite <- Es in Hidle, Hthr. rewrite <- Ed in Hw, Hle.
  apply Eq in Hq. unfold pass. rewrite heard_all_spec, <- Esent, <- Eon.
  destruct (1 <? ttl pkt) eqn:E.
  - exact (tick_relays a (st_in s) pkt (st_out s) (st_tick s) _ (proj1 (Z.ltb_lt _ _) E) Hcoin Hidle
      Hw Hle Hq Hseen Hthr Hon).
  - rewrite app_nil_r. exact (tick_rests a (st_in s) pkt (st_out s) (st_tick s) (proj1 (Z.ltb_ge _ _) E)
      Hidle Hq).
Qed.

Lemma pass_spec :
  store (pass s) = store a ∧ events (pass s) = events a
  ∧ emitted s = if 1 <? ttl pkt then onward (st_node s) (st_out s) pkt else [].
Proof.
  destruct pass_frames as [Hf Hq]. destruct (maybe_relay_keeps a (st_in s) pkt) as [Ks Ke].
  destruct (tick_keeps (set_now (heard_all s) (st_tick s)) Hq) as [Es Ee].
  unfold emitted. rewrite Hf, drop_app_length. unfold pass. rewrite Es, Ee. cbn [store events set_now].
  by rewrite heard_all_spec, Ks, Ke.
Qed.
End one.

(** ** The line *)

Lemma set_ttl_set_ttl pkt t t' : set_ttl (set_ttl pkt t) t' = set_ttl pkt t'.
Proof. done. Qed.

Lemma set_ttl_id pkt : set_ttl pkt (ttl pkt) = pkt.
Proof. by destruct pkt. Qed.

Lemma vouched_set_ttl n pkt t : vouched n (set_ttl pkt t) = vouched n pkt.
Proof. done. Qed.

Lemma receptive_set_ttl pkt t s : receptive pkt s → receptive (set_ttl pkt t) s.
Proof. intros []. split; rewrite ?digest_set_ttl, ?encode_set_ttl_length; done. Qed.

(** A packet that can be cut up for a link, whatever its hop counter. *)
Definition fits_link (pkt : Packet) (m : Z) : Prop := is_ok (split (encode pkt) (digest pkt) m) = true.

Lemma fits_link_set_ttl pkt t m : fits_link pkt m → fits_link (set_ttl pkt t) m.
Proof.
  unfold fits_link. rewrite digest_set_ttl. unfold split. rewrite encode_set_ttl_length.
  destruct (m <=? FRAG_HEADER); [done|]. destruct (zlen (encode pkt) <? m); [done|].
  cbv zeta. by destruct (_ >? 65535).
Qed.

Lemma fits_link_frames pkt m : fits_link pkt m → frames_for pkt m ≠ [].
Proof.
  unfold fits_link, frames_for. destruct (split _ _ _) as [fs|e|] eqn:E; [|done..]. intros _ ->.
  apply split_Ok in E as (_ & [[_ E]|(cs & _ & Hn & _ & E)]); [done|].
  destruct cs as [|c cs]; [change (zlen (A:=bytes) []) with 0 in Hn; lia|done].
Qed.

Lemma delivers_some frames heard :
  frames ≠ [] → delivers frames heard → ∃ pre f, heard = pre ++ [f] ∧ last_missing frames pre f.
Proof. by destruct frames. Qed.

(** The next link of a stop, for a line that goes on. *)
Definition goes_on (pkt : Packet) (s : Stop) : Prop :=
  ∃ st, links (st_node s) !! st_out s = Some st ∧ fits_link pkt (mtu st).

(** What a message is read as at a stop. *)
Record readable (pkt : Packet) (channel text : rstring) (known : Stop → bool) (s : Stop) : Prop := {
  rd_receptive : receptive pkt s;
  rd_decode : decode_channel (payload pkt) (node_cfg (st_node s)) = Ok (channel, text);
  rd_vouched : vouched (st_node s) pkt = Some (known s);
}.

(** A stop that hears nothing. *)
Lemma nothing_heard pkt s :
  receptive pkt s → st_heard s = [] →
  store (pass s) = store (st_node s) ∧ events (pass s) = events (st_node s) ∧ emitted s = [].
Proof.
  intros [_ _ _ Hidle _ _ _ Hq _] Eh. assert (heard_all s = st_node s) as Ea.
  { unfold heard_all. by rewrite Eh. }
  set (n := set_now (st_node s) (st_tick s)). assert (quiet n (now n)) as Hqn by exact Hq.
  destruct (tick_keeps n Hqn) as [Es Ee]. unfold emitted, pass. rewrite Ea. fold n.
  split; [exact Es|]. split; [exact Ee|].
  assert (sent_on (st_out s) (tick n).2 = sent_on (st_out s) (st_node s)) as ->;
    [|by rewrite drop_all].
  rewrite (proj1 (tick_sent n _ _ (st_out s) Hqn (due_spec _ _ _))).
  change (pending (scheduler n)) with (pending (scheduler (st_node s))). rewrite Hidle. apply app_nil_r.
Qed.

(** What a stop has done when the message came to it with the hop counter [t]. *)
Definition passed_on (pkt : Packet) (channel text : rstring) (known : Stop → bool) (s : Stop) (t : Z) : Prop :=
  let a := taken_in (st_node s) (set_ttl pkt t) channel text (known s) in
  store (pass s) = store a ∧ events (pass s) = events a
  ∧ emitted s = if 1 <? t then onward (st_node s) (st_out s) (set_ttl pkt t) else [].

(** What a stop has done that the message did not come to. *)
Definition untouched (s : Stop) : Prop :=
  st_heard s = [] ∧ store (pass s) = store (st_node s) ∧ events (pass s) = events (st_node s)
  ∧ emitted s = [].

Lemma silent_line pkt stops :
  Forall (receptive pkt) stops → carried [] stops → Forall untouched stops.
Proof.
  induction 1 as [|s stops Hr Hall IH]; [done|]. intros [Hh Hcar].
  destruct (nothing_heard pkt s Hr Hh) as (Es & Ee & Em). rewrite Em in Hcar.
  constructor; [done|]. by apply IH.
Qed.

Lemma carried_line `{!Sha256Laws} channel text known stops :
  ∀ pkt m,
    packet_canonical pkt → msg_type pkt = ChannelMessage → fits_link pkt m →
    Forall (readable pkt channel text known) stops → Forall (goes_on pkt) (removelast stops) →
    carried (frames_for pkt m) stops →
    ∀ i s, stops !! i = Some s →
      if Z.of_nat i <? Z.max 1 (ttl pkt) then passed_on pkt channel text known s (ttl pkt - Z.of_nat i)
      else untouched s.
Proof.
  induction stops as [|s stops IH]; intros pkt m Hc Ht Hfit Hall Hon Hcar; [done|].
  apply Forall_cons in Hall as [[Hr Hd Hv] Hall]. destruct Hcar as [Hdel Hcar].
  destruct (delivers_some _ _ (fits_link_frames _ _ Hfit) Hdel) as (pre & f & Hh & Hlast).
  destruct (pass_spec pkt m s channel text (known s) Hc Ht Hr pre f Hh Hlast Hd Hv) as (Es & Ee & Eem).
  intros [|i] s' Hi.
  { injection Hi as <-. rewrite (proj2 (Z.ltb_lt _ _)) by lia. unfold passed_on.
    change (Z.of_nat 0) with 0. rewrite Z.sub_0_r, set_ttl_id. done. }
  change (stops !! i = Some s') in Hi. rewrite Eem in Hcar.
  destruct (Z.ltb_spec 1 (ttl pkt)) as [El|El].
  - assert (goes_on pkt s ∧ Forall (goes_on pkt) (removelast stops)) as [(st & Hl & Hf) Hon'].
    { destruct stops as [|s2 stops]; [done|]. by apply Forall_cons in Hon. }
    unfold onward in Hcar. rewrite Hl in Hcar. set (p := set_ttl pkt (ttl pkt - 1)) in *.
    assert (packet_canonical p) as Hcp.
    { apply canonical_set_ttl; [done|]. pose proof (pt_ttl _ (pc_typed _ Hc)). unfold in_width in *. lia. }
    specialize (IH p (mtu st) Hcp Ht (fits_link_set_ttl _ _ _ Hf)).
    specialize (λ A B, IH A B Hcar i s' Hi). unfold passed_on in *.
    replace (ttl pkt - Z.of_nat (Datatypes.S i)) with (ttl p - Z.of_nat i) by (cbn; lia).
    replace (Z.of_nat (Datatypes.S i) <? Z.max 1 (ttl pkt)) with (Z.of_nat i <? Z.max 1 (ttl p))
      by (cbn; destruct (Z.ltb_spec (Z.of_nat i) (Z.max 1 (ttl pkt - 1))); symmetry;
          [apply Z.ltb_lt|apply Z.ltb_ge]; lia).
    apply IH.
    + eapply Forall_impl; [exact Hall|]. intros x [Hrx Hdx Hvx].
      split; [by apply receptive_set_ttl|exact Hdx|exact Hvx].
    + eapply Forall_impl; [exact Hon'|]. intros x (sx & Hlx & Hfx).
      exists sx. split; [done|by apply fits_link_set_ttl].
  - rewrite (proj2 (Z.ltb_ge _ _)) by lia.
    assert (Forall untouched stops) as Hsil.
    { apply (silent_line pkt); [|done]. eapply Forall_impl; [exact Hall|]. by intros x []. }
    by apply (Forall_lookup_1 _ _ _ _ Hsil Hi).
Qed.

(** ** The origin *)

Definition channel_packet n (channel text : rstring) : Packet :=
  originate n ChannelMessage (origin_ttl (node_cfg n) ChannelMessage (msize (links n))) None
    (encode_channel (normalize channel) text (node_cfg n)).

(** The message fits: its fields have the widths of their types, the payload the 16 bits of its
    length, and a compressed text stays under the receivers' cap. *)
Record sendable n (channel text : rstring) : Prop := {
  sb_eph : length (node_eph_id n) = 8%nat;
  sb_now : in_width 64 (now n);
  sb_cfg : cfg_typed (node_cfg n);
  sb_payload : zlen (encode_channel (normalize channel) text (node_cfg n)) < 2 ^ 16;
  sb_channel : zlen (normalize channel) <= 255 ∧ utf8_valid (normalize channel) = true;
  sb_text : zlen text < 2 ^ 32 ∧ utf8_valid text = true;
  sb_cap : maybe_compress text (node_cfg n) = None ∨ zlen text <= decompress_max_bytes (node_cfg n);
}.

(** A node that has not heard of the origin, or has the right key for it. *)
Definition acquainted (o n : Node) : Prop :=
  eph_keys n !! node_eph_id o = None
  ∨ eph_keys n !! node_eph_id o = Some (vk_as_bytes (id_verifying_key (identity o))).

Definition knows (o n : Node) : bool := bool_decide (is_Some (eph_keys n !! node_eph_id o)).

Section origin.
Context `{!Sha256Laws, !Ed25519Laws, !Lz4Laws}.

Lemma channel_packet_canonical n c t : sendable n c t → packet_canonical (channel_packet n c t).
Proof.
  intros []. split; try done. split; cbn; try done.
  - by apply (origin_ttl_u8 (node_cfg n) ChannelMessage).
  - apply ed_sign_length.
Qed.

Lemma channel_packet_vouched o n c t :
  acquainted o n → vouched n (channel_packet o c t) = Some (knows o n).
Proof.
  unfold acquainted, vouched, knows. change (sender (channel_packet o c t)) with (node_eph_id o).
  intros [->| ->]; [done|]. unfold id_verifying_key. rewrite vk_from_as_bytes.
  unfold channel_packet, originate. by rewrite verify_sign.
Qed.

Lemma send_channel_message_frames o c t l st :
  links o !! l = Some st →
  (send_channel_message o c t).1 = digest (channel_packet o c t)
  ∧ sent_on l (send_channel_message o c t).2
    = sent_on l o ++ frames_for (channel_packet o c t) (mtu st).
Proof.
  intros Hl. unfold send_channel_message. cbn [fst snd]. split; [done|].
  rewrite sent_on_broadcast. rewrite bool_decide_eq_false_2 by done.
  cbn [links observe_seen set_seen set_store set_subscribed]. by rewrite Hl.
Qed.

(** C7: a channel message crosses the mesh. Take any line of nodes, where each hears what its link
    makes of the frames the node before it has put there - all of them, in any order and with
    repetitions, and nothing if there are none - and each has room, rate and luck for the message
    and a link it fits on. The message then gets exactly as far as the hop counter allows, and no
    node is assumed to pass it on: every node within [ttl] hops stores it once as it was written,
    under the digest the origin was told, shows it once to a subscriber, as verified exactly where
    the origin's key is known, and puts on the link to the next node exactly the frames of the
    packet with one hop less - unless no hop is left, when it puts nothing there; every node
    further on hears nothing, stores nothing, shows nothing and sends nothing. *)
Theorem line_delivery (o : Node) (c text : rstring) l st stops :
  let pkt := channel_packet o c text in
  let o' := (send_channel_message o c text).2 in
  sendable o c text → links o !! l = Some st → fits_link pkt (mtu st) →
  carried (drop (length (sent_on l o)) (sent_on l o')) stops →
  Forall (λ s, receptive pkt s ∧ node_cfg (st_node s) = node_cfg o ∧ acquainted o (st_node s)) stops →
  Forall (goes_on pkt) (removelast stops) →
  (send_channel_message o c text).1 = digest pkt
  ∧ ∀ i s, stops !! i = Some s →
      let n := st_node s in
      let hops := ttl pkt - Z.of_nat i in
      if Z.of_nat i <? Z.max 1 (ttl pkt) then
        store (pass s) = put_channel_message (store n)
          {| sm_digest := digest pkt; sm_channel := normalize c; sm_sender := node_eph_id o;
             sm_timestamp_ms := now o; sm_body := text; sm_raw := encode (set_ttl pkt hops) |}
        ∧ events (pass s) = events n ++
            (if bool_decide (normalize c ∈ subscribed n)
             then [MessageReceived (normalize c) (node_eph_id o) text (now o) (knows o n)] else [])
        ∧ emitted s =
            (if 1 <? hops
             then match links n !! st_out s with
                  | Some next => frames_for (set_ttl pkt (hops - 1)) (mtu next)
                  | None => []
                  end
             else [])
      else st_heard s = [] ∧ store (pass s) = store n ∧ events (pass s) = events n ∧ emitted s = [].
Proof.
  intros pkt o' Hs Hl Hfit Hcar Hall Hon. destruct (send_channel_message_frames o c text l st Hl) as [Hdg Hf].
  split; [exact Hdg|]. unfold o' in Hcar. rewrite Hf, drop_app_length in Hcar.
  pose proof (channel_packet_canonical o c text Hs) as Hc.
  assert (decode_channel (payload pkt) (node_cfg o) = Ok (normalize c, text)) as Hdec.
  { destruct Hs as [_ _ _ _ [? ?] [? ?] Hcap]. change (payload pkt) with (encode_channel (normalize c) text (node_cfg o)).
    rewrite decode_encode_channel by done. destruct (maybe_compress text (node_cfg o)); [|done].
    destruct Hcap as [?|?]; [done|]. by rewrite Z.gtb_ltb, (proj2 (Z.ltb_ge _ _)). }
  pose proof (carried_line (normalize c) text (λ s, knows o (st_node s)) stops pkt (mtu st) Hc eq_refl Hfit)
    as Hline. intros i s Hi n hops.
  assert (Forall (readable pkt (normalize c) text (λ s, knows o (st_node s))) stops) as Hread.
  { eapply Forall_impl; [exact Hall|]. intros x (Hr & Hcfg & Ha).
    split; [done|by rewrite Hcfg|by apply channel_packet_vouched]. }
  specialize (Hline Hread Hon Hcar i s Hi).
  destruct (Z.of_nat i <? Z.max 1 (ttl pkt)); [|exact Hline].
  destruct Hline as (-> & -> & ->). unfold taken_in. cbv zeta. cbn [subscribed set_store set_rate set_seen]. fold n hops.
  split; [by destruct (bool_decide (normalize c ∈ subscribed n))|].
  split; [destruct (bool_decide (normalize c ∈ subscribed n)); [done|by rewrite app_nil_r]|done].
Qed.
End origin.
End flood.

(** ** Witnesses *)

(** Alice, on a narrow link, and two nodes after her, each with a link to either side. The first
    hears the frames in reverse order and the last of them twice. *)
Definition narrow (seed : byte) (ls : list LinkId) : DemoNode :=
  node_run (demo_node seed) (map (λ l, OpEvent (LinkUp l 60 None)) ls).
Definition writer : DemoNode := narrow Byte.x61 [1].
Definition first_frames : list bytes := Eval vm_compute in
  drop (length (sent_on 1 writer)) (sent_on 1 (send_channel_message writer DEFAULT_CHANNEL hello).2).

Definition reversed : list bytes := Eval vm_compute in
  default [] (last first_frames) :: rev (tail first_frames).
Definition first_copy : bytes := Eval vm_compute in default [] (head first_frames).
Definition stop_one : Stop (S:=MemoryStore) :=
  mkStop (narrow Byte.x62 [1; 2]) 1 2 (reversed ++ [first_copy]) 5000.
Definition second_frames : list bytes := Eval vm_compute in emitted stop_one.
Definition leading : list bytes := Eval vm_compute in removelast second_frames.
Definition last_frame : bytes := Eval vm_compute in default [] (last second_frames).
Definition stop_two : Stop (S:=MemoryStore) :=
  mkStop (narrow Byte.x63 [1; 2]) 1 2 (leading ++ [last_frame]) 9000.

Example narrow_frames : length first_frames = 3%nat ∧ length second_frames = 3%nat.
Proof. by vm_compute. Qed.

Definition last_missingb (frames pre : list bytes) (f : bytes) : bool :=
  bool_decide (f ∈ frames) && forallb (λ g, bool_decide (g ∈ frames)) pre
  && forallb (λ g, bool_decide (g ∈ pre ↔ g ≠ f)) frames.

Lemma last_missingb_ok frames pre f : last_missingb frames pre f = true → last_missing frames pre f.
Proof.
  unfold last_missingb. rewrite !andb_true_iff, !forallb_forall. intros [[Hf Hp] Ha].
  split; [by apply bool_decide_eq_true in Hf|].
  split; intros g Hg%list_elem_of_In; [apply Hp in Hg|apply Ha in Hg]; by apply bool_decide_eq_true in Hg.
Qed.

Lemma stop_receptive (s : Stop) :
  s ∈ [stop_one; stop_two] →
  receptive (channel_packet writer DEFAULT_CHANNEL hello) s
  ∧ node_cfg (st_node s) = node_cfg writer ∧ acquainted writer (st_node s).
Proof.
  intros [->|[->|Hs]%elem_of_cons]%elem_of_cons; [..|by apply not_elem_of_nil in Hs];
    (split; [|split; [by vm_compute|left; by vm_compute]]);
    split; by vm_compute.
Qed.

Lemma demo_delivers frames pre f :
  last_missingb frames pre f = true → delivers frames (pre ++ [f]).
Proof.
  intros Hl%last_missingb_ok. destruct frames; [|by exists pre, f].
  destruct Hl as [Hf _]. by apply not_elem_of_nil in Hf.
Qed.

Lemma line_delivery_witness :
  let pkt := channel_packet writer DEFAULT_CHANNEL hello in
  ttl pkt = 10
  ∧ events (pass stop_two) = events (st_node stop_two)
      ++ [MessageReceived DEFAULT_CHANNEL (node_eph_id writer) hello 1000 false]
  ∧ emitted stop_two = frames_for (set_ttl pkt 8) 60 ∧ length (emitted stop_two) = 3%nat.
Proof.
  cbv zeta. split; [by vm_compute|].
  destruct (line_delivery writer DEFAULT_CHANNEL hello 1
    {| mtu := 60; peer_eph := None; peer_fp := None |} [stop_one; stop_two]) as (_ & Hline).
  - split; try (by vm_compute). by left.
  - by vm_compute.
  - by vm_compute.
  - refine (conj (demo_delivers _ reversed first_copy _) (conj (demo_delivers _ leading last_frame _) I));
      by vm_compute.
  - apply List.Forall_forall. intros s Hs. apply stop_receptive. by apply list_elem_of_In.
  - apply Forall_cons. split; [|by apply Forall_nil].
    exists {| mtu := 60; peer_eph := None; peer_fp := None |}. split; by vm_compute.
  - specialize (Hline 1%nat stop_two eq_refl). cbv zeta in Hline.
    assert (ttl (channel_packet writer DEFAULT_CHANNEL hello) = 10) as Et by by vm_compute.
    rewrite Et in Hline. change (Z.of_nat 1 <? Z.max 1 10) with true in Hline. cbv iota in Hline.
    destruct Hline as (_ & He & Hm). change (1 <? 10 - Z.of_nat 1) with true in Hm. cbv iota in Hm.
    assert (links (st_node stop_two) !! st_out stop_two
      = Some {| mtu := 60; peer_eph := None; peer_fp := None |}) as El by by vm_compute.
    rewrite El in Hm. change (10 - Z.of_nat 1 - 1) with 8 in Hm. cbn [mtu] in Hm.
    split; [|split; [exact Hm|by vm_compute]].
    refine (eq_trans He _). by vm_compute.
Defined.
