(* ===== verification/NodeSync.v ===== *)
(** * NodeSync: two stores converge

    Anti-entropy between two neighbours, from the request that lists what one of them holds
    through the frames of the answer to the stores: afterwards the requester holds the union, if it
    can take the whole answer in - and what happens to a backlog that its rate limiter cuts. *)
From stdpp Require Import strings gmap.
From S2P Require Import Prelude Errors F64 Utf8 Clock External Toy Transport Wire Config Frag.
From S2P Require Import Compress Relay Channels Store Identity Noise Payloads Node NodeFrame Demo.
From S2P Require Import NodeRelay NodeTalk NodeFlood.

Section sync.
Context `{Sha256, Ed25519, X25519, Snow, Lz4, Rand, HashIter, UnicodeCase}.
Context {S : Type} `{Store S}.
#[local] Abbreviation Node := (MeshNode (S:=S)).
Implicit Types n : Node.

(** ** Messages and the packets they came in *)

(** A stored message is what its packet says: it was decoded from it, and its bytes are kept. *)
Record read_from (cfg : Tunables) (m : StoredMessage) (pkt : Packet) : Prop := {
  gn_canonical : packet_canonical pkt;
  gn_type : msg_type pkt = ChannelMessage;
  gn_raw : sm_raw m = encode pkt;
  gn_digest : sm_digest m = digest pkt;
  gn_sender : sm_sender m = sender pkt;
  gn_time : sm_timestamp_ms m = timestamp_ms pkt;
  gn_body : decode_channel (payload pkt) cfg = Ok (sm_channel m, sm_body m);
}.

(** What the handler stores was read from its packet. *)
Lemma handler_stores_genuine n pkt channel text :
  packet_canonical pkt → msg_type pkt = ChannelMessage →
  decode_channel (payload pkt) (node_cfg n) = Ok (channel, text) →
  store (handle_channel n pkt) = store n
  ∨ ∃ m, store (handle_channel n pkt) = put_channel_message (store n) m ∧ read_from (node_cfg n) m pkt.
Proof.
  intros Hc Ht Hd. unfold handle_channel. rewrite Hd. cbv zeta. set (m := mkStoredMessage _ _ _ _ _ _).
  assert (read_from (node_cfg n) m pkt) as Hm by by split.
  case_match; [|by left]. right. exists m. split; [|done]. by case_bool_decide.
Qed.

(** ** The answer on its way *)

(** A message of the answer, its packet, how its frames come in, and whether the requester has the
    sender's key. *)
Record Delivery := mkDelivery {
  dl_message : StoredMessage;
  dl_packet : Packet;
  dl_pre : list bytes;
  dl_last : bytes;
  dl_known : bool;
}.

#[local] Abbreviation dl_digest x := (sm_digest (dl_message x)).

Definition arrives (link : LinkId) n (x : Delivery) : Node := on_frames n link (dl_pre x ++ [dl_last x]).

(** What the requester makes of one: room for it, not seen before, and not under a false name. *)
Record absorbs n (x : Delivery) : Prop := {
  ab_read : read_from (node_cfg n) (dl_message x) (dl_packet x);
  ab_room : ready_for (reassembler n) (dl_digest x) (zlen (sm_raw (dl_message x)));
  ab_fresh : seen_map (seen n) !! dl_digest x = None;
  ab_vouched : vouched n (dl_packet x) = Some (dl_known x);
}.

(** The senders are within their rates, all through the answer. *)
Fixpoint admits (r : RateLimiter) (t : Millis) (senders : list EphId) : bool :=
  match senders with
  | [] => true
  | s :: senders => (allow r s t).1 && admits (allow r s t).2 t senders
  end.

Definition told n (x : Delivery) : list MeshEvent :=
  let m := dl_message x in
  if bool_decide (sm_channel m ∈ subscribed n)
  then [MessageReceived (sm_channel m) (sm_sender m) (sm_body m) (sm_timestamp_ms m) (dl_known x)] else [].

Lemma maybe_relay_only n link pkt :
  ∃ r s, maybe_relay n link pkt = set_scheduler (set_rng n r) s.
Proof.
  unfold maybe_relay. destruct (_ <=? _); [exists (rng n), (scheduler n); by destruct n|].
  destruct (should_relay _ _ _) as [[] r]; cbn [negb].
  - destruct (relay_delay _ _) as [d r']. by do 2 eexists.
  - exists r, (scheduler n). by destruct n.
Qed.

Lemma observe_other c d d' t :
  d ≠ d' → seen_map c !! d' = None → seen_map (observe c d t).2 !! d' = None.
Proof.
  intros Hd Hn. unfold observe. destruct (seen_map c !! d); cbn [snd seen_map set_seen_map];
    rewrite lookup_insert_ne by done; [done|]. case_match; [|done].
  unfold evict_oldest, evict_min. destruct (min_by_key _ _) as [[k e]|]; [|done].
  rewrite lookup_delete_None. by right.
Qed.

(** One message of the answer: its frames, the handler, the store. *)
Lemma absorb_one `{!Sha256Laws} n link mtu x :
  absorbs n x → last_missing (frames_for (dl_packet x) mtu) (dl_pre x) (dl_last x) →
  (allow (rate n) (sm_sender (dl_message x)) (now n)).1 = true →
  let n' := arrives link n x in
  store n' = put_channel_message (store n) (dl_message x) ∧ events n' = events n ++ told n x
  ∧ seen n' = (observe (seen n) (dl_digest x) (now n)).2
  ∧ rate n' = (allow (rate n) (sm_sender (dl_message x)) (now n)).2
  ∧ reassembler n' = reassembler n ∧ node_cfg n' = node_cfg n ∧ eph_keys n' = eph_keys n
  ∧ subscribed n' = subscribed n ∧ now n' = now n ∧ sent n' = sent n ∧ identity n' = identity n.
Proof.
  intros [[Hc Ht Hraw Hdg Hsn Htm Hbody] Hroom Hfresh Hv] Hlast Hadm n'. unfold n', arrives.
  rewrite Hdg in Hroom, Hfresh. rewrite Hraw in Hroom. rewrite Hsn in Hadm |- *. unfold frames_for in Hlast.
  destruct (split (encode (dl_packet x)) (digest (dl_packet x)) mtu) as [frames|e|] eqn:Es;
    [|destruct Hlast as [Hf _]; by apply not_elem_of_nil in Hf..].
  rewrite (frames_delivered n link (digest (dl_packet x)) (encode (dl_packet x)) mtu frames (dl_packet x));
    [|done|apply digest_length|done|done|by apply encode_complete].
  rewrite (on_packet_channel n link (dl_packet x) (sm_channel (dl_message x)) (sm_body (dl_message x)) (dl_known x))
    by done.
  destruct (maybe_relay_only (taken_in n (dl_packet x) (sm_channel (dl_message x)) (sm_body (dl_message x)) (dl_known x))
    link (dl_packet x)) as (r & s & ->).
  assert ({| sm_digest := digest (dl_packet x); sm_channel := sm_channel (dl_message x);
    sm_sender := sender (dl_packet x); sm_timestamp_ms := timestamp_ms (dl_packet x);
    sm_body := sm_body (dl_message x); sm_raw := encode (dl_packet x) |} = dl_message x) as Em.
  { rewrite <- Hdg, <- Hsn, <- Htm, <- Hraw. by destruct (dl_message x). }
  unfold told. rewrite Hdg, Htm, Hsn. unfold taken_in. rewrite Em. cbv zeta.
  change (subscribed (set_store _ _)) with (subscribed n).
  case_bool_decide; split_and!; try reflexivity; cbn; by rewrite ?app_nil_r.
Qed.

Lemma told_same n n' x : subscribed n' = subscribed n → told n' x = told n x.
Proof. unfold told. by intros ->. Qed.

(** The whole answer, message by message. *)
Lemma absorb_all `{!Sha256Laws} link mtu n xs :
  NoDup (map (λ x, dl_digest x) xs) → Forall (absorbs n) xs →
  Forall (λ x, last_missing (frames_for (dl_packet x) mtu) (dl_pre x) (dl_last x)) xs →
  admits (rate n) (now n) (map (λ x, sm_sender (dl_message x)) xs) = true →
  let n' := foldl (arrives link) n xs in
  store n' = foldl put_channel_message (store n) (map dl_message xs)
  ∧ events n' = events n ++ concat (map (told n) xs) ∧ sent n' = sent n
  ∧ identity n' = identity n.
Proof.
  revert n. induction xs as [|x xs IH]; intros n Hnd Hab Hlast Hadm n'; unfold n'; cbn [foldl map concat].
  { by rewrite app_nil_r. }
  cbn [map] in Hnd. apply NoDup_cons in Hnd as [Hni Hnd]. apply Forall_cons in Hab as [Hx Hab].
  apply Forall_cons in Hlast as [Hl Hlast]. cbn [map admits] in Hadm. apply andb_true_iff in Hadm as [Ha Hadm].
  destruct (absorb_one n link mtu x Hx Hl Ha) as (E1 & E2 & E3 & E4 & E5 & E6 & E7 & E8 & E9 & E10 & E11).
  set (n1 := arrives link n x) in *. clearbody n1.
  destruct (IH n1 Hnd) as (-> & -> & -> & ->); [|done|by rewrite E4, E9|].
  - apply Forall_forall. intros y Hy. destruct (proj1 (Forall_forall _ _) Hab y Hy) as [G R F V].
    assert (dl_digest x ≠ dl_digest y) as Hne.
    { intros E. apply Hni. rewrite E. by apply (map_list_elem (λ x, dl_digest x)). }
    split; [by rewrite E6|by rewrite E5|rewrite E3; by apply observe_other|].
    unfold vouched in *. by rewrite E7.
  - rewrite E1, E2, E10, E11, <- app_assoc. split_and!; try done. do 3 f_equal.
    apply map_ext. intros y. by apply told_same.
Qed.

(** What a node lists of a channel, as a request. *)
Definition sync_packet n (c : rstring) : Packet :=
  originate n SyncRequest 1 None (encode_sync (SyncFilter_new c (channel_digests (store n) c))).
End sync.

(** ** Over [MemoryStore] *)

Section memory.
Context `{Sha256, Ed25519, X25519, Snow, Lz4, Rand, HashIter, UnicodeCase}.
#[local] Abbreviation Node := (MeshNode (S:=MemoryStore)).
Implicit Types a b : Node.

Definition channel_of (s : MemoryStore) (c : rstring) : list StoredMessage := default [] (channels s !! c).

Lemma channel_digests_of (s : MemoryStore) c : channel_digests s c = map sm_digest (channel_of s c).
Proof. cbn. unfold mem_channel_digests, channel_of. by destruct (channels s !! c). Qed.

(** The messages [ms] can be added without retention taking any away: there is room, and no two
    messages are further apart than the history reaches. *)
Record retained (s : MemoryStore) (c : rstring) (ms : list StoredMessage) : Prop := {
  ft_room : zlen (channel_of s c) + zlen ms <= history_max s;
  ft_close m m' : m ∈ channel_of s c ++ ms → m' ∈ channel_of s c ++ ms →
    history_ms s <= 0 ∨ sat_sub (sm_timestamp_ms m) (sm_timestamp_ms m') < history_ms s;
}.

Lemma filter_all {A} (p : A → bool) l : Forall (λ x, p x = true) l → List.filter p l = l.
Proof. induction 1 as [|x l Hx Hl IH]; [done|]. cbn [List.filter]. by rewrite Hx, IH. Qed.

Lemma put_one s c m ms :
  sm_channel m = c → sm_digest m ∉ digests s → retained s c (m :: ms) →
  let s' := mem_put_channel_message s m in
  channel_of s' c ≡ₚ channel_of s c ++ [m] ∧ digests s' = {[ sm_digest m ]} ∪ digests s
  ∧ history_max s' = history_max s ∧ history_ms s' = history_ms s.
Proof.
  intros <- Hd [Hroom Hclose]. set (c := sm_channel m) in *. unfold mem_put_channel_message.
  rewrite bool_decide_eq_false_2 by done. fold c. fold (channel_of s c). set (v := sort_by_key _ _).
  assert (v ≡ₚ channel_of s c ++ [m]) as Hv by apply sort_by_key_perm.
  unfold prune_channel. cbn [channels set_channels history_ms history_max]. rewrite lookup_insert_eq.
  set (kept := if history_ms s >? 0 then _ else v). assert (kept = v) as ->.
  { unfold kept. destruct (history_ms s >? 0) eqn:E; [|done]. apply filter_all, Forall_forall.
    intros x Hx. rewrite Hv in Hx. apply Z.ltb_lt.
    destruct (Hclose m x) as [|]; [set_solver|set_solver|lia|done]. }
  assert (excess (history_max s) v = 0%nat) as ->.
  { unfold excess. rewrite (Permutation_length Hv), length_app. rewrite zlen_cons in Hroom.
    unfold zlen in Hroom. cbn [length]. lia. }
  cbn [drop take map list_to_set]. split_and!; [|set_solver|done|done].
  unfold channel_of at 1. cbn [channels set_channels]. rewrite lookup_insert_eq. exact Hv.
Qed.

Lemma put_all s c ms :
  Forall (λ m, sm_channel m = c ∧ sm_digest m ∉ digests s) ms → NoDup (map sm_digest ms) → retained s c ms →
  channel_of (foldl mem_put_channel_message s ms) c ≡ₚ channel_of s c ++ ms.
Proof.
  revert s. induction ms as [|m ms IH]; intros s Hms Hnd Hfit; [by rewrite app_nil_r|].
  apply Forall_cons in Hms as [[Hm Hd] Hms]. cbn [map] in Hnd. apply NoDup_cons in Hnd as [Hni Hnd].
  destruct (put_one s c m ms Hm Hd Hfit) as (Hc & Hds & Emax & Ems). cbn [foldl].
  set (s1 := mem_put_channel_message s m) in *. clearbody s1. rewrite IH.
  - by rewrite Hc, <- app_assoc.
  - apply Forall_forall. intros x Hx. destruct (proj1 (Forall_forall _ _) Hms x Hx) as [? Hdx].
    split; [done|]. rewrite Hds. intros [E%elem_of_singleton|?]%elem_of_union; [|done].
    apply Hni. rewrite <- E. by apply map_list_elem.
  - done.
  - destruct Hfit as [Hroom Hclose]. split.
    + rewrite Emax. unfold zlen in *. rewrite (Permutation_length Hc), length_app. cbn [length] in *. lia.
    + rewrite Ems. intros x y Hx Hy. rewrite Hc, <- app_assoc in Hx, Hy. by apply Hclose.
Qed.

Lemma puts_ok s ms : messages_ok s → messages_ok (foldl mem_put_channel_message s ms).
Proof. revert s. induction ms as [|m ms IH]; intros s Hs; [done|]. by apply IH, put_channel_message_ok. Qed.

(** The store of a node that has started with a well-formed one is well formed. *)
Definition store_ok (n : Node) : Prop := messages_ok (store n).

Lemma store_ok_frame L : Frame L (keeps store_ok) (λ _, keeps store_ok).
Proof.
  split; try apply _; try (intros; by intros ?); try done.
  - intros n d Hok. exact (store_step_messages (store n) (OpDm d) Hok).
  - intros n m Hok. exact (store_step_messages (store n) (OpMessage m) Hok).
  - intros n fp b t Hok. exact (store_step_messages (store n) (OpQueue fp b t) Hok).
  - intros n fp Hok. exact (store_step_messages (store n) (OpTake fp) Hok).
  - intros n p _ Hok. exact (store_step_messages (store n) (OpPeer p) Hok).
Qed.

Lemma run_messages_ok `{!SnowLaws} identity cfg clock s nick seed ops :
  messages_ok s → messages_ok (store (node_run (MeshNode_new identity cfg clock s nick seed) ops)).
Proof.
  intros Hs. apply (node_run_R (keeps store_ok) (λ _, true) (MeshNode_new identity cfg clock s nick seed) ops _);
    [| | |exact Hs].
  - apply MeshNode_new_reassembling.
  - intros n o Hn _. apply (node_step_all_R (store_ok_frame any_link)); [|apply any_op|done].
    split; try (intros; by intros ?).
    + intros m p Hok. exact (store_step_messages (store m) (OpPeer p) Hok).
    + intros m fp Hok. exact (store_step_messages (store m) (OpDeletePeer fp) Hok).
    + intros m fp b Hok. exact (store_step_messages (store m) (OpDeleteDms fp b) Hok).
  - by apply Forall_true.
Qed.

(** The requester can take the answer in: each message of it, all of them within the rates of
    their senders, and none that it held before and retention took away. *)
Record takes a (c : rstring) (xs : list Delivery) : Prop := {
  tk_absorbs : Forall (absorbs a) xs;
  tk_admits : admits (rate a) (now a) (map (λ x, sm_sender (dl_message x)) xs) = true;
  tk_new : Forall (λ x, sm_digest (dl_message x) ∉ digests (store a)) xs;
  tk_retained : retained (store a) c (map dl_message xs);
}.

(** What the other end offers: the messages of the channel that were not listed, each once, as it
    holds them; each arrives in the frames it is cut into, in any order and with repetitions. *)
Record offers b (lb : LinkId) (c : rstring) (listed : list bytes) (xs : list Delivery) : Prop := {
  of_all d : d ∈ map (λ x, sm_digest (dl_message x)) xs ↔ d ∈ channel_digests (store b) c ∧ d ∉ listed;
  of_once : NoDup (map (λ x, sm_digest (dl_message x)) xs);
  of_held : Forall (λ x, dl_message x ∈ channel_of (store b) c) xs;
  of_frames : Forall (λ x, last_missing (stored_frames b lb (sm_digest (dl_message x))) (dl_pre x) (dl_last x)) xs;
}.

Lemma held_lookup `{!HashIterLaws} b c m :
  messages_ok (store b) → m ∈ channel_of (store b) c →
  message_by_digest (store b) (sm_digest m) = Some m ∧ sm_channel m = c ∧ sm_digest m ∈ channel_digests (store b) c.
Proof.
  intros Hok Hm. unfold channel_of in Hm. destruct (channels (store b) !! c) as [l|] eqn:Ec;
    [|by apply not_elem_of_nil in Hm]. cbn in Hm. split_and!.
  - apply message_by_digest_iff; [done|]. split; [done|]. by exists c, l.
  - by apply (proj1 (Forall_forall _ _) (co_member _ _ _ (mo_channels _ Hok c l Ec)) m Hm).
  - rewrite channel_digests_of. unfold channel_of. rewrite Ec. by apply map_list_elem.
Qed.

(** The frames of a stored message are those of its packet. *)
Lemma stored_frames_packet `{!HashIterLaws} b lb st cfg c m pkt :
  messages_ok (store b) → m ∈ channel_of (store b) c → links b !! lb = Some st → read_from cfg m pkt →
  stored_frames b lb (sm_digest m) = frames_for pkt (mtu st).
Proof.
  intros Hok Hm Hl [_ _ Hraw Hdg _ _ _]. unfold stored_frames, frames_for.
  rewrite (proj1 (held_lookup b c m Hok Hm)). assert (encode pkt ≠ []) as Hne.
  { unfold encode, write_body. done. }
  rewrite bool_decide_eq_false_2 by congruence.
  assert (link_mtu b lb = mtu st) as -> by (unfold link_mtu; by rewrite Hl). by rewrite Hraw, Hdg.
Qed.

(** C8: two neighbours converge, under the conditions of [offers] and [takes]. Suppose that the
    frames of the answer all come in, in any order and with repetitions; that the answer is for the
    requester [a] to take: its reassembler has room for each message, none has been seen before,
    none comes under the wire id of a key that did not sign it, the rate limiter admits every one
    from its sender, none was held before and dropped, and retention keeps them all. Then: when
    [a] lists what it holds of a channel, [b] puts on the link the bytes of exactly the messages
    that are missing there; [a] ends up with the union - its own messages and [b]'s, each as [b]
    held it, each shown once to a subscriber - and sends nothing on the way; and asked again, [b]
    answers with nothing. [sync_backlog_cut] below is a run where the rate limiter does not admit
    the whole answer, and one exchange leaves two of twelve messages behind. *)
Theorem sync_converges `{!Sha256Laws, !HashIterLaws} a b la lb st c xs :
  messages_ok (store a) → messages_ok (store b) → links b !! lb = Some st →
  zlen c <= 255 → utf8_valid c = true →
  Forall (λ d, length d = 8%nat) (channel_digests (store a) c) →
  offers b lb c (channel_digests (store a) c) xs → takes a c xs →
  let b' := handle_sync_request b lb (sync_packet a c) in
  let a' := foldl (arrives la) a xs in
  (∃ ds, ds ≡ₚ map (λ x, sm_digest (dl_message x)) xs
     ∧ b' = set_sent b (sent b ++ concat (map (λ d, map (Send lb) (stored_frames b lb d)) ds)))
  ∧ channel_of (store a') c ≡ₚ channel_of (store a) c ++ map dl_message xs
  ∧ (∀ d, d ∈ channel_digests (store a') c
          ↔ d ∈ channel_digests (store a) c ∨ d ∈ channel_digests (store b) c)
  ∧ (∀ d, d ∈ channel_digests (store b) c → d ∉ channel_digests (store a) c →
          message_by_digest (store a') d = message_by_digest (store b) d)
  ∧ events a' = events a ++ concat (map (told a) xs) ∧ sent a' = sent a
  ∧ handle_sync_request b' lb (sync_packet a' c) = b'.
Proof.
  intros Hoka Hokb Hl Hc Hv Hlen [Hall Honce Hheld Hframes] [Habs Hadm Hnew Hfit]. cbv zeta.
  destruct (sync_request_answered b a lb (sync_packet a c) c Hc Hv Hlen eq_refl) as (ds & Hnd & Hds & Eb).
  rewrite Eb. set (b' := set_sent b _).
  assert (ds ≡ₚ map (λ x, sm_digest (dl_message x)) xs) as Hperm.
  { apply NoDup_Permutation; [done..|]. intros d. by rewrite Hds, Hall. }
  split; [by exists ds|].
  assert (Forall (λ x, last_missing (frames_for (dl_packet x) (mtu st)) (dl_pre x) (dl_last x)) xs) as Hfr.
  { apply Forall_forall. intros x Hx. pose proof (proj1 (Forall_forall _ _) Hframes x Hx) as Hf.
    pose proof (proj1 (Forall_forall _ _) Hheld x Hx) as Hm. cbv beta in Hf.
    pose proof (ab_read _ _ (proj1 (Forall_forall _ _) Habs x Hx)) as Hg.
    by rewrite (stored_frames_packet b lb st (node_cfg a) c (dl_message x) (dl_packet x)) in Hf. }
  destruct (absorb_all la (mtu st) a xs Honce Habs Hfr Hadm) as (Est & Eev & Ese & Eid).
  set (a' := foldl (arrives la) a xs) in *. clearbody a'.
  assert (Forall (λ m, sm_channel m = c ∧ sm_digest m ∉ digests (store a)) (map dl_message xs)) as Hms.
  { apply Forall_map, Forall_forall. intros x Hx. split; [|by apply (proj1 (Forall_forall _ _) Hnew x Hx)].
    by apply (held_lookup b c _ Hokb), (proj1 (Forall_forall _ _) Hheld x Hx). }
  assert (channel_of (store a') c ≡ₚ channel_of (store a) c ++ map dl_message xs) as Hch.
  { rewrite Est. apply put_all; [done|by rewrite map_map|done]. }
  assert (∀ d, d ∈ channel_digests (store a') c
    ↔ d ∈ channel_digests (store a) c ∨ d ∈ channel_digests (store b) c) as Hun.
  { intros d. rewrite !(channel_digests_of (store a')). rewrite Hch, map_app, map_map, elem_of_app, Hall.
    rewrite <- channel_digests_of. destruct (decide (d ∈ channel_digests (store a) c)); tauto. }
  split; [exact Hch|]. split; [exact Hun|]. split; [|split; [exact Eev|split; [exact Ese|]]].
  - intros d Hdb Hda. assert (d ∈ map (λ x, sm_digest (dl_message x)) xs) as Hd by by apply Hall.
    apply elem_of_map_list in Hd as (x & Hx & ->).
    rewrite (proj1 (held_lookup b c _ Hokb (proj1 (Forall_forall _ _) Hheld x Hx))).
    apply (held_lookup a' c); [|rewrite Hch; apply elem_of_app; right].
    + rewrite Est. by apply puts_ok.
    + by apply map_list_elem.
  - destruct (sync_request_answered b' a' lb (sync_packet a' c) c Hc Hv) as (ds' & _ & Hds' & ->); [|done|].
    { apply Forall_forall. intros d Hd%Hun. destruct (decide (d ∈ channel_digests (store a) c)) as [Ha|Ha];
        [by apply (proj1 (Forall_forall _ _) Hlen)|]. destruct Hd as [Hd|Hd]; [done|].
      assert (d ∈ map (λ x, sm_digest (dl_message x)) xs) as Hx by by apply Hall.
      apply elem_of_map_list in Hx as (x & Hx & ->).
      rewrite (gn_digest _ _ _ (ab_read _ _ (proj1 (Forall_forall _ _) Habs x Hx))). apply digest_length. }
    assert (ds' = []) as ->.
    { apply elem_of_nil_inv. intros d [Hd1 Hd2]%Hds'. apply Hd2, Hun. by right. }
    cbn [map concat]. rewrite app_nil_r. by destruct b'.
Qed.
End memory.

(** ** Witness: one message on one side, two on the other *)

Definition asker : DemoNode := node_run (narrow Byte.x61 [1]) [OpSendChannel DEFAULT_CHANNEL hello].
Definition teller : DemoNode := node_run (narrow Byte.x62 [1])
  [OpClock 5; OpSendChannel DEFAULT_CHANNEL hello; OpClock 7; OpSendChannel DEFAULT_CHANNEL [Byte.x21]].

Lemma demo_messages_ok seed ls ops : messages_ok (store (node_run (narrow seed ls) ops)).
Proof. unfold narrow, node_run. rewrite <- foldl_app. by apply run_messages_ok, messages_ok_empty. Qed.

(** The frames of each message come in backwards. *)
Definition told_by (n : DemoNode) (m : StoredMessage) : option Delivery :=
  match decode (sm_raw m), stored_frames n 1 (sm_digest m) with
  | Ok pkt, f :: fs => Some (mkDelivery m pkt (rev fs) f false)
  | _, _ => None
  end.

Definition answer : list Delivery := Eval vm_compute in omap (told_by teller) (channel_of (store teller) DEFAULT_CHANNEL).

Definition read_fromb (cfg : Tunables) (m : StoredMessage) (pkt : Packet) : bool :=
  bool_decide (decode (sm_raw m) = Ok pkt) && bool_decide (msg_type pkt = ChannelMessage)
  && bool_decide (sm_digest m = digest pkt) && bool_decide (sm_sender m = sender pkt)
  && (sm_timestamp_ms m =? timestamp_ms pkt)
  && bool_decide (decode_channel (payload pkt) cfg = Ok (sm_channel m, sm_body m)).

Lemma read_fromb_ok cfg m pkt : read_fromb cfg m pkt = true → read_from cfg m pkt.
Proof.
  unfold read_fromb. rewrite !andb_true_iff, !bool_decide_eq_true, Z.eqb_eq. intros [[[[[Hd ?] ?] ?] ?] ?].
  apply decode_sound in Hd as [Hc He]. by split.
Qed.

(** A decidable form of [absorbs] for a node with nothing in its reassembler. *)
Definition absorbsb (n : DemoNode) (x : Delivery) : bool :=
  let m := dl_message x in
  read_fromb (node_cfg n) m (dl_packet x) && bool_decide (slots (reassembler n) = ∅)
  && (0 <? reassembly_slots (Frag.cfg (reassembler n)))
  && (zlen (sm_raw m) <=? reassembly_max_bytes (Frag.cfg (reassembler n)))
  && bool_decide (seen_map (seen n) !! sm_digest m = None)
  && bool_decide (vouched n (dl_packet x) = Some (dl_known x)).

Lemma absorbsb_ok n x : absorbsb n x = true → absorbs n x.
Proof.
  unfold absorbsb. rewrite !andb_true_iff, !bool_decide_eq_true, Z.ltb_lt, Z.leb_le.
  intros [[[[[Hg Hs] Hr] Hz] Hf] Hv]. split; [by apply read_fromb_ok| |done..].
  split; [|by rewrite Hs|rewrite Hs; change (msize ∅) with 0; lia|done]. split.
  - intros k p. by rewrite Hs, lookup_empty.
  - rewrite Hs. change (msize ∅) with 0. lia.
Qed.

(** Retention, checked on the timestamps. *)
Definition retainedb (s : MemoryStore) (c : rstring) (ms : list StoredMessage) : bool :=
  let l := channel_of s c ++ ms in
  (zlen (channel_of s c) + zlen ms <=? history_max s)
  && forallb (λ m, forallb (λ m', sat_sub (sm_timestamp_ms m) (sm_timestamp_ms m') <? history_ms s) l) l.

Lemma retainedb_ok s c ms : retainedb s c ms = true → retained s c ms.
Proof.
  unfold retainedb. rewrite andb_true_iff, Z.leb_le, forallb_forall. intros [Hr Hc]. split; [done|].
  intros m m' Hm%list_elem_of_In Hm'%list_elem_of_In. right. apply Z.ltb_lt.
  exact (proj1 (forallb_forall _ _) (Hc m Hm) m' Hm').
Qed.

Lemma forallb_Forall {A} (p : A → bool) (P : A → Prop) l :
  (∀ x, p x = true → P x) → forallb p l = true → Forall P l.
Proof.
  intros Hp Hl. apply Forall_forall. intros x Hx%list_elem_of_In. by apply Hp, (proj1 (forallb_forall p l) Hl).
Qed.

Lemma answer_taken : takes asker DEFAULT_CHANNEL answer.
Proof.
  split.
  - apply (forallb_Forall (absorbsb asker)); [apply absorbsb_ok|by vm_compute].
  - by vm_compute.
  - apply (forallb_Forall (λ x, negb (mem_has_message (store asker) (sm_digest (dl_message x))))); [|by vm_compute].
    intros x. unfold mem_has_message. by rewrite negb_true_iff, bool_decide_eq_false.
  - apply retainedb_ok. by vm_compute.
Qed.

Lemma answer_offered : offers teller 1 DEFAULT_CHANNEL (channel_digests (store asker) DEFAULT_CHANNEL) answer.
Proof.
  split.
  - intros d. assert (map (λ x, sm_digest (dl_message x)) answer = channel_digests (store teller) DEFAULT_CHANNEL)
      as -> by (by vm_compute).
    split; [|by intros [? _]]. intros Hd. split; [done|].
    apply (proj1 (Forall_forall _ _) (bool_decide_eq_true_1 (Forall (λ d, d ∉ channel_digests (store asker)
      DEFAULT_CHANNEL) (channel_digests (store teller) DEFAULT_CHANNEL)) ltac:(by vm_compute)) d Hd).
  - apply (bool_decide_eq_true_1 _). by vm_compute.
  - apply (forallb_Forall (λ x, bool_decide (dl_message x ∈ channel_of (store teller) DEFAULT_CHANNEL))); [|by vm_compute].
    intros x. by rewrite bool_decide_eq_true.
  - apply (forallb_Forall (λ x, last_missingb (stored_frames teller 1 (sm_digest (dl_message x))) (dl_pre x) (dl_last x)));
      [|by vm_compute]. intros x. apply last_missingb_ok.
Qed.

Lemma sync_converges_witness :
  let asker' := foldl (arrives 1) asker answer in
  length answer = 2%nat
  ∧ (∀ d, d ∈ channel_digests (store asker') DEFAULT_CHANNEL
          ↔ d ∈ channel_digests (store asker) DEFAULT_CHANNEL ∨ d ∈ channel_digests (store teller) DEFAULT_CHANNEL)
  ∧ events asker' = events asker ++ concat (map (told asker) answer).
Proof.
  destruct (sync_converges asker teller 1 1 {| mtu := 60; peer_eph := None; peer_fp := None |} DEFAULT_CHANNEL answer)
    as (_ & _ & Hun & _ & Hev & _).
  - by apply demo_messages_ok.
  - by apply demo_messages_ok.
  - by vm_compute.
  - by vm_compute.
  - by vm_compute.
  - apply (bool_decide_eq_true_1 _). by vm_compute.
  - exact answer_offered.
  - exact answer_taken.
  - split; [done|]. split; [exact Hun|exact Hev].
Defined.

(** ** A backlog of one writer

    The requester marks a message as seen before it asks the rate limiter: of twelve messages of
    one writer it takes the ten of the burst, an answer a minute later is dropped as duplicates
    although the limiter would let it pass, and only past the lifetime of the seen entries do the rest come in. *)
Definition chatty : DemoNode :=
  node_run (narrow Byte.x62 [1]) (map (λ k, OpSendChannel DEFAULT_CHANNEL [z2b (65 + Z.of_nat k)]) (seq 0 12)).

Definition synced (a b : DemoNode) : DemoNode :=
  let b' := handle_sync_request b 1 (sync_packet a DEFAULT_CHANNEL) in
  on_frames a 1 (drop (length (sent_on 1 b)) (sent_on 1 b')).

Definition later (t : Millis) (n : DemoNode) : DemoNode := node_run n [OpClock t; OpTick].

Example sync_backlog_cut :
  let a := synced (narrow Byte.x61 [1]) chatty in
  map (λ n : DemoNode, length (channel_of (store n) DEFAULT_CHANNEL))
    [chatty; a; synced (later 60000 a) chatty; synced (later 660000 a) chatty] = [12; 10; 10; 12]%nat.
Proof. by vm_compute. Qed.
