(* ===== verification/Sqlite.v ===== *)
(** * Sqlite: the encrypted store ([meshcore-store/src/lib.rs])

    [SqliteStore] keeps what a node persists in an encrypted SQLite file. Each SQL statement of the
    source is written out over the tables it touches; a table is a finite map from its primary key.
    What the engine leaves open is a parameter: the order rows are visited in, which statements
    fail, where a cursor breaks off. *)
From stdpp Require Import strings gmap.
From S2P Require Import Prelude Clock Utf8 F64 Wire Toy Store.

(** ** The engine *)

(** The index of a statement is the number of statements run for effect before it. *)
Class SqlEngine := {
  sql_scan : ∀ {K V} `{Countable K}, nat → string → gmap K V → list (K * V);
  sql_fails : nat → string → bool;  (* a statement run for effect *)
  sql_query_fails : nat → string → bool;
  sql_breaks : nat → string → option nat;  (* the rows read before a cursor breaks off *)
  sql_unlocks : rstring → rstring → bool;  (* a file made under a key opens under another *)
}.

(** A scan visits every row of a table once. *)
Class SqlEngineLaws `{SqlEngine} : Prop :=
  sql_scan_perm : ∀ {K V} `{Countable K} i q (m : gmap K V), sql_scan i q m ≡ₚ map_to_list m.

(** SQLCipher: a file opens under the raw key it was made with and under no other. *)
Class SqlCipherLaws `{SqlEngine} : Prop :=
  sql_unlocks_iff k k' : sql_unlocks k k' = true ↔ k = k'.

(** No query fails and no cursor breaks off. *)
Class SqlReads `{SqlEngine} : Prop := {
  sql_reads i q : sql_query_fails i q = false;
  sql_reads_all i q : sql_breaks i q = None;
}.

(** No statement run for effect fails. *)
Class SqlWrites `{SqlEngine} : Prop := sql_writes i q : sql_fails i q = false.

(** ** Integers: SQLite's are signed, the program's timestamps and sizes are not *)

Definition as_i64 (z : Z) : Z :=
  let w := z mod 2 ^ 64 in if w <? 2 ^ 63 then w else w - 2 ^ 64.
Definition as_u64 (z : Z) : Z := z mod 2 ^ 64.
Definition i64_of_bool (b : bool) : Z := if b then 1 else 0.

(** [?a - b >= ?c] over INTEGER operands. A difference outside the range is a REAL of magnitude
    2^63 or more. *)
Definition minus_ge (a b c : Z) : bool :=
  if (- 2 ^ 63 <=? a - b) && (a - b <? 2 ^ 63) then c <=? a - b
  else if 0 <? a - b then true
  else (c =? - 2 ^ 63) && f64_le (f64_of_int (- 2 ^ 63)) (f64_sub (f64_of_int a) (f64_of_int b)).

(** ** The tables *)

Record MessageRow := mkMessageRow {
  mr_channel : rstring;
  mr_sender : bytes;
  mr_timestamp_ms : Z;
  mr_body : bytes;
  mr_raw : bytes;
}.

Record PeerRow := mkPeerRow {
  pr_petname : option rstring;
  pr_verified : Z;
  pr_last_eph : bytes;
  pr_last_seen_ms : Z;
}.

Record EnvelopeRow := mkEnvelopeRow {
  er_recipient : bytes;
  er_packet : bytes;
  er_queued_ms : Z;
}.

Record DmRow := mkDmRow {
  dr_peer : bytes;
  dr_mine : Z;
  dr_timestamp_ms : Z;
  dr_body : bytes;
}.

(** The AUTOINCREMENT tables keep the largest id ever given out. *)
Record Database := mkDatabase {
  t_messages : gmap bytes MessageRow;
  t_peers : gmap bytes PeerRow;
  t_envelopes : gmap Z EnvelopeRow;
  t_dms : gmap Z DmRow;
  seq_envelopes : Z;
  seq_dms : Z;
}.

Definition empty_database : Database := mkDatabase ∅ ∅ ∅ ∅ 0 0.

(** An encrypted file: the key its pages are under, as the text of the PRAGMA, and its rows. A
    statement that has run is in the file. *)
Record DbFile := mkDbFile { file_key : rstring; file_db : Database }.

Definition set_file_db (f : DbFile) (d : Database) : DbFile := mkDbFile (file_key f) d.

Section database_updates.
Context (d : Database).
Definition set_t_messages x :=
  mkDatabase x (t_peers d) (t_envelopes d) (t_dms d) (seq_envelopes d) (seq_dms d).
Definition set_t_peers x :=
  mkDatabase (t_messages d) x (t_envelopes d) (t_dms d) (seq_envelopes d) (seq_dms d).
Definition set_t_envelopes x :=
  mkDatabase (t_messages d) (t_peers d) x (t_dms d) (seq_envelopes d) (seq_dms d).
Definition set_t_dms x :=
  mkDatabase (t_messages d) (t_peers d) (t_envelopes d) x (seq_envelopes d) (seq_dms d).
(** [INSERT] into an AUTOINCREMENT table. *)
Definition insert_envelope (r : EnvelopeRow) : Database :=
  let id := seq_envelopes d + 1 in
  mkDatabase (t_messages d) (t_peers d) (<[id := r]> (t_envelopes d)) (t_dms d) id (seq_dms d).
Definition insert_dm (r : DmRow) : Database :=
  let id := seq_dms d + 1 in
  mkDatabase (t_messages d) (t_peers d) (t_envelopes d) (<[id := r]> (t_dms d)) (seq_envelopes d) id.
End database_updates.

(** ** Clauses *)

Definition delete_where {K V} `{Countable K} (p : K → V → bool) (m : gmap K V) : gmap K V :=
  map_retain (λ k v, negb (p k v)) m.

(** [LIMIT]: a negative limit is none. *)
Definition sql_limit {A} (n : Z) (l : list A) : list A :=
  if n <? 0 then l else take (Z.to_nat n) l.

Definition desc {A} (leb : A → A → bool) : A → A → bool := λ x y, leb y x.

(** [ORDER BY id], [ORDER BY timestamp_ms] and [ORDER BY timestamp_ms, id]. *)
Definition by_id {V} (x y : Z * V) : bool := x.1 <=? y.1.
Definition by_timestamp (x y : bytes * MessageRow) : bool :=
  mr_timestamp_ms x.2 <=? mr_timestamp_ms y.2.
Definition by_timestamp_id (x y : Z * DmRow) : bool :=
  (dr_timestamp_ms x.2 <? dr_timestamp_ms y.2)
  || (dr_timestamp_ms x.2 =? dr_timestamp_ms y.2) && (x.1 <=? y.1).

Definition beq (x y : bytes) : bool := bool_decide (x = y).
(** [column = ?1]. *)
Definition where_eq {K V} (column : V → bytes) (x : bytes) (_ : K) (r : V) : bool :=
  beq (column r) x.

Section engine.
Context `{SqlEngine}.

Definition select {K V} `{Countable K} (i : nat) (q : string) (p : K → V → bool) (m : gmap K V)
    : list (K * V) :=
  List.filter (λ kv, p kv.1 kv.2) (sql_scan i q m).

(** [DELETE .. WHERE p AND key NOT IN (SELECT key .. WHERE p ORDER BY .. LIMIT n)]. *)
Definition delete_beyond {K V} `{Countable K} (i : nat) (q : string) (p : K → V → bool)
    (leb : K * V → K * V → bool) (n : Z) (m : gmap K V) : gmap K V :=
  let keep := map fst (sql_limit n (isort leb (select i q p m))) in
  delete_where (λ k v, p k v && negb (bool_decide (k ∈ keep))) m.

(** ** A connection: the file behind it and the number of statements run on it for effect *)

Record Connection := mkConnection { conn_file : DbFile; conn_stmts : nat }.

Definition conn_db (c : Connection) : Database := file_db (conn_file c).

(** [Connection::execute]: whether the statement succeeded; one that fails changes nothing. *)
Definition execute (c : Connection) (q : string) (f : nat → Database → Database)
    : bool * Connection :=
  let i := conn_stmts c in
  if sql_fails i q then (false, mkConnection (conn_file c) (S i))
  else (true, mkConnection (set_file_db (conn_file c) (f i (conn_db c))) (S i)).

(** [execute_batch] stops at the first statement that fails. *)
Fixpoint execute_batch (c : Connection) (stmts : list (string * (Database → Database)))
    : bool * Connection :=
  match stmts with
  | [] => (true, c)
  | (q, f) :: rest =>
      let '(ok, c) := execute c q (λ _ d, f d) in
      if ok then execute_batch c rest else (false, c)
  end.

(** [prepare] and [query_map], then the rows that could be read: [None] when preparing or running
    fails; a row that fails ends the cursor. *)
Definition query {A} (c : Connection) (q : string) (f : nat → Database → list A)
    : option (list A) :=
  let i := conn_stmts c in
  if sql_query_fails i q then None
  else let rows := f i (conn_db c) in
       Some (match sql_breaks i q with Some n => take n rows | None => rows end).

(** [query_row(..).optional().unwrap_or(None)]: the first row. *)
Definition query_row {A} (c : Connection) (q : string) (f : nat → Database → list A) : option A :=
  query c q f ≫= head.

(** ** The store *)

Record SqliteStore := mkSqliteStore {
  conn : Connection;
  sq_path : rstring;
  sq_history_max : Z;
  sq_history_ms : Millis;
  sq_envelope_ttl_ms : Millis;
  sq_envelope_max_per_peer : Z;
}.

Definition set_conn (s : SqliteStore) (c : Connection) : SqliteStore :=
  mkSqliteStore c (sq_path s) (sq_history_max s) (sq_history_ms s) (sq_envelope_ttl_ms s)
    (sq_envelope_max_per_peer s).

(** [let _ = self.conn.execute(..)]: whether it succeeded is not looked at. *)
Definition run (s : SqliteStore) (q : string) (f : nat → Database → Database) : SqliteStore :=
  set_conn s (execute (conn s) q f).2.

Definition hex_digit (n : Z) : byte := if n <? 10 then z2b (48 + n) else z2b (87 + n).
Definition hex (l : bytes) : rstring :=
  concat (map (λ b, [hex_digit (b2z b / 16); hex_digit (b2z b mod 16)]) l).

(** [a[..n].copy_from_slice(&v[..n])] into zeroes. *)
Definition to_arr8 (v : bytes) : bytes := take 8 v ++ zeroes (8 - length v).
Definition to_arr32 (v : bytes) : bytes := take 32 v ++ zeroes (32 - length v).

(** *** Opening

    A connection before any page was read: what is at the path, [None] if there is no file yet, and
    the key the connection was given, which no statement has tried. *)
Record Handle := mkHandle { h_file : option DbFile; h_key : rstring; h_stmts : nat }.

(** [PRAGMA key]: sets the key and reads nothing. *)
Definition pragma_key (text : rstring) (h : Handle) : option Handle :=
  Some (mkHandle (h_file h) text (h_stmts h)).

(** A statement that reads the file: it makes the file under the connection's key when there is
    none, and fails when the pages are under another. That the tables and indices are there then
    adds no row. *)
Definition create (h : Handle) : option Handle :=
  match h_file h with
  | None => Some (mkHandle (Some (mkDbFile (h_key h) empty_database)) (h_key h) (h_stmts h))
  | Some f => if sql_unlocks (file_key f) (h_key h) then Some h else None
  end.

Definition OPEN (key : bytes) : list (string * (Handle → option Handle)) := [
  ("Connection::open"%string, Some);
  ("PRAGMA key"%string, pragma_key (hex key));
  ("CREATE TABLE IF NOT EXISTS messages"%string, create);
  ("CREATE INDEX IF NOT EXISTS idx_messages_channel"%string, create);
  ("CREATE TABLE IF NOT EXISTS peers"%string, create);
  ("CREATE TABLE IF NOT EXISTS envelopes"%string, create);
  ("CREATE INDEX IF NOT EXISTS idx_envelopes_recipient"%string, create);
  ("CREATE TABLE IF NOT EXISTS dms"%string, create);
  ("CREATE INDEX IF NOT EXISTS idx_dms_peer"%string, create)].

(** The statements in order, each with [?]. *)
Fixpoint open_batch (h : Handle) (stmts : list (string * (Handle → option Handle))) : option Handle :=
  match stmts with
  | [] => Some h
  | (q, f) :: rest =>
      if sql_fails (h_stmts h) q then None
      else h ← f (mkHandle (h_file h) (h_key h) (S (h_stmts h))); open_batch h rest
  end.

Definition open (file : option DbFile) (path : rstring) (key : bytes) (hmax : Z)
    (hms ettl : Millis) (emax : Z) : option SqliteStore :=
  h ← open_batch (mkHandle file [] 0) (OPEN key);
  f ← h_file h;
  Some (mkSqliteStore (mkConnection f (h_stmts h)) path hmax hms ettl emax).

Definition path (s : SqliteStore) : rstring := sq_path s.

(** *** Channel messages *)

Definition PRUNE_AGE : string :=
  "DELETE FROM messages WHERE channel = ?1 AND ?2 - timestamp_ms >= ?3".
Definition PRUNE_COUNT : string :=
  "DELETE FROM messages WHERE channel = ?1 AND digest NOT IN (SELECT digest FROM messages WHERE channel = ?1 ORDER BY timestamp_ms DESC LIMIT ?2)".

Definition prune_age (c : rstring) (now ms : Z) (m : gmap bytes MessageRow) :=
  delete_where (λ k r, where_eq mr_channel c k r && minus_ge now (mr_timestamp_ms r) ms) m.
Definition prune_count (i : nat) (c : rstring) (n : Z) (m : gmap bytes MessageRow) :=
  delete_beyond i PRUNE_COUNT (where_eq mr_channel c) (desc by_timestamp) n m.

Definition sq_prune_channel (s : SqliteStore) (channel : rstring) (now_ms : Z) : SqliteStore :=
  let s1 := if sq_history_ms s >? 0 then
              run s PRUNE_AGE (λ _ d, set_t_messages d
                (prune_age channel now_ms (as_i64 (sq_history_ms s)) (t_messages d)))
            else s in
  run s1 PRUNE_COUNT (λ i d, set_t_messages d
    (prune_count i channel (as_i64 (sq_history_max s)) (t_messages d))).

Definition row_to_message (row : bytes * MessageRow) : StoredMessage :=
  mkStoredMessage (to_arr8 row.1) (mr_channel row.2) (to_arr8 (mr_sender row.2))
    (as_u64 (mr_timestamp_ms row.2)) (mr_body row.2) (mr_raw row.2).

Definition message_row (m : StoredMessage) : MessageRow :=
  mkMessageRow (sm_channel m) (sm_sender m) (as_i64 (sm_timestamp_ms m)) (sm_body m) (sm_raw m).

(** [INSERT OR IGNORE]. *)
Definition insert_or_ignore {K V} `{Countable K} (k : K) (v : V) (m : gmap K V) : gmap K V :=
  match m !! k with Some _ => m | None => <[k := v]> m end.

Definition INSERT_MESSAGE : string :=
  "INSERT OR IGNORE INTO messages (digest, channel, sender, timestamp_ms, body, raw) VALUES (?1, ?2, ?3, ?4, ?5, ?6)".

Definition sq_put_channel_message (s : SqliteStore) (msg : StoredMessage) : SqliteStore :=
  let now := as_i64 (sm_timestamp_ms msg) in
  let s := run s INSERT_MESSAGE (λ _ d, set_t_messages d
             (insert_or_ignore (sm_digest msg) (message_row msg) (t_messages d))) in
  sq_prune_channel s (sm_channel msg) now.

Definition HAS_MESSAGE : string := "SELECT 1 FROM messages WHERE digest = ?1".
Definition sq_has_message (s : SqliteStore) (digest : bytes) : bool :=
  bool_decide (is_Some (query_row (conn s) HAS_MESSAGE (λ i d,
    select i HAS_MESSAGE (λ k _, beq k digest) (t_messages d)))).

Definition CHANNEL_HISTORY : string :=
  "SELECT digest, channel, sender, timestamp_ms, body, raw FROM (SELECT digest, channel, sender, timestamp_ms, body, raw FROM messages WHERE channel = ?1 ORDER BY timestamp_ms DESC LIMIT ?2) ORDER BY timestamp_ms ASC".
Definition sq_channel_history (s : SqliteStore) (channel : rstring) (limit : Z)
    : list StoredMessage :=
  default [] (query (conn s) CHANNEL_HISTORY (λ i d,
    map row_to_message (isort by_timestamp (sql_limit (as_i64 limit)
      (isort (desc by_timestamp) (select i CHANNEL_HISTORY (where_eq mr_channel channel) (t_messages d))))))).

Definition CHANNEL_DIGESTS : string := "SELECT digest FROM messages WHERE channel = ?1".
Definition sq_channel_digests (s : SqliteStore) (channel : rstring) : list bytes :=
  default [] (query (conn s) CHANNEL_DIGESTS (λ i d,
    map (to_arr8 ∘ fst) (select i CHANNEL_DIGESTS (where_eq mr_channel channel) (t_messages d)))).

Definition MESSAGE_BY_DIGEST : string :=
  "SELECT digest, channel, sender, timestamp_ms, body, raw FROM messages WHERE digest = ?1".
Definition sq_message_by_digest (s : SqliteStore) (digest : bytes) : option StoredMessage :=
  query_row (conn s) MESSAGE_BY_DIGEST (λ i d,
    map row_to_message (select i MESSAGE_BY_DIGEST (λ k _, beq k digest) (t_messages d))).

(** *** Peers *)

Definition peer_row (p : PeerRecord) : PeerRow :=
  mkPeerRow (petname p) (i64_of_bool (verified p)) (last_eph p) (as_i64 (last_seen_ms p)).

Definition row_to_peer (row : bytes * PeerRow) : PeerRecord :=
  mkPeerRecord (to_arr32 row.1) (pr_petname row.2) (negb (pr_verified row.2 =? 0))
    (to_arr8 (pr_last_eph row.2)) (as_u64 (pr_last_seen_ms row.2)).

Definition UPSERT_PEER : string :=
  "INSERT OR REPLACE INTO peers (fingerprint, petname, verified, last_eph, last_seen_ms) VALUES (?1, ?2, ?3, ?4, ?5)".
Definition sq_upsert_peer (s : SqliteStore) (peer : PeerRecord) : SqliteStore :=
  run s UPSERT_PEER (λ _ d, set_t_peers d (<[fingerprint peer := peer_row peer]> (t_peers d))).

Definition GET_PEER : string :=
  "SELECT fingerprint, petname, verified, last_eph, last_seen_ms FROM peers WHERE fingerprint = ?1".
Definition sq_get_peer (s : SqliteStore) (fp : Fingerprint) : option PeerRecord :=
  query_row (conn s) GET_PEER (λ i d,
    map row_to_peer (select i GET_PEER (λ k _, beq k fp) (t_peers d))).

Definition LIST_PEERS : string :=
  "SELECT fingerprint, petname, verified, last_eph, last_seen_ms FROM peers".
Definition sq_list_peers (s : SqliteStore) : list PeerRecord :=
  default [] (query (conn s) LIST_PEERS (λ i d,
    map row_to_peer (select i LIST_PEERS (λ _ _, true) (t_peers d)))).

Definition DELETE_PEER : string := "DELETE FROM peers WHERE fingerprint = ?1".
Definition sq_delete_peer (s : SqliteStore) (fp : Fingerprint) : SqliteStore :=
  run s DELETE_PEER (λ _ d, set_t_peers d (delete_where (λ k _, beq k fp) (t_peers d))).

(** *** Direct messages *)

Definition dm_row (dm : StoredDm) : DmRow :=
  mkDmRow (dm_peer dm) (i64_of_bool (mine dm)) (as_i64 (dm_timestamp_ms dm)) (dm_body dm).

Definition row_to_dm (row : Z * DmRow) : StoredDm :=
  mkStoredDm (to_arr32 (dr_peer row.2)) (negb (dr_mine row.2 =? 0))
    (as_u64 (dr_timestamp_ms row.2)) (dr_body row.2).

Definition INSERT_DM : string :=
  "INSERT INTO dms (peer, mine, timestamp_ms, body) VALUES (?1, ?2, ?3, ?4)".
Definition TRIM_DMS : string :=
  "DELETE FROM dms WHERE peer = ?1 AND id NOT IN (SELECT id FROM dms WHERE peer = ?1 ORDER BY timestamp_ms DESC, id DESC LIMIT ?2)".
Definition sq_put_dm (s : SqliteStore) (dm : StoredDm) : SqliteStore :=
  let s := run s INSERT_DM (λ _ d, insert_dm d (dm_row dm)) in
  run s TRIM_DMS (λ i d, set_t_dms d
    (delete_beyond i TRIM_DMS (where_eq dr_peer (dm_peer dm)) (desc by_timestamp_id)
       (as_i64 (sq_history_max s)) (t_dms d))).

Definition DM_HISTORY : string :=
  "SELECT peer, mine, timestamp_ms, body FROM (SELECT id, peer, mine, timestamp_ms, body FROM dms WHERE peer = ?1 ORDER BY timestamp_ms DESC, id DESC LIMIT ?2) ORDER BY timestamp_ms ASC, id ASC".
Definition sq_dm_history (s : SqliteStore) (peer : Fingerprint) (limit : Z) : list StoredDm :=
  default [] (query (conn s) DM_HISTORY (λ i d,
    map row_to_dm (isort by_timestamp_id (sql_limit (as_i64 limit)
      (isort (desc by_timestamp_id) (select i DM_HISTORY (where_eq dr_peer peer) (t_dms d))))))).

Definition DELETE_CONTROL : string :=
  "DELETE FROM dms WHERE peer = ?1 AND length(body) = 1 AND (body = x'01' OR body = x'02' OR body = x'03')".
Definition DELETE_DMS : string := "DELETE FROM dms WHERE peer = ?1".
Definition control_body (body : bytes) : bool :=
  (zlen body =? 1)
  && (beq body [Byte.x01] || beq body [Byte.x02] || beq body [Byte.x03]).
Definition sq_delete_dms (s : SqliteStore) (fp : Fingerprint) (only_control : bool) : SqliteStore :=
  if only_control then
    run s DELETE_CONTROL (λ _ d, set_t_dms d
      (delete_where (λ k r, where_eq dr_peer fp k r && control_body (dr_body r)) (t_dms d)))
  else run s DELETE_DMS (λ _ d, set_t_dms d (delete_where (where_eq dr_peer fp) (t_dms d))).

(** *** Envelopes *)

Definition EXPIRE_ENVELOPES : string :=
  "DELETE FROM envelopes WHERE recipient = ?1 AND ?2 - queued_ms >= ?3".
Definition INSERT_ENVELOPE : string :=
  "INSERT INTO envelopes (recipient, packet, queued_ms) VALUES (?1, ?2, ?3)".
Definition TRIM_ENVELOPES : string :=
  "DELETE FROM envelopes WHERE recipient = ?1 AND id NOT IN (SELECT id FROM envelopes WHERE recipient = ?1 ORDER BY id DESC LIMIT ?2)".
Definition sq_queue_envelope (s : SqliteStore) (recipient : Fingerprint) (packet_bytes : bytes)
    (now_ms : Millis) : SqliteStore :=
  let now := as_i64 now_ms in
  let s := if sq_envelope_ttl_ms s >? 0 then
             run s EXPIRE_ENVELOPES (λ _ d, set_t_envelopes d
               (delete_where (λ k r, where_eq er_recipient recipient k r
                  && minus_ge now (er_queued_ms r) (as_i64 (sq_envelope_ttl_ms s)))
                  (t_envelopes d)))
           else s in
  let s := run s INSERT_ENVELOPE (λ _ d,
             insert_envelope d (mkEnvelopeRow recipient packet_bytes now)) in
  run s TRIM_ENVELOPES (λ i d, set_t_envelopes d
    (delete_beyond i TRIM_ENVELOPES (where_eq er_recipient recipient) (desc by_id)
       (as_i64 (sq_envelope_max_per_peer s)) (t_envelopes d))).

Definition SELECT_ENVELOPES : string :=
  "SELECT packet FROM envelopes WHERE recipient = ?1 ORDER BY id ASC".
Definition DELETE_ENVELOPES : string := "DELETE FROM envelopes WHERE recipient = ?1".
Definition sq_take_envelopes (s : SqliteStore) (recipient : Fingerprint)
    : list bytes * SqliteStore :=
  match query (conn s) SELECT_ENVELOPES (λ i d,
          map (er_packet ∘ snd) (isort by_id
            (select i SELECT_ENVELOPES (where_eq er_recipient recipient) (t_envelopes d)))) with
  | None => ([], s)
  | Some out =>
      (out, run s DELETE_ENVELOPES (λ _ d,
              set_t_envelopes d (delete_where (where_eq er_recipient recipient) (t_envelopes d))))
  end.

(** *** Wiping *)

Definition WIPE : list (string * (Database → Database)) := [
  ("DELETE FROM messages"%string, λ d, set_t_messages d ∅);
  ("DELETE FROM peers"%string, λ d, set_t_peers d ∅);
  ("DELETE FROM dms"%string, λ d, set_t_dms d ∅);
  ("DELETE FROM envelopes"%string, λ d, set_t_envelopes d ∅);
  ("VACUUM"%string, λ d, d)].

Definition sq_panic_wipe (s : SqliteStore) : SqliteStore :=
  set_conn s (execute_batch (conn s) WIPE).2.

#[export] Instance SqliteStore_Store : Store SqliteStore := {|
  put_channel_message := sq_put_channel_message;
  has_message := sq_has_message;
  channel_history := sq_channel_history;
  channel_digests := sq_channel_digests;
  message_by_digest := sq_message_by_digest;
  upsert_peer := sq_upsert_peer;
  get_peer := sq_get_peer;
  list_peers := sq_list_peers;
  put_dm := sq_put_dm;
  dm_history := sq_dm_history;
  queue_envelope := sq_queue_envelope;
  take_envelopes := sq_take_envelopes;
  delete_peer := sq_delete_peer;
  delete_dms := sq_delete_dms;
  store_panic_wipe := sq_panic_wipe;
|}.
End engine.
