(* ===== verification/SqlTables.v ===== *)
(** * SqlTables: what a query over a table returns

    Sorting under an order that tells the rows apart gives one list, whatever order the rows were
    visited in ([listing]); the lemmas say what insertion, deletion and trimming do to it. *)
From stdpp Require Import strings gmap.
From S2P Require Import Prelude Store Sqlite.

(** ** Sorting *)

Section sorting.
Context {A : Type} (leb : A → A → bool).

(** A sorted list is determined by its elements when the order tells them apart. *)
Lemma sorted_perm_unique l1 l2 :
  (∀ x y, x ∈ l1 → y ∈ l1 → leb x y = true → leb y x = true → x = y) →
  sorted_by leb l1 → sorted_by leb l2 → l1 ≡ₚ l2 → l1 = l2.
Proof.
  intros Ha H1. revert l2. unfold sorted_by in *.
  induction H1 as [|x l1 H1 IH Hx]; intros l2 H2 Hp.
  { apply Permutation_nil_l in Hp. by subst. }
  destruct l2 as [|y l2]; [by apply Permutation_nil_r in Hp|].
  apply StronglySorted_inv in H2 as [H2 Hy]. rewrite Forall_forall in Hx, Hy.
  assert (x = y) as ->.
  { assert (x ∈ y :: l2) as [->|Hxl]%elem_of_cons by (rewrite <- Hp; apply list_elem_of_here); [done|].
    assert (y ∈ x :: l1) as [->|Hyl]%elem_of_cons by (rewrite Hp; apply list_elem_of_here); [done|].
    apply Ha; [apply list_elem_of_here|by apply list_elem_of_further|by apply Hx|by apply Hy]. }
  f_equal. apply IH; [|done|by apply Permutation_cons_inv in Hp].
  intros a b Hia Hib. by apply Ha; apply list_elem_of_further.
Qed.

(** Two orders that agree on every pair in list order sort alike. *)
Lemma isort_ext leb2 l :
  StronglySorted (λ x y, leb x y = leb2 x y) l → isort leb l = isort leb2 l.
Proof.
  induction 1 as [|x l Hl IH Hx]; [done|].
  change (isort_insert leb x (isort leb l) = isort_insert leb2 x (isort leb2 l)). rewrite <- IH.
  assert (Forall (λ y, leb x y = leb2 x y) (isort leb l)) as Hk.
  { rewrite Forall_forall in Hx |- *. intros y Hy. by apply Hx, (isort_elem_of leb). }
  revert Hk. generalize (isort leb l) as k. clear IH. intros k.
  induction 1 as [|y k Hy Hk IHk]; cbn; [done|]. rewrite <- Hy, IHk. done.
Qed.

Lemma sorted_by_rev l : sorted_by leb l → sorted_by (desc leb) (rev l).
Proof.
  unfold sorted_by, desc. induction 1 as [|x l Hl IH Hx]; [constructor|]. cbn [rev].
  apply StronglySorted_app_2; [|done|repeat constructor].
  intros a b Ha%list_elem_of_In%in_rev%list_elem_of_In ->%list_elem_of_singleton.
  rewrite Forall_forall in Hx. by apply Hx.
Qed.

Lemma NoDup_filter_in {B} `{EqDecision B} (key : A → B) l1 l2 :
  NoDup (map key (l1 ++ l2)) →
  List.filter (λ x, bool_decide (key x ∈ map key l2)) (l1 ++ l2) = l2.
Proof.
  rewrite map_app. intros (_ & Hd & _)%NoDup_app. rewrite List.filter_app.
  assert (List.filter (λ x, bool_decide (key x ∈ map key l2)) l1 = []) as ->.
  { apply elem_of_nil_inv. intros x [Hx Hk%bool_decide_eq_true]%elem_of_filter_list.
    apply (Hd (key x)); [|done]. apply elem_of_map_list. by exists x. }
  cbn. assert (∀ x, x ∈ l2 → bool_decide (key x ∈ map key l2) = true) as Hin.
  { intros x Hx. apply bool_decide_eq_true, elem_of_map_list. by exists x. }
  revert Hin. generalize (map key l2) as ks. intros ks. clear Hd.
  induction l2 as [|x l2 IH]; intros Hin; cbn; [done|].
  rewrite Hin by apply list_elem_of_here. f_equal. apply IH.
  intros y Hy. apply Hin. by apply list_elem_of_further.
Qed.
End sorting.

Lemma isort_map {A B} (f : A → B) (leb : B → B → bool) l :
  isort leb (map f l) = map f (isort (λ x y, leb (f x) (f y)) l).
Proof.
  induction l as [|x l IH]; [done|].
  change (isort_insert leb (f x) (isort leb (map f l))
          = map f (isort_insert (λ x y, leb (f x) (f y)) x (isort (λ x y, leb (f x) (f y)) l))).
  rewrite IH. generalize (isort (λ x y, leb (f x) (f y)) l) as k.
  induction k as [|y k IHk]; [done|].
  cbn [map isort_insert]. destruct (leb (f x) (f y)); [done|]. by rewrite IHk.
Qed.

Lemma filter_map_list {A B} (f : A → B) (p : B → bool) l :
  List.filter p (map f l) = map f (List.filter (λ x, p (f x)) l).
Proof. induction l as [|x l IH]; cbn; [done|]. destruct (p (f x)); cbn; by rewrite IH. Qed.

Lemma filter_ext_in {A} (p q : A → bool) l :
  (∀ x, x ∈ l → p x = q x) → List.filter p l = List.filter q l.
Proof. intros H. apply List.filter_ext_in. intros x Hx. apply H. by apply list_elem_of_In. Qed.

Lemma filter_perm {A} (p : A → bool) l1 l2 : l1 ≡ₚ l2 → List.filter p l1 ≡ₚ List.filter p l2.
Proof.
  induction 1 as [|x l1 l2 H IH|x y l|l1 l2 l3 H1 IH1 H2 IH2]; cbn; [done| |..].
  - destruct (p x); by rewrite IH.
  - destruct (p x), (p y); try done. apply Permutation_swap.
  - by rewrite IH1.
Qed.

Lemma take_rev_drop {A} n (l : list A) : take n (rev l) = rev (drop (length l - n) l).
Proof.
  destruct (decide (n ≤ length l)%nat) as [Hn|Hn].
  - rewrite <- (take_drop (length l - n) l) at 1. rewrite rev_app_distr.
    assert (length (rev (drop (length l - n) l)) = n) as Hd by (rewrite length_rev, length_drop; lia).
    rewrite take_app_le by lia. apply take_ge. lia.
  - replace (length l - n)%nat with 0%nat by lia. rewrite drop_0.
    apply take_ge. rewrite length_rev. lia.
Qed.

(** ** Listings *)

Section listing.
Context {K V : Type} `{Countable K}.
Implicit Types (m : gmap K V) (p : K → V → bool).

(** The rows a condition selects, in order. *)
Definition listing (leb : K * V → K * V → bool) (p : K → V → bool) (m : gmap K V)
    : list (K * V) :=
  isort leb (List.filter (λ kv, p kv.1 kv.2) (map_to_list m)).

(** The order tells the selected rows apart. *)
Definition separates (leb : K * V → K * V → bool) (p : K → V → bool) (m : gmap K V) : Prop :=
  ∀ x y, m !! x.1 = Some x.2 → m !! y.1 = Some y.2 → p x.1 x.2 = true → p y.1 y.2 = true →
         leb x y = true → leb y x = true → x = y.

Lemma elem_of_select_rows p m x :
  x ∈ List.filter (λ kv, p kv.1 kv.2) (map_to_list m) ↔ m !! x.1 = Some x.2 ∧ p x.1 x.2 = true.
Proof.
  rewrite elem_of_filter_list. destruct x as [k v]. by rewrite elem_of_map_to_list.
Qed.

Lemma elem_of_listing leb p m x : x ∈ listing leb p m ↔ m !! x.1 = Some x.2 ∧ p x.1 x.2 = true.
Proof. unfold listing. by rewrite isort_elem_of, elem_of_select_rows. Qed.

Lemma listing_NoDup leb p m : NoDup (map fst (listing leb p m)).
Proof.
  unfold listing. assert (map fst (isort leb (List.filter (λ kv, p kv.1 kv.2) (map_to_list m)))
    ≡ₚ map fst (List.filter (λ kv, p kv.1 kv.2) (map_to_list m))) as ->.
  { by apply Permutation_map, isort_perm. }
  apply NoDup_map_filter. apply NoDup_fst_map_to_list.
Qed.

Lemma listing_ext leb p q m :
  (∀ k v, m !! k = Some v → p k v = q k v) → listing leb p m = listing leb q m.
Proof.
  intros Hpq. unfold listing. f_equal. apply filter_ext_in. intros [k v] Hk.
  by apply Hpq, elem_of_map_to_list.
Qed.

Context (leb : K * V → K * V → bool).
Context (leb_total : ∀ x y, leb x y = true ∨ leb y x = true).
Context (leb_trans : ∀ x y z, leb x y = true → leb y z = true → leb x z = true).

Lemma listing_sorted p m : sorted_by leb (listing leb p m).
Proof. by apply isort_sorted. Qed.

(** Sorted rows with the right elements are the listing. *)
Lemma listing_unique p m l :
  separates leb p m → sorted_by leb l →
  l ≡ₚ List.filter (λ kv, p kv.1 kv.2) (map_to_list m) → l = listing leb p m.
Proof.
  intros Hs Hl Hp. symmetry. apply (sorted_perm_unique leb); [|apply listing_sorted|done|].
  - intros x y [? ?]%elem_of_listing [? ?]%elem_of_listing. by apply Hs.
  - unfold listing. by rewrite isort_perm, Hp.
Qed.

Lemma listing_isort p m l :
  separates leb p m → l ≡ₚ List.filter (λ kv, p kv.1 kv.2) (map_to_list m) →
  isort leb l = listing leb p m.
Proof.
  intros Hs Hp. apply listing_unique; [done|by apply isort_sorted|by rewrite isort_perm].
Qed.

Lemma listing_desc p m l :
  separates leb p m → l ≡ₚ List.filter (λ kv, p kv.1 kv.2) (map_to_list m) →
  isort (desc leb) l = rev (listing leb p m).
Proof.
  intros Hs Hp. apply (sorted_perm_unique (desc leb)).
  - intros x y. rewrite !isort_elem_of, Hp, !elem_of_select_rows. intros [??] [??] ??.
    by apply Hs.
  - apply isort_sorted; unfold desc; [intros; apply or_comm, leb_total|].
    intros x y z H1 H2. by eapply leb_trans.
  - by apply sorted_by_rev, listing_sorted.
  - rewrite isort_perm, <- Permutation_rev. unfold listing. by rewrite isort_perm, Hp.
Qed.

Lemma delete_where_filter p q m :
  List.filter (λ kv, p kv.1 kv.2) (map_to_list (delete_where q m))
  ≡ₚ List.filter (λ kv, p kv.1 kv.2 && negb (q kv.1 kv.2)) (map_to_list m).
Proof.
  apply NoDup_Permutation.
  - eapply NoDup_fmap_1, (NoDup_map_filter fst), NoDup_fst_map_to_list.
  - eapply NoDup_fmap_1, (NoDup_map_filter fst), NoDup_fst_map_to_list.
  - intros [k v]. rewrite !elem_of_filter_list, !elem_of_map_to_list. cbn.
    unfold delete_where. rewrite map_retain_lookup, andb_true_iff. tauto.
Qed.

Lemma separates_delete p q m : separates leb p m → separates leb p (delete_where q m).
Proof.
  intros Hs x y Hx Hy. unfold delete_where in Hx, Hy.
  apply map_retain_lookup in Hx as [Hx _], Hy as [Hy _]. by apply Hs.
Qed.

(** Deleting rows leaves the others in place. *)
Lemma listing_delete p q m :
  separates leb p m →
  listing leb p (delete_where q m)
  = List.filter (λ kv, negb (q kv.1 kv.2)) (listing leb p m).
Proof.
  intros Hs. symmetry. apply listing_unique; [by apply separates_delete| |].
  - apply sorted_by_filter, listing_sorted.
  - rewrite delete_where_filter, <- filter_filter_and. apply filter_perm. unfold listing.
    apply isort_perm.
Qed.

Lemma listing_delete_other p q m :
  separates leb p m → (∀ k v, m !! k = Some v → p k v = true → q k v = false) →
  listing leb p (delete_where q m) = listing leb p m.
Proof.
  intros Hs Hd. rewrite listing_delete by done.
  rewrite (filter_ext_in _ (λ _, true)); [apply filter_true|].
  intros [k v] [Hk Hp]%elem_of_listing. cbn in *. by rewrite (Hd k v).
Qed.

Lemma listing_delete_all p m : listing leb p (delete_where p m) = [].
Proof.
  apply elem_of_nil_inv. intros x [Hx Hp]%elem_of_listing. unfold delete_where in Hx.
  apply map_retain_lookup in Hx as [_ Hx]. by rewrite Hp in Hx.
Qed.

(** A new row goes to the end of the list before sorting. *)
Lemma listing_insert p m k v :
  m !! k = None → separates leb p (<[k := v]> m) →
  listing leb p (<[k := v]> m)
  = if p k v then isort leb (listing leb p m ++ [(k, v)]) else listing leb p m.
Proof.
  intros Hk Hs. symmetry. apply listing_unique; [done|..].
  - destruct (p k v); [by apply isort_sorted|apply listing_sorted].
  - rewrite (filter_perm _ _ _ (map_to_list_insert _ _ _ Hk)). cbn [List.filter fst snd].
    destruct (p k v).
    + rewrite isort_perm, <- Permutation_cons_append. unfold listing. by rewrite isort_perm.
    + apply isort_perm.
Qed.

Context `{SqlEngine, !SqlEngineLaws}.

Lemma select_perm i q p m :
  select i q p m ≡ₚ List.filter (λ kv, p kv.1 kv.2) (map_to_list m).
Proof. unfold select. apply filter_perm, sql_scan_perm. Qed.

Lemma elem_of_select i q p m x : x ∈ select i q p m ↔ m !! x.1 = Some x.2 ∧ p x.1 x.2 = true.
Proof. by rewrite select_perm, elem_of_select_rows. Qed.

(** [ORDER BY .. DESC LIMIT n] gives the last [n] of the listing, newest first. *)
Lemma newest_rows i q p m n :
  separates leb p m → 0 <= n →
  sql_limit n (isort (desc leb) (select i q p m))
  = rev (drop (length (listing leb p m) - Z.to_nat n) (listing leb p m)).
Proof.
  intros Hs Hn. unfold sql_limit. rewrite (proj2 (Z.ltb_ge _ _)) by done.
  rewrite (listing_desc p m) by (done || apply select_perm). apply take_rev_drop.
Qed.

(** Keeping the newest rows drops the excess from the front of the listing. *)
Lemma listing_beyond i q p m n :
  separates leb p m → 0 <= n →
  listing leb p (delete_beyond i q p (desc leb) n m)
  = drop (excess n (listing leb p m)) (listing leb p m).
Proof.
  intros Hs Hn. unfold delete_beyond. rewrite listing_delete by done. rewrite newest_rows by done.
  set (L := listing leb p m). set (N := (length L - Z.to_nat n)%nat).
  change (excess n L) with N. assert (NoDup (map fst (take N L ++ drop N L))) as Hnd by (rewrite take_drop; apply listing_NoDup).
  apply NoDup_filter_in in Hnd. rewrite take_drop in Hnd. etrans; [|exact Hnd].
  apply filter_ext_in. intros [k v] [_ Hp]%elem_of_listing. cbn in Hp |- *.
  rewrite Hp. cbn [andb]. rewrite negb_involutive. apply bool_decide_ext.
  rewrite map_rev, !list_elem_of_In. symmetry. apply in_rev.
Qed.

Lemma listing_beyond_other i q p p' m n l :
  separates leb p' m → (∀ k v, m !! k = Some v → p' k v = true → p k v = false) →
  listing leb p' (delete_beyond i q p l n m) = listing leb p' m.
Proof.
  intros Hs Hd. unfold delete_beyond. apply listing_delete_other; [done|].
  intros k v Hk Hp. by rewrite (Hd k v).
Qed.
End listing.

Lemma elem_of_delete_where {K V} `{Countable K} (p : K → V → bool) m k v :
  delete_where p m !! k = Some v ↔ m !! k = Some v ∧ p k v = false.
Proof. unfold delete_where. by rewrite map_retain_lookup, negb_true_iff. Qed.

Lemma delete_where_subseteq {K V} `{Countable K} (p : K → V → bool) m : delete_where p m ⊆ m.
Proof. apply map_retain_subseteq. Qed.

Lemma beq_true x y : beq x y = true ↔ x = y.
Proof. apply bool_decide_eq_true. Qed.
