(* ===== verification/SqliteProps.v ===== *)
(** * SqliteProps: what the encrypted store guarantees

    The laws of the [Store] interface, what opening a file gives, and the origin of everything that
    is read back, for an engine that visits rows in any order and whose statements may fail. *)
From stdpp Require Import strings gmap.
From S2P Require Import Prelude Clock Utf8 F64 Wire Toy Store Sqlite SqlTables.

#[global] Arguments run : simpl never.
#[global] Arguments WIPE : simpl never.
#[global] Arguments create : simpl never.
#[global] Arguments to_arr8 : simpl never.
#[global] Arguments to_arr32 : simpl never.
#[global] Arguments as_i64 : simpl never.
#[global] Arguments as_u64 : simpl never.

(** ** Conversions *)

Lemma as_u64_i64 z : in_width 64 z → as_u64 (as_i64 z) = z.
Proof.
  unfold in_width, as_u64, as_i64. intros Hz. rewrite (Z.mod_small z) by done.
  case_match; [by rewrite Z.mod_small|].
  replace (z - 2 ^ 64) with (z + (-1) * 2 ^ 64) by lia. by rewrite Z.mod_add, Z.mod_small by lia.
Qed.

Lemma as_i64_small z : in_width 63 z → as_i64 z = z.
Proof.
  unfold in_width, as_i64. intros Hz. rewrite Z.mod_small by lia.
  by rewrite (proj2 (Z.ltb_lt _ _)) by lia.
Qed.

Lemma as_u64_small z : in_width 63 z → as_u64 z = z.
Proof. unfold in_width, as_u64. intros. apply Z.mod_small. lia. Qed.

Lemma in_width_63_64 z : in_width 63 z → in_width 64 z.
Proof. unfold in_width. lia. Qed.

Lemma i64_of_bool_neq b : negb (i64_of_bool b =? 0) = b.
Proof. by destruct b. Qed.

Lemma to_arr8_id v : length v = 8%nat → to_arr8 v = v.
Proof. intros E. unfold to_arr8. rewrite E. cbn. rewrite app_nil_r. apply take_ge. lia. Qed.

Lemma to_arr32_id v : length v = 32%nat → to_arr32 v = v.
Proof. intros E. unfold to_arr32. rewrite E. cbn. rewrite app_nil_r. apply take_ge. lia. Qed.

Lemma minus_ge_small a b c :
  in_width 63 a → in_width 63 b → minus_ge a b c = (c <=? a - b).
Proof. unfold in_width, minus_ge. intros. by rewrite (proj2 (Z.leb_le _ _)), (proj2 (Z.ltb_lt _ _)) by lia. Qed.

Lemma control_body_is body : control_body body = is_control_dm body.
Proof.
  unfold control_body, is_control_dm. destruct body as [|b [|c l]]; [done|..].
  - change (zlen [b] =? 1) with true. cbn [andb]. by destruct b.
  - rewrite (proj2 (Z.eqb_neq _ _)); [done|]. unfold zlen. cbn [length]. lia.
Qed.

(** *** Hexadecimal *)

Lemma hex_digit_inj a b : in_width 4 a → in_width 4 b → hex_digit a = hex_digit b → a = b.
Proof.
  unfold in_width. intros Ha Hb E. apply (f_equal b2z) in E. unfold hex_digit in E.
  revert E. repeat case_match; rewrite !b2z_z2b, !Z.mod_small by lia; lia.
Qed.

Lemma hex_inj l1 l2 : hex l1 = hex l2 → l1 = l2.
Proof.
  revert l2. induction l1 as [|a l1 IH]; intros [|b l2]; [done..|]. unfold hex. cbn [map concat app].
  intros [=E1 E2 E3]. pose proof (b2z_range a). pose proof (b2z_range b).
  apply hex_digit_inj in E1, E2; unfold in_width;
    try (split; [apply Z.div_pos; lia|apply Z.div_lt_upper_bound; lia]);
    try (apply Z.mod_pos_bound; lia).
  f_equal; [|by apply IH]. apply b2z_inj.
  rewrite (Z.div_mod (b2z a) 16), (Z.div_mod (b2z b) 16) by lia. congruence.
Qed.

Lemma length_hex l : length (hex l) = (2 * length l)%nat.
Proof. unfold hex. induction l as [|b l IH]; cbn in *; lia. Qed.

(** ** A reliable engine *)

Section reliable.
Context `{SqlEngine, !SqlEngineLaws, !SqlReads, !SqlWrites}.
Implicit Types s : SqliteStore.

#[local] Abbreviation db s := (conn_db (conn s)).

Lemma run_db s q f : db (run s q f) = f (conn_stmts (conn s)) (db s).
Proof. unfold run, execute. by rewrite sql_writes. Qed.

Lemma query_rows {A} c q (f : nat → Database → list A) :
  query c q f = Some (f (conn_stmts c) (conn_db c)).
Proof. unfold query. by rewrite sql_reads, sql_reads_all. Qed.

Lemma execute_batch_db c stmts :
  execute_batch c stmts
  = (true, mkConnection (set_file_db (conn_file c) (foldl (λ d qf, qf.2 d) (conn_db c) stmts))
             (conn_stmts c + length stmts)).
Proof.
  revert c. induction stmts as [|[q f] stmts IH]; intros c; cbn [execute_batch].
  - destruct c as [[]]. cbn. by rewrite Nat.add_0_r.
  - unfold execute. rewrite sql_writes. rewrite IH. cbn. do 2 f_equal. lia.
Qed.

(** The rows with a given primary key: one or none. *)
Lemma select_key {V} (i : nat) (q : string) (k : bytes) (m : gmap bytes V) :
  select i q (λ j _, beq j k) m = match m !! k with Some v => [(k, v)] | None => [] end.
Proof.
  assert (NoDup (select i q (λ j _, beq j k) m)) as Hnd.
  { rewrite select_perm. eapply NoDup_fmap_1, (NoDup_map_filter fst), NoDup_fst_map_to_list. }
  assert (∀ x, x ∈ select i q (λ j _, beq j k) m ↔ m !! k = Some x.2 ∧ x.1 = k) as Hin.
  { intros x. rewrite elem_of_select. setoid_rewrite beq_true. split; intros [E1 E2]; by subst. }
  destruct (m !! k) as [v|] eqn:E.
  - destruct (select _ _ _ _) as [|x [|y l]] eqn:El.
    + exfalso. apply (not_elem_of_nil (k, v)). rewrite Hin. done.
    + destruct (proj1 (Hin x) (list_elem_of_here _ _)) as [E1 E2]. destruct x. cbn in *. by simplify_eq.
    + exfalso. apply NoDup_cons in Hnd as [Hn _]. apply Hn.
      destruct (proj1 (Hin x) (list_elem_of_here _ _)) as [E1 E2].
      destruct (proj1 (Hin y) (list_elem_of_further _ _ _ (list_elem_of_here _ _))) as [E3 E4].
      destruct x, y. cbn in *. simplify_eq. apply list_elem_of_here.
  - apply elem_of_nil_inv. intros x [Hx _]%Hin. done.
Qed.

Lemma get_peer_lookup s fp :
  sq_get_peer s fp = (λ r, row_to_peer (fp, r)) <$> t_peers (db s) !! fp.
Proof.
  unfold sq_get_peer, query_row. rewrite query_rows, select_key.
  by destruct (t_peers (db s) !! fp).
Qed.

Lemma message_lookup s d :
  sq_message_by_digest s d = (λ r, row_to_message (d, r)) <$> t_messages (db s) !! d.
Proof.
  unfold sq_message_by_digest, query_row. rewrite query_rows, select_key.
  by destruct (t_messages (db s) !! d).
Qed.

Lemma has_message_lookup s d : sq_has_message s d = bool_decide (is_Some (t_messages (db s) !! d)).
Proof.
  unfold sq_has_message, query_row. rewrite query_rows, select_key.
  destruct (t_messages (db s) !! d); apply bool_decide_ext; cbn;
    by split; intros [? ?]; eauto.
Qed.

Lemma elem_of_channel_digests s c d :
  d ∈ sq_channel_digests s c
  ↔ ∃ k r, t_messages (db s) !! k = Some r ∧ mr_channel r = c ∧ d = to_arr8 k.
Proof.
  unfold sq_channel_digests. rewrite query_rows. cbn. rewrite elem_of_map_list. split.
  - intros ([k r] & Hx & ->). apply elem_of_select in Hx as [Hx Hc%beq_true]. by exists k, r.
  - intros (k & r & Hk & Hc & ->). exists (k, r). split; [|done]. apply elem_of_select.
    split; [done|]. by apply beq_true.
Qed.

Lemma elem_of_dm_history s fp n d :
  d ∈ sq_dm_history s fp n →
  ∃ k r, t_dms (db s) !! k = Some r ∧ dr_peer r = fp ∧ d = row_to_dm (k, r).
Proof.
  unfold sq_dm_history. rewrite query_rows. cbn. intros ([k r] & Hx & ->)%elem_of_map_list.
  rewrite isort_elem_of in Hx.
  assert ((k, r) ∈ isort (desc by_timestamp_id) (select (conn_stmts (conn s)) DM_HISTORY
    (where_eq dr_peer fp) (t_dms (db s)))) as Hin.
  { unfold sql_limit in Hx. case_match; [done|].
    rewrite <- (take_drop (Z.to_nat (as_i64 n)) (isort _ _)). apply elem_of_app. by left. }
  rewrite isort_elem_of, elem_of_select in Hin. cbn in Hin. destruct Hin as [Hk Hp%beq_true].
  by exists k, r.
Qed.

Lemma take_envelopes_rows s fp :
  (sq_take_envelopes s fp).1
  = map (er_packet ∘ snd) (isort by_id (select (conn_stmts (conn s)) SELECT_ENVELOPES
      (where_eq er_recipient fp) (t_envelopes (db s))))
  ∧ db (sq_take_envelopes s fp).2
    = set_t_envelopes (db s) (delete_where (where_eq er_recipient fp) (t_envelopes (db s))).
Proof. unfold sq_take_envelopes. rewrite query_rows. split; [done|]. cbn [snd]. by rewrite run_db. Qed.

Lemma prune_channel_other s c t :
  let s' := sq_prune_channel s c t in
  t_peers (db s') = t_peers (db s) ∧ t_dms (db s') = t_dms (db s)
  ∧ t_envelopes (db s') = t_envelopes (db s).
Proof. cbv zeta. unfold sq_prune_channel. case_match; by rewrite !run_db. Qed.

Lemma put_message_other s m :
  let s' := sq_put_channel_message s m in
  t_peers (db s') = t_peers (db s) ∧ t_dms (db s') = t_dms (db s)
  ∧ t_envelopes (db s') = t_envelopes (db s).
Proof.
  cbv zeta. unfold sq_put_channel_message.
  destruct (prune_channel_other (run s INSERT_MESSAGE (λ _ d, set_t_messages d
    (insert_or_ignore (sm_digest m) (message_row m) (t_messages d)))) (sm_channel m)
    (as_i64 (sm_timestamp_ms m))) as (-> & -> & ->). by rewrite run_db.
Qed.

Lemma queue_envelope_other s fp b t :
  let s' := sq_queue_envelope s fp b t in
  t_peers (db s') = t_peers (db s) ∧ t_dms (db s') = t_dms (db s)
  ∧ t_messages (db s') = t_messages (db s).
Proof. cbv zeta. unfold sq_queue_envelope. case_match; by rewrite !run_db. Qed.

Lemma panic_wipe_db s :
  db (sq_panic_wipe s) = mkDatabase ∅ ∅ ∅ ∅ (seq_envelopes (db s)) (seq_dms (db s)).
Proof. unfold sq_panic_wipe. by rewrite execute_batch_db. Qed.

Lemma get_peer_same s s' fp : t_peers (db s') = t_peers (db s) → sq_get_peer s' fp = sq_get_peer s fp.
Proof. intros E. by rewrite !get_peer_lookup, E. Qed.

Lemma get_peer_upserted s p fp :
  sq_get_peer (sq_upsert_peer s p) fp
  = if decide (fp = fingerprint p) then Some (row_to_peer (fingerprint p, peer_row p)) else sq_get_peer s fp.
Proof.
  rewrite !get_peer_lookup. unfold sq_upsert_peer. rewrite run_db. cbn. case_decide as E.
  - by rewrite E, lookup_insert_eq.
  - by rewrite lookup_insert_ne.
Qed.

Lemma get_peer_deleted s k fp :
  sq_get_peer (sq_delete_peer s k) fp = if decide (fp = k) then None else sq_get_peer s fp.
Proof.
  rewrite !get_peer_lookup. unfold sq_delete_peer. rewrite run_db. cbn. unfold delete_where.
  case_decide as E.
  - destruct (map_retain _ _ !! fp) as [r|] eqn:Er; [|done].
    apply map_retain_lookup in Er as [_ Er]. subst. unfold beq in Er. by rewrite bool_decide_eq_true_2 in Er.
  - destruct (t_peers (db s) !! fp) as [r|] eqn:Er.
    + rewrite (proj2 (map_retain_lookup _ _ fp r)); [done|]. split; [done|]. unfold beq.
      by rewrite bool_decide_eq_false_2.
    + by rewrite map_retain_lookup_None.
Qed.

(** What is left of a conversation after it was deleted: nothing, or what is no control record. *)
Lemma dms_deleted s fp b k r :
  t_dms (db (sq_delete_dms s fp b)) !! k = Some r → dr_peer r = fp →
  b = true ∧ is_control_dm (dr_body r) = false.
Proof.
  unfold sq_delete_dms. destruct b; rewrite run_db; cbn; unfold where_eq, beq;
    intros [_ Hk]%elem_of_delete_where Hp; rewrite bool_decide_eq_true_2 in Hk by done; [|done].
  split; [done|]. by rewrite <- control_body_is.
Qed.

Lemma no_envelopes s fp :
  (∀ k r, t_envelopes (db s) !! k = Some r → where_eq er_recipient fp k r = false) →
  (sq_take_envelopes s fp).1 = [].
Proof.
  intros Hno. destruct (take_envelopes_rows s fp) as [-> _].
  apply elem_of_nil_inv. intros x (y & Hy & _)%elem_of_map_list.
  rewrite isort_elem_of, elem_of_select in Hy. destruct Hy as [Hy Hp].
  by rewrite (Hno _ _ Hy) in Hp.
Qed.

#[export] Instance SqliteStore_StoreLaws : StoreLaws SqliteStore.
Proof.
  split; cbn.
  - intros s p fp. eexists. split; [|split; [|apply get_peer_upserted]]; [done|apply i64_of_bool_neq].
  - exact get_peer_deleted.
  - intros s m fp. apply get_peer_same, put_message_other.
  - intros s d fp. apply get_peer_same. unfold sq_put_dm. by rewrite !run_db.
  - intros s k b fp. apply get_peer_same. unfold sq_delete_dms. destruct b; by rewrite run_db.
  - intros s k b t fp. apply get_peer_same, queue_envelope_other.
  - intros s k fp. apply get_peer_same. by rewrite (proj2 (take_envelopes_rows s k)).
  - intros s fp. by rewrite get_peer_lookup, panic_wipe_db.
  - intros s d m Hd. rewrite message_lookup. destruct (t_messages (db s) !! d); [|done].
    intros [= <-]. by apply to_arr8_id.
  - intros s fp n. apply elem_of_nil_inv. intros x (k & r & Hk & Hp & _)%elem_of_dm_history.
    by destruct (dms_deleted s fp false k r Hk Hp).
  - intros s fp n d _ (k & r & Hk & Hp & ->)%elem_of_dm_history. by apply (dms_deleted s fp true k r Hk Hp).
  - intros s fp n. apply elem_of_nil_inv. intros x (k & r & Hk & _)%elem_of_dm_history.
    by rewrite panic_wipe_db in Hk.
  - intros s d. by rewrite message_lookup, panic_wipe_db.
  - intros s fp. apply no_envelopes. intros k r. rewrite (proj2 (take_envelopes_rows s fp)). cbn.
    by intros [_ Hk]%elem_of_delete_where.
  - intros s fp. apply no_envelopes. intros k r. by rewrite panic_wipe_db.
Qed.
End reliable.

(** ** Runs *)

(** One operation of the trait, on any implementation. *)
Definition do_op {S} `{Store S} (s : S) (o : store_op) : S :=
  match o with
  | OpMessage m => put_channel_message s m
  | OpPeer p => upsert_peer s p
  | OpDm d => put_dm s d
  | OpQueue fp b t => queue_envelope s fp b t
  | OpTake fp => (take_envelopes s fp).2
  | OpDeletePeer fp => delete_peer s fp
  | OpDeleteDms fp b => delete_dms s fp b
  | OpWipe => store_panic_wipe s
  end.

(** The field widths the Rust types impose. *)
Definition op_typed (o : store_op) : Prop :=
  match o with
  | OpMessage m =>
      length (sm_digest m) = 8%nat ∧ length (sm_sender m) = 8%nat ∧ in_width 64 (sm_timestamp_ms m)
  | OpPeer p =>
      length (fingerprint p) = 32%nat ∧ length (last_eph p) = 8%nat ∧ in_width 64 (last_seen_ms p)
  | OpDm d => length (dm_peer d) = 32%nat ∧ in_width 64 (dm_timestamp_ms d)
  | _ => True
  end.

Lemma row_to_message_row m :
  length (sm_digest m) = 8%nat → length (sm_sender m) = 8%nat → in_width 64 (sm_timestamp_ms m) →
  row_to_message (sm_digest m, message_row m) = m.
Proof.
  intros H1 H2 H3. unfold row_to_message, message_row. cbn.
  rewrite !to_arr8_id, as_u64_i64 by done. by destruct m.
Qed.

Lemma row_to_peer_row p :
  length (fingerprint p) = 32%nat → length (last_eph p) = 8%nat → in_width 64 (last_seen_ms p) →
  row_to_peer (fingerprint p, peer_row p) = p.
Proof.
  intros H1 H2 H3. unfold row_to_peer, peer_row. cbn.
  rewrite to_arr32_id, to_arr8_id, as_u64_i64, i64_of_bool_neq by done. by destruct p.
Qed.

Lemma row_to_dm_row k d :
  length (dm_peer d) = 32%nat → in_width 64 (dm_timestamp_ms d) → row_to_dm (k, dm_row d) = d.
Proof.
  intros H1 H2. unfold row_to_dm, dm_row. cbn.
  rewrite to_arr32_id, as_u64_i64, i64_of_bool_neq by done. by destruct d.
Qed.

(** Every row was written by an operation of the run. *)
Record written (ops : list store_op) (d : Database) : Prop := {
  wr_messages k r : t_messages d !! k = Some r →
    ∃ m, OpMessage m ∈ ops ∧ sm_digest m = k ∧ r = message_row m;
  wr_peers k r : t_peers d !! k = Some r →
    ∃ p, OpPeer p ∈ ops ∧ fingerprint p = k ∧ r = peer_row p;
  wr_dms k r : t_dms d !! k = Some r → ∃ m, OpDm m ∈ ops ∧ r = dm_row m;
  wr_envelopes k r : t_envelopes d !! k = Some r →
    ∃ fp b t, OpQueue fp b t ∈ ops ∧ er_recipient r = fp ∧ er_packet r = b;
}.

(** The database a statement leaves, when it adds no row of its own. *)
Definition within (d' d : Database) : Prop :=
  t_messages d' ⊆ t_messages d ∧ t_peers d' ⊆ t_peers d
  ∧ t_dms d' ⊆ t_dms d ∧ t_envelopes d' ⊆ t_envelopes d.

Lemma written_within ops d d' : within d' d → written ops d → written ops d'.
Proof.
  intros (H1 & H2 & H3 & H4) [W1 W2 W3 W4].
  split; intros; eauto using lookup_weaken.
Qed.

#[export] Instance within_preorder : PreOrder within.
Proof.
  split; [by intros d|]. intros a b c (?&?&?&?) (?&?&?&?). split_and!; by etrans.
Qed.

Section runs.
Context `{SqlEngine}.
Implicit Types s : SqliteStore.

#[local] Abbreviation db s := (conn_db (conn s)).

(** A statement either does its work or leaves the database alone. *)
Lemma run_cases s q f (P : Database → Prop) :
  P (db s) → P (f (conn_stmts (conn s)) (db s)) → P (db (run s q f)).
Proof. unfold run, execute. by case_match. Qed.

Lemma run_written ops s q f :
  (∀ i d, written ops d → written ops (f i d)) → written ops (db s) → written ops (db (run s q f)).
Proof. intros Hf Hs. by apply run_cases; [|apply Hf]. Qed.

Lemma run_delete ops s q f :
  (∀ i d, within (f i d) d) → written ops (db s) → written ops (db (run s q f)).
Proof. intros Hf. apply run_written. intros i d. by apply written_within. Qed.

Lemma delete_beyond_subseteq {K V} `{Countable K} i q (p : K → V → bool) l n m :
  delete_beyond i q p l n m ⊆ m.
Proof. apply delete_where_subseteq. Qed.

#[local] Hint Resolve delete_where_subseteq delete_beyond_subseteq : core.

Lemma sq_prune_written ops s c t : written ops (db s) → written ops (db (sq_prune_channel s c t)).
Proof.
  intros Hs. unfold sq_prune_channel.
  apply run_delete; [|case_match; [apply run_delete|]]; try done;
    intros i d; split_and!; cbn; unfold prune_count, prune_age; auto.
Qed.

Lemma execute_batch_written ops c stmts :
  Forall (λ qf : string * (Database → Database), ∀ d, within (qf.2 d) d) stmts →
  written ops (conn_db c) → written ops (conn_db (execute_batch c stmts).2).
Proof.
  intros Hst. revert c. induction Hst as [|[q f] stmts Hf Hst IH]; intros c Hc; [done|].
  cbn [execute_batch]. unfold execute. destruct (sql_fails _ _); [done|].
  apply IH. exact (written_within _ _ _ (Hf _) Hc).
Qed.

(** An operation adds the row it was given and no other, whichever statements fail. *)
Lemma do_op_written ops s o : o ∈ ops → written ops (db s) → written ops (db (do_op s o)).
Proof.
  intros Ho Hs. destruct o; cbn [do_op].
  - apply sq_prune_written, run_written; [|done]. intros i d [W1 W2 W3 W4].
    split; cbn; try done. unfold insert_or_ignore. destruct (t_messages d !! _); [done|].
    intros k r [[<- <-]|[_ Hk]]%lookup_insert_Some; eauto.
  - apply run_written; [|done]. intros i d [W1 W2 W3 W4]. split; cbn; try done.
    intros k r [[<- <-]|[_ Hk]]%lookup_insert_Some; eauto.
  - apply run_delete, run_written; [by intros i d'; split_and!; cbn; auto| |done].
    intros i d' [W1 W2 W3 W4]. split; cbn; try done.
    intros k r [[<- <-]|[_ Hk]]%lookup_insert_Some; eauto.
  - unfold queue_envelope. cbn. unfold sq_queue_envelope.
    apply run_delete, run_written; [by intros i d'; split_and!; cbn; auto| |].
    + intros i d' [W1 W2 W3 W4]. split; cbn; try done.
      intros k r [[<- <-]|[_ Hk]]%lookup_insert_Some; eauto 7.
    + case_match; [|done]. apply run_delete; [|done]. by intros i d'; split_and!; cbn; auto.
  - cbn. unfold sq_take_envelopes. case_match; [|done]. cbn [snd].
    apply run_delete; [|done]. by intros i d'; split_and!; cbn; auto.
  - apply run_delete; [|done]. by intros i d'; split_and!; cbn; auto.
  - cbn. unfold sq_delete_dms. case_match; (apply run_delete; [|done]);
      by intros i d'; split_and!; cbn; auto.
  - cbn. apply execute_batch_written; [|done].
    unfold WIPE. repeat (apply Forall_cons_2 || apply Forall_nil_2);
      intros d; split_and!; cbn; done || apply map_empty_subseteq.
Qed.

Lemma run_ops_written ops0 s ops :
  ops ⊆ ops0 → written ops0 (db s) → written ops0 (db (foldl do_op s ops)).
Proof.
  revert s. induction ops as [|o ops IH]; intros s Hin Hs; [done|]. cbn [foldl].
  apply IH; [set_solver|]. apply do_op_written; [set_solver|done].
Qed.

(** *** The file behind a store *)

#[local] Abbreviation key_of s := (file_key (conn_file (conn s))).

Lemma run_key s q f : key_of (run s q f) = key_of s.
Proof. unfold run, execute. by case_match. Qed.

Lemma execute_batch_key c stmts : file_key (conn_file (execute_batch c stmts).2) = file_key (conn_file c).
Proof.
  revert c. induction stmts as [|[q f] stmts IH]; intros c; [done|]. cbn [execute_batch]. unfold execute.
  destruct (sql_fails _ _); [done|]. by rewrite IH.
Qed.

(** No operation changes the key a file is under. *)
Lemma do_op_key s o : key_of (do_op s o) = key_of s.
Proof.
  destruct o; cbn [do_op put_channel_message upsert_peer put_dm queue_envelope take_envelopes delete_peer
    delete_dms store_panic_wipe SqliteStore_Store].
  - unfold sq_put_channel_message, sq_prune_channel. rewrite run_key. case_match; by rewrite !run_key.
  - apply run_key.
  - unfold sq_put_dm. by rewrite !run_key.
  - unfold sq_queue_envelope. rewrite !run_key. case_match; by rewrite ?run_key.
  - unfold sq_take_envelopes. case_match; [apply run_key|done].
  - apply run_key.
  - unfold sq_delete_dms. case_match; apply run_key.
  - apply execute_batch_key.
Qed.

Lemma run_ops_key s ops : key_of (foldl do_op s ops) = key_of s.
Proof. revert s. induction ops as [|o ops IH]; intros s; [done|]. cbn [foldl]. by rewrite IH, do_op_key. Qed.

(** A statement of the opening batch finds the file under the key it was given, or the batch ends. *)
Lemma open_batch_creates h stmts h' :
  Forall (λ qf : string * (Handle → option Handle), qf.2 = create) stmts → open_batch h stmts = Some h' →
  ∀ f, h_file h = Some f → h_file h' = Some f.
Proof.
  intros Hc. revert h. induction Hc as [|[q c] stmts Hq Hc IH]; intros h E f Hf; [by injection E as <-|].
  cbn in Hq. subst c. cbn [open_batch] in E. case_match; [done|]. unfold create in E. cbn [h_file h_key] in E.
  rewrite Hf in E. destruct (sql_unlocks _ _); [|done]. exact (IH _ E f eq_refl).
Qed.

(** What opening gives: the file that was there, when it is under the key, or a new one under it. *)
Lemma open_Some file path key h t e m s :
  open file path key h t e m = Some s →
  conn_file (conn s) = default (mkDbFile (hex key) empty_database) file
  ∧ (∀ f, file = Some f → sql_unlocks (file_key f) (hex key) = true)
  ∧ (sq_history_max s, sq_history_ms s, sq_envelope_ttl_ms s, sq_envelope_max_per_peer s) = (h, t, e, m).
Proof.
  unfold open. intros (hd & Hb & (f & Hf & [= <-])%bind_Some)%bind_Some. cbn [conn conn_file].
  unfold OPEN in Hb. match type of Hb with open_batch _ (_ :: _ :: _ :: ?l) = _ => set (rest := l) in Hb end.
  assert (Forall (λ qf : string * (Handle → option Handle), qf.2 = create) rest) as Hrest
    by by repeat constructor.
  clearbody rest. cbn [open_batch pragma_key mbind option_bind h_file h_key h_stmts] in Hb.
  case_match; [done|]. case_match; [done|]. case_match; [done|].
  destruct (create _) as [h1|] eqn:Ec; [|done]. cbn [mbind option_bind] in Hb.
  unfold create in Ec. cbn [h_file h_key h_stmts] in Ec. destruct file as [f0|]; cbn [default from_option id].
  - destruct (sql_unlocks (file_key f0) (hex key)) eqn:Eu; [|done]. injection Ec as <-.
    rewrite (open_batch_creates _ _ _ Hrest Hb f0 eq_refl) in Hf. injection Hf as <-.
    split_and!; try done. by intros ? [= <-].
  - injection Ec as <-. rewrite (open_batch_creates _ _ _ Hrest Hb _ eq_refl) in Hf. by injection Hf as <-.
Qed.

Lemma open_fresh path key h t e m s :
  open None path key h t e m = Some s → db s = empty_database.
Proof. intros [E _]%open_Some. unfold conn_db. by rewrite E. Qed.

Lemma open_batch_writes `{!SqlWrites} h stmts f :
  Forall (λ qf : string * (Handle → option Handle), qf.2 = create) stmts →
  h_file h = Some f → sql_unlocks (file_key f) (h_key h) = true →
  ∃ h', open_batch h stmts = Some h' ∧ h_file h' = Some f.
Proof.
  intros Hc. revert h. induction Hc as [|[q c] stmts Hq Hc IH]; intros h Hf Hu; [by exists h|].
  cbn in Hq. subst c. cbn [open_batch]. rewrite sql_writes. unfold create. cbn [h_file h_key].
  rewrite Hf, Hu. by apply IH.
Qed.

(** When no statement fails, a file opens under any key its pages are under. *)
Lemma open_writes `{!SqlWrites} f path key h t e m :
  sql_unlocks (file_key f) (hex key) = true →
  ∃ i, open (Some f) path key h t e m = Some (mkSqliteStore (mkConnection f i) path h t e m).
Proof.
  intros Hu. unfold open, OPEN.
  match goal with |- context [open_batch _ (?a :: ?b :: ?l)] => set (rest := l) end.
  destruct (open_batch_writes (mkHandle (Some f) (hex key) 2) rest f) as (h' & E & Hf);
    [by repeat constructor|done|done|].
  cbn [open_batch pragma_key mbind option_bind h_file h_key h_stmts]. rewrite !sql_writes.
  cbn [mbind option_bind h_file h_key h_stmts]. rewrite E. cbn [mbind option_bind]. rewrite Hf. by eexists.
Qed.

Lemma written_empty ops : written ops empty_database.
Proof. by split. Qed.
End runs.

(** ** What is read back *)

Section readback.
Context `{SqlEngine, !SqlEngineLaws}.
Implicit Types s : SqliteStore.

#[local] Abbreviation db s := (conn_db (conn s)).

(** A query that fails or breaks off gives the first of its rows, or none. *)
Lemma query_prefix {A} c q (f : nat → Database → list A) :
  ∃ k, default [] (query c q f) = take k (f (conn_stmts c) (conn_db c)).
Proof.
  unfold query. destruct (sql_query_fails _ _); [by exists 0%nat|]. cbn [default from_option id].
  destruct (sql_breaks _ _) as [k|]; [by exists k|]. eexists. by rewrite firstn_all.
Qed.

Lemma query_elem {A} c q (f : nat → Database → list A) x :
  x ∈ default [] (query c q f) → x ∈ f (conn_stmts c) (conn_db c).
Proof. destruct (query_prefix c q f) as [k ->]. apply take_elem. Qed.

Lemma query_row_elem {A} c q (f : nat → Database → list A) x :
  query_row c q f = Some x → x ∈ f (conn_stmts c) (conn_db c).
Proof.
  unfold query_row. intros (l & El & Hx)%bind_Some. apply (query_elem c q). rewrite El.
  destruct l as [|y l]; [done|]. injection Hx as ->. apply list_elem_of_here.
Qed.

Lemma key_row {V W : Type} (i : nat) (q : string) (k : bytes) (m : gmap bytes V) (g : bytes * V → W) (x : W) :
  x ∈ map g (select i q (λ j _, beq j k) m) → ∃ r, m !! k = Some r ∧ x = g (k, r).
Proof.
  intros ([j r] & Hx & ->)%elem_of_map_list. apply elem_of_select in Hx as [Hk E%beq_true].
  cbn in Hk, E. subst j. by exists r.
Qed.

Lemma message_row_found s d m :
  sq_message_by_digest s d = Some m → ∃ r, t_messages (db s) !! d = Some r ∧ m = row_to_message (d, r).
Proof. unfold sq_message_by_digest. intros Hm%query_row_elem. by apply key_row in Hm. Qed.

Lemma peer_row_found s fp p :
  sq_get_peer s fp = Some p → ∃ r, t_peers (db s) !! fp = Some r ∧ p = row_to_peer (fp, r).
Proof. unfold sq_get_peer. intros Hp%query_row_elem. by apply key_row in Hp. Qed.

Lemma has_message_row s d : sq_has_message s d = true → ∃ r, t_messages (db s) !! d = Some r.
Proof.
  unfold sq_has_message. rewrite bool_decide_eq_true. intros [x Hx%query_row_elem].
  apply elem_of_select in Hx as [Hk E%beq_true]. rewrite <- E. by eexists.
Qed.

Lemma listed_peer_row s p :
  p ∈ sq_list_peers s → ∃ k r, t_peers (db s) !! k = Some r ∧ p = row_to_peer (k, r).
Proof.
  intros Hp%query_elem. apply elem_of_map_list in Hp as ([k r] & Hx & ->).
  apply elem_of_select in Hx as [Hk _]. by exists k, r.
Qed.

Lemma listed_digest_row s c d :
  d ∈ sq_channel_digests s c → ∃ k r, t_messages (db s) !! k = Some r ∧ mr_channel r = c ∧ d = to_arr8 k.
Proof.
  intros Hd%query_elem. apply elem_of_map_list in Hd as ([k r] & Hx & ->).
  apply elem_of_select in Hx as [Hk Hc%beq_true]. by exists k, r.
Qed.

Lemma elem_of_window {V} n (l : list V) x : x ∈ sql_limit n l → x ∈ l.
Proof. unfold sql_limit. case_match; [done|]. apply take_elem. Qed.

Lemma thread_row s fp n d :
  d ∈ sq_dm_history s fp n → ∃ k r, t_dms (db s) !! k = Some r ∧ dr_peer r = fp ∧ d = row_to_dm (k, r).
Proof.
  intros Hd%query_elem. apply elem_of_map_list in Hd as ([k r] & Hx & ->).
  rewrite isort_elem_of in Hx. apply elem_of_window in Hx. rewrite isort_elem_of, elem_of_select in Hx.
  destruct Hx as [Hk Hp%beq_true]. by exists k, r.
Qed.

Lemma envelope_row s fp b :
  b ∈ (sq_take_envelopes s fp).1 →
  ∃ k r, t_envelopes (db s) !! k = Some r ∧ er_recipient r = fp ∧ b = er_packet r.
Proof.
  unfold sq_take_envelopes. destruct (query _ _ _) as [l|] eqn:El; [|by intros ?%not_elem_of_nil].
  cbn [fst]. intros Hb. assert (b ∈ default [] (query (conn s) SELECT_ENVELOPES (λ i d,
    map (er_packet ∘ snd) (isort by_id (select i SELECT_ENVELOPES (where_eq er_recipient fp) (t_envelopes d))))))
    as Hq by by rewrite El.
  apply query_elem, elem_of_map_list in Hq as ([k r] & Hx & ->).
  rewrite isort_elem_of, elem_of_select in Hx. destruct Hx as [Hk Hp%beq_true]. by exists k, r.
Qed.

(** A history shows rows of its channel, none of them twice. *)
Lemma channel_history_rows s c n :
  ∃ rows, sq_channel_history s c n = map row_to_message rows ∧ NoDup (map fst rows)
    ∧ ∀ x, x ∈ rows → t_messages (db s) !! x.1 = Some x.2 ∧ mr_channel x.2 = c.
Proof.
  unfold sq_channel_history. destruct (query_prefix (conn s) CHANNEL_HISTORY (λ i d,
    map row_to_message (isort by_timestamp (sql_limit (as_i64 n) (isort (desc by_timestamp)
      (select i CHANNEL_HISTORY (where_eq mr_channel c) (t_messages d))))))) as [k ->].
  rewrite firstn_map. eexists. split; [done|]. set (rows := select _ _ _ _). split.
  - rewrite <- firstn_map. apply take_NoDup.
    rewrite (Permutation_map fst (isort_perm by_timestamp _)).
    assert (NoDup (map fst (isort (desc by_timestamp) rows))) as Hnd.
    { rewrite (Permutation_map fst (isort_perm (desc by_timestamp) rows)). unfold rows.
      rewrite (Permutation_map fst (select_perm _ _ _ _)). apply NoDup_map_filter, NoDup_fst_map_to_list. }
    unfold sql_limit. case_match; [done|]. rewrite <- firstn_map. by apply take_NoDup.
  - intros x Hx%take_elem. rewrite isort_elem_of in Hx. apply elem_of_window in Hx.
    rewrite isort_elem_of in Hx. apply elem_of_select in Hx. by destruct Hx as [? ?%beq_true].
Qed.

(** The lookups of messages agree when they can be read. *)
Lemma lookups_agree `{!SqlReads} s :
  (∀ k r, t_messages (db s) !! k = Some r → to_arr8 k = k) →
  (∀ d, sq_has_message s d = true ↔ is_Some (sq_message_by_digest s d))
  ∧ (∀ c d, d ∈ sq_channel_digests s c
            ↔ ∃ m, sq_message_by_digest s d = Some m ∧ sm_channel m = c)
  ∧ (∀ c n m, m ∈ sq_channel_history s c n →
       sq_message_by_digest s (sm_digest m) = Some m ∧ sm_channel m = c).
Proof.
  intros Hk8. split_and!.
  - intros d. rewrite has_message_lookup, message_lookup, bool_decide_eq_true. by rewrite fmap_is_Some.
  - intros c d. rewrite elem_of_channel_digests. split.
    + intros (k & r & Hk & <- & ->). rewrite (Hk8 _ _ Hk), message_lookup, Hk. by eexists.
    + intros (m & Hm & <-). rewrite message_lookup in Hm. apply fmap_Some in Hm as (r & Hr & ->).
      exists d, r. by rewrite (Hk8 _ _ Hr).
  - intros c n m Hm. destruct (channel_history_rows s c n) as (rows & E & _ & Hrows). rewrite E in Hm.
    apply elem_of_map_list in Hm as ([k r] & Hx & ->). destruct (Hrows _ Hx) as [Hk Hc]. cbn in Hk, Hc.
    rewrite message_lookup. cbn [sm_digest row_to_message fst]. by rewrite (Hk8 _ _ Hk), Hk.
Qed.

(** C27: whatever fails, nothing is made up. Statements may fail half-way (a full disk), queries may
    fail and cursors may break off; still, everything that is read back - messages by digest and in
    histories, the digests a channel reconciles with, contacts, threads, held envelopes - was given
    to the store by some operation, field for field, and no history shows a message twice. When
    queries can be read the three lookups of messages agree, however many writes have failed: a
    message is held exactly when it can be fetched and exactly when its channel lists it. *)
Theorem sqlite_integrity path key hmax hms ettl emax s0 ops :
  open None path key hmax hms ettl emax = Some s0 → Forall op_typed ops →
  let s := foldl do_op s0 ops in
  (∀ d m, message_by_digest s d = Some m → OpMessage m ∈ ops ∧ sm_digest m = d)
  ∧ (∀ d, has_message s d = true → ∃ m, OpMessage m ∈ ops ∧ sm_digest m = d)
  ∧ (∀ c d, d ∈ channel_digests s c → ∃ m, OpMessage m ∈ ops ∧ sm_digest m = d ∧ sm_channel m = c)
  ∧ (∀ c n, NoDup (map sm_digest (channel_history s c n))
       ∧ ∀ m, m ∈ channel_history s c n → OpMessage m ∈ ops ∧ sm_channel m = c)
  ∧ (∀ fp p, get_peer s fp = Some p → OpPeer p ∈ ops ∧ fingerprint p = fp)
  ∧ (∀ p, p ∈ list_peers s → OpPeer p ∈ ops)
  ∧ (∀ fp n d, d ∈ dm_history s fp n → OpDm d ∈ ops ∧ dm_peer d = fp)
  ∧ (∀ fp b, b ∈ (take_envelopes s fp).1 → ∃ t, OpQueue fp b t ∈ ops)
  ∧ (SqlReads →
     (∀ d, has_message s d = true ↔ is_Some (message_by_digest s d))
     ∧ (∀ c d, d ∈ channel_digests s c ↔ ∃ m, message_by_digest s d = Some m ∧ sm_channel m = c)
     ∧ ∀ c n m, m ∈ channel_history s c n →
         message_by_digest s (sm_digest m) = Some m ∧ sm_channel m = c).
Proof.
  intros Hopen Hty s. rewrite Forall_forall in Hty.
  assert (written ops (db s)) as [W1 W2 W3 W4].
  { apply run_ops_written; [done|]. rewrite (open_fresh _ _ _ _ _ _ _ Hopen). apply written_empty. }
  clearbody s.
  assert (∀ k r, t_messages (db s) !! k = Some r →
    OpMessage (row_to_message (k, r)) ∈ ops ∧ sm_digest (row_to_message (k, r)) = k ∧ to_arr8 k = k) as HM.
  { intros k r Hk. destruct (W1 k r Hk) as (m & Hin & <- & ->). destruct (Hty _ Hin) as (? & ? & ?).
    by rewrite row_to_message_row, to_arr8_id. }
  assert (∀ k r, t_peers (db s) !! k = Some r →
    OpPeer (row_to_peer (k, r)) ∈ ops ∧ fingerprint (row_to_peer (k, r)) = k) as HP.
  { intros k r Hk. destruct (W2 k r Hk) as (p & Hin & <- & ->). destruct (Hty _ Hin) as (? & ? & ?).
    by rewrite row_to_peer_row. }
  cbn. split_and!.
  - intros d m (r & Hr & ->)%message_row_found. by destruct (HM d r Hr) as (? & ? & _).
  - intros d [r Hr]%has_message_row. destruct (HM d r Hr) as (? & ? & _). by eexists.
  - intros c d (k & r & Hk & <- & ->)%listed_digest_row. destruct (HM k r Hk) as (? & ? & ->). by eexists.
  - intros c n. destruct (channel_history_rows s c n) as (rows & -> & Hnd & Hrows). split.
    + rewrite map_map. erewrite List.map_ext_in; [exact Hnd|]. intros [k r] Hx%list_elem_of_In.
      destruct (Hrows _ Hx) as [Hk _]. by destruct (HM k r Hk) as (_ & ? & _).
    + intros m ([k r] & Hx & ->)%elem_of_map_list. destruct (Hrows _ Hx) as [Hk Hc].
      by destruct (HM k r Hk) as (? & _).
  - intros fp p (r & Hr & ->)%peer_row_found. by apply HP.
  - intros p (k & r & Hr & ->)%listed_peer_row. by apply HP.
  - intros fp n d (k & r & Hk & <- & ->)%thread_row.
    destruct (W3 k r Hk) as (m & Hin & ->). destruct (Hty _ Hin) as (? & ?). by rewrite row_to_dm_row.
  - intros fp b (k & r & Hk & <- & ->)%envelope_row.
    destruct (W4 k r Hk) as (fp' & b & t & Hin & <- & <-). by exists t.
  - intros Hreads. apply lookups_agree. intros k r Hk. by destruct (HM k r Hk) as (_ & _ & ?).
Qed.
End readback.

(** ** Witnesses *)

(** An engine that visits rows in key order, whose statements fail as told and whose cursors break
    off after so many rows. *)
Definition toy_engine (fails : nat → bool) (breaks : option nat) : SqlEngine := {|
  sql_scan K V _ _ _ _ m := map_to_list m;
  sql_fails i _ := fails i;
  sql_query_fails _ _ := false;
  sql_breaks _ _ := breaks;
  sql_unlocks := beq;
|}.

Lemma toy_engine_laws fails breaks : SqlEngineLaws (H:=toy_engine fails breaks).
Proof. by intros K V ? ? i q m. Qed.

Lemma toy_engine_reads fails : SqlReads (H:=toy_engine fails None).
Proof. by split. Qed.

#[export] Instance toy_SqlEngine : SqlEngine := toy_engine (λ _, false) None.
#[export] Instance toy_SqlEngineLaws : SqlEngineLaws := toy_engine_laws _ _.
#[export] Instance toy_SqlCipherLaws : SqlCipherLaws.
Proof. intros k k'. apply beq_true. Qed.
#[export] Instance toy_SqlReads : SqlReads := toy_engine_reads _.
#[export] Instance toy_SqlWrites : SqlWrites.
Proof. done. Qed.

(** A disk that is full when the third of three messages comes, and cursors that break off. *)
Definition full_disk : SqlEngine := toy_engine (λ i, (15 <=? i)%nat) (Some 1%nat).

Definition written_message (d : byte) : StoredMessage :=
  mkStoredMessage (replicate 8 d) [Byte.x23] (replicate 8 Byte.x01) 5 [d] [d].

(** A store that was just made under a key. *)
Definition made (key : bytes) (hmax : Z) (hms ettl : Millis) (emax : Z) : SqliteStore :=
  mkSqliteStore (mkConnection (mkDbFile (hex key) empty_database) 9) [] hmax hms ettl emax.

Lemma sqlite_integrity_witness :
  let ops := map (OpMessage ∘ written_message) [Byte.x01; Byte.x02; Byte.x03] in
  let s := foldl (do_op (S:=SqliteStore) (H:=SqliteStore_Store (H:=full_disk)))
             (made (replicate 32 Byte.x07) 10 1000 1000 10) ops in
  sq_has_message (H:=full_disk) s (replicate 8 Byte.x02) = true
  ∧ sq_has_message (H:=full_disk) s (replicate 8 Byte.x03) = false
  ∧ length (sq_channel_history (H:=full_disk) s [Byte.x23] 10) = 1%nat
  ∧ ∀ d m, sq_message_by_digest (H:=full_disk) s d = Some m → OpMessage m ∈ ops ∧ sm_digest m = d.
Proof.
  cbv zeta. split; [by vm_compute|]. split; [by vm_compute|]. split; [by vm_compute|].
  apply (sqlite_integrity (H:=full_disk) (H0:=toy_engine_laws _ _) [] (replicate 32 Byte.x07) 10 1000 1000 10
    (made (replicate 32 Byte.x07) 10 1000 1000 10)
    (map (OpMessage ∘ written_message) [Byte.x01; Byte.x02; Byte.x03])).
  - by vm_compute.
  - by repeat constructor.
Defined.
