(* ===== verification/SqliteRefines.v ===== *)
(** * SqliteRefines: the encrypted store implements the in-memory one

    [MemoryStore] is the reference; [SqliteStore] is related to it table by table, each table by a
    listing of its rows, and every operation keeps the relation (a forward simulation). *)
From stdpp Require Import strings gmap.
From S2P Require Import Prelude Clock Utf8 F64 Wire Toy Store Sqlite SqlTables SqliteProps.

(** ** The orders of the queries *)

Lemma by_id_total {V} (x y : Z * V) : by_id x y = true ∨ by_id y x = true.
Proof. unfold by_id. lia. Qed.
Lemma by_id_trans {V} (x y z : Z * V) : by_id x y = true → by_id y z = true → by_id x z = true.
Proof. unfold by_id. lia. Qed.
Lemma by_timestamp_total x y : by_timestamp x y = true ∨ by_timestamp y x = true.
Proof. unfold by_timestamp. lia. Qed.
Lemma by_timestamp_trans x y z :
  by_timestamp x y = true → by_timestamp y z = true → by_timestamp x z = true.
Proof. unfold by_timestamp. lia. Qed.
Lemma by_timestamp_id_total x y : by_timestamp_id x y = true ∨ by_timestamp_id y x = true.
Proof. unfold by_timestamp_id. lia. Qed.
Lemma by_timestamp_id_trans x y z :
  by_timestamp_id x y = true → by_timestamp_id y z = true → by_timestamp_id x z = true.
Proof. unfold by_timestamp_id. lia. Qed.
#[local] Hint Resolve by_id_total by_id_trans by_timestamp_total by_timestamp_trans
  by_timestamp_id_total by_timestamp_id_trans : core.

(** Ids are unique, so that any order that ends in them tells rows apart. *)
Lemma separates_keys {V} leb (p : Z → V → bool) m :
  (∀ x y, leb x y = true → leb y x = true → x.1 = y.1) → separates leb p m.
Proof.
  intros Hl [k v] [k' v'] Hx Hy _ _ H1 H2. cbn in *.
  assert (k = k') as -> by exact (Hl (k, v) (k', v') H1 H2). congruence.
Qed.

Lemma separates_timestamp_id p m : separates by_timestamp_id p m.
Proof. apply separates_keys. unfold by_timestamp_id. lia. Qed.

Lemma separates_id {V} (p : Z → V → bool) m : separates by_id p m.
Proof. apply separates_keys. unfold by_id. lia. Qed.
#[local] Hint Resolve separates_timestamp_id separates_id : core.

Lemma fresh_key {V} (t : gmap Z V) seq :
  (∀ k v, t !! k = Some v → k <= seq) → t !! (seq + 1) = None.
Proof. intros Hs. destruct (t !! (seq + 1)) eqn:E; [|done]. apply Hs in E. lia. Qed.

(** A row appended with the largest id sorts as a stable sort by the remaining key would. *)
Lemma isort_append_stable {A B} (leb : A → A → bool) (f : A → B) (key : B → Z) l x :
  sorted_by leb l →
  (∀ a b, a ∈ l → b ∈ l → leb a b = true → key (f a) <= key (f b)) →
  (∀ a, a ∈ l → leb a x = (key (f a) <=? key (f x))) →
  map f (isort leb (l ++ [x])) = sort_by_key key (map f l ++ [f x]).
Proof.
  intros Hs Hk Hx. unfold sort_by_key. change [f x] with (map f [x]). rewrite <- map_app, isort_map.
  f_equal. apply isort_ext. unfold sorted_by in Hs. clear -Hs Hk Hx.
  induction Hs as [|a l Hl IH Ha]; cbn [app]; [repeat constructor|].
  constructor.
  - apply IH; [intros b c Hb Hc; apply Hk|intros b Hb; apply Hx]; by try apply list_elem_of_further.
  - apply Forall_app. split.
    + rewrite Forall_forall in Ha |- *. intros b Hb.
      rewrite (Ha b Hb). symmetry. apply Z.leb_le.
      by apply Hk; [apply list_elem_of_here|apply list_elem_of_further|apply Ha].
    + constructor; [|done]. apply Hx, list_elem_of_here.
Qed.

Lemma map_drop {A B} (f : A → B) n l : map f (drop n l) = drop n (map f l).
Proof. revert l. induction n as [|n IH]; intros [|x l]; cbn; done || apply IH. Qed.

Lemma last_n_drop {A} n (l : list A) :
  0 <= n → last_n n l = drop (length l - Z.to_nat n) l.
Proof.
  intros Hn. unfold last_n, zlen. case_match.
  - f_equal. lia.
  - replace (length l - Z.to_nat n)%nat with 0%nat by lia. done.
Qed.

Section tables.
Context `{SqlEngine, !SqlEngineLaws}.

(** The newest rows, put back into order, are the end of the listing. *)
Lemma window {K V} `{Countable K} (leb : K * V → K * V → bool) i q p m n :
  (∀ x y, leb x y = true ∨ leb y x = true) →
  (∀ x y z, leb x y = true → leb y z = true → leb x z = true) →
  separates leb p m → 0 <= n →
  isort leb (sql_limit n (isort (desc leb) (select i q p m))) = last_n n (listing leb p m).
Proof.
  intros Ht Htr Hs Hn. rewrite (newest_rows leb) by done. rewrite last_n_drop by done.
  set (L := listing leb p m). apply (sorted_perm_unique leb).
  - intros x y. rewrite !isort_elem_of, !list_elem_of_In, <- !in_rev, <- !list_elem_of_In.
    intros [? ?]%elem_of_drop_list%elem_of_listing [? ?]%elem_of_drop_list%elem_of_listing.
    by apply Hs.
  - by apply isort_sorted.
  - apply sorted_by_drop, listing_sorted; done.
  - rewrite isort_perm. symmetry. apply Permutation_rev.
Qed.

(** ** A table as lists of records, one per value of a column *)

Section grouped.
Context {K V W : Type} `{Countable K}.
Context (column : V → bytes) (leb : K * V → K * V → bool) (conv : K * V → W).
Context (leb_total : ∀ x y, leb x y = true ∨ leb y x = true).
Context (leb_trans : ∀ x y z, leb x y = true → leb y z = true → leb x z = true).
Implicit Types (t : gmap K V) (g : gmap bytes (list W)).

Definition group (x : bytes) (t : gmap K V) : list (K * V) := listing leb (where_eq column x) t.

Record grouped (t : gmap K V) (g : gmap bytes (list W)) : Prop := {
  gr_separates x : separates leb (where_eq column x) t;
  gr_groups x : map conv (group x t) = default [] (g !! x);
}.

Lemma where_eq_other x x' k (r : V) :
  x' ≠ x → where_eq (K:=K) column x' k r = true → where_eq column x k r = false.
Proof. intros Hne E%beq_true. apply bool_decide_eq_false_2. congruence. Qed.

Lemma where_eq_same (k : K) (r : V) : where_eq column (column r) k r = true.
Proof. by apply beq_true. Qed.

Lemma grouped_empty : grouped ∅ ∅.
Proof. by split. Qed.

(** Rows that go were not the group's, or go from its list. *)
Lemma grouped_sub t g x l p :
  grouped t g →
  (∀ x' k r, t !! k = Some r → x' ≠ x → where_eq (K:=K) column x' k r = true → p k r = false) →
  map conv (group x (delete_where p t)) = l →
  grouped (delete_where p t) (<[x := l]> g).
Proof.
  intros [Hs Hg] Hp Hl. split; [intros; by apply separates_delete|].
  intros x'. destruct (decide (x' = x)) as [->|Hne]; [by rewrite lookup_insert_eq|].
  rewrite lookup_insert_ne by done. rewrite <- Hg. unfold group. f_equal.
  apply listing_delete_other; eauto.
Qed.

Lemma grouped_delete t g x p q :
  grouped t g →
  (∀ k r, t !! k = Some r → where_eq column x k r = true → p k r = q (conv (k, r))) →
  grouped (delete_where (λ k r, where_eq column x k r && p k r) t)
    (<[x := List.filter (λ d, negb (q d)) (default [] (g !! x))]> g).
Proof.
  intros Hg Hpq. apply grouped_sub; [done|..].
  - intros x' k r _ Hne Hw. by rewrite (where_eq_other x x' k r).
  - unfold group. rewrite listing_delete by (done || apply Hg).
    rewrite <- (gr_groups _ _ Hg x), filter_map_list. f_equal. apply filter_ext_in.
    intros [k r] [Hk Hx]%elem_of_listing. cbn in *. by rewrite Hx, (Hpq k r).
Qed.

Lemma grouped_delete_all t g x : grouped t g → grouped (delete_where (where_eq column x) t) (delete x g).
Proof.
  intros Hg. assert (grouped (delete_where (where_eq column x) t) (<[x := []]> g)) as [Hs Hg'].
  { apply grouped_sub; [done|intros; by eapply where_eq_other|].
    unfold group. by rewrite listing_delete_all. }
  split; [done|]. intros x'. rewrite Hg'.
  destruct (decide (x' = x)) as [->|Hne]; [by rewrite lookup_insert_eq, lookup_delete_eq|].
  by rewrite lookup_insert_ne, lookup_delete_ne.
Qed.

Lemma grouped_trim i q t g x n :
  grouped t g → 0 <= n →
  let l := default [] (g !! x) in
  grouped (delete_beyond i q (where_eq column x) (desc leb) n t) (<[x := drop (excess n l) l]> g).
Proof.
  intros Hg Hn l. apply grouped_sub; [done|..].
  - intros x' k r _ Hne Hw. by rewrite (where_eq_other x x' k r).
  - pose proof (gr_groups _ _ Hg x) as El. fold l in El. unfold group in *.
    change (delete_where _ t) with (delete_beyond i q (where_eq column x) (desc leb) n t).
    rewrite (listing_beyond leb) by (done || apply Hg). rewrite map_drop, El.
    unfold excess. by rewrite <- El, length_map.
Qed.

Lemma grouped_insert t g k v key :
  grouped t g → t !! k = None → (∀ x, separates leb (where_eq column x) (<[k := v]> t)) →
  (∀ a b, a ∈ group (column v) t → b ∈ group (column v) t → leb a b = true →
          key (conv a) <= key (conv b)) →
  (∀ a, a ∈ group (column v) t → leb a (k, v) = (key (conv a) <=? key (conv (k, v)))) →
  grouped (<[k := v]> t)
    (<[column v := sort_by_key key (default [] (g !! column v) ++ [conv (k, v)])]> g).
Proof.
  intros Hg Hk Hs Hkey Hlast. split; [done|]. intros x. unfold group.
  rewrite listing_insert by done. destruct (decide (x = column v)) as [->|Hne].
  - rewrite where_eq_same, lookup_insert_eq. cbn [default]. rewrite <- (gr_groups _ _ Hg).
    apply isort_append_stable; [by apply listing_sorted|done|done].
  - rewrite lookup_insert_ne by done. unfold where_eq at 1, beq.
    rewrite bool_decide_eq_false_2 by congruence. apply Hg.
Qed.

(** The windows a history query cuts out. *)
Lemma grouped_window i q t g x n :
  grouped t g → 0 <= n →
  map conv (isort leb (sql_limit n (isort (desc leb) (select i q (where_eq column x) t))))
  = last_n n (default [] (g !! x)).
Proof.
  intros Hg Hn. rewrite (window leb) by (done || apply Hg). rewrite <- (gr_groups _ _ Hg).
  unfold group. by rewrite !last_n_drop, map_drop, length_map by done.
Qed.

Lemma grouped_sorted t g x key :
  grouped t g →
  (∀ a b, a ∈ group x t → b ∈ group x t → leb a b = true → key (conv a) <= key (conv b)) →
  sort_by_key key (default [] (g !! x)) = default [] (g !! x).
Proof.
  intros Hg Hkey. apply sort_by_key_id. rewrite <- (gr_groups _ _ Hg).
  assert (sorted_by leb (group x t)) as HL by by apply listing_sorted.
  revert Hkey. generalize (group x t) as L, HL. clear HL. intros L HL.
  unfold sorted_by in *. induction HL as [|a L HL IH Ha]; intros Hkey; cbn [map]; constructor.
  - apply IH. intros b c Hb Hc. by apply Hkey; apply list_elem_of_further.
  - apply Forall_forall. intros d (b & Hb & ->)%elem_of_map_list. rewrite Forall_forall in Ha.
    apply Z.leb_le, Hkey; [apply list_elem_of_here|by apply list_elem_of_further|by apply Ha].
Qed.

Lemma elem_of_group t x a : a ∈ group x t ↔ t !! a.1 = Some a.2 ∧ column a.2 = x.
Proof. unfold group. rewrite elem_of_listing. unfold where_eq. by rewrite beq_true. Qed.
End grouped.
End tables.
