(* ===== verification/SqliteSim.v ===== *)
(** * SqliteSim: the simulation between the two stores

    The relation [refines] between an encrypted store and an in-memory one, one lemma per
    operation that it is kept, and the refinement theorem. *)
From stdpp Require Import strings gmap.
From S2P Require Import Prelude Clock Utf8 F64 Wire Toy Store Sqlite SqlTables SqliteProps.
From S2P Require Import SqliteRefines.

(** ** The relation, table by table *)

Definition env_of (x : Z * EnvelopeRow) : Envelope :=
  {| packet_bytes := er_packet x.2; queued_ms := er_queued_ms x.2 |}.

Definition peers_rel (t : gmap bytes PeerRow) (p : gmap Fingerprint PeerRecord) : Prop :=
  ∀ fp, (λ r, row_to_peer (fp, r)) <$> t !! fp = p !! fp.

Record dms_rel (t : gmap Z DmRow) (seq : Z) (th : gmap Fingerprint (list StoredDm)) : Prop := {
  dr_grouped : grouped dr_peer by_timestamp_id row_to_dm t th;
  dr_rows k r : t !! k = Some r → k <= seq ∧ in_width 63 (dr_timestamp_ms r);
}.

Record envs_rel (t : gmap Z EnvelopeRow) (seq : Z) (q : gmap Fingerprint (list Envelope)) : Prop := {
  er_grouped : grouped er_recipient by_id env_of t q;
  er_rows k r : t !! k = Some r → k <= seq ∧ in_width 63 (er_queued_ms r);
}.

Record msgs_rel (t : gmap bytes MessageRow) (ch : gmap rstring (list StoredMessage)) : Prop := {
  ms_grouped : grouped mr_channel by_timestamp row_to_message t ch;
  ms_rows k r : t !! k = Some r → to_arr8 k = k ∧ in_width 63 (mr_timestamp_ms r);
}.

Record refines_db (d : Database) (m : MemoryStore) : Prop := {
  rf_peers : peers_rel (t_peers d) (peers m);
  rf_dms : dms_rel (t_dms d) (seq_dms d) (dms m);
  rf_envs : envs_rel (t_envelopes d) (seq_envelopes d) (envelopes m);
  rf_msgs : msgs_rel (t_messages d) (channels m);
}.

(** The retention parameters are the same and in the range where neither side wraps. *)
Record same_limits (s : SqliteStore) (m : MemoryStore) : Prop := {
  sl_max : sq_history_max s = history_max m ∧ in_width 63 (history_max m);
  sl_ms : sq_history_ms s = history_ms m ∧ in_width 63 (history_ms m);
  sl_ttl : sq_envelope_ttl_ms s = env_ttl_ms m ∧ 0 < env_ttl_ms m < 2 ^ 63;
  sl_emax : sq_envelope_max_per_peer s = env_max_per_peer m ∧ in_width 63 (env_max_per_peer m);
}.

Record refines (s : SqliteStore) (m : MemoryStore) : Prop := {
  rf_db : refines_db (conn_db (conn s)) m;
  rf_limits : same_limits s m;
  rf_ok : messages_ok m;
}.

(** What the two stores need of an operation to agree: times below 2^63; a message that is new,
    with a timestamp no other message of its channel has. *)
Definition op_ok (m : MemoryStore) (o : store_op) : Prop :=
  op_typed o ∧
  match o with
  | OpMessage x =>
      in_width 63 (sm_timestamp_ms x) ∧ sm_digest x ∉ digests m
      ∧ ∀ y, y ∈ default [] (channels m !! sm_channel x) → sm_timestamp_ms y ≠ sm_timestamp_ms x
  | OpDm d => in_width 63 (dm_timestamp_ms d)
  | OpQueue _ _ t => in_width 63 t
  | _ => True
  end.

Fixpoint run_ok (m : MemoryStore) (ops : list store_op) : Prop :=
  match ops with
  | [] => True
  | o :: ops => op_ok m o ∧ run_ok (store_step m o) ops
  end.

#[local] Hint Resolve by_id_total by_id_trans by_timestamp_total by_timestamp_trans
  by_timestamp_id_total by_timestamp_id_trans : core.

(** ** Each table *)

Section steps.
Context `{SqlEngine, !SqlEngineLaws}.

Lemma grouped_ext {K V W} `{Countable K} column leb (conv : K * V → W) t g g' :
  (∀ x, default [] (g !! x) = default [] (g' !! x)) →
  grouped column leb conv t g → grouped column leb conv t g'.
Proof. intros E [Hs Hg]. split; [done|]. intros x. by rewrite Hg, E. Qed.

Lemma default_insert {W} (g : gmap bytes (list W)) x y l :
  default [] (<[x := l]> g !! y) = if decide (y = x) then l else default [] (g !! y).
Proof. case_decide; subst; [by rewrite lookup_insert_eq|by rewrite lookup_insert_ne]. Qed.

Lemma dms_rel_sub t t' seq th th' :
  t' ⊆ t → grouped dr_peer by_timestamp_id row_to_dm t' th' → dms_rel t seq th → dms_rel t' seq th'.
Proof. intros Hs Hg [_ Hr]. split; [done|]. intros k r Hk. eapply Hr, lookup_weaken; eauto. Qed.

Lemma envs_rel_sub t t' seq th th' :
  t' ⊆ t → grouped er_recipient by_id env_of t' th' → envs_rel t seq th → envs_rel t' seq th'.
Proof. intros Hs Hg [_ Hr]. split; [done|]. intros k r Hk. eapply Hr, lookup_weaken; eauto. Qed.

Lemma msgs_rel_sub t t' ch ch' :
  t' ⊆ t → grouped mr_channel by_timestamp row_to_message t' ch' → msgs_rel t ch → msgs_rel t' ch'.
Proof. intros Hs Hg [_ Hr]. split; [done|]. intros k r Hk. eapply Hr, lookup_weaken; eauto. Qed.

Lemma dm_key_mono t seq th fp a b :
  dms_rel t seq th → a ∈ group dr_peer by_timestamp_id fp t → b ∈ group dr_peer by_timestamp_id fp t →
  by_timestamp_id a b = true → dm_timestamp_ms (row_to_dm a) <= dm_timestamp_ms (row_to_dm b).
Proof.
  intros [_ Hr] [Ha _]%elem_of_group [Hb _]%elem_of_group Hab. cbn.
  rewrite !as_u64_small by by eapply Hr. unfold by_timestamp_id in Hab. lia.
Qed.

Lemma dms_rel_put i q t seq th dm n :
  dms_rel t seq th → op_typed (OpDm dm) → in_width 63 (dm_timestamp_ms dm) → 0 <= n →
  let thread := sort_by_key dm_timestamp_ms (default [] (th !! dm_peer dm) ++ [dm]) in
  dms_rel (delete_beyond i q (where_eq dr_peer (dm_peer dm)) (desc by_timestamp_id) n
             (<[seq + 1 := dm_row dm]> t)) (seq + 1)
    (<[dm_peer dm := drop (excess n thread) thread]> th).
Proof.
  intros Hr (Hp & Hu) Hts Hn thread. pose proof (dr_rows _ _ _ Hr) as Hrows.
  assert (row_to_dm (seq + 1, dm_row dm) = dm) as Hx by by apply row_to_dm_row.
  assert (grouped dr_peer by_timestamp_id row_to_dm (<[seq + 1 := dm_row dm]> t)
    (<[dm_peer dm := thread]> th)) as Hg.
  { unfold thread. rewrite <- Hx at 4.
    apply (grouped_insert dr_peer by_timestamp_id row_to_dm by_timestamp_id_total
      by_timestamp_id_trans t th (seq + 1) (dm_row dm)).
    - apply Hr.
    - apply fresh_key. intros k v Hk. by apply Hrows in Hk as [? _].
    - intros. apply separates_timestamp_id.
    - intros a b Ha Hb. by eapply dm_key_mono.
    - intros a [Ha _]%elem_of_group. destruct (Hrows _ _ Ha). rewrite Hx. cbn.
      rewrite as_u64_small by done. unfold by_timestamp_id. cbn. rewrite as_i64_small by done. lia. }
  apply (dms_rel_sub (<[seq + 1 := dm_row dm]> t) _ _ (<[dm_peer dm := thread]> th)).
  - apply delete_beyond_subseteq.
  - apply (grouped_trim _ _ _ by_timestamp_id_total by_timestamp_id_trans i q _ _ (dm_peer dm) n) in Hg;
      [|done].
    rewrite default_insert, decide_True, insert_insert_eq in Hg; done.
  - split; [done|]. intros k r [[<- <-]|[_ Hk]]%lookup_insert_Some; cbn.
    + by rewrite as_i64_small.
    + apply Hrows in Hk as [? ?]. split; [lia|done].
Qed.

Lemma dms_rel_control t seq th fp :
  dms_rel t seq th →
  dms_rel (delete_where (λ k r, where_eq dr_peer fp k r && control_body (dr_body r)) t) seq
    (match th !! fp with
     | Some l => <[fp := List.filter (λ d, negb (is_control_dm (dm_body d))) l]> th
     | None => th
     end).
Proof.
  intros Hr. eapply dms_rel_sub; [apply delete_where_subseteq| |exact Hr].
  pose proof (dr_grouped _ _ _ Hr) as Hg.
  apply (grouped_delete _ _ _ by_timestamp_id_total by_timestamp_id_trans _ _ fp
    (λ _ r, control_body (dr_body r)) (λ d, is_control_dm (dm_body d))) in Hg.
  - eapply grouped_ext; [|exact Hg]. intros x. rewrite default_insert.
    destruct (th !! fp) as [l|] eqn:E; [by rewrite default_insert|].
    case_decide; [|done]. subst. by rewrite E.
  - intros k r _ _. apply control_body_is.
Qed.

Lemma dms_rel_delete t seq th fp :
  dms_rel t seq th → dms_rel (delete_where (where_eq dr_peer fp) t) seq (delete fp th).
Proof.
  intros Hr. eapply dms_rel_sub; [apply delete_where_subseteq| |exact Hr].
  apply grouped_delete_all; eauto. apply Hr.
Qed.

Lemma sat_sub_expired now t ttl : 0 < ttl → (sat_sub now t <? ttl) = negb (ttl <=? now - t).
Proof. unfold sat_sub. intros. lia. Qed.

Lemma sort_by_const {A} (l : list A) : sort_by_key (λ _, 0) l = l.
Proof.
  apply sort_by_key_id. unfold sorted_by. induction l; constructor; [done|]. by apply Forall_true.
Qed.

Lemma envs_rel_expire t seq g fp now ttl :
  envs_rel t seq g → in_width 63 now → 0 < ttl →
  envs_rel (delete_where (λ k r, where_eq er_recipient fp k r && minus_ge now (er_queued_ms r) ttl) t)
    seq (<[fp := List.filter (λ e, sat_sub now (queued_ms e) <? ttl) (default [] (g !! fp))]> g).
Proof.
  intros Hr Hnow Httl. eapply envs_rel_sub; [apply delete_where_subseteq| |exact Hr].
  pose proof (er_grouped _ _ _ Hr) as Hg.
  apply (grouped_delete _ _ _ by_id_total by_id_trans _ _ fp
    (λ _ r, minus_ge now (er_queued_ms r) ttl) (λ e, ttl <=? now - queued_ms e)) in Hg.
  - eapply grouped_ext; [|exact Hg]. intros x. rewrite !default_insert. case_decide; [|done].
    apply filter_ext_in. intros e _. by rewrite sat_sub_expired.
  - intros k r Hk _. cbn. destruct (er_rows _ _ _ Hr k r Hk). by rewrite minus_ge_small.
Qed.

Lemma envs_rel_insert t seq g fp b now :
  envs_rel t seq g → in_width 63 now →
  envs_rel (<[seq + 1 := mkEnvelopeRow fp b now]> t) (seq + 1)
    (<[fp := default [] (g !! fp) ++ [{| packet_bytes := b; queued_ms := now |}]]> g).
Proof.
  intros Hr Hnow. pose proof (er_rows _ _ _ Hr) as Hrows. split.
  - rewrite <- (sort_by_const (_ ++ _)).
    apply (grouped_insert er_recipient by_id env_of by_id_total by_id_trans t g (seq + 1)
      (mkEnvelopeRow fp b now)).
    + apply Hr.
    + apply fresh_key. intros k v Hk. by apply Hrows in Hk as [? _].
    + intros. apply separates_id.
    + done.
    + intros a [Ha _]%elem_of_group. destruct (Hrows _ _ Ha). unfold by_id. cbn. lia.
  - intros k r [[<- <-]|[_ Hk]]%lookup_insert_Some; cbn; [done|].
    apply Hrows in Hk as [? ?]. split; [lia|done].
Qed.

Lemma envs_rel_queue i q t seq g fp b now ttl n :
  envs_rel t seq g → in_width 63 now → 0 < ttl → 0 <= n →
  let l := List.filter (λ e, sat_sub now (queued_ms e) <? ttl) (default [] (g !! fp))
           ++ [{| packet_bytes := b; queued_ms := now |}] in
  let t1 := delete_where (λ k r, where_eq er_recipient fp k r && minus_ge now (er_queued_ms r) ttl) t in
  envs_rel (delete_beyond i q (where_eq er_recipient fp) (desc by_id) n
              (<[seq + 1 := mkEnvelopeRow fp b now]> t1)) (seq + 1)
    (<[fp := drop (excess n l) l]> g).
Proof.
  intros Hr Hnow Httl Hn l t1.
  pose proof (envs_rel_expire t seq g fp now ttl Hr Hnow Httl) as H1. fold t1 in H1.
  apply (envs_rel_insert _ _ _ fp b now) in H1; [|done].
  rewrite default_insert, decide_True, insert_insert_eq in H1 by done. fold l in H1.
  eapply envs_rel_sub; [apply delete_beyond_subseteq| |exact H1]. apply er_grouped in H1.
  apply (grouped_trim _ _ _ by_id_total by_id_trans i q _ _ fp n) in H1; [|done].
  rewrite default_insert, decide_True, insert_insert_eq in H1; done.
Qed.

Lemma envs_rel_take t seq g fp :
  envs_rel t seq g → envs_rel (delete_where (where_eq er_recipient fp) t) seq (delete fp g).
Proof.
  intros Hr. eapply envs_rel_sub; [apply delete_where_subseteq| |exact Hr].
  apply grouped_delete_all; eauto. apply Hr.
Qed.

(** *** Channel messages *)

Lemma msg_key t ch c a :
  msgs_rel t ch → a ∈ group mr_channel by_timestamp c t →
  sm_timestamp_ms (row_to_message a) = mr_timestamp_ms a.2 ∧ in_width 63 (mr_timestamp_ms a.2).
Proof.
  intros [_ Hr] [Ha _]%elem_of_group. destruct (Hr _ _ Ha). split; [|done]. cbn. by apply as_u64_small.
Qed.

Lemma msgs_rel_held t ch k r :
  msgs_rel t ch → t !! k = Some r →
  row_to_message (k, r) ∈ default [] (ch !! mr_channel r) ∧ sm_digest (row_to_message (k, r)) = k.
Proof.
  intros [Hg Hr] Hk. split; [|cbn; by apply Hr in Hk as [? _]].
  rewrite <- (gr_groups _ _ _ _ _ Hg). apply elem_of_map_list. exists (k, r). split; [|done].
  by apply elem_of_group.
Qed.

Lemma msgs_rel_insert t ch m :
  msgs_rel t ch → op_typed (OpMessage m) → in_width 63 (sm_timestamp_ms m) →
  t !! sm_digest m = None →
  (∀ y, y ∈ default [] (ch !! sm_channel m) → sm_timestamp_ms y ≠ sm_timestamp_ms m) →
  msgs_rel (<[sm_digest m := message_row m]> t)
    (<[sm_channel m := sort_by_key sm_timestamp_ms (default [] (ch !! sm_channel m) ++ [m])]> ch).
Proof.
  intros Hr (Hd & Hs & Hu) Hts Hk Hne. pose proof (ms_rows _ _ Hr) as Hrows.
  assert (row_to_message (sm_digest m, message_row m) = m) as Hx by by apply row_to_message_row.
  assert (∀ k r, t !! k = Some r → mr_channel r = sm_channel m →
    mr_timestamp_ms r ≠ sm_timestamp_ms m) as Hdiff.
  { intros k r Hkr Hc. destruct (msgs_rel_held _ _ _ _ Hr Hkr) as [Hin _]. rewrite Hc in Hin.
    apply Hne in Hin. cbn in Hin. by rewrite as_u64_small in Hin by by eapply Hrows. }
  split.
  - rewrite <- Hx at 5.
    apply (grouped_insert mr_channel by_timestamp row_to_message by_timestamp_total
      by_timestamp_trans t ch (sm_digest m) (message_row m)).
    + apply Hr.
    + done.
    + intros c [k r] [k' r'] H1 H2 Hc1%beq_true Hc2%beq_true Hl1 Hl2.
      unfold by_timestamp in Hl1, Hl2. cbn in *.
      apply lookup_insert_Some in H1 as [[<- <-]|[_ H1]], H2 as [[<- <-]|[_ H2]]; [done|..].
      * exfalso. cbn in Hc1, Hl1, Hl2. rewrite as_i64_small in Hl1, Hl2 by done.
        apply (Hdiff _ _ H2); [congruence|lia].
      * exfalso. cbn in Hc2, Hl1, Hl2. rewrite as_i64_small in Hl1, Hl2 by done.
        apply (Hdiff _ _ H1); [congruence|lia].
      * apply (gr_separates _ _ _ _ _ (ms_grouped _ _ Hr) c (k, r) (k', r')); cbn; try done;
          try (by apply beq_true); unfold by_timestamp; cbn; lia.
    + intros a b Ha Hb Hab. destruct (msg_key _ _ _ _ Hr Ha) as [-> _], (msg_key _ _ _ _ Hr Hb) as [-> _].
      unfold by_timestamp in Hab. lia.
    + intros a Ha. destruct (msg_key _ _ _ _ Hr Ha) as [-> _]. rewrite Hx. unfold by_timestamp.
      cbn. by rewrite as_i64_small.
  - intros k r [[<- <-]|[_ ?]]%lookup_insert_Some; [|by apply Hrows]. cbn.
    by rewrite to_arr8_id, as_i64_small.
Qed.

Lemma msgs_rel_age t ch c now ms :
  msgs_rel t ch → in_width 63 now → 0 < ms →
  msgs_rel (prune_age c now ms t)
    (<[c := List.filter (λ m, sat_sub now (sm_timestamp_ms m) <? ms) (default [] (ch !! c))]> ch).
Proof.
  intros Hr Hnow Hms. eapply msgs_rel_sub; [apply delete_where_subseteq| |exact Hr].
  pose proof (ms_grouped _ _ Hr) as Hg.
  apply (grouped_delete _ _ _ by_timestamp_total by_timestamp_trans _ _ c
    (λ _ r, minus_ge now (mr_timestamp_ms r) ms) (λ m, ms <=? now - sm_timestamp_ms m)) in Hg.
  - eapply grouped_ext; [|exact Hg]. intros x. rewrite !default_insert. case_decide; [|done].
    apply filter_ext_in. intros e _. by rewrite sat_sub_expired.
  - intros k r Hk _. cbn. destruct (ms_rows _ _ Hr k r Hk).
    by rewrite minus_ge_small, as_u64_small.
Qed.

Lemma msgs_rel_count i t ch c n :
  msgs_rel t ch → 0 <= n →
  let l := default [] (ch !! c) in
  msgs_rel (prune_count i c n t) (<[c := drop (excess n l) l]> ch).
Proof.
  intros Hr Hn l. eapply msgs_rel_sub; [apply delete_beyond_subseteq| |exact Hr].
  apply grouped_trim; eauto. apply Hr.
Qed.
End steps.

(** ** The simulation *)

Section simulation.
Context `{SqlEngine, !SqlEngineLaws, !SqlReads, !SqlWrites}.
Implicit Types (s : SqliteStore) (m : MemoryStore).

#[local] Abbreviation db s := (conn_db (conn s)).

Lemma put_message_refines s m x :
  refines s m → op_ok m (OpMessage x) →
  refines_db (db (sq_put_channel_message s x)) (mem_put_channel_message m x).
Proof.
  intros [[Hp Hd He Hm] [[Emax Hmax] [Ems Hms] _ _] Hok] (Hty & Hts & Hfresh & Hne).
  destruct (put_message_other s x) as (Ep & Ed & Ee).
  assert (∀ d' : Database, d' = db (sq_put_channel_message s x) →
    seq_dms d' = seq_dms (db s) ∧ seq_envelopes d' = seq_envelopes (db s)) as Hseq.
  { intros d' ->. unfold sq_put_channel_message, sq_prune_channel. case_match; by rewrite !run_db. }
  destruct (Hseq _ eq_refl) as [Es1 Es2].
  assert (t_messages (db s) !! sm_digest x = None) as Hnew.
  { destruct (t_messages (db s) !! sm_digest x) as [r|] eqn:E; [|done]. exfalso. apply Hfresh.
    destruct (msgs_rel_held _ _ _ _ Hm E) as [Hin Hdg].
    destruct (channels m !! mr_channel r) as [l|] eqn:El; [|by apply not_elem_of_nil in Hin].
    pose proof (co_member _ _ _ (mo_channels _ Hok _ _ El)) as HF. rewrite Forall_forall in HF.
    rewrite <- Hdg. by apply HF. }
  unfold mem_put_channel_message. rewrite bool_decide_eq_false_2 by done.
  unfold prune_channel. cbn [channels set_channels]. rewrite lookup_insert_eq.
  cbn [history_max history_ms set_channels]. split; rewrite ?Ep, ?Ed, ?Ee, ?Es1, ?Es2; [done..|].
  cbn [channels set_channels].
  pose proof (msgs_rel_insert _ _ x Hm Hty Hts Hnew Hne) as K1.
  unfold sq_put_channel_message, sq_prune_channel.
  cbn [sq_history_ms sq_history_max run set_conn]. unfold insert_or_ignore.
  change (sq_history_ms (run s _ _)) with (sq_history_ms s).
  change (sq_history_max (run s _ _)) with (sq_history_max s).
  rewrite Ems, Emax, !as_i64_small by done. destruct (history_ms m >? 0) eqn:Hgt.
  - rewrite !run_db. cbn [t_messages set_t_messages]. rewrite Hnew.
    apply (msgs_rel_age _ _ (sm_channel x) (sm_timestamp_ms x) (history_ms m)) in K1; [|done|lia].
    rewrite default_insert, decide_True, insert_insert_eq in K1 by done.
    epose proof (msgs_rel_count _ _ _ (sm_channel x) (history_max m) K1 (proj1 Hmax)) as K2.
    cbv zeta in K2. rewrite default_insert, decide_True, insert_insert_eq in K2 by done.
    rewrite insert_insert_eq. exact K2.
  - rewrite !run_db. cbn [t_messages set_t_messages]. rewrite Hnew.
    epose proof (msgs_rel_count _ _ _ (sm_channel x) (history_max m) K1 (proj1 Hmax)) as K2.
    cbv zeta in K2. rewrite default_insert, decide_True, insert_insert_eq in K2 by done.
    rewrite insert_insert_eq. exact K2.
Qed.

Lemma peers_rel_upsert t p x :
  peers_rel t p → op_typed (OpPeer x) →
  peers_rel (<[fingerprint x := peer_row x]> t) (<[fingerprint x := x]> p).
Proof.
  intros Hr (H3 & H4 & H5) fp. destruct (decide (fp = fingerprint x)) as [->|Hne].
  - rewrite !lookup_insert_eq. cbn. by rewrite row_to_peer_row.
  - by rewrite !lookup_insert_ne.
Qed.

Lemma peers_rel_delete t p fp :
  peers_rel t p → peers_rel (delete_where (λ k _, beq k fp) t) (delete fp p).
Proof.
  intros Hr fp'. destruct (decide (fp' = fp)) as [->|Hne].
  - rewrite lookup_delete_eq. destruct (delete_where _ t !! fp) as [r|] eqn:E; [|done].
    apply elem_of_delete_where in E as [_ E]. unfold beq in E. by rewrite bool_decide_eq_true_2 in E.
  - rewrite lookup_delete_ne by done. rewrite <- Hr. f_equal. apply option_eq. intros r.
    rewrite elem_of_delete_where. unfold beq. rewrite bool_decide_eq_false_2 by done. tauto.
Qed.

Lemma run_limits s m q f : same_limits s m → same_limits (run s q f) m.
Proof. by intros [? ? ? ?]. Qed.

Lemma do_op_params s o :
  let s' := do_op s o in
  (sq_history_max s', sq_history_ms s', sq_envelope_ttl_ms s', sq_envelope_max_per_peer s')
  = (sq_history_max s, sq_history_ms s, sq_envelope_ttl_ms s, sq_envelope_max_per_peer s).
Proof.
  cbv zeta. destruct o; cbn [do_op]; try done.
  - cbn. unfold sq_put_channel_message, sq_prune_channel. by case_match.
  - cbn. unfold sq_queue_envelope. by case_match.
  - cbn. unfold sq_take_envelopes. by case_match.
  - cbn. unfold sq_delete_dms. by case_match.
Qed.

Lemma store_step_params m o :
  let m' := store_step m o in
  (history_max m', history_ms m', env_ttl_ms m', env_max_per_peer m')
  = (history_max m, history_ms m, env_ttl_ms m, env_max_per_peer m).
Proof.
  cbv zeta. destruct o; cbn [store_step]; try done.
  - unfold mem_put_channel_message, prune_channel. case_bool_decide; [done|]. by case_match.
  - unfold mem_delete_dms. by repeat case_match.
Qed.

Lemma queue_refines s m fp b t :
  refines s m → op_ok m (OpQueue fp b t) →
  refines_db (db (sq_queue_envelope s fp b t)) (mem_queue_envelope m fp b t).
Proof.
  intros [[Hp Hd He Hm] [_ _ [Ettl Httl] [Eem Hem]] _] [_ Ht].
  assert (in_width 63 (env_ttl_ms m)) as Hw by (unfold in_width; lia).
  unfold sq_queue_envelope. rewrite Ettl, (proj2 (Z.gtb_lt _ _)) by lia.
  cbn [sq_envelope_max_per_peer run set_conn].
  change (sq_envelope_max_per_peer (run (run s _ _) _ _)) with (sq_envelope_max_per_peer s).
  rewrite Eem, !as_i64_small by done. rewrite !run_db. split; cbn; try done.
  by apply envs_rel_queue; [| |lia|apply Hem].
Qed.

Lemma put_dm_refines s m d :
  refines s m → op_ok m (OpDm d) → refines_db (db (sq_put_dm s d)) (mem_put_dm m d).
Proof.
  intros [[Hp Hd He Hm] [[Emax Hmax] _ _ _] _] [Hty Hts].
  unfold sq_put_dm. change (sq_history_max (run s _ _)) with (sq_history_max s).
  rewrite Emax, as_i64_small, !run_db by done. split; cbn; try done.
  by apply dms_rel_put; [| | |apply Hmax].
Qed.

Lemma delete_dms_refines s m fp b :
  refines s m → refines_db (db (sq_delete_dms s fp b)) (mem_delete_dms m fp b).
Proof.
  intros [[Hp Hd He Hm] _ _]. unfold sq_delete_dms, mem_delete_dms. destruct b; rewrite run_db.
  - pose proof (dms_rel_control _ _ _ fp Hd) as Hc.
    destruct (dms m !! fp) eqn:E; by split.
  - split; cbn; try done. by apply dms_rel_delete.
Qed.

(** One operation on both sides. *)
Lemma refines_step s m o : refines s m → op_ok m o → refines (do_op s o) (store_step m o).
Proof.
  intros Hr Ho. destruct (Hr) as [[Hp Hd He Hm] Hl Hok]. split; [|..].
  - destruct o; cbn [do_op store_step].
    + by apply put_message_refines.
    + cbn. unfold sq_upsert_peer. rewrite run_db. split; cbn; try done.
      apply peers_rel_upsert; [done|apply Ho].
    + by apply put_dm_refines.
    + by apply queue_refines.
    + cbn. rewrite (proj2 (take_envelopes_rows s fp)). split; cbn; try done. by apply envs_rel_take.
    + cbn. unfold sq_delete_peer. rewrite run_db. split; cbn; try done. by apply peers_rel_delete.
    + by apply delete_dms_refines.
    + change (store_panic_wipe s) with (sq_panic_wipe s). rewrite panic_wipe_db. split; cbn; [done|..]; split; try done; apply grouped_empty.
  - pose proof (do_op_params s o) as E1. pose proof (store_step_params m o) as E2.
    cbv zeta in E1, E2. destruct Hl as [Ha Hb Hc Hd'].
    injection E1 as A1 A2 A3 A4. injection E2 as B1 B2 B3 B4.
    split; [by rewrite A1, B1|by rewrite A2, B2|by rewrite A3, B3|by rewrite A4, B4].
  - by apply store_step_messages.
Qed.

Lemma refines_run s m ops :
  refines s m → run_ok m ops → refines (foldl do_op s ops) (foldl store_step m ops).
Proof.
  revert s m. induction ops as [|o ops IH]; intros s m Hr; [done|]. intros [Ho Hops]. cbn [foldl].
  apply IH; [by apply refines_step|done].
Qed.

Lemma refines_open path key hmax hms ettl emax s :
  open None path key hmax hms ettl emax = Some s →
  in_width 63 hmax → in_width 63 hms → 0 < ettl < 2 ^ 63 → in_width 63 emax →
  refines s (MemoryStore_new hmax hms ettl emax).
Proof.
  intros Ho A B C D. pose proof (open_fresh _ _ _ _ _ _ _ Ho) as E.
  apply open_Some in Ho as (_ & _ & Hl). injection Hl as E1 E2 E3 E4. split.
  - rewrite E. split; cbn; [done|..]; split; try done; apply grouped_empty.
  - by split.
  - apply MemoryStore_new_ok.
Qed.

(** ** What related stores answer *)

Context `{!HashIter, !HashIterLaws}.

Lemma dm_sorted s m fp :
  refines s m →
  sort_by_key dm_timestamp_ms (default [] (dms m !! fp)) = default [] (dms m !! fp).
Proof.
  intros [[_ Hd _ _] _ _].
  apply (grouped_sorted dr_peer by_timestamp_id row_to_dm by_timestamp_id_total
    by_timestamp_id_trans (t_dms (db s)) (dms m) fp); [apply Hd|].
  intros a b Ha Hb. by eapply dm_key_mono.
Qed.

Lemma channel_sorted s m c :
  refines s m →
  sort_by_key sm_timestamp_ms (default [] (channels m !! c)) = default [] (channels m !! c).
Proof.
  intros [_ _ Hok]. destruct (channels m !! c) as [l|] eqn:E; [|done].
  apply sort_by_key_id, (co_sorted _ _ _ (mo_channels _ Hok _ _ E)).
Qed.

Lemma refines_message s m d :
  refines s m → sq_message_by_digest s d = mem_message_by_digest m d.
Proof.
  intros [[_ _ _ Hm] _ Hok]. rewrite message_lookup. apply option_eq. intros x.
  unfold mem_message_by_digest. split.
  - intros (r & Hr & ->)%fmap_Some. destruct (msgs_rel_held _ _ _ _ Hm Hr) as [Hin Hd].
    destruct (channels m !! mr_channel r) as [l|] eqn:E; [|by apply not_elem_of_nil in Hin].
    apply find_unique; [|apply elem_of_all_messages; by exists (mr_channel r), l|by apply bool_decide_eq_true].
    intros y Hy Ey%bool_decide_eq_true. apply elem_of_all_messages in Hy as (c & l' & El & Hy).
    apply (mo_unique _ Hok _ _ _ _ _ _ El E Hy Hin). congruence.
  - intros E. apply List.find_some in E as [Hx Ed%bool_decide_eq_true].
    apply list_elem_of_In, elem_of_all_messages in Hx as (c & l & El & Hx).
    pose proof (gr_groups _ _ _ _ _ (ms_grouped _ _ Hm) c) as Eg. rewrite El in Eg. cbn in Eg.
    rewrite <- Eg in Hx. apply elem_of_map_list in Hx as ([k r] & Hx & ->).
    apply elem_of_group in Hx as [Hk _]. cbn in Hk, Ed.
    destruct (ms_rows _ _ Hm k r Hk) as [Ek _]. rewrite Ek in Ed. subst k. by rewrite Hk.
Qed.

Lemma channel_digests_perm s m c :
  refines s m → sq_channel_digests s c ≡ₚ mem_channel_digests m c.
Proof.
  intros [[_ _ _ Hm] _ _]. unfold sq_channel_digests, mem_channel_digests. rewrite query_rows. cbn.
  pose proof (gr_groups _ _ _ _ _ (ms_grouped _ _ Hm) c) as Eg.
  assert (default [] (map sm_digest <$> channels m !! c)
    = map sm_digest (default [] (channels m !! c))) as -> by by destruct (channels m !! c).
  rewrite <- Eg, map_map. unfold group, listing. cbn. change (λ x, to_arr8 x.1) with (to_arr8 ∘ fst (A:=bytes) (B:=MessageRow)).
  apply Permutation_map. by rewrite isort_perm, select_perm.
Qed.

Lemma list_peers_perm s m :
  refines s m → sq_list_peers s ≡ₚ mem_list_peers m.
Proof.
  intros [[Hp _ _ _] _ _]. unfold sq_list_peers, mem_list_peers. rewrite query_rows. cbn.
  rewrite hash_iter_perm.
  assert (select (conn_stmts (conn s)) LIST_PEERS (λ _ _, true) (t_peers (db s))
    ≡ₚ map_to_list (t_peers (db s))) as ->.
  { rewrite select_perm. cbn. by rewrite filter_true. }
  assert (peers m = map_imap (λ fp r, Some (row_to_peer (fp, r))) (t_peers (db s))) as ->.
  { apply map_eq. intros fp. rewrite map_lookup_imap, <- Hp. by destruct (t_peers (db s) !! fp). }
  generalize (t_peers (db s)) as t. clear. intros t. induction t as [|k v t Hk IH] using map_ind.
  - by rewrite map_imap_empty, map_to_list_empty.
  - rewrite (map_imap_insert_Some _ _ _ _ (row_to_peer (k, v))) by done.
    rewrite !map_to_list_insert; [cbn [map]; by rewrite IH| |done].
    by rewrite map_lookup_imap, Hk.
Qed.

Lemma refines_get_peer s m fp : refines s m → sq_get_peer s fp = peers m !! fp.
Proof. intros [[Hp _ _ _] _ _]. rewrite get_peer_lookup. apply Hp. Qed.

Lemma refines_taken s m fp :
  refines s m → (sq_take_envelopes s fp).1 = (mem_take_envelopes m fp).1.
Proof.
  intros [[_ _ He _] _ _]. rewrite (proj1 (take_envelopes_rows s fp)).
  pose proof (gr_groups _ _ _ _ _ (er_grouped _ _ _ He) fp) as Eg. cbn.
  assert (default [] (map packet_bytes <$> envelopes m !! fp)
    = map packet_bytes (default [] (envelopes m !! fp))) as -> by by destruct (envelopes m !! fp).
  rewrite <- Eg, map_map. change (λ x, packet_bytes (env_of x)) with (er_packet ∘ snd (A:=Z) (B:=EnvelopeRow)).
  f_equal. apply listing_isort; [apply by_id_total|apply by_id_trans|apply separates_id|].
  apply select_perm.
Qed.

(** C10: the encrypted store is a refinement of the in-memory one. Both start empty under the same
    limits, which are below 2^63, and an envelope lifetime that is not zero. After a run of
    operations (wipes, deletions and drained envelopes included) of which no statement fails, whose
    clocks stay below 2^63, and which puts only messages that are new, and no two into a channel
    with one timestamp while both are held, the two answer alike:
    contacts, threads, held envelopes and channel histories in the same order, messages by digest,
    and the set of digests a channel reconciles with. One question they answer differently:
    [has_message] of the encrypted store tells exactly what either store holds; of the in-memory
    one it also remembers what was pruned, so that the first implies the second and, as
    [stores_differ] shows, not the other way round. *)
Theorem sqlite_refines_memory path key hmax hms ettl emax s0 ops :
  open None path key hmax hms ettl emax = Some s0 →
  in_width 63 hmax → in_width 63 hms → 0 < ettl < 2 ^ 63 → in_width 63 emax →
  let m0 := MemoryStore_new hmax hms ettl emax in
  run_ok m0 ops →
  let s := foldl do_op s0 ops in
  let m := foldl do_op m0 ops in
  (∀ fp, get_peer s fp = get_peer m fp) ∧ list_peers s ≡ₚ list_peers m
  ∧ (∀ fp n, in_width 63 n → dm_history s fp n = dm_history m fp n)
  ∧ (∀ fp, (take_envelopes s fp).1 = (take_envelopes m fp).1)
  ∧ (∀ c n, in_width 63 n → channel_history s c n = channel_history m c n)
  ∧ (∀ c, channel_digests s c ≡ₚ channel_digests m c)
  ∧ (∀ d, message_by_digest s d = message_by_digest m d)
  ∧ (∀ d, has_message s d = true ↔ is_Some (message_by_digest m d))
  ∧ (∀ d, has_message s d = true → has_message m d = true).
Proof.
  intros Ho A B C D m0 Hrun s m.
  assert (refines s m) as Hr by (apply (refines_run s0 m0 ops); [by eapply refines_open|done]).
  clearbody s m. destruct (Hr) as [[Hp Hd He Hm] _ Hok]. split_and!.
  - intros fp. by apply refines_get_peer.
  - by apply list_peers_perm.
  - intros fp n Hn. cbn. unfold sq_dm_history, mem_dm_history. rewrite query_rows, as_i64_small by done.
    rewrite (dm_sorted s m fp Hr). cbn [default].
    apply (grouped_window _ _ _ by_timestamp_id_total by_timestamp_id_trans); [apply Hd|apply Hn].
  - intros fp. by apply refines_taken.
  - intros c n Hn. cbn. unfold sq_channel_history, mem_channel_history.
    rewrite query_rows, as_i64_small by done. rewrite (channel_sorted s m c Hr). cbn [default].
    apply (grouped_window _ _ _ by_timestamp_total by_timestamp_trans); [apply Hm|apply Hn].
  - intros c. by apply channel_digests_perm.
  - intros d. by apply refines_message.
  - intros d. cbn. rewrite <- (refines_message s m d Hr).
    rewrite has_message_lookup, message_lookup, bool_decide_eq_true. by rewrite fmap_is_Some.
  - intros d. cbn. rewrite has_message_lookup, bool_decide_eq_true. intros [r Hk].
    destruct (msgs_rel_held _ _ _ _ Hm Hk) as [Hin Hdg].
    destruct (channels m !! mr_channel r) as [l|] eqn:El; [|by apply not_elem_of_nil in Hin].
    pose proof (co_member _ _ _ (mo_channels _ Hok _ _ El)) as HF. rewrite Forall_forall in HF.
    apply bool_decide_eq_true. rewrite <- Hdg. by apply HF.
Qed.
End simulation.

(** ** Witnesses *)

Definition demo_peer : PeerRecord :=
  mkPeerRecord (replicate 32 Byte.x08) (Some [Byte.x6f; Byte.x76; Byte.x69]) true (replicate 8 Byte.x02) 100.
Definition demo_msg (d : byte) (ts : Millis) : StoredMessage :=
  mkStoredMessage (replicate 8 d) [Byte.x23; Byte.x63] (replicate 8 Byte.x01) ts [d] [d; d].
Definition demo_dm (body : bytes) (ts : Millis) : StoredDm :=
  mkStoredDm (replicate 32 Byte.x08) true ts body.

(** Two messages kept of three, a thread with a control row taken out, two envelopes. *)
Definition demo_ops : list store_op := [
  OpPeer demo_peer; OpMessage (demo_msg Byte.x01 30); OpMessage (demo_msg Byte.x02 10);
  OpDm (demo_dm [Byte.x68] 20); OpDm (demo_dm [Byte.x01] 20); OpMessage (demo_msg Byte.x03 20);
  OpDeleteDms (replicate 32 Byte.x08) true; OpQueue (replicate 32 Byte.x08) [Byte.x01] 0;
  OpQueue (replicate 32 Byte.x08) [Byte.x02] 100].

Definition demo_sqlite : SqliteStore :=
  made (replicate 32 Byte.x07) 2 1000 5000 2.

Lemma demo_ops_ok : run_ok (MemoryStore_new 2 1000 5000 2) demo_ops.
Proof.
  assert (∀ x (l : gset bytes), bool_decide (x ∈ l) = false → x ∉ l) as Hout
    by (intros x l E; by apply bool_decide_eq_false in E).
  unfold demo_ops, run_ok, op_ok.
  repeat split; try done; try (apply Hout; by vm_compute);
    (refine (proj1 (Forall_forall (λ y, _) _) _); by repeat constructor).
Qed.

Lemma sqlite_refines_memory_witness :
  let s := foldl (do_op (S:=SqliteStore)) demo_sqlite demo_ops in
  let m := foldl do_op (MemoryStore_new 2 1000 5000 2) demo_ops in
  map sm_timestamp_ms (channel_history m [Byte.x23; Byte.x63] 9) = [20; 30]
  ∧ (∀ fp, get_peer s fp = get_peer m fp) ∧ list_peers s ≡ₚ list_peers m
  ∧ (∀ fp n, in_width 63 n → dm_history s fp n = dm_history m fp n)
  ∧ (∀ fp, (take_envelopes s fp).1 = (take_envelopes m fp).1)
  ∧ (∀ c n, in_width 63 n → channel_history s c n = channel_history m c n)
  ∧ (∀ c, channel_digests s c ≡ₚ channel_digests m c)
  ∧ (∀ d, message_by_digest s d = message_by_digest m d)
  ∧ (∀ d, has_message s d = true ↔ is_Some (message_by_digest m d))
  ∧ (∀ d, has_message s d = true → has_message m d = true).
Proof.
  split; [by vm_compute|].
  apply (sqlite_refines_memory [] (replicate 32 Byte.x07) 2 1000 5000 2 demo_sqlite demo_ops);
    [by vm_compute|done..|apply demo_ops_ok].
Defined.

(** Where the two differ: a time to live of zero makes the in-memory store forget every envelope
    queued before, and the encrypted one keep them all; and only the in-memory store remembers
    the digest of a message it has pruned. *)
Example stores_differ :
  let fp := replicate 32 Byte.x08 in
  let ops := [OpQueue fp [Byte.x01] 0; OpQueue fp [Byte.x02] 0] in
  (take_envelopes (foldl do_op (MemoryStore_new 2 1000 0 2) ops) fp).1 = [[Byte.x02]]
  ∧ (take_envelopes (foldl do_op (made (replicate 32 Byte.x07) 2 1000 0 2) ops) fp).1
    = [[Byte.x01]; [Byte.x02]]
  ∧ let ops := [OpMessage (demo_msg Byte.x01 10); OpMessage (demo_msg Byte.x02 2000)] in
    has_message (foldl do_op (MemoryStore_new 2 1000 0 2) ops) (replicate 8 Byte.x01) = true
    ∧ has_message (foldl do_op (made (replicate 32 Byte.x07) 2 1000 0 2) ops)
        (replicate 8 Byte.x01) = false.
Proof. by vm_compute. Qed.
