(* ===== verification/NodeStores.v ===== *)
(** * NodeStores: what a node does is independent of the store behind it

    [MeshNode] owns its store as a trait object. Here the methods are shown to commute with a map
    from one store to another that respects the operations of the trait, as long as the store is in
    good standing; then the map is taken to be the replay of a journal, once into [MemoryStore] and
    once into [SqliteStore]. *)
From stdpp Require Import strings gmap.
From S2P Require Import Prelude Errors F64 Utf8 Clock External Transport Toy Wire Config Frag.
From S2P Require Import Compress Relay Channels Store Identity Noise Payloads Node NodeFrame Demo.
From S2P Require Import Sqlite SqlTables SqliteProps SqliteRefines SqliteSim.

(** ** Maps between stores *)

(** [h] takes each operation of the trait on [P] to the same operation on [T] and answers the
    questions a node asks alike, while the store is [good]; an operation never makes a store good
    again. The order of [channel_digests] may differ. *)
Class StoreMap {P T : Type} `{Store P, Store T} (h : P → T) (good : P → Prop) : Prop := {
  map_message p m : good (put_channel_message p m) →
    good p ∧ put_channel_message (h p) m = h (put_channel_message p m);
  map_peer p r : good (upsert_peer p r) → good p ∧ upsert_peer (h p) r = h (upsert_peer p r);
  map_dm p d : good (put_dm p d) → good p ∧ put_dm (h p) d = h (put_dm p d);
  map_queue p fp b t : good (queue_envelope p fp b t) →
    good p ∧ queue_envelope (h p) fp b t = h (queue_envelope p fp b t);
  map_delete_peer p fp : good (delete_peer p fp) → good p ∧ delete_peer (h p) fp = h (delete_peer p fp);
  map_delete_dms p fp b : good (delete_dms p fp b) →
    good p ∧ delete_dms (h p) fp b = h (delete_dms p fp b);
  map_wipe p : good (store_panic_wipe p) → good p ∧ store_panic_wipe (h p) = h (store_panic_wipe p);
  map_take p fp : good (take_envelopes p fp).2 →
    good p ∧ (take_envelopes (h p) fp).2 = h (take_envelopes p fp).2;
  map_taken p fp : good p → (take_envelopes (h p) fp).1 = (take_envelopes p fp).1;
  map_get_peer p fp : good p → get_peer (h p) fp = get_peer p fp;
  map_by_digest p d : good p → message_by_digest (h p) d = message_by_digest p d;
  map_digests p c : good p → channel_digests (h p) c ≡ₚ channel_digests p c;
}.

(** A node with its store replaced by the image of the store. *)
Definition lift `{Sha256, Ed25519, X25519, Snow, Lz4, Rand, HashIter, UnicodeCase}
    {P T : Type} (h : P → T) (n : MeshNode (S:=P)) : MeshNode (S:=T) :=
  mkNode (identity n) (node_cfg n) (sent n) (now n) (h (store n)) (seen n) (rate n) (scheduler n)
    (reassembler n) (rng n) (links n) (eph_keys n) (subscribed n) (events n) (nickname n)
    (relays_fired n) (noise_sessions n) (pending_dms n) (fp_to_eph n) (peer_static_dh n)
    (pending_inbound_dms n) (handshake_last_ms n) (handshake_attempts n) (resync_pending n)
    (notice_pending n) (panicked n).

Section lifting.
Context `{Sha256, Ed25519, X25519, Snow, Lz4, Rand, HashIter, UnicodeCase}.
Context {P T : Type} `{StP : Store P, StT : Store T} (h : P → T) (good : P → Prop) `{!StoreMap h good}.
#[local] Abbreviation Node1 := (MeshNode (S:=P)).
#[local] Abbreviation Node2 := (MeshNode (S:=T)).
Implicit Types n : Node1.

(** [a] follows [b], both reached from [n] and its image: if the store of [b] is good, that of [n]
    was, and [a] is the image of [b]. *)
Definition follows n (a : Node2) (b : Node1) : Prop :=
  good (store b) → good (store n) ∧ a = lift h b.

Lemma follows_same n a (b : Node1) : store b = store n → a = lift h b → follows n a b.
Proof. intros E -> Hg. by rewrite E in Hg. Qed.

(** Two steps in a row. *)
Lemma follows_let n (a : Node2) (b : Node1) (k2 : Node2 → Node2) (k1 : Node1 → Node1) :
  follows n a b → (∀ m, follows m (k2 (lift h m)) (k1 m)) → follows n (k2 a) (k1 b).
Proof. intros Ha Hk Hg. destruct (Hk b Hg) as [Hb E]. destruct (Ha Hb) as [Hn ->]. done. Qed.

(** A step that depends on an answer of the store. *)
Lemma follows_ask {A} n (x2 x1 : A) (k2 : A → Node2) (k1 : A → Node1) :
  (good (store n) → x2 = x1) → (∀ x, follows n (k2 x) (k1 x)) → follows n (k2 x2) (k1 x1).
Proof. intros Hx Hk Hg. destruct (Hk x1 Hg) as [Hn E]. by rewrite (Hx Hn). Qed.

Lemma follows_foldl {A} (f2 : Node2 → A → Node2) (f1 : Node1 → A → Node1) l n :
  (∀ m x, follows m (f2 (lift h m) x) (f1 m x)) → follows n (foldl f2 (lift h n) l) (foldl f1 n l).
Proof.
  intros Hf. revert n. induction l as [|x l IH]; intros n; [by apply follows_same|].
  apply (follows_let n _ _ (λ a, foldl f2 a l) (λ b, foldl f1 b l)); [apply Hf|exact IH].
Qed.

#[local] Abbreviation fol := follows.
#[local] Abbreviation up := (lift h).

(** One step of a proof that a method follows itself: a [let] of a node is proved and generalized,
    any other is expanded, and a test, which is the same on both sides, is split. *)
Ltac follow_step :=
  lazymatch goal with
  | |- fol ?n (let x := ?e2 in @?b2 x) (let y := ?e1 in @?b1 y) =>
      lazymatch type of e1 with
      | Node1 =>
          let m := fresh "m" in
          apply (follows_let n e2 e1 b2 b1); [|intros m; cbv beta]
      | _ =>
          let g2 := eval cbv beta in (b2 e2) in let g1 := eval cbv beta in (b1 e1) in
          change (fol n g2 g1)
      end
  | |- fol ?n (match ?x2 with _ => _ end) (match ?x1 with _ => _ end) =>
      change x2 with x1; destruct x1 eqn:?
  | |- fol ?n (foldl ?f2 ?e2 ?l2) (foldl ?f1 ?e1 ?l1) =>
      change l2 with l1;
      apply (follows_let n e2 e1 (λ a, foldl f2 a l1) (λ b, foldl f1 b l1));
        [|intros ?; apply follows_foldl; intros]
  | |- fol ?n ?a ?b => first [apply follows_same; reflexivity | solve [eauto with follow]]
  end.

Ltac follow := repeat follow_step.

(** ** Steps that change the store *)

Lemma follows_store n (t : T) p :
  (good p → good (store n) ∧ t = h p) → fol n (set_store (up n) t) (set_store n p).
Proof. intros E Hg. destruct (E Hg) as [Hn ->]. done. Qed.

Lemma put_message_follows n m :
  fol n (set_store (up n) (put_channel_message (store (up n)) m))
    (set_store n (put_channel_message (store n) m)).
Proof. apply follows_store, (map_message (h:=h)). Qed.
Lemma upsert_peer_follows n r :
  fol n (set_store (up n) (upsert_peer (store (up n)) r)) (set_store n (upsert_peer (store n) r)).
Proof. apply follows_store, (map_peer (h:=h)). Qed.
Lemma put_dm_follows n d :
  fol n (set_store (up n) (put_dm (store (up n)) d)) (set_store n (put_dm (store n) d)).
Proof. apply follows_store, (map_dm (h:=h)). Qed.
Lemma queue_follows n fp b t :
  fol n (set_store (up n) (queue_envelope (store (up n)) fp b t))
    (set_store n (queue_envelope (store n) fp b t)).
Proof. apply follows_store, (map_queue (h:=h)). Qed.
Lemma delete_peer_follows n fp :
  fol n (set_store (up n) (delete_peer (store (up n)) fp)) (set_store n (delete_peer (store n) fp)).
Proof. apply follows_store, (map_delete_peer (h:=h)). Qed.
Lemma delete_dms_follows n fp b :
  fol n (set_store (up n) (delete_dms (store (up n)) fp b)) (set_store n (delete_dms (store n) fp b)).
Proof. apply follows_store, (map_delete_dms (h:=h)). Qed.
Lemma wipe_follows n :
  fol n (set_store (up n) (store_panic_wipe (store (up n)))) (set_store n (store_panic_wipe (store n))).
Proof. apply follows_store, (map_wipe (h:=h)). Qed.
#[local] Hint Resolve put_message_follows upsert_peer_follows put_dm_follows queue_follows
  delete_peer_follows delete_dms_follows wipe_follows : follow.

(** ** Sending *)

Lemma send_bytes_follows n l b d m : fol n (send_bytes (up n) l b d m) (send_bytes n l b d m).
Proof. rewrite !send_bytes_sent. by apply follows_same. Qed.

Lemma broadcast_follows n p x : fol n (broadcast (up n) p x) (broadcast n p x).
Proof. rewrite !broadcast_sent. by apply follows_same. Qed.
#[local] Hint Resolve send_bytes_follows broadcast_follows : follow.

Lemma send_directed_follows n t fp b : fol n (send_directed (up n) t fp b) (send_directed n t fp b).
Proof. cbv beta delta [send_directed]. follow. Qed.
#[local] Hint Resolve send_directed_follows : follow.

Lemma announce_follows n : fol n (announce (up n)) (announce n).
Proof. cbv beta delta [announce]. follow. Qed.
#[local] Hint Resolve announce_follows : follow.

(** The first question of a method: both sides are told the same. *)
Ltac follow_ask x2 x1 H :=
  lazymatch goal with
  | |- fol ?n ?a ?b =>
      let k2 := lazymatch eval pattern x2 in a with ?k _ => k end in
      let k1 := lazymatch eval pattern x1 in b with ?k _ => k end in
      apply (follows_ask n x2 x1 k2 k1); [exact H | intros ?; cbv beta]
  end.

Lemma peer_answer n fp : good (store n) → get_peer (store (up n)) fp = get_peer (store n) fp.
Proof. apply (map_get_peer (h:=h)). Qed.

Ltac follow_peer fp :=
  lazymatch goal with
  | |- fol ?n _ _ =>
      follow_ask (get_peer (store (up n)) fp) (get_peer (store n) fp) (peer_answer n fp)
  end.

(** ** Messages and sessions *)

Lemma send_channel_message_follows n c t :
  fol n (send_channel_message (up n) c t).2 (send_channel_message n c t).2.
Proof.
  set (m := set_subscribed n ({[ normalize c ]} ∪ subscribed n)).
  set (pkt := originate m ChannelMessage (origin_ttl (node_cfg n) ChannelMessage (msize (links n)))
                None (encode_channel (normalize c) t (node_cfg n))).
  set (r := {| sm_digest := digest pkt; sm_channel := normalize c; sm_sender := node_eph_id n;
               sm_timestamp_ms := now n; sm_body := t; sm_raw := encode pkt |}).
  refine (follows_let n (set_store (up m) (put_channel_message (store (up m)) r))
    (set_store m (put_channel_message (store m) r)) (λ a, let a := observe_seen a (digest pkt) in broadcast a pkt None)
    (λ b, let b := observe_seen b (digest pkt) in broadcast b pkt None) (put_message_follows m r) _).
  intros m'. follow.
Qed.

Lemma begin_handshake_follows n fp : fol n (begin_handshake (up n) fp) (begin_handshake n fp).
Proof. cbv beta delta [begin_handshake]. follow. Qed.
#[local] Hint Resolve begin_handshake_follows : follow.

Lemma encrypt_and_send_dm_follows n fp k b :
  fol n (encrypt_and_send_dm (up n) fp k b) (encrypt_and_send_dm n fp k b).
Proof. cbv beta delta [encrypt_and_send_dm]. follow. Qed.
#[local] Hint Resolve encrypt_and_send_dm_follows : follow.

Lemma put_own_dm_follows n fp x b : fol n (put_own_dm (up n) fp x b) (put_own_dm n fp x b).
Proof. apply put_dm_follows. Qed.
#[local] Hint Resolve put_own_dm_follows : follow.

Lemma send_control_dm_follows n fp k : fol n (send_control_dm (up n) fp k) (send_control_dm n fp k).
Proof. cbv beta delta [send_control_dm]. follow. Qed.
#[local] Hint Resolve send_control_dm_follows : follow.

Lemma try_send_verify_notice_follows n fp :
  fol n (try_send_verify_notice (up n) fp) (try_send_verify_notice n fp).
Proof. cbv beta delta [try_send_verify_notice]. follow. Qed.
#[local] Hint Resolve try_send_verify_notice_follows : follow.

Lemma decrypt_and_emit_follows n fp ct :
  fol n (decrypt_and_emit (up n) fp ct) (decrypt_and_emit n fp ct).
Proof. cbv beta delta [decrypt_and_emit]. follow. Qed.
#[local] Hint Resolve decrypt_and_emit_follows : follow.

Lemma send_dm_follows n fp t : fol n (send_dm (up n) fp t) (send_dm n fp t).
Proof. cbv beta delta [send_dm]. follow. Qed.
#[local] Hint Resolve send_dm_follows : follow.

Lemma verify_peer_follows n fp : fol n (verify_peer (up n) fp) (verify_peer n fp).
Proof.
  cbv beta delta [verify_peer peer_or_new].
  follow_peer fp. follow.
Qed.

Lemma unverify_peer_follows n fp : fol n (unverify_peer (up n) fp) (unverify_peer n fp).
Proof.
  cbv beta delta [unverify_peer].
  follow_peer fp. follow.
Qed.

Lemma forget_peer_follows n fp : fol n (forget_peer (up n) fp) (forget_peer n fp).
Proof. cbv beta delta [forget_peer]. follow. Qed.

Lemma set_petname_follows n fp name : fol n (set_petname (up n) fp name) (set_petname n fp name).
Proof.
  cbv beta delta [set_petname peer_or_new].
  follow_peer fp. follow.
Qed.

Lemma panic_wipe_follows n : fol n (panic_wipe (up n)) (panic_wipe n).
Proof. cbv beta delta [panic_wipe]. follow. Qed.

Lemma start_dm_session_follows n fp : fol n (start_dm_session (up n) fp) (start_dm_session n fp).
Proof. cbv beta delta [start_dm_session]. follow. Qed.

(** ** Handshakes *)

Lemma finish_session_follows n fp : fol n (finish_session (up n) fp) (finish_session n fp).
Proof. cbv beta delta [finish_session]. follow. Qed.
#[local] Hint Resolve finish_session_follows : follow.

Lemma finish_ready_follows n fp :
  fol n (if session_ready (up n) fp then finish_session (up n) fp else up n)
    (if session_ready n fp then finish_session n fp else n).
Proof. follow. Qed.

Lemma advance_handshake_follows n fp :
  fol n (advance_handshake (up n) fp) (advance_handshake n fp).
Proof.
  unfold advance_handshake. follow_step; [|follow]. follow_step; [apply finish_ready_follows|].
  follow_step. follow_step; [|follow..].
  refine (follows_let n _ (send_directed (put_session n fp n1) NoiseHandshake fp a)
    (λ a, if session_ready a fp then finish_session a fp else a)
    (λ b, if session_ready b fp then finish_session b fp else b)
    (send_directed_follows (put_session n fp n1) NoiseHandshake fp a) _).
  intros m. apply finish_ready_follows.
Qed.
#[local] Hint Resolve advance_handshake_follows : follow.

(** Reading a message into an existing session. *)
Lemma read_session_follows n fp p :
  fol n match noise_sessions (up n) !! fp with
        | None => panic (up n)
        | Some session =>
            match read_handshake session p with
            | (Ok _, session') =>
                let n := put_session (up n) fp session' in
                let n := touch_handshake n fp in
                advance_handshake n fp
            | (_, session') => drop_session (put_session (up n) fp session') fp
            end
        end
        match noise_sessions n !! fp with
        | None => panic n
        | Some session =>
            match read_handshake session p with
            | (Ok _, session') =>
                let n := put_session n fp session' in
                let n := touch_handshake n fp in
                advance_handshake n fp
            | (_, session') => drop_session (put_session n fp session') fp
            end
        end.
Proof. follow. Qed.

Lemma respond_handshake_follows n fp p :
  fol n (respond_handshake (up n) fp p) (respond_handshake n fp p).
Proof.
  unfold respond_handshake. change (has_session (up n) fp) with (has_session n fp).
  change (identity (up n)) with (identity n).
  destruct (negb (has_session n fp)); [|apply read_session_follows].
  destruct (new_responder _) as [s| |]; [|by apply follows_same..].
  exact (read_session_follows (set_handshake_attempts (touch_handshake (put_session n fp s) fp) _) fp p).
Qed.
#[local] Hint Resolve respond_handshake_follows : follow.

(** A step that also says whether to go on. *)
Lemma follows_gate n (e2 : bool * Node2) (e1 : bool * Node1) (k2 : bool → Node2 → Node2)
    (k1 : bool → Node1 → Node1) :
  e2 = (e1.1, up e1.2) → store e1.2 = store n → (∀ go m, fol m (k2 go (up m)) (k1 go m)) →
  fol n (let '(go, a) := e2 in k2 go a) (let '(go, b) := e1 in k1 go b).
Proof.
  destruct e1 as [go m]. cbn [fst snd]. intros -> E Hk Hg. destruct (Hk go m Hg) as [Hm Hr].
  by rewrite E in Hm.
Qed.

(** The two gates of a handshake message, which leave the store alone. *)
Definition resync_gate {S} (n : MeshNode (S:=S)) (fp : Fingerprint) : bool * MeshNode (S:=S) :=
  if session_ready n fp then
    let tries := wrap 8 (default 0 (resync_pending n !! fp) + 1) in
    let n := set_resync_pending n (<[fp := tries]> (resync_pending n)) in
    if tries <? RESYNC_HANDSHAKE_THRESHOLD then (false, n)
    else
      let n := set_resync_pending n (delete fp (resync_pending n)) in
      (true, drop_session n fp)
  else (true, n).

Definition glare_gate {S} (n : MeshNode (S:=S)) (fp : Fingerprint) (p : bytes) : bool * MeshNode (S:=S) :=
  if zlen p =? XX_MSG1_LEN then
    match noise_sessions n !! fp with
    | Some session =>
        if is_handshaking session && initiator session then
          if bytes_ltb (node_fingerprint n) fp then (false, n)
          else (true, drop_session n fp)
        else (true, n)
    | None => (true, n)
    end
  else (true, n).

Lemma resync_gate_up n fp :
  resync_gate (up n) fp = ((resync_gate n fp).1, up (resync_gate n fp).2)
  ∧ store (resync_gate n fp).2 = store n.
Proof.
  unfold resync_gate. change (session_ready (up n) fp) with (session_ready n fp).
  change (resync_pending (up n)) with (resync_pending n).
  destruct (session_ready n fp); [|done]. cbv zeta. by destruct (_ <? _).
Qed.

Lemma glare_gate_up n fp p :
  glare_gate (up n) fp p = ((glare_gate n fp p).1, up (glare_gate n fp p).2)
  ∧ store (glare_gate n fp p).2 = store n.
Proof.
  unfold glare_gate. change (noise_sessions (up n)) with (noise_sessions n).
  change (node_fingerprint (up n)) with (node_fingerprint n).
  destruct (_ =? _); [|done]. destruct (noise_sessions n !! fp) as [s|]; [|done].
  destruct (_ && _); [|done]. by destruct (bytes_ltb _ _).
Qed.

Lemma handle_noise_handshake_follows n p :
  fol n (handle_noise_handshake (up n) p) (handle_noise_handshake n p).
Proof.
  unfold handle_noise_handshake. follow_step; [by apply follows_same|].
  change (eph_to_fp (up n) (sender p)) with (eph_to_fp n (sender p)).
  destruct (eph_to_fp n (sender p)) as [fp|]; [|by apply follows_same].
  destruct (resync_gate_up n fp) as [E1 E2].
  apply (follows_gate n _ _ _ _ E1 E2). intros [] m; [cbn [negb]|by apply follows_same].
  destruct (glare_gate_up m fp (payload p)) as [E3 E4].
  apply (follows_gate m _ _ _ _ E3 E4). intros [] m'; [cbn [negb]|by apply follows_same].
  follow.
Qed.

Lemma handle_direct_message_follows n p :
  fol n (handle_direct_message (up n) p) (handle_direct_message n p).
Proof. cbv beta delta [handle_direct_message]. follow. Qed.
#[local] Hint Resolve handle_noise_handshake_follows handle_direct_message_follows : follow.

(** ** Links, announces, packets *)

Lemma resolve_links_follows n : fol n (resolve_links (up n)) (resolve_links n).
Proof. cbv beta delta [resolve_links]. follow. Qed.
#[local] Hint Resolve resolve_links_follows : follow.

Lemma dedup_links_follows n : fol n (dedup_links (up n)) (dedup_links n).
Proof. cbv beta delta [dedup_links]. follow. Qed.
#[local] Hint Resolve dedup_links_follows : follow.

Lemma note_link_identity_follows n l e :
  fol n (note_link_identity (up n) l e) (note_link_identity n l e).
Proof. cbv beta delta [note_link_identity]. follow. Qed.
#[local] Hint Resolve note_link_identity_follows : follow.

Lemma note_key_change_follows n fp o d :
  fol n (note_key_change (up n) fp o d) (note_key_change n fp o d).
Proof.
  cbv beta delta [note_key_change].
  follow_peer fp. follow.
Qed.
#[local] Hint Resolve note_key_change_follows : follow.

(** The end of an announce: what was held for the peer is sent as direct messages. *)
Lemma send_held_follows n fp :
  fol n
    (let '(held, st) := take_envelopes (store (up n)) fp in
     let a := set_store (up n) st in foldl (λ (a : Node2) bs, send_dm a fp (utf8_lossy bs)) a held)
    (let '(held, st) := take_envelopes (store n) fp in
     let n := set_store n st in foldl (λ n bs, send_dm n fp (utf8_lossy bs)) n held).
Proof.
  pose proof (map_take (h:=h) (store n) fp) as Ht. pose proof (map_taken (h:=h) (store n) fp) as Hh.
  change (store (up n)) with (h (store n)).
  destruct (take_envelopes (h (store n)) fp) as [held2 t], (take_envelopes (store n) fp) as [held p].
  cbn [fst snd] in *. cbv zeta.
  apply (follows_ask n held2 held (λ l, foldl (λ (a : Node2) bs, send_dm a fp (utf8_lossy bs)) (set_store (up n) t) l)
    (λ l, foldl (λ n bs, send_dm n fp (utf8_lossy bs)) (set_store n p) l)); [exact Hh|]. intros l.
  assert (fol n (set_store (up n) t) (set_store n p)) as Hs by by apply follows_store.
  follow.
Qed.
#[local] Hint Resolve send_held_follows : follow.

Lemma accept_announce_follows n p pk dh nick :
  fol n (accept_announce (up n) p pk dh nick) (accept_announce n p pk dh nick).
Proof.
  cbv beta delta [accept_announce]. follow; [|apply send_held_follows].
  follow_peer (sha256 pk). follow.
Qed.
#[local] Hint Resolve accept_announce_follows : follow.

Lemma handle_announce_follows n p : fol n (handle_announce (up n) p) (handle_announce n p).
Proof. cbv beta delta [handle_announce]. follow. Qed.

Lemma handle_channel_follows n p : fol n (handle_channel (up n) p) (handle_channel n p).
Proof. cbv beta delta [handle_channel]. follow. Qed.
#[local] Hint Resolve handle_announce_follows handle_channel_follows : follow.

Lemma filter_answer n c :
  good (store n) →
  SyncFilter_new c (channel_digests (store (up n)) c) = SyncFilter_new c (channel_digests (store n) c).
Proof.
  intros Hg. apply SyncFilter_new_ext. intros d. by rewrite (map_digests (h:=h) (store n) c Hg).
Qed.

Ltac follow_filter c :=
  lazymatch goal with
  | |- fol ?n _ _ =>
      follow_ask (SyncFilter_new c (channel_digests (store (up n)) c))
        (SyncFilter_new c (channel_digests (store n) c)) (filter_answer n c)
  end.

Lemma handle_sync_request_follows n l p :
  fol n (handle_sync_request (up n) l p) (handle_sync_request n l p).
Proof.
  cbv beta delta [handle_sync_request]. follow_step; [|by apply follows_same..].
  follow_filter (sf_channel a). follow.
  lazymatch goal with
  | |- fol ?m _ _ =>
      follow_ask (message_by_digest (store (up m)) x0) (message_by_digest (store m) x0)
        (map_by_digest (h:=h) (store m) x0)
  end. follow.
Qed.

Lemma send_sync_requests_follows n l :
  fol n (send_sync_requests (up n) l) (send_sync_requests n l).
Proof.
  cbv beta delta [send_sync_requests]. follow_step; [by apply follows_same|].
  follow_filter x. unfold send_on_link. follow.
Qed.
#[local] Hint Resolve handle_sync_request_follows send_sync_requests_follows : follow.

Lemma maybe_relay_follows n l p : fol n (maybe_relay (up n) l p) (maybe_relay n l p).
Proof. cbv beta delta [maybe_relay]. follow. Qed.

Lemma dispatch_follows n l p : fol n (dispatch (up n) l p) (dispatch n l p).
Proof. cbv beta delta [dispatch]. follow. Qed.
#[local] Hint Resolve maybe_relay_follows dispatch_follows : follow.

Lemma on_packet_follows n l p : fol n (on_packet (up n) l p) (on_packet n l p).
Proof. cbv beta delta [on_packet]. follow. Qed.
#[local] Hint Resolve on_packet_follows : follow.

Lemma on_frame_follows n l f : fol n (on_frame (up n) l f) (on_frame n l f).
Proof. cbv beta delta [on_frame]. follow. Qed.
#[local] Hint Resolve on_frame_follows : follow.

(** ** Events, ticks, commands *)

Lemma on_transport_event_follows n ev :
  fol n (on_transport_event (up n) ev) (on_transport_event n ev).
Proof. cbv beta delta [on_transport_event]. follow. Qed.

Lemma retry_stalled_handshakes_follows n t :
  fol n (retry_stalled_handshakes (up n) t) (retry_stalled_handshakes n t).
Proof.
  cbv beta delta [retry_stalled_handshakes]. follow.
  match goal with |- fol ?m _ _ => apply (begin_handshake_follows (drop_session m _)) end.
Qed.
#[local] Hint Resolve retry_stalled_handshakes_follows : follow.

Lemma fire_follows n d :
  fol n (broadcast (set_relays_fired (up n) (wrap 64 (relays_fired (up n) + 1))) (due_packet d)
           (Some (exclude_link d)))
    (broadcast (set_relays_fired n (wrap 64 (relays_fired n + 1))) (due_packet d)
       (Some (exclude_link d))).
Proof. apply (broadcast_follows (set_relays_fired n _)). Qed.

Lemma tick_follows n : fol n (tick (up n)).2 (tick n).2.
Proof.
  unfold tick. cbv zeta. cbn [snd].
  change (due (scheduler (up n)) (now (up n)) (seen (up n))) with (due (scheduler n) (now n) (seen n)).
  set (fired := λ S (a : MeshNode (S:=S)),
    match due (scheduler n) (now n) (seen n) with
    | None => panic a
    | Some (ready, scheduler') =>
        foldl (λ a d, broadcast (set_relays_fired a (wrap 64 (relays_fired a + 1))) (due_packet d)
                        (Some (exclude_link d))) (set_scheduler a scheduler') ready
    end).
  set (rest := λ S (_ : Store S) (a : MeshNode (S:=S)),
    let a := set_seen a (Relay.evict_expired (seen a) (now n)).2 in
    let a := set_reassembler a (Frag.evict_expired (reassembler a) (now n)).2 in
    retry_stalled_handshakes a (now n)).
  refine (follows_let n (fired T (up n)) (fired P n) (rest T StT) (rest P StP) _ _).
  - unfold fired. follow. apply fire_follows.
  - intros m. exact (retry_stalled_handshakes_follows (set_reassembler (set_seen m _) _) (now n)).
Qed.

(** Every operation, and so every run, is the same through the map. *)
Lemma node_step_follows n o : fol n (node_step (up n) o) (node_step n o).
Proof.
  destruct o; cbn [node_step].
  - apply on_transport_event_follows.
  - apply tick_follows.
  - by apply follows_same.
  - by apply follows_same.
  - by apply follows_same.
  - by apply follows_same.
  - apply send_channel_message_follows.
  - apply announce_follows.
  - apply send_dm_follows.
  - apply start_dm_session_follows.
  - apply verify_peer_follows.
  - apply unverify_peer_follows.
  - apply forget_peer_follows.
  - apply set_petname_follows.
  - apply panic_wipe_follows.
Qed.

Lemma node_run_follows n ops : fol n (node_run (up n) ops) (node_run n ops).
Proof. apply (follows_foldl (λ a, node_step a) (λ a, node_step a)), node_step_follows. Qed.
End lifting.

(** ** A store that keeps a journal *)

(** The operations a node has issued, and the in-memory store they started from, which answers. *)
Record Journal := mkJournal {
  jr_start : MemoryStore;
  jr_ops : list store_op;
}.

Definition note (j : Journal) (o : store_op) : Journal :=
  {| jr_start := jr_start j; jr_ops := jr_ops j ++ [o] |}.
Definition replayed (j : Journal) : MemoryStore := foldl store_step (jr_start j) (jr_ops j).

Section journal.
Context `{HashIter}.

#[export] Instance Journal_store : Store Journal := {
  put_channel_message j m := note j (OpMessage m);
  has_message j := has_message (replayed j);
  channel_history j := channel_history (replayed j);
  channel_digests j := channel_digests (replayed j);
  message_by_digest j := message_by_digest (replayed j);
  upsert_peer j p := note j (OpPeer p);
  get_peer j := get_peer (replayed j);
  list_peers j := list_peers (replayed j);
  put_dm j d := note j (OpDm d);
  dm_history j := dm_history (replayed j);
  queue_envelope j fp b t := note j (OpQueue fp b t);
  take_envelopes j fp := ((take_envelopes (replayed j) fp).1, note j (OpTake fp));
  delete_peer j fp := note j (OpDeletePeer fp);
  delete_dms j fp b := note j (OpDeleteDms fp b);
  store_panic_wipe j := note j OpWipe;
}.

Lemma replayed_note j o : replayed (note j o) = store_step (replayed j) o.
Proof. unfold replayed. cbn [note jr_start jr_ops]. by rewrite foldl_app. Qed.

(** The journal stands for the in-memory store it replays to. *)
#[export] Instance replayed_map : StoreMap replayed (λ _, True).
Proof. split; intros; try done; (split; [done|]); symmetry; apply replayed_note. Qed.

Lemma run_ok_snoc m ops o : run_ok m (ops ++ [o]) ↔ run_ok m ops ∧ op_ok (foldl store_step m ops) o.
Proof.
  revert m. induction ops as [|o' ops IH]; intros m; cbn [app run_ok foldl]; [tauto|].
  rewrite IH. tauto.
Qed.

(** A journal keeps its start. *)
Lemma started_map m : StoreMap (T:=Journal) id (λ j, jr_start j = m).
Proof. by split; intros. Qed.

(** It also stands for the database that the same operations lead to. *)
Context `{SqlEngine, !SqlEngineLaws, !SqlReads, !SqlWrites, !HashIterLaws} (s0 : SqliteStore) (m0 : MemoryStore).
Context (Hrefines : refines s0 m0).

Definition in_database (j : Journal) : SqliteStore := foldl do_op s0 (jr_ops j).
Definition journal_ok (j : Journal) : Prop := jr_start j = m0 ∧ run_ok m0 (jr_ops j).

Lemma journal_refines j : journal_ok j → refines (in_database j) (replayed j).
Proof. intros [E Hok]. unfold replayed. rewrite E. by apply refines_run. Qed.

Lemma journal_note j o :
  journal_ok (note j o) → journal_ok j ∧ do_op (in_database j) o = in_database (note j o).
Proof.
  unfold journal_ok, in_database. cbn [note jr_ops jr_start]. rewrite run_ok_snoc, foldl_app.
  intros (E & Hok & _). done.
Qed.

#[local] Instance in_database_map : StoreMap in_database journal_ok.
Proof.
  split.
  - exact (λ j m, journal_note j (OpMessage m)).
  - exact (λ j r, journal_note j (OpPeer r)).
  - exact (λ j d, journal_note j (OpDm d)).
  - exact (λ j fp b t, journal_note j (OpQueue fp b t)).
  - exact (λ j fp, journal_note j (OpDeletePeer fp)).
  - exact (λ j fp b, journal_note j (OpDeleteDms fp b)).
  - exact (λ j, journal_note j OpWipe).
  - exact (λ j fp, journal_note j (OpTake fp)).
  - intros j fp Hj. apply refines_taken, journal_refines, Hj.
  - intros j fp Hj. apply refines_get_peer, journal_refines, Hj.
  - intros j d Hj. apply refines_message, journal_refines, Hj.
  - intros j c Hj. apply channel_digests_perm, journal_refines, Hj.
Qed.
End journal.

(** ** The two stores behind a node *)

(** A node without its store. *)
Definition storeless `{Sha256, Ed25519, X25519, Snow, Lz4, Rand, HashIter, UnicodeCase}
    {S : Type} (n : MeshNode (S:=S)) : MeshNode (S:=unit) := lift (λ _, tt) n.

Section behind.
Context `{Sha256, Ed25519, X25519, Snow, Lz4, Rand, HashIter, UnicodeCase, !HashIterLaws}.
Context `{SqlEngine, !SqlEngineLaws, !SqlReads, !SqlWrites}.

(** What a node asks of its store over a run, as a list of operations. *)
Definition store_ops i cfg t (m0 : MemoryStore) nick seed (ops : list node_op) : list store_op :=
  jr_ops (store (node_run (MeshNode_new i cfg t (mkJournal m0 []) nick seed) ops)).

(** C11: it cannot be told from what a node does which store is behind it. A node over the encrypted
    database and a node over memory that start alike - with stores that hold the same, both empty
    or after a restart - and are asked the same things make the same calls on the transport and
    show the same events; their sessions, caches, schedules, random numbers and every other field
    stay the same, and the stores still hold the same at the end. It needs no statement to fail,
    and of the operations the node issues on its store what the refinement of the stores needs:
    times below 2^63 and messages with digests and timestamps of their own. *)
Theorem stores_indistinguishable i cfg t nick seed (s0 : SqliteStore) (m0 : MemoryStore) ops :
  refines s0 m0 → run_ok m0 (store_ops i cfg t m0 nick seed ops) →
  let ns := node_run (MeshNode_new i cfg t s0 nick seed) ops in
  let nm := node_run (MeshNode_new i cfg t m0 nick seed) ops in
  storeless ns = storeless nm ∧ sent ns = sent nm ∧ events ns = events nm
  ∧ refines (store ns) (store nm).
Proof.
  intros Hr Hok ns nm. set (n0 := MeshNode_new i cfg t (mkJournal m0 []) nick seed).
  set (nj := node_run n0 ops).
  assert (nm = lift replayed nj) as Em
    by exact (proj2 (node_run_follows replayed (λ _, True) n0 ops I)).
  assert (journal_ok m0 (store nj)) as Hj.
  { split; [|exact Hok]. pose proof (started_map (jr_start (store nj))) as Hm.
    symmetry. exact (proj1 (node_run_follows id _ n0 ops eq_refl)). }
  pose proof (in_database_map s0 m0 Hr) as Hmap.
  assert (ns = lift (in_database s0) nj) as Es
    by exact (proj2 (node_run_follows (in_database s0) (journal_ok m0) n0 ops Hj)).
  rewrite Es, Em. split; [done|]. split; [done|]. split; [done|].
  exact (journal_refines s0 m0 Hr (store nj) Hj).
Qed.
End behind.

(** ** Witnesses *)

(** Alice meets Bob, writes to him and to a channel, and verifies him. *)
Definition busy_ops : list node_op := Eval vm_compute in
  alice_talks ++ [OpSendChannel DEFAULT_CHANNEL hello; OpVerify bob_fp; OpTick].
Definition busy_memory : MemoryStore := MemoryStore_new 1000 21600000 86400000 100.
Definition busy_database : SqliteStore :=
  made (replicate 32 Byte.x07) 1000 21600000 86400000 100.
Definition busy_node {S} (s : S) : MeshNode (S:=S) :=
  MeshNode_new (from_seed (replicate 32 Byte.x61)) Tunables_default 1000 s [Byte.x61] 7.
Definition busy_journal : list store_op := Eval vm_compute in
  store_ops (from_seed (replicate 32 Byte.x61)) Tunables_default 1000 busy_memory [Byte.x61] 7 busy_ops.

Lemma busy_journal_eq :
  store_ops (from_seed (replicate 32 Byte.x61)) Tunables_default 1000 busy_memory [Byte.x61] 7 busy_ops
  = busy_journal.
Proof. by vm_compute. Qed.

Lemma busy_journal_ok : run_ok busy_memory busy_journal.
Proof.
  assert (∀ x (l : gset bytes), bool_decide (x ∈ l) = false → x ∉ l) as Hout
    by (intros x l E; by apply bool_decide_eq_false in E).
  unfold busy_journal, run_ok, op_ok.
  repeat split; try done; try (apply Hout; by vm_compute);
    (refine (proj1 (Forall_forall (λ y, _) _) _); by repeat constructor).
Qed.

Lemma busy_refines : refines busy_database busy_memory.
Proof. by apply (refines_open [] (replicate 32 Byte.x07)); [vm_compute|..]. Qed.

Lemma stores_indistinguishable_witness :
  let ns := node_run (busy_node busy_database) busy_ops in
  let nm := node_run (busy_node busy_memory) busy_ops in
  length busy_journal = 7%nat
  ∧ storeless ns = storeless nm ∧ sent ns = sent nm ∧ events ns = events nm
  ∧ refines (store ns) (store nm).
Proof.
  split; [reflexivity|]. apply (stores_indistinguishable _ _ _ _ _ _ _ _ busy_refines).
  rewrite busy_journal_eq. exact busy_journal_ok.
Defined.
