(* ===== verification/Ffi.v ===== *)
(** * Ffi: the surface the platforms call ([meshcore-ffi/src/lib.rs])

    [FfiMeshNode] is a node behind a mutex. Every exported method is a definition that takes the
    wall clock's reading and gives the value returned, or [Panic], and the new state: a panic
    while the lock is held poisons it, and a poisoned lock makes every later call panic. *)
From stdpp Require Import strings gmap.
From S2P Require Import Prelude Errors F64 Utf8 Clock External Transport Wire Config Frag.
From S2P Require Import Compress Relay Channels Store Sqlite Identity Noise Payloads Node.

(** ** Hexadecimal *)

Definition hex (l : bytes) : rstring :=
  concat (map (λ b, [hex_digit (b2z b / 16); hex_digit (b2z b mod 16)]) l).

(** [str::is_char_boundary]. *)
Definition is_char_boundary (s : rstring) (i : Z) : bool :=
  if (i =? 0) || (i =? zlen s) then true
  else match index i s with Some b => negb (is_cont b) | None => false end.

(** [&s[a..b]] on a string panics off a character boundary. *)
Definition str_slice (s : rstring) (a b : Z) : option rstring :=
  if is_char_boundary s a && is_char_boundary s b then slice a b s else None.

(** The loop over the bytes of the array, from the [i]-th, [n] of them left. *)
Fixpoint decode_hex_from (n : nat) (i : Z) (s : rstring) : outcome Empty_set (option bytes) :=
  match n with
  | O => Ok (Some [])
  | S k =>
      let* chunk := expect (str_slice s (i * 2) (i * 2 + 2)) in
      match from_str_radix 16 8 chunk with
      | None => Ok None
      | Some z =>
          let* rest := decode_hex_from k (i + 1) s in
          Ok (match rest with Some l => Some (z2b z :: l) | None => None end)
      end
  end.

Definition decode_hex32 (s : rstring) : outcome Empty_set (option bytes) :=
  if zlen s =? 64 then decode_hex_from 32 0 s else Ok None.

(** ** The store behind the surface *)

Inductive FfiStore :=
  | Memory (s : MemoryStore)
  | Sqlite (s : SqliteStore).

Section ffi_store.
Context `{HashIter, SqlEngine}.

(** [delegate!], for a query and for an update. *)
Definition ask {A} (s : FfiStore) (f : ∀ T, Store T → T → A) : A :=
  match s with Memory s => f _ _ s | Sqlite s => f _ _ s end.
Definition update (s : FfiStore) (f : ∀ T, Store T → T → T) : FfiStore :=
  match s with Memory s => Memory (f _ _ s) | Sqlite s => Sqlite (f _ _ s) end.

#[export] Instance FfiStore_Store : Store FfiStore := {|
  put_channel_message s m := update s (λ T _ s, put_channel_message s m);
  has_message s d := ask s (λ T _ s, has_message s d);
  channel_history s c n := ask s (λ T _ s, channel_history s c n);
  channel_digests s c := ask s (λ T _ s, channel_digests s c);
  message_by_digest s d := ask s (λ T _ s, message_by_digest s d);
  upsert_peer s p := update s (λ T _ s, upsert_peer s p);
  get_peer s fp := ask s (λ T _ s, get_peer s fp);
  list_peers s := ask s (λ T _ s, list_peers s);
  put_dm s d := update s (λ T _ s, put_dm s d);
  dm_history s fp n := ask s (λ T _ s, dm_history s fp n);
  queue_envelope s fp b t := update s (λ T _ s, queue_envelope s fp b t);
  take_envelopes s fp :=
    match s with
    | Memory s => let '(l, s) := take_envelopes s fp in (l, Memory s)
    | Sqlite s => let '(l, s) := take_envelopes s fp in (l, Sqlite s)
    end;
  delete_peer s fp := update s (λ T _ s, delete_peer s fp);
  delete_dms s fp b := update s (λ T _ s, delete_dms s fp b);
  store_panic_wipe s := update s (λ T _ s, store_panic_wipe s);
|}.
End ffi_store.

(** ** What the platform sees *)

Module FfiEvent.
Inductive t :=
  | Message (channel sender body : rstring) (verified : bool) (timestamp_ms : Millis)
  | PeerAppeared (fingerprint eph : rstring) (petname : option rstring)
  | PeerLost (link : Z)
  | DirectMessage (sender text : rstring) (kind : Z)
  | PeerKeyChanged (peer : rstring)
  | DmSession (peer : rstring) (verified : bool).
End FfiEvent.

Record FfiMessage := mkFfiMessage {
  fm_sender : rstring;
  fm_body : rstring;
  fm_timestamp_ms : Millis;
  fm_mine : bool;
}.

Record FfiPeer := mkFfiPeer {
  fp_fingerprint : rstring;
  fp_petname : option rstring;
  fp_verified : bool;
}.

Record FfiDmMessage := mkFfiDmMessage {
  fd_body : rstring;
  fd_timestamp_ms : Millis;
  fd_mine : bool;
  fd_kind : Z;
}.

Definition to_ffi (e : MeshEvent) : option FfiEvent.t :=
  match e with
  | MessageReceived channel sender body timestamp_ms verified =>
      Some (FfiEvent.Message channel (hex sender) body verified timestamp_ms)
  | PeerAppeared fingerprint eph petname =>
      Some (FfiEvent.PeerAppeared (hex fingerprint) (hex eph) petname)
  | PeerLost link => Some (FfiEvent.PeerLost link)
  | DmReceived sender_fp _ text kind => Some (FfiEvent.DirectMessage (hex sender_fp) text kind)
  | PeerKeyChanged peer_fp => Some (FfiEvent.PeerKeyChanged (hex peer_fp))
  | DmSession peer_fp verified => Some (FfiEvent.DmSession (hex peer_fp) verified)
  | Stats _ _ _ => None
  end.

Definition message_to_ffi (me : EphId) (m : StoredMessage) : FfiMessage :=
  mkFfiMessage (hex (sm_sender m)) (utf8_lossy (sm_body m)) (sm_timestamp_ms m)
    (bool_decide (sm_sender m = me)).

Definition peer_to_ffi (p : PeerRecord) : FfiPeer :=
  mkFfiPeer (hex (fingerprint p)) (petname p) (verified p).

(** The kind of a stored row: a bare byte from 1 to 3 is a control row, anything else is text. *)
Definition dm_row_kind (body : bytes) : Z :=
  match body with
  | [b] => if (1 <=? b2z b) && (b2z b <=? 3) then b2z b else 0
  | _ => 0
  end.

Definition dm_to_ffi (d : StoredDm) : FfiDmMessage :=
  let kind := dm_row_kind (dm_body d) in
  mkFfiDmMessage (if kind =? 0 then utf8_lossy (dm_body d) else []) (dm_timestamp_ms d) (mine d) kind.

Section ffi.
Context `{Sha256, Ed25519, X25519, Snow, Lz4, Rand, HashIter, UnicodeCase, SqlEngine}.

#[local] Abbreviation Node := (MeshNode (S:=FfiStore)).

(** [Mutex<MeshNode<..>>]. *)
Record FfiMeshNode := mkFfi { inner : Node; poisoned : bool }.

(** ** Construction *)

Definition mem_store (cfg : Tunables) : MemoryStore :=
  MemoryStore_new (channel_history_max_msgs cfg) (channel_history_ms cfg) (envelope_ttl_ms cfg)
    (envelope_max_per_peer cfg).

Definition open_sqlite (file : option DbFile) (db_path : rstring) (db_key : bytes) (cfg : Tunables)
    : option SqliteStore :=
  if zlen db_key =? 32 then
    open file db_path db_key (channel_history_max_msgs cfg) (channel_history_ms cfg)
      (envelope_ttl_ms cfg) (envelope_max_per_peer cfg)
  else None.

Definition make_node (clock : Millis) (seed : Z) (nickname : rstring) (store : FfiStore)
    (cfg : Tunables) : FfiMeshNode :=
  let id_seed := le_bytes 8 seed ++ zeroes 24 in
  mkFfi (MeshNode_new (from_seed id_seed) cfg clock store nickname seed) false.

(** [FfiMeshNode::new]. *)
Definition ffi_new (clock : Millis) (seed : Z) (nickname : rstring) : FfiMeshNode :=
  let cfg := Tunables_default in
  make_node clock seed nickname (Memory (mem_store cfg)) cfg.

(** The file system is what is found at [db_path]. *)
Definition new_persistent (clock : Millis) (seed : Z) (nickname : rstring) (file : option DbFile)
    (db_path : rstring) (db_key : bytes) : FfiMeshNode :=
  let cfg := Tunables_default in
  let store := match open_sqlite file db_path db_key cfg with
               | Some s => Sqlite s
               | None => Memory (mem_store cfg)
               end in
  make_node clock seed nickname store cfg.

(** ** Methods *)

(** [self.inner.lock().unwrap()], the body, and the release of the lock. *)
Definition locked {A} (f : FfiMeshNode) (clock : Millis) (body : Node → A * Node)
    : outcome Empty_set A * FfiMeshNode :=
  if poisoned f then (Panic, f) else
  let '(a, n) := body (set_now (inner f) clock) in
  if panicked n then (Panic, mkFfi n true) else (Ok a, mkFfi n false).

(** [if let Some(fp) = decode_hex32(..)], and what is returned without one. *)
Definition with_fp {A} (f : FfiMeshNode) (s : rstring) (none : A)
    (body : Fingerprint → outcome Empty_set A * FfiMeshNode) : outcome Empty_set A * FfiMeshNode :=
  match decode_hex32 s with
  | Ok (Some fp) => body fp
  | Ok None => (Ok none, f)
  | Err e => (Err e, f)
  | Panic => (Panic, f)
  end.

Definition ffi_eph_id f clock := locked f clock (λ n, (hex (node_eph_id n), n)).
Definition ffi_join_channel f clock name := locked f clock (λ n, (tt, join_channel n name)).
Definition ffi_channel_history f clock channel limit :=
  locked f clock (λ n,
    (map (message_to_ffi (node_eph_id n)) (channel_history (store n) channel limit), n)).
Definition ffi_list_peers f clock :=
  locked f clock (λ n, (map peer_to_ffi (list_peers (store n)), n)).
Definition ffi_dm_history f clock peer_fingerprint limit :=
  with_fp f peer_fingerprint [] (λ fp,
    locked f clock (λ n, (map dm_to_ffi (dm_history (store n) fp limit), n))).
Definition ffi_announce f clock := locked f clock (λ n, (tt, announce n)).
Definition ffi_send_channel_message f clock channel text :=
  locked f clock (λ n, let '(d, n) := send_channel_message n channel text in (hex d, n)).
Definition ffi_send_dm f clock peer_fingerprint text :=
  with_fp f peer_fingerprint tt (λ fp, locked f clock (λ n, (tt, send_dm n fp text))).
Definition ffi_my_fingerprint f clock := locked f clock (λ n, (hex (node_fingerprint n), n)).
Definition ffi_verify_peer f clock peer_fingerprint :=
  with_fp f peer_fingerprint tt (λ fp, locked f clock (λ n, (tt, verify_peer n fp))).
Definition ffi_unverify_peer f clock peer_fingerprint :=
  with_fp f peer_fingerprint tt (λ fp, locked f clock (λ n, (tt, unverify_peer n fp))).
Definition ffi_forget_peer f clock peer_fingerprint :=
  with_fp f peer_fingerprint tt (λ fp, locked f clock (λ n, (tt, forget_peer n fp))).
Definition ffi_start_dm_session f clock peer_fingerprint :=
  with_fp f peer_fingerprint tt (λ fp, locked f clock (λ n, (tt, start_dm_session n fp))).
Definition ffi_set_petname f clock peer_fingerprint name :=
  with_fp f peer_fingerprint tt (λ fp, locked f clock (λ n, (tt, set_petname n fp name))).
Definition ffi_peer_verified f clock peer_fingerprint :=
  with_fp f peer_fingerprint false (λ fp, locked f clock (λ n, (peer_verified n fp, n))).
Definition ffi_peer_petname f clock peer_fingerprint :=
  with_fp f peer_fingerprint None (λ fp, locked f clock (λ n, (peer_petname n fp, n))).
Definition ffi_link_up f clock link mtu :=
  locked f clock (λ n, (tt, on_transport_event n (LinkUp link mtu None))).
Definition ffi_link_down f clock link :=
  locked f clock (λ n, (tt, on_transport_event n (LinkDown link))).
Definition ffi_receive_frame f clock link frame :=
  locked f clock (λ n, (tt, on_transport_event n (FrameReceived link frame))).
Definition ffi_tick f clock := locked f clock tick.
Definition ffi_poll_events f clock :=
  locked f clock (λ n, let '(es, n) := take_events n in (omap to_ffi es, n)).
Definition ffi_panic_wipe f clock := locked f clock (λ n, (tt, panic_wipe n)).
End ffi.
