(* ===== verification/FfiProps.v ===== *)
(** * FfiProps: what the platforms can rely on

    The hexadecimal forms, the absence of panics behind the mutex, the events handed over, and
    what a restart keeps. *)
From stdpp Require Import strings gmap.
From S2P Require Import Prelude Errors F64 Utf8 Clock External Toy Transport Wire Config Frag.
From S2P Require Import Compress Relay Channels Store Sqlite SqlTables SqliteProps SqliteReopen.
From S2P Require Import Identity Noise Payloads Node NodeFrame NodeInvariants Ffi.

(** ** Hexadecimal *)

Lemma hex_same l : Ffi.hex l = Sqlite.hex l.
Proof. done. Qed.

Definition hex_pair (b : byte) : bytes := [hex_digit (b2z b / 16); hex_digit (b2z b mod 16)].

Lemma hex_pair_parse b :
  from_str_radix 16 8 (hex_pair b) = Some (b2z b) ∧ forallb (λ c, negb (is_cont c)) (hex_pair b) = true.
Proof. destruct b; split; reflexivity. Qed.

Lemma hex_cons b l : Ffi.hex (b :: l) = hex_pair b ++ Ffi.hex l.
Proof. done. Qed.

Lemma zlen_hex l : zlen (Ffi.hex l) = 2 * zlen l.
Proof. unfold zlen. rewrite hex_same, length_hex. lia. Qed.

(** A string without continuation bytes can be cut anywhere. *)
Lemma str_slice_single s a b :
  forallb (λ c, negb (is_cont c)) s = true → 0 <= a <= b → b <= zlen s →
  str_slice s a b = slice a b s.
Proof.
  intros Hs Hab Hb. unfold str_slice.
  assert (∀ i, 0 <= i <= zlen s → is_char_boundary s i = true) as Hc; [|by rewrite !Hc by lia].
  intros i Hi. unfold is_char_boundary. destruct (_ || _) eqn:E; [done|].
  destruct (index_in_range i s) as [c Ec]; [lia|]. rewrite Ec.
  rewrite forallb_forall in Hs. apply Hs.
  unfold index in Ec. destruct (0 <=? i); [|done].
  apply list_elem_of_In. by eapply list_elem_of_lookup_2.
Qed.

Lemma decode_hex_from_hex l : ∀ i pre,
  zlen pre = i * 2 → 0 <= i → forallb (λ c, negb (is_cont c)) pre = true →
  decode_hex_from (length l) i (pre ++ Ffi.hex l) = Ok (Some l).
Proof.
  induction l as [|b l IH]; intros i pre Hpre Hi Hp; [done|]. cbn [length decode_hex_from].
  assert (forallb (λ c, negb (is_cont c)) (Ffi.hex l) = true) as Hl.
  { clear. induction l as [|b l IH]; [done|]. rewrite hex_cons, forallb_app, IH.
    by rewrite (proj2 (hex_pair_parse b)). }
  rewrite hex_cons, str_slice_single.
  - rewrite (slice_app (i * 2) (i * 2 + 2) pre (hex_pair b)) by (done || (rewrite Hpre; done)).
    cbn [expect obind]. rewrite (proj1 (hex_pair_parse b)), app_assoc.
    rewrite IH; [cbn; by rewrite z2b_b2z| |lia|].
    + rewrite zlen_app, Hpre. change (zlen (hex_pair b)) with 2. lia.
    + rewrite forallb_app, Hp. apply hex_pair_parse.
  - rewrite !forallb_app, Hp, Hl. by rewrite (proj2 (hex_pair_parse b)).
  - lia.
  - rewrite !zlen_app. change (zlen (hex_pair b)) with 2. pose proof (zlen_nonneg (Ffi.hex l)). lia.
Qed.

Lemma decode_hex_from_length n i s l : decode_hex_from n i s = Ok (Some l) → length l = n.
Proof.
  revert i l. induction n as [|n IH]; intros i l; cbn [decode_hex_from]; [by intros [= <-]|].
  destruct (expect _) as [c|[]|]; cbn [obind]; [|done].
  destruct (from_str_radix 16 8 c); [|done].
  destruct (decode_hex_from n (i + 1) s) as [[r|]|[]|] eqn:E; cbn [obind]; try done.
  intros [= <-]. cbn. f_equal. by eapply IH.
Qed.

(** Of ASCII strings none makes the decoder panic. *)
Lemma decode_hex_from_ascii n i s :
  forallb (λ c, negb (is_cont c)) s = true → 0 <= i → i * 2 + 2 * Z.of_nat n <= zlen s →
  ∃ r, decode_hex_from n i s = Ok r.
Proof.
  revert i. induction n as [|n IH]; intros i Hs Hi Hn; cbn [decode_hex_from]; [by eexists|].
  rewrite str_slice_single by (done || lia).
  destruct (expect_slice (E:=Empty_set) (i * 2) (i * 2 + 2) s) as (c & -> & _); [lia..|].
  cbn [obind]. destruct (from_str_radix 16 8 c); [|by eexists].
  destruct (IH (i + 1) Hs) as [r ->]; [lia..|]. cbn [obind]. by eexists.
Qed.

Definition ascii (s : rstring) : Prop := Forall (λ b, b2z b < 128) s.

Lemma ascii_no_cont s : ascii s → forallb (λ c, negb (is_cont c)) s = true.
Proof.
  intros Hs. apply forallb_forall. intros b Hb. apply list_elem_of_In in Hb.
  unfold ascii in Hs. rewrite Forall_forall in Hs. specialize (Hs b Hb). cbn in Hs.
  unfold is_cont. apply negb_true_iff, Z.eqb_neq. intros E.
  assert (Z.testbit (b2z b) 7 = true) as Ht.
  { assert (Z.testbit (Z.land (b2z b) 192) 7 = true) as Ht by by rewrite E.
    rewrite Z.land_spec in Ht. by apply andb_true_iff in Ht as [? _]. }
  pose proof (b2z_range b). apply Z.testbit_true in Ht; [|lia]. rewrite Z.div_small in Ht by lia. done.
Qed.

Lemma decode_hex32_ascii s : ascii s → ∃ r, decode_hex32 s = Ok r.
Proof.
  intros Hs. unfold decode_hex32. destruct (zlen s =? 64) eqn:E; [|by eexists].
  apply decode_hex_from_ascii; [by apply ascii_no_cont|lia|lia].
Qed.

Lemma decode_hex32_hex fp : length fp = 32%nat → decode_hex32 (Ffi.hex fp) = Ok (Some fp).
Proof.
  intros Hl. unfold decode_hex32. rewrite zlen_hex. unfold zlen. rewrite Hl.
  change (2 * Z.of_nat 32 =? 64) with true. rewrite <- Hl.
  by apply (decode_hex_from_hex fp 0 []).
Qed.

Lemma decode_hex32_length s fp : decode_hex32 s = Ok (Some fp) → length fp = 32%nat.
Proof. unfold decode_hex32. case_match; [|done]. apply decode_hex_from_length. Qed.

(** Fingerprints cross the surface unharmed: what [hex] prints is read back as the same 32
    bytes; different byte strings print differently; whatever is accepted has 32 bytes; a string of
    any other length than 64 bytes is refused; and no ASCII string makes the decoder panic. *)
Theorem fingerprint_roundtrip :
  (∀ fp, length fp = 32%nat → decode_hex32 (Ffi.hex fp) = Ok (Some fp))
  ∧ (∀ l1 l2, Ffi.hex l1 = Ffi.hex l2 → l1 = l2)
  ∧ (∀ s fp, decode_hex32 s = Ok (Some fp) → length fp = 32%nat)
  ∧ (∀ s, zlen s ≠ 64 → decode_hex32 s = Ok None)
  ∧ (∀ s, ascii s → decode_hex32 s ≠ Panic).
Proof.
  split_and!.
  - apply decode_hex32_hex.
  - intros l1 l2. rewrite !hex_same. apply hex_inj.
  - apply decode_hex32_length.
  - intros s Hs. unfold decode_hex32. by rewrite (proj2 (Z.eqb_neq _ _)).
  - intros s [r ->]%decode_hex32_ascii. done.
Qed.

(** What else the decoder does: a sign is taken for a digit, and a character that straddles a pair
    of bytes makes it panic. *)
Example decode_hex32_oddities :
  decode_hex32 (concat (replicate 32 [Byte.x2b; Byte.x66])) = Ok (Some (replicate 32 Byte.x0f))
  ∧ utf8_valid (Byte.x61 :: concat (replicate 31 [Byte.xc3; Byte.xa9]) ++ [Byte.x61]) = true
  ∧ decode_hex32 (Byte.x61 :: concat (replicate 31 [Byte.xc3; Byte.xa9]) ++ [Byte.x61]) = Panic.
Proof. by vm_compute. Qed.

(** ** Runs *)

(** Every exported method, with its arguments. *)
Inductive ffi_call :=
  | CallEphId
  | CallMyFingerprint
  | CallJoin (name : rstring)
  | CallChannelHistory (channel : rstring) (limit : Z)
  | CallListPeers
  | CallDmHistory (peer : rstring) (limit : Z)
  | CallAnnounce
  | CallSendChannel (channel text : rstring)
  | CallSendDm (peer text : rstring)
  | CallVerify (peer : rstring)
  | CallUnverify (peer : rstring)
  | CallForget (peer : rstring)
  | CallStartSession (peer : rstring)
  | CallSetPetname (peer name : rstring)
  | CallPeerVerified (peer : rstring)
  | CallPeerPetname (peer : rstring)
  | CallLinkUp (link mtu : Z)
  | CallLinkDown (link : Z)
  | CallReceiveFrame (link : Z) (frame : bytes)
  | CallTick
  | CallPollEvents
  | CallPanicWipe.

(** The fingerprint a call is given, if it takes one. *)
Definition call_fp (c : ffi_call) : option rstring :=
  match c with
  | CallDmHistory s _ | CallSendDm s _ | CallVerify s | CallUnverify s | CallForget s
  | CallStartSession s | CallSetPetname s _ | CallPeerVerified s | CallPeerPetname s => Some s
  | _ => None
  end.

Section ffi.
Context `{Sha256, Ed25519, X25519, Snow, Lz4, Rand, HashIter, UnicodeCase, SqlEngine}.
Context `{!SnowLaws}.
#[local] Abbreviation Node := (MeshNode (S:=FfiStore)).

(** Whether the call panicked, and the state it leaves. *)
Definition did {A} (r : outcome Empty_set A * FfiMeshNode) : bool * FfiMeshNode :=
  (negb (is_ok r.1), r.2).

Definition ffi_do (f : FfiMeshNode) (clock : Millis) (c : ffi_call) : bool * FfiMeshNode :=
  match c with
  | CallEphId => did (ffi_eph_id f clock)
  | CallMyFingerprint => did (ffi_my_fingerprint f clock)
  | CallJoin name => did (ffi_join_channel f clock name)
  | CallChannelHistory channel limit => did (ffi_channel_history f clock channel limit)
  | CallListPeers => did (ffi_list_peers f clock)
  | CallDmHistory peer limit => did (ffi_dm_history f clock peer limit)
  | CallAnnounce => did (ffi_announce f clock)
  | CallSendChannel channel text => did (ffi_send_channel_message f clock channel text)
  | CallSendDm peer text => did (ffi_send_dm f clock peer text)
  | CallVerify peer => did (ffi_verify_peer f clock peer)
  | CallUnverify peer => did (ffi_unverify_peer f clock peer)
  | CallForget peer => did (ffi_forget_peer f clock peer)
  | CallStartSession peer => did (ffi_start_dm_session f clock peer)
  | CallSetPetname peer name => did (ffi_set_petname f clock peer name)
  | CallPeerVerified peer => did (ffi_peer_verified f clock peer)
  | CallPeerPetname peer => did (ffi_peer_petname f clock peer)
  | CallLinkUp link mtu => did (ffi_link_up f clock link mtu)
  | CallLinkDown link => did (ffi_link_down f clock link)
  | CallReceiveFrame link frame => did (ffi_receive_frame f clock link frame)
  | CallTick => did (ffi_tick f clock)
  | CallPollEvents => did (ffi_poll_events f clock)
  | CallPanicWipe => did (ffi_panic_wipe f clock)
  end.

Definition ffi_run (f : FfiMeshNode) (calls : list (Millis * ffi_call)) : FfiMeshNode :=
  foldl (λ f c, (ffi_do f c.1 c.2).2) f calls.

(** A node fresh from one of the constructors. *)
Definition fresh_ffi (f : FfiMeshNode) : Prop :=
  ∃ clock seed nick store, f = make_node clock seed nick store Tunables_default.

Lemma ffi_new_fresh clock seed nick : fresh_ffi (ffi_new clock seed nick).
Proof. by eexists _, _, _, _. Qed.

Lemma new_persistent_fresh clock seed nick file path key :
  fresh_ffi (new_persistent clock seed nick file path key).
Proof. by eexists _, _, _, _. Qed.

(** The node inside has only ever been through operations of the core. *)
Definition reached (f : FfiMeshNode) : Prop :=
  poisoned f = false ∧
  ∃ identity clock (s : FfiStore) nick seed ops,
    inner f = node_run (MeshNode_new identity Tunables_default clock s nick seed) ops.

Lemma fresh_reached f : fresh_ffi f → reached f.
Proof. intros (c & seed & nick & s & ->). split; [done|]. by eexists _, c, s, nick, seed, []. Qed.

Lemma reached_sound f : reached f → sound (inner f).
Proof. intros (_ & i & c & s & n & sd & ops & ->). apply node_run_sound. Qed.

(** Reading the clock is the passage of time, forwards or backwards. *)
Lemma set_now_op (n : Node) clock :
  in_width 64 clock → set_now n clock = node_step n (OpClock (clock - now n)).
Proof.
  intros Hc. cbn. f_equal. unfold sat_add. unfold in_width in Hc. lia.
Qed.

(** What a call does to the node inside is a sequence of operations of the core. *)
Definition stepped (f f' : FfiMeshNode) : Prop := ∃ ops, inner f' = node_run (inner f) ops.

(** A body made of operations leaves the lock unpoisoned. *)
Lemma locked_reached {A} f clock (body : Node → A * Node) ops :
  reached f → in_width 64 clock → (∀ n, (body n).2 = node_run n ops) →
  is_ok (locked f clock body).1 = true ∧ reached (locked f clock body).2
  ∧ stepped f (locked f clock body).2.
Proof.
  intros (Hp & i & c & s & nk & sd & ops0 & En) Hc Hb. unfold locked. rewrite Hp.
  specialize (Hb (set_now (inner f) clock)). destruct (body _) as [a n] eqn:E. cbn in Hb.
  rewrite set_now_op in Hb by done.
  assert (stepped f (mkFfi n false)) as Hst by by exists (OpClock (clock - now (inner f)) :: ops).
  rewrite En in Hb.
  assert (n = node_run (MeshNode_new i Tunables_default c s nk sd)
    (ops0 ++ OpClock (clock - now (inner f)) :: ops)) as En'.
  { rewrite Hb, En. unfold node_run. by rewrite foldl_app. }
  pose proof (node_run_alive i Tunables_default c s nk sd
    (ops0 ++ OpClock (clock - now (inner f)) :: ops)) as Ha.
  rewrite <- En' in Ha. unfold alive in Ha. rewrite Ha. split; [done|]. split; [|done].
  split; [done|]. by eexists i, c, s, nk, sd, _.
Qed.

(** A call either fails on its fingerprint, without a change, or does its work. *)
Definition outcome_of {A} (f : FfiMeshNode) (s : option rstring)
    (r : outcome Empty_set A * FfiMeshNode) : Prop :=
  (is_ok r.1 = false ↔ ∃ s', s = Some s' ∧ decode_hex32 s' = Panic) ∧ reached r.2
  ∧ (is_ok r.1 = false → r.2 = f)
  ∧ (∀ s', s = Some s' → decode_hex32 s' = Ok None → r.2 = f) ∧ stepped f r.2.

Lemma locked_outcome {A} f clock (body : Node → A * Node) ops :
  reached f → in_width 64 clock → (∀ n, (body n).2 = node_run n ops) →
  outcome_of f None (locked f clock body).
Proof.
  intros Hf Hc Hb. destruct (locked_reached f clock body ops Hf Hc Hb) as (H1' & H2' & H3').
  split_and!; [|done|by rewrite H1'|done|done]. rewrite H1'. split; [done|]. by intros (? & ? & _).
Qed.

Lemma with_fp_outcome {A} f clock s (none : A) (body : Fingerprint → Node → A * Node) ops :
  reached f → in_width 64 clock → (∀ fp n, (body fp n).2 = node_run n (ops fp)) →
  outcome_of f (Some s) (with_fp f s none (λ fp, locked f clock (body fp))).
Proof.
  intros Hf Hc Hb. unfold with_fp, outcome_of.
  destruct (decode_hex32 s) as [[fp|]|[]|] eqn:E.
  - destruct (locked_reached f clock (body fp) (ops fp) Hf Hc (Hb fp)) as (H1' & H2' & H3').
    rewrite H1'. split_and!; [split; [done|]|done|done| |done].
    + intros (? & [= <-] & ?). congruence.
    + intros ? [= <-]. congruence.
  - split_and!; [split; [done|]|done|done|done|by exists []]. intros (? & [= <-] & ?). congruence.
  - split_and!; [split; [|done]|done|done|done|by exists []]. intros _. by exists s.
Qed.

Lemma ffi_do_outcome f clock c :
  reached f → in_width 64 clock →
  let r := ffi_do f clock c in
  (r.1 = true ↔ ∃ s, call_fp c = Some s ∧ decode_hex32 s = Panic) ∧ reached r.2
  ∧ (r.1 = true → r.2 = f)
  ∧ (∀ s, call_fp c = Some s → decode_hex32 s = Ok None → r.2 = f) ∧ stepped f r.2.
Proof.
  intros Hf Hc. cbv zeta.
  assert (∀ A (r : outcome Empty_set A * FfiMeshNode), outcome_of f (call_fp c) r →
    ((did r).1 = true ↔ ∃ s, call_fp c = Some s ∧ decode_hex32 s = Panic) ∧ reached (did r).2
    ∧ ((did r).1 = true → (did r).2 = f)
    ∧ (∀ s, call_fp c = Some s → decode_hex32 s = Ok None → (did r).2 = f)
    ∧ stepped f (did r).2) as Hdid.
  { intros A r (K1 & K2 & K3 & K4 & K5). unfold did. cbn. rewrite negb_true_iff. done. }
  destruct c; cbn [ffi_do]; apply Hdid; cbn [call_fp].
  - by apply (locked_outcome _ _ _ []).
  - by apply (locked_outcome _ _ _ []).
  - by apply (locked_outcome _ _ _ [OpJoin name]).
  - by apply (locked_outcome _ _ _ []).
  - by apply (locked_outcome _ _ _ []).
  - by apply (with_fp_outcome _ _ _ _ _ (λ _, [])).
  - by apply (locked_outcome _ _ _ [OpAnnounce]).
  - apply (locked_outcome _ _ _ [OpSendChannel channel text]); [done..|].
    intros n. cbn. by destruct (send_channel_message n channel text).
  - by apply (with_fp_outcome _ _ _ _ _ (λ fp, [OpSendDm fp text])).
  - by apply (with_fp_outcome _ _ _ _ _ (λ fp, [OpVerify fp])).
  - by apply (with_fp_outcome _ _ _ _ _ (λ fp, [OpUnverify fp])).
  - by apply (with_fp_outcome _ _ _ _ _ (λ fp, [OpForget fp])).
  - by apply (with_fp_outcome _ _ _ _ _ (λ fp, [OpStartSession fp])).
  - by apply (with_fp_outcome _ _ _ _ _ (λ fp, [OpSetPetname fp name])).
  - by apply (with_fp_outcome _ _ _ _ _ (λ _, [])).
  - by apply (with_fp_outcome _ _ _ _ _ (λ _, [])).
  - by apply (locked_outcome _ _ _ [OpEvent (LinkUp link mtu None)]).
  - by apply (locked_outcome _ _ _ [OpEvent (LinkDown link)]).
  - by apply (locked_outcome _ _ _ [OpEvent (FrameReceived link frame)]).
  - by apply (locked_outcome _ _ _ [OpTick]).
  - by apply (locked_outcome _ _ _ [OpTakeEvents]).
  - by apply (locked_outcome _ _ _ [OpPanicWipe]).
Qed.

Lemma ffi_run_reached f calls :
  fresh_ffi f → Forall (λ c : Millis * ffi_call, in_width 64 c.1) calls → reached (ffi_run f calls).
Proof.
  intros Hf%fresh_reached Hc. revert f Hf. induction Hc as [|[clock c] calls Hc0 Hc IH]; intros f Hf; [done|].
  cbn. apply IH. by apply ffi_do_outcome.
Qed.

(** C19: no platform can bring a node down. Whatever calls are made, in whatever order, with
    whatever arguments and whatever frames arrive - the wall clock jumping back included - the lock
    is never poisoned; a call panics only when its fingerprint argument makes the decoder panic,
    which no ASCII string does, and then nothing has changed; and a call given a fingerprint that
    does not decode changes nothing. *)
Theorem ffi_never_poisoned f calls clock c :
  fresh_ffi f → Forall (λ c : Millis * ffi_call, in_width 64 c.1) calls → in_width 64 clock →
  let f1 := ffi_run f calls in
  let r := ffi_do f1 clock c in
  poisoned f1 = false ∧ poisoned r.2 = false
  ∧ (r.1 = true ↔ ∃ s, call_fp c = Some s ∧ decode_hex32 s = Panic)
  ∧ (r.1 = true → r.2 = f1)
  ∧ (∀ s, call_fp c = Some s → ascii s → r.1 = false)
  ∧ (∀ s, call_fp c = Some s → decode_hex32 s = Ok None → r.2 = f1).
Proof.
  intros Hf Hcs Hc f1 r. pose proof (ffi_run_reached f calls Hf Hcs) as Hr. fold f1 in Hr.
  destruct (ffi_do_outcome f1 clock c Hr Hc) as (K1 & K2 & K3 & K4 & _). fold r in K1, K2, K3, K4.
  split_and!; [apply Hr|apply K2|done|done| |done].
  intros s Hs [x Ex]%decode_hex32_ascii. destruct (r.1); [|done].
  destruct (proj1 K1 eq_refl) as (s' & Hs' & Hp). congruence.
Qed.

(** ** Events *)

(** How an event reads on the screen: the values it has, identities as hexadecimal text. *)
Definition reads (m : MeshEvent) (e : FfiEvent.t) : Prop :=
  match e with
  | FfiEvent.Message channel s body v t => ∃ eph, s = hex eph ∧ m = MessageReceived channel eph body t v
  | FfiEvent.PeerAppeared f s name => ∃ fp eph, f = hex fp ∧ s = hex eph ∧ m = PeerAppeared fp eph name
  | FfiEvent.PeerLost link => m = PeerLost link
  | FfiEvent.DirectMessage s text kind => ∃ fp eph, s = hex fp ∧ m = DmReceived fp eph text kind
  | FfiEvent.PeerKeyChanged s => ∃ fp, s = hex fp ∧ m = PeerKeyChanged fp
  | FfiEvent.DmSession s v => ∃ fp, s = hex fp ∧ m = DmSession fp v
  end.

Definition is_stats (m : MeshEvent) : bool := match m with Stats _ _ _ => true | _ => false end.

Lemma to_ffi_reads ms : Forall2 reads (List.filter (λ m, negb (is_stats m)) ms) (omap to_ffi ms).
Proof.
  induction ms as [|m ms IH]; [constructor|]. destruct m; cbn; try (constructor; [cbn; by eauto|exact IH]).
  exact IH.
Qed.

Lemma polled_event (ms : list MeshEvent) (e : FfiEvent.t) : e ∈ omap to_ffi ms → ∃ m, m ∈ ms ∧ reads m e.
Proof.
  intros (m & Hm & Em)%list_elem_of_omap. exists m. split; [done|].
  pose proof (to_ffi_reads [m]) as Hr. cbn [omap list_omap] in Hr. rewrite Em in Hr.
  apply Forall2_cons_inv_r in Hr as (m' & l & Hr & _ & E). cbn [List.filter] in E.
  destruct (negb (is_stats m)); [|done]. by injection E as <- _.
Qed.

Lemma poll_takes f clock :
  reached f → (ffi_poll_events f clock).1 = Ok (omap to_ffi (events (inner f)))
    ∧ events (inner (ffi_poll_events f clock).2) = [].
Proof.
  intros Hr. assert (panicked (inner f) = false) as Hal.
  { destruct Hr as (_ & i & ck & s & nk & sd & ops & ->). apply node_run_alive. }
  unfold ffi_poll_events, locked. rewrite (proj1 Hr). cbn. by rewrite Hal.
Qed.

(** C20: the user interface is told what happened, and can believe it. After any calls a poll hands
    over one event for each that is waiting, other than statistics, in their order and with their
    values, and the next poll hands over none. What it hands over is backed: for a channel message
    marked as verified there is a packet with that sender, time, channel and text whose signature
    checks under a key announced for the sender; for a direct message there is a ciphertext that
    decrypts to it in a session bound to the key announced under the fingerprint shown. And
    different identities never look the same. *)
Theorem ffi_events_genuine f calls clock :
  fresh_ffi f → Forall (λ c : Millis * ffi_call, in_width 64 c.1) calls → in_width 64 clock →
  let f1 := ffi_run f calls in
  ∃ out, (ffi_poll_events f1 clock).1 = Ok out
  ∧ Forall2 reads (List.filter (λ m, negb (is_stats m)) (events (inner f1))) out
  ∧ (ffi_poll_events (ffi_poll_events f1 clock).2 clock).1 = Ok []
  ∧ (∀ channel s body t, FfiEvent.Message channel s body true t ∈ out →
       ∃ pkt pk vk cfg, s = hex (sender pkt) ∧ eph_announced (sender pkt) pk
         ∧ vk_from_bytes pk = Some vk ∧ Wire.verify pkt vk = Ok tt ∧ timestamp_ms pkt = t
         ∧ decode_channel (payload pkt) cfg = Ok (channel, body))
  ∧ (∀ s text kind, FfiEvent.DirectMessage s text kind ∈ out →
       ∃ fp session ct pt dh, s = hex fp ∧ is_ready session = true ∧ remote_static session = Some dh
         ∧ announced fp dh ∧ (decrypt session ct).1 = Ok pt ∧ shown pt = (kind, text))
  ∧ ∀ x y, hex x = hex y → x = y.
Proof.
  intros Hf Hcs Hc f1. pose proof (ffi_run_reached f calls Hf Hcs) as Hr. fold f1 in Hr.
  clearbody f1. pose proof (so_events _ (reached_sound _ Hr)) as Hg. rewrite Forall_forall in Hg.
  destruct (poll_takes f1 clock Hr) as [E1 E2]. exists (omap to_ffi (events (inner f1))). split_and!.
  - exact E1.
  - apply to_ffi_reads.
  - destruct (poll_takes (ffi_poll_events f1 clock).2 clock) as [-> _]; [|by rewrite E2].
    apply (ffi_do_outcome f1 clock CallPollEvents Hr Hc).
  - intros channel s body t (m & Hm%Hg & eph & -> & ->)%polled_event.
    destruct Hm as (pkt & pk & vk & c & ? & ? & ? & <- & ? & ?). by exists pkt, pk, vk, c.
  - intros s text kind (m & Hm%Hg & fp & eph & -> & ->)%polled_event.
    destruct Hm as (session & ct & pt & dh & ?). by exists fp, session, ct, pt, dh.
  - intros x y. rewrite !hex_same. apply hex_inj.
Qed.
End ffi.

(** ** The store behind the surface *)

Section restart.
Context `{Sha256, Ed25519, X25519, Snow, Lz4, Rand, HashIter, UnicodeCase, SqlEngine}.
Context `{!SnowLaws, !HashIterLaws, !SqlEngineLaws, !SqlCipherLaws, !SqlReads, !SqlWrites}.
#[local] Abbreviation Node := (MeshNode (S:=FfiStore)).

#[export] Instance FfiStore_StoreLaws : StoreLaws FfiStore.
Proof.
  split; cbn.
  - intros [s|s] p fp; apply (get_upsert s).
  - intros [s|s] k fp; apply (get_delete s).
  - intros [s|s] m fp; apply (get_put_message s).
  - intros [s|s] d fp; apply (get_put_dm s).
  - intros [s|s] k b fp; apply (get_delete_dms s).
  - intros [s|s] k b t fp; apply (get_queue s).
  - intros [s|s] k fp.
    + exact (get_take s k fp).
    + pose proof (get_take s k fp) as E. cbn in E |- *. by destruct (sq_take_envelopes s k).
  - intros [s|s] fp; apply (get_wipe s).
  - intros [s|s] d m; apply (found_digest s).
  - intros [s|s] fp n; apply (history_deleted s).
  - intros [s|s] fp n d; apply (history_control s).
  - intros [s|s] fp n; apply (history_wiped s).
  - intros [s|s] d; apply (messages_wiped s).
  - intros [s|s] fp.
    + exact (envelopes_taken s fp).
    + pose proof (envelopes_taken s fp) as E. cbn in E |- *.
      destruct (sq_take_envelopes s fp) as [l s']. cbn in E |- *. by destruct (sq_take_envelopes s' fp).
  - intros [s|s] fp; [exact (envelopes_wiped s fp)|].
    pose proof (envelopes_wiped s fp) as E. cbn in E |- *. by destruct (sq_take_envelopes _ fp).
Qed.

(** No operation changes who we are, exchanges the store or changes the key of its file. *)
Definition rooted (i : LocalIdentity) (key : rstring) (n : Node) : Prop :=
  identity n = i ∧ ∃ s, store n = Sqlite s ∧ file_key (conn_file (conn s)) = key.

Lemma rooted_op i key (n : Node) o : rooted i key n → rooted i key (set_store n (do_op (store n) o)).
Proof.
  intros [Hi (s & Hs & Hk)]. split; [done|]. exists (do_op s o). rewrite do_op_key. split; [|done].
  cbn [store set_store]. rewrite Hs. destruct o; try reflexivity. cbn. by destruct (sq_take_envelopes s fp).
Qed.

Lemma rooted_frame i key L : Frame L (keeps (rooted i key)) (λ _, keeps (rooted i key)).
Proof.
  split; try apply _; try (by intros; intros []); try done.
  - intros n d. exact (rooted_op i key n (OpDm d)).
  - intros n m. exact (rooted_op i key n (OpMessage m)).
  - intros n fp b t. exact (rooted_op i key n (OpQueue fp b t)).
  - intros n fp. exact (rooted_op i key n (OpTake fp)).
  - intros n p _. exact (rooted_op i key n (OpPeer p)).
Qed.

Lemma rooted_run i key (n : Node) ops : reassembling n → rooted i key n → rooted i key (node_run n ops).
Proof.
  intros Hr Hn. apply (node_run_R (keeps (rooted i key)) (λ _, true) n ops _); [done| |by apply Forall_true|done].
  intros m o Hm _. apply (node_step_all_R (rooted_frame i key any_link)); [|apply any_op|done].
  split; try (by intros; intros []); intros k.
  - intros p. exact (rooted_op i key k (OpPeer p)).
  - intros fp. exact (rooted_op i key k (OpDeletePeer fp)).
  - intros fp b. exact (rooted_op i key k (OpDeleteDms fp b)).
  - exact (rooted_op i key k OpWipe).
Qed.

Lemma locked_value {A} f clock (g : Node → A) :
  reached f → in_width 64 clock →
  (locked f clock (λ n, (g n, n))).1 = Ok (g (set_now (inner f) clock)).
Proof.
  intros Hf Hc. destruct (locked_reached f clock (λ n, (g n, n)) [] Hf Hc) as [Hok _]; [done|].
  revert Hok. unfold locked. rewrite (proj1 Hf). by case_match.
Qed.

Lemma new_persistent_rooted clock seed nick file path key :
  is_Some (open_sqlite file path key Tunables_default) →
  rooted (from_seed (le_bytes 8 seed ++ zeroes 24)) (Sqlite.hex key)
    (inner (new_persistent clock seed nick file path key)).
Proof.
  intros [s Hs]. unfold new_persistent. rewrite Hs. split; [done|]. exists s. split; [done|].
  unfold open_sqlite in Hs. destruct (zlen key =? 32); [|done]. apply open_Some in Hs as (-> & Hu & _).
  destruct file as [f|]; [|done]. by apply sql_unlocks_iff, Hu.
Qed.

Lemma ffi_run_rooted i key f calls :
  reached f → rooted i key (inner f) → reassembling (inner f) →
  Forall (λ c : Millis * ffi_call, in_width 64 c.1) calls →
  rooted i key (inner (ffi_run f calls)).
Proof.
  intros Hf Hr Ha Hc. assert (∃ ops, inner (ffi_run f calls) = node_run (inner f) ops) as [ops ->].
  2: by apply rooted_run.
  clear Hr Ha. revert f Hf. induction Hc as [|[clock c] calls Hc0 Hc IH]; intros f Hf; [by exists []|].
  cbn in Hc0. cbn [ffi_run foldl fst snd].
  destruct (ffi_do_outcome f clock c Hf Hc0) as (_ & Hr & _ & _ & ops0 & E0).
  destruct (IH _ Hr) as [ops E].
  exists (ops0 ++ ops). unfold ffi_run in E. rewrite E, E0. unfold node_run. by rewrite foldl_app.
Qed.

(** C24: a restart loses no contact and no conversation. A node that runs on an encrypted database
    and is started again on the file that its store leaves behind, with the same key, has the same identity, the same
    verified contacts and petnames, the same threads in the same order, and every stored message;
    with any other key it starts empty, and shows nothing of what the file holds. *)
Theorem restart_keeps_conversations clock seed nick file path key calls clock' key' :
  is_Some (open_sqlite file path key Tunables_default) →
  Forall (λ c : Millis * ffi_call, in_width 64 c.1) calls → in_width 64 clock' →
  let f := ffi_run (new_persistent clock seed nick file path key) calls in
  ∃ s, store (inner f) = Sqlite s ∧
  (let f' := new_persistent clock' seed nick (Some (conn_file (conn s))) path key in
   (ffi_my_fingerprint f' clock').1 = (ffi_my_fingerprint f clock').1
   ∧ (∀ fp, (ffi_peer_verified f' clock' fp).1 = (ffi_peer_verified f clock' fp).1
            ∧ (ffi_peer_petname f' clock' fp).1 = (ffi_peer_petname f clock' fp).1)
   ∧ (∀ fp n, in_width 32 n →
        (ffi_dm_history f' clock' fp n).1 = (ffi_dm_history f clock' fp n).1)
   ∧ (∃ l l', (ffi_list_peers f' clock').1 = Ok l' ∧ (ffi_list_peers f clock').1 = Ok l ∧ l' ≡ₚ l)
   ∧ (∀ d, message_by_digest (store (inner f')) d = message_by_digest (store (inner f)) d))
  ∧ (key' ≠ key →
     store (inner (new_persistent clock' seed nick (Some (conn_file (conn s))) path key'))
     = Memory (mem_store Tunables_default)).
Proof.
  intros Hopen Hcs Hc f.
  set (f0 := new_persistent clock seed nick file path key) in f.
  assert (reached f0) as Hr0 by apply fresh_reached, new_persistent_fresh.
  assert (reached f) as Hr by (apply ffi_run_reached; [apply new_persistent_fresh|done]).
  destruct (ffi_run_rooted _ _ f0 calls Hr0 (new_persistent_rooted clock seed nick file path key Hopen))
    as [Hid (s & Hs & Hkey)]; [apply Reassembler_new_ok|done|].
  fold f in Hid, Hs. clearbody f. clear f0 Hr0 Hcs. exists s. split; [done|].
  assert (zlen key =? 32 = true) as Hlen.
  { destruct Hopen as [s0 Hs0]. unfold open_sqlite in Hs0. by destruct (zlen key =? 32). }
  split.
  - intros f'. assert (reached f') as Hr' by apply fresh_reached, new_persistent_fresh.
    assert (identity (inner f') = identity (inner f) ∧ ∃ s', store (inner f') = Sqlite s'
      ∧ conn_db (conn s') = conn_db (conn s)) as (Ei & s' & Es' & Edb).
    { unfold f', new_persistent, open_sqlite. rewrite Hlen.
      edestruct (open_writes (conn_file (conn s)) path key) as [j ->]; [by apply sql_unlocks_iff|].
      split; [by rewrite Hid|]. by eexists. }
    clearbody f'. split_and!.
    + unfold ffi_my_fingerprint. rewrite !locked_value by done.
      unfold node_fingerprint. cbn. by rewrite Ei.
    + intros fp. unfold ffi_peer_verified, ffi_peer_petname, with_fp.
      destruct (decode_hex32 fp) as [[x|]|[]|]; [|done..]. rewrite !locked_value by done.
      unfold peer_verified, peer_petname. cbn. rewrite Hs, Es'. cbn.
      assert (sq_get_peer s' x = sq_get_peer s x) as -> by (apply get_peer_same; by rewrite Edb). done.
    + intros fp n Hn. unfold ffi_dm_history, with_fp.
      destruct (decode_hex32 fp) as [[x|]|[]|]; [|done..]. rewrite !locked_value by done.
      cbn. rewrite Hs, Es'. cbn. assert (in_width 63 n) as Hn63 by (unfold in_width in *; lia).
      by rewrite !dm_history_thread, Edb by done.
    + unfold ffi_list_peers. rewrite !locked_value by done. eexists _, _. split; [done|].
      split; [done|]. apply Permutation_map. cbn. rewrite Hs, Es'. cbn. apply list_peers_same. by rewrite Edb.
    + intros d. rewrite Hs, Es'. cbn. apply message_same. by rewrite Edb.
  - intros Hne. unfold new_persistent, open_sqlite. destruct (zlen key' =? 32); [|done].
    destruct (open _ _ key' _ _ _ _) as [s'|] eqn:E; [|done]. apply open_Some in E as (_ & Hu & _).
    specialize (Hu _ eq_refl). apply sql_unlocks_iff in Hu. destruct Hne. apply SqliteProps.hex_inj. congruence.
Qed.
End restart.

(** ** Witnesses *)

Definition peer_hex : rstring := Ffi.hex (replicate 32 Byte.x08).

(** A session of calls, with a frame that means nothing and a fingerprint that is none. *)
Definition demo_calls : list (Millis * ffi_call) := [
  (1000, CallLinkUp 1 182); (1010, CallReceiveFrame 1 [Byte.x00; Byte.xff; Byte.x01]);
  (900, CallSetPetname peer_hex [Byte.x6f; Byte.x76; Byte.x69]); (1020, CallVerify peer_hex);
  (1030, CallSendDm peer_hex [Byte.x68; Byte.x69]); (1040, CallSendDm [Byte.x68] [Byte.x68]);
  (1300, CallTick)].

Definition demo_key : bytes := replicate 32 Byte.x07.
Definition demo_ffi : FfiMeshNode := new_persistent 1000 7 [Byte.x61] None [] demo_key.

Lemma demo_calls_ok : Forall (λ c : Millis * ffi_call, in_width 64 c.1) demo_calls.
Proof. by repeat constructor. Qed.

Lemma fingerprint_roundtrip_witness :
  decode_hex32 peer_hex = Ok (Some (replicate 32 Byte.x08)).
Proof. exact (proj1 fingerprint_roundtrip (replicate 32 Byte.x08) eq_refl). Defined.

Lemma ffi_never_poisoned_witness :
  let f1 := ffi_run demo_ffi demo_calls in
  let r := ffi_do f1 2000 (CallVerify peer_hex) in
  poisoned f1 = false ∧ poisoned r.2 = false
  ∧ (r.1 = true ↔ ∃ s, Some peer_hex = Some s ∧ decode_hex32 s = Panic)
  ∧ (r.1 = true → r.2 = f1)
  ∧ (∀ s, Some peer_hex = Some s → ascii s → r.1 = false)
  ∧ (∀ s, Some peer_hex = Some s → decode_hex32 s = Ok None → r.2 = f1).
Proof.
  apply (ffi_never_poisoned demo_ffi demo_calls 2000 (CallVerify peer_hex));
    [apply new_persistent_fresh|apply demo_calls_ok|done].
Defined.

(** Another phone announces itself, writes into a channel and goes out of reach. *)
Definition other_phone : FfiMeshNode := ffi_run (ffi_new 1000 9 [Byte.x62])
  [(1000, CallLinkUp 1 182); (1002, CallSendChannel DEFAULT_CHANNEL [Byte.x68; Byte.x69])].
Definition heard_calls : list (Millis * ffi_call) :=
  Eval vm_compute in ([(1000, CallLinkUp 1 182)]
    ++ map (λ f, (1100, CallReceiveFrame 1 f)) 
        (omap (λ c, match c with Send _ f => Some f | Close _ => None end) (sent (inner other_phone))) ++ [(1200, CallLinkDown 1)]).

Definition told_events : list FfiEvent.t :=
  Eval vm_compute in match (ffi_poll_events (ffi_run demo_ffi heard_calls) 2000).1 with Ok l => l | _ => [] end.

Lemma ffi_events_genuine_witness :
  let f1 := ffi_run demo_ffi heard_calls in
  ∃ out, (ffi_poll_events f1 2000).1 = Ok out ∧ length out = 3%nat
  ∧ (ffi_poll_events (ffi_poll_events f1 2000).2 2000).1 = Ok []
  ∧ ∃ s, FfiEvent.Message DEFAULT_CHANNEL s [Byte.x68; Byte.x69] true 1002 ∈ out
      ∧ ∃ pkt pk vk cfg, s = Ffi.hex (sender pkt) ∧ eph_announced (sender pkt) pk
         ∧ vk_from_bytes pk = Some vk ∧ Wire.verify pkt vk = Ok tt ∧ timestamp_ms pkt = 1002
         ∧ decode_channel (payload pkt) cfg = Ok (DEFAULT_CHANNEL, [Byte.x68; Byte.x69]).
Proof.
  intros f1. destruct (ffi_events_genuine demo_ffi heard_calls 2000)
    as (out & Hout & _ & Hnext & Hsig & _); [apply new_persistent_fresh|by repeat constructor|done|].
  fold f1 in Hout, Hnext. exists out. split; [exact Hout|].
  assert (∃ s, length out = 3%nat ∧ FfiEvent.Message DEFAULT_CHANNEL s [Byte.x68; Byte.x69] true 1002 ∈ out)
    as (s & Hl & Hs).
  { assert ((ffi_poll_events f1 2000).1 = Ok told_events) as E by (by vm_compute).
    rewrite E in Hout. injection Hout as <-. eexists. split; [reflexivity|]. right. left. }
  split; [exact Hl|]. split; [exact Hnext|]. exists s. split; [exact Hs|by apply Hsig].
Defined.

Lemma restart_keeps_conversations_witness :
  let f := ffi_run demo_ffi demo_calls in
  ∃ s, store (inner f) = Sqlite s ∧
  (let f' := new_persistent 5000 7 [Byte.x61] (Some (conn_file (conn s))) [] demo_key in
   (ffi_my_fingerprint f' 5000).1 = (ffi_my_fingerprint f 5000).1
   ∧ (∀ fp, (ffi_peer_verified f' 5000 fp).1 = (ffi_peer_verified f 5000 fp).1
            ∧ (ffi_peer_petname f' 5000 fp).1 = (ffi_peer_petname f 5000 fp).1)
   ∧ (∀ fp n, in_width 32 n → (ffi_dm_history f' 5000 fp n).1 = (ffi_dm_history f 5000 fp n).1)
   ∧ (∃ l l', (ffi_list_peers f' 5000).1 = Ok l' ∧ (ffi_list_peers f 5000).1 = Ok l ∧ l' ≡ₚ l)
   ∧ (∀ d, message_by_digest (store (inner f')) d = message_by_digest (store (inner f)) d))
  ∧ (zeroes 32 ≠ demo_key →
     store (inner (new_persistent 5000 7 [Byte.x61] (Some (conn_file (conn s))) [] (zeroes 32)))
     = Memory (mem_store Tunables_default)).
Proof.
  apply (restart_keeps_conversations 1000 7 [Byte.x61] None [] demo_key demo_calls 5000 (zeroes 32));
    [|apply demo_calls_ok|done].
  exists (made (replicate 32 Byte.x07) 1000 21600000 86400000 100). by vm_compute.
Defined.

(** The thread after those calls: the petname is set, the mark too, and the text is there. *)
Example demo_thread :
  let f := ffi_run demo_ffi demo_calls in
  (ffi_dm_history f 2000 peer_hex 10).1
  = Ok [mkFfiDmMessage [Byte.x68; Byte.x69] 1030 true 0]
  ∧ (ffi_peer_verified f 2000 peer_hex).1 = Ok true
  ∧ (ffi_peer_petname f 2000 peer_hex).1 = Ok (Some [Byte.x6f; Byte.x76; Byte.x69]).
Proof. by vm_compute. Qed.

(** A text of the single character U+0001 is stored as it is, so that it comes back as a control
    row without a text and is deleted with the control rows when the peer is verified. *)
Example one_byte_text_is_lost :
  let f := ffi_run demo_ffi [(1000, CallSendDm peer_hex [Byte.x01])] in
  (ffi_dm_history f 2000 peer_hex 10).1 = Ok [mkFfiDmMessage [] 1000 true 1]
  ∧ (ffi_dm_history (ffi_do f 2000 (CallVerify peer_hex)).2 2000 peer_hex 10).1 = Ok [].
Proof. by vm_compute. Qed.
