(* ===== verification/Topology.v ===== *)
(** * Topology: the graphs the simulator runs on ([sim/src/topology.rs])

    Random geometric graphs in binary64 arithmetic, lines and cliques, and the union-find that
    makes a graph connected. A node index is a [nat]; an index out of range is a [Panic], and a
    loop without a bound of its own is given fuel and answers [Err tt] when it runs out. *)
From Stdlib Require Import SpecFloat.
From S2P Require Import Prelude F64 External.

Definition f64_sqrt : f64 → f64 := SFsqrt 53 1024.

(** [std::f64::consts::PI]. *)
Definition PI : f64 := S754_finite false 7074237752028440 (-51).

Record Graph := mkGraph {
  g_n : nat;
  g_edges : list (nat * nat);
  g_positions : list (f64 * f64);
}.

(** [for i in 0..n { for j in (i + 1)..n { .. } }]. *)
Definition pairs (n : nat) : list (nat * nat) :=
  concat (map (λ i, map (λ j, (i, j)) (seq (i + 1) (n - (i + 1)))) (seq 0 n)).

(** [pos[i]] and the squared distance. *)
Definition dist2 (pos : list (f64 * f64)) (i j : nat) : outcome unit f64 :=
  let* p := expect (pos !! i) in
  let* q := expect (pos !! j) in
  let dx := f64_sub p.1 q.1 in
  let dy := f64_sub p.2 q.2 in
  Ok (f64_add (f64_mul dx dx) (f64_mul dy dy)).

(** ** Union-find *)

(** [UnionFind { parent }]. *)
Abbreviation UnionFind := (list nat).

Definition UnionFind_new (n : nat) : UnionFind := seq 0 n.

(** [while self.parent[root] != root { root = self.parent[root]; }]. *)
Fixpoint find_root (fuel : nat) (parent : UnionFind) (root : nat) : outcome unit nat :=
  match fuel with
  | O => Err tt
  | S k =>
      let* p := expect (parent !! root) in
      if (p =? root)%nat then Ok root else find_root k parent p
  end.

(** [while self.parent[cur] != root { .. }]: every node of the path is hung under the root. *)
Fixpoint compress (fuel : nat) (parent : UnionFind) (root cur : nat) : outcome unit UnionFind :=
  match fuel with
  | O => Err tt
  | S k =>
      let* next := expect (parent !! cur) in
      if (next =? root)%nat then Ok parent else compress k (<[cur := root]> parent) root next
  end.

(** A path is shorter than the number of nodes. *)
Definition uf_find (parent : UnionFind) (x : nat) : outcome unit (nat * UnionFind) :=
  let* root := find_root (length parent) parent x in
  let* parent := compress (length parent) parent root x in
  Ok (root, parent).

Definition uf_union (parent : UnionFind) (a b : nat) : outcome unit UnionFind :=
  let* (ra, parent) := uf_find parent a in
  let* (rb, parent) := uf_find parent b in
  Ok (if (ra =? rb)%nat then parent else <[ra := rb]> parent).

Fixpoint uf_unions (parent : UnionFind) (edges : list (nat * nat)) : outcome unit UnionFind :=
  match edges with
  | [] => Ok parent
  | (a, b) :: edges => let* parent := uf_union parent a b in uf_unions parent edges
  end.

(** ** Connecting components *)

Abbreviation candidate := (option (f64 * (nat * nat))).

(** One step of the search for the closest pair with different roots. *)
Definition closest_step (pos : list (f64 * f64)) (st : UnionFind * candidate) (ij : nat * nat)
    : outcome unit (UnionFind * candidate) :=
  let '(uf, best) := st in
  let* (ri, uf) := uf_find uf ij.1 in
  let* (rj, uf) := uf_find uf ij.2 in
  if (ri =? rj)%nat then Ok (uf, best) else
  let* d := dist2 pos ij.1 ij.2 in
  Ok (uf, match best with
          | Some (bd, _) => if f64_lt d bd then Some (d, ij) else best
          | None => Some (d, ij)
          end).

Fixpoint closest (pos : list (f64 * f64)) (st : UnionFind * candidate) (ps : list (nat * nat))
    : outcome unit (UnionFind * candidate) :=
  match ps with
  | [] => Ok st
  | ij :: ps => let* st := closest_step pos st ij in closest pos st ps
  end.

(** The loop that adds the closest bridge until there is none to add. *)
Fixpoint bridge (fuel n : nat) (pos : list (f64 * f64)) (edges : list (nat * nat)) (uf : UnionFind)
    : outcome unit (list (nat * nat)) :=
  match fuel with
  | O => Err tt
  | S k =>
      let* (uf, best) := closest pos (uf, None) (pairs n) in
      match best with
      | Some (_, (i, j)) =>
          let* uf := uf_union uf i j in
          bridge k n pos (edges ++ [(i, j)]) uf
      | None => Ok edges
      end
  end.

(** Each bridge lowers the number of components, of which there are at most [n]. *)
Definition connect_components (n : nat) (edges : list (nat * nat)) (pos : list (f64 * f64))
    : outcome unit (list (nat * nat)) :=
  let* uf := uf_unions (UnionFind_new n) edges in
  bridge (S n) n pos edges uf.

(** ** Topologies *)

Definition line_positions (n : nat) : list (f64 * f64) :=
  map (λ i, (f64_of_int (Z.of_nat i), f64_of_int 0)) (seq 0 n).

Definition line (n : nat) : Graph :=
  mkGraph n (map (λ i, (i, i + 1)%nat) (seq 0 (n - 1))) (line_positions n).

Definition clique (n : nat) : Graph := mkGraph n (pairs n) (line_positions n).

Section geometric.
Context `{Rand}.

(** [(0..n).map(|_| (rng.gen(), rng.gen())).collect()]. *)
Fixpoint random_positions (n : nat) (rng : StdRng) : list (f64 * f64) :=
  match n with
  | O => []
  | S k =>
      let '(x, rng) := gen_f64 rng in
      let '(y, rng) := gen_f64 rng in
      (x, y) :: random_positions k rng
  end.

(** The pairs within the radius, in loop order. *)
Fixpoint within_radius (pos : list (f64 * f64)) (r2 : f64) (ps : list (nat * nat))
    : outcome unit (list (nat * nat)) :=
  match ps with
  | [] => Ok []
  | (i, j) :: ps =>
      let* d := dist2 pos i j in
      let* rest := within_radius pos r2 ps in
      Ok (if f64_le d r2 then (i, j) :: rest else rest)
  end.

Definition geometric (n : nat) (seed : Z) (target_degree : f64) : outcome unit Graph :=
  let positions := random_positions n (seed_from_u64 seed) in
  let r := f64_sqrt (f64_div target_degree (f64_mul (f64_of_int (Z.of_nat n)) PI)) in
  let r2 := f64_mul r r in
  let* edges := within_radius positions r2 (pairs n) in
  let* edges := connect_components n edges positions in
  Ok (mkGraph n edges positions).
End geometric.

(** The unit tests of the file. *)
Example line_has_expected_edges : g_edges (line 5) = [(0, 1); (1, 2); (2, 3); (3, 4)]%nat.
Proof. reflexivity. Qed.

Example sqrt_two : f64_sqrt (f64_of_int 2) = S754_finite false 6369051672525773 (-52).
Proof. by vm_compute. Qed.
