(* ===== verification/TopologyProps.v ===== *)
(** * TopologyProps: the union-find and the connectedness of the graphs

    The nodes of a union-find form a forest: parents are in range and a height falls along them.
    Finding compresses paths without moving a root; uniting joins two classes; and the bridges make
    any graph connected, one for each component too many. *)
From S2P Require Import Prelude F64 External Toy Store Topology.

(** ** Forests *)

(** [r] is the root above [x]. *)
Inductive rep (p : UnionFind) : nat → nat → Prop :=
  | rep_root x : p !! x = Some x → rep p x x
  | rep_step x y r : p !! x = Some y → y ≠ x → rep p y r → rep p x r.

Definition falls (h : nat → nat) (p : UnionFind) : Prop :=
  (∀ x y, p !! x = Some y → (y < length p)%nat)
  ∧ ∀ x y, p !! x = Some y → y ≠ x → (h y < h x)%nat.

Definition forest (p : UnionFind) : Prop := ∃ h, falls h p.

(** The same nodes under the same roots. *)
Definition same_roots (p p' : UnionFind) : Prop :=
  length p' = length p ∧ ∀ x r, rep p' x r ↔ rep p x r.

#[export] Instance same_roots_equivalence : Equivalence same_roots.
Proof.
  split; [by intros p| |].
  - intros p q [? Hr]. split; [done|]. intros. by rewrite Hr.
  - intros p q r [? Hpq] [? Hqr]. split; [congruence|]. intros. by rewrite Hqr, Hpq.
Qed.

(** Two nodes in one class. *)
Definition together (p : UnionFind) (x y : nat) : Prop := ∃ r, rep p x r ∧ rep p y r.

Lemma rep_det p x r r' : rep p x r → rep p x r' → r = r'.
Proof.
  intros Hr. revert r'. induction Hr as [x Hx|x y r Hx Hne Hr IH]; intros r' Hr'.
  - inversion Hr'; by simplify_eq.
  - inversion Hr'; simplify_eq; by apply IH.
Qed.

Lemma rep_of_root p x r : rep p x r → p !! r = Some r.
Proof. by induction 1. Qed.

Lemma rep_lt p x r : rep p x r → (x < length p)%nat.
Proof. intros Hr. apply lookup_lt_is_Some. inversion Hr; eauto. Qed.

Lemma rep_root_iff p x : p !! x = Some x ↔ rep p x x.
Proof. split; [apply rep_root|]. apply rep_of_root. Qed.

Lemma rep_of_new n x r : rep (UnionFind_new n) x r ↔ x = r ∧ (x < n)%nat.
Proof.
  unfold UnionFind_new. split.
  - induction 1 as [x Hx|x y r Hx Hne Hr IH]; apply lookup_seq in Hx as [E Hlt]; [done|].
    by destruct Hne.
  - intros [-> Hlt]. apply rep_root, lookup_seq. done.
Qed.

Section forests.
Context (h : nat → nat).
Implicit Types p : UnionFind.

Lemma rep_exists p x : falls h p → (x < length p)%nat → ∃ r, rep p x r.
Proof.
  intros [Hlt Hh]. remember (h x) as k eqn:Ek. revert x Ek.
  induction k as [k IH] using lt_wf_ind. intros x -> Hx.
  apply lookup_lt_is_Some in Hx as [y Hy]. destruct (decide (y = x)) as [->|Hne].
  - exists x. by apply rep_root.
  - destruct (IH (h y) (Hh _ _ Hy Hne) y eq_refl (Hlt _ _ Hy)) as [r Hr].
    exists r. by eapply rep_step.
Qed.

(** How many nodes are as low as [x]: it falls along the parents, and never exceeds the number
    of nodes, so that this many rounds are enough for a path. *)
Definition below (n x : nat) : nat := length (List.filter (λ y, (h y <=? h x)%nat) (seq 0 n)).

Lemma filter_length_lt {A} (q1 q2 : A → bool) l z :
  (∀ y, q1 y = true → q2 y = true) → z ∈ l → q2 z = true → q1 z = false →
  (length (List.filter q1 l) < length (List.filter q2 l))%nat.
Proof.
  intros Hq Hz H2 H1.
  assert (∀ l, (length (List.filter q1 l) ≤ length (List.filter q2 l))%nat) as Hle.
  { clear -Hq. intros l. induction l as [|y l IH]; cbn; [done|].
    destruct (q1 y) eqn:E; [rewrite (Hq y E); cbn; lia|]. destruct (q2 y); cbn; lia. }
  induction l as [|y l IH]; [by apply not_elem_of_nil in Hz|]. cbn.
  apply elem_of_cons in Hz as [<-|Hz].
  - rewrite H1, H2. cbn. specialize (Hle l). lia.
  - specialize (IH Hz). destruct (q1 y) eqn:E; [rewrite (Hq y E); cbn; lia|].
    destruct (q2 y); cbn; lia.
Qed.

Lemma below_lt n x y : (x < n)%nat → (h y < h x)%nat → (below n y < below n x)%nat.
Proof.
  intros Hx Hh. unfold below. apply (filter_length_lt _ _ _ x).
  - intros z. rewrite !Nat.leb_le. lia.
  - apply elem_of_seq. lia.
  - by apply Nat.leb_le.
  - by apply Nat.leb_gt.
Qed.

Lemma below_le n x : (below n x ≤ n)%nat.
Proof.
  unfold below. etrans; [apply List.filter_length_le|]. by rewrite length_seq.
Qed.

Lemma below_pos n x : (x < n)%nat → (1 ≤ below n x)%nat.
Proof.
  intros Hx. unfold below.
  assert (x ∈ List.filter (λ y, (h y <=? h x)%nat) (seq 0 n)) as Hin.
  { rewrite list_elem_of_In, List.filter_In, <- list_elem_of_In, elem_of_seq, Nat.leb_le. lia. }
  destruct (List.filter _ _); [by apply not_elem_of_nil in Hin|]. cbn. lia.
Qed.

Lemma find_root_ok fuel p x r :
  falls h p → rep p x r → (below (length p) x ≤ fuel)%nat → find_root fuel p x = Ok r.
Proof.
  intros [Hlt Hh]. revert x. induction fuel as [|fuel IH]; intros x Hr Hf.
  - pose proof (below_pos (length p) x (rep_lt _ _ _ Hr)). lia.
  - cbn [find_root]. pose proof (rep_lt _ _ _ Hr) as Hx. inversion Hr as [? Hp|? y ? Hp Hne Hy]; subst.
    + rewrite Hp. cbn. by rewrite Nat.eqb_refl.
    + rewrite Hp. cbn. rewrite (proj2 (Nat.eqb_neq y x)) by done. apply IH; [done|].
      pose proof (below_lt (length p) x y Hx (Hh _ _ Hp Hne)). lia.
Qed.

(** Hanging a node under its own root. *)
Lemma hang_ok p cur root :
  falls h p → rep p cur root → cur ≠ root →
  falls h (<[cur := root]> p) ∧ same_roots p (<[cur := root]> p).
Proof.
  intros Hf Hr Hne. destruct (Hf) as [Hlt Hh].
  assert (h root < h cur)%nat as Hfall.
  { clear Hf Hlt. induction Hr as [x Hx|x y r Hx Hxy Hr IH]; [done|].
    specialize (Hh _ _ Hx Hxy). destruct (decide (y = r)) as [->|Hyr]; [done|].
    specialize (IH Hyr). lia. }
  pose proof (rep_of_root _ _ _ Hr) as Hroot.
  assert (falls h (<[cur := root]> p)) as Hf'.
  { split; intros x y Hx; rewrite list_lookup_insert_Some in Hx.
    - rewrite length_insert. destruct Hx as [(-> & <- & _)|[_ Hx]]; [|by eapply Hlt].
      apply lookup_lt_is_Some. eauto.
    - intros Hxy. destruct Hx as [(<- & <- & _)|[_ Hx]]; [done|by apply Hh]. }
  split; [done|]. split; [apply length_insert|].
  assert (∀ x r, rep p x r → rep (<[cur := root]> p) x r) as Hto.
  { assert (<[cur := root]> p !! root = Some root) as Hroot' by by rewrite list_lookup_insert_ne.
    induction 1 as [x Hx|x y r Hx Hxy Hrx IH].
    - apply rep_root. rewrite list_lookup_insert_ne; [done|]. intros <-.
      by apply Hne, (rep_det p cur); [apply rep_root|].
    - destruct (decide (x = cur)) as [->|Hxc].
      + assert (r = root) as -> by (apply (rep_det p cur); [by eapply rep_step|done]).
        apply (rep_step _ _ root); [|done|by apply rep_root].
        apply list_lookup_insert_eq. by eapply rep_lt.
      + apply (rep_step _ _ y); [by rewrite list_lookup_insert_ne|done|done]. }
  intros x r. split; [|apply Hto]. intros Hx.
  destruct (rep_exists p x Hf) as [r0 Hr0].
  { apply rep_lt in Hx. by rewrite length_insert in Hx. }
  rewrite (rep_det _ _ _ _ Hx (Hto _ _ Hr0)). done.
Qed.

Lemma compress_ok fuel p root cur :
  falls h p → rep p cur root → (below (length p) cur ≤ fuel)%nat →
  ∃ p', compress fuel p root cur = Ok p' ∧ falls h p' ∧ same_roots p p'.
Proof.
  revert p cur. induction fuel as [|fuel IH]; intros p cur Hf Hr Hfuel.
  - pose proof (below_pos (length p) cur (rep_lt _ _ _ Hr)). lia.
  - cbn [compress]. pose proof (rep_lt _ _ _ Hr) as Hcur.
    destruct (lookup_lt_is_Some_2 p cur Hcur) as [next Hnext]. rewrite Hnext. cbn [expect obind].
    destruct (next =? root)%nat eqn:E; [by exists p|]. apply Nat.eqb_neq in E.
    assert (cur ≠ root) as Hne.
    { intros ->. pose proof (rep_of_root _ _ _ Hr). congruence. }
    assert (next ≠ cur ∧ rep p next root) as [Hnc Hrn].
    { inversion Hr as [? Hp|? y ? Hp Hxy Hy]; simplify_eq. done. }
    destruct (hang_ok p cur root Hf Hr Hne) as [Hf' Hs].
    destruct (IH (<[cur := root]> p) next Hf') as (p' & -> & Hf'' & Hs').
    + by apply Hs.
    + rewrite length_insert.
      pose proof (below_lt (length p) cur next Hcur (proj2 Hf _ _ Hnext Hnc)). lia.
    + exists p'. split; [done|]. split; [done|]. by etrans.
Qed.
End forests.

Lemma uf_find_ok p x :
  forest p → (x < length p)%nat →
  ∃ r p', uf_find p x = Ok (r, p') ∧ rep p x r ∧ forest p' ∧ same_roots p p'.
Proof.
  intros [h Hf] Hx. destruct (rep_exists h p x Hf Hx) as [r Hr]. unfold uf_find.
  rewrite (find_root_ok h (length p) p x r Hf Hr) by apply below_le. cbn [obind].
  destruct (compress_ok h (length p) p r x Hf Hr) as (p' & -> & Hf' & Hs); [apply below_le|].
  cbn [obind]. exists r, p'. split_and!; [done|done|by exists h|done].
Qed.

Lemma same_roots_together p p' x y : same_roots p p' → together p' x y ↔ together p x y.
Proof. intros [_ Hr]. unfold together. by setoid_rewrite Hr. Qed.

(** ** Linking two roots *)

Section link.
Context (p : UnionFind) (ra rb : nat).
Context (Hra : p !! ra = Some ra) (Hrb : p !! rb = Some rb) (Hne : ra ≠ rb).

Lemma link_rep x r0 : rep p x r0 → rep (<[ra := rb]> p) x (if decide (r0 = ra) then rb else r0).
Proof using All.
  assert (rep (<[ra := rb]> p) rb rb) as Hb.
  { apply rep_root. by rewrite list_lookup_insert_ne. }
  induction 1 as [x Hx|x y r Hx Hxy Hr IH].
  - case_decide as E.
    + subst x. apply (rep_step _ _ rb); [|done|done]. apply list_lookup_insert_eq.
      by eapply lookup_lt_Some.
    + apply rep_root. by rewrite list_lookup_insert_ne.
  - assert (x ≠ ra) by congruence. apply (rep_step _ _ y); [|done|done].
    by rewrite list_lookup_insert_ne.
Qed.

Lemma link_forest : forest p → forest (<[ra := rb]> p).
Proof using All.
  intros [h Hf]. pose proof Hf as [Hlt Hh].
  set (under y := match find_root (length p) p y with Ok r => (r =? ra)%nat | _ => false end).
  assert (∀ y r, rep p y r → under y = (r =? ra)%nat) as Hu.
  { intros y r Hr. unfold under. by rewrite (find_root_ok h _ p y r Hf Hr) by apply below_le. }
  exists (λ y, if under y then (h y + h rb + 1)%nat else h y).
  assert (under ra = true) as Ua by (rewrite (Hu ra ra); [apply Nat.eqb_refl|by apply rep_root]).
  assert (under rb = false) as Ub.
  { rewrite (Hu rb rb); [by apply Nat.eqb_neq|by apply rep_root]. }
  split; intros x y Hx; rewrite list_lookup_insert_Some in Hx.
  - rewrite length_insert. destruct Hx as [(_ & <- & _)|[_ Hx]]; [|by eapply Hlt].
    by eapply lookup_lt_Some.
  - intros Hxy. destruct Hx as [(<- & <- & _)|[_ Hx]]; [rewrite Ua, Ub; lia|].
    destruct (rep_exists h p y Hf (Hlt _ _ Hx)) as [r Hr].
    rewrite (Hu y r Hr), (Hu x r) by by eapply rep_step.
    specialize (Hh _ _ Hx Hxy). case_match; lia.
Qed.

Lemma link_together x y :
  forest p → (x < length p)%nat → (y < length p)%nat →
  together (<[ra := rb]> p) x y
  ↔ together p x y ∨ (rep p x ra ∧ rep p y rb) ∨ (rep p x rb ∧ rep p y ra).
Proof using All.
  intros [h Hf] Hx Hy.
  destruct (rep_exists h p x Hf Hx) as [rx Hrx], (rep_exists h p y Hf Hy) as [ry Hry].
  pose proof (link_rep x rx Hrx) as Lx. pose proof (link_rep y ry Hry) as Ly.
  split.
  - intros (r & H1 & H2). pose proof (rep_det _ _ _ _ H1 Lx) as E1.
    pose proof (rep_det _ _ _ _ H2 Ly) as E2. clear H1 H2 Lx Ly.
    destruct (decide (rx = ra)), (decide (ry = ra)); simplify_eq/=.
    + left. by exists ra.
    + right. by left.
    + right. by right.
    + left. by exists ry.
  - intros [(r & H1 & H2)|[[H1 H2]|[H1 H2]]].
    + rewrite (rep_det _ _ _ _ H1 Hrx) in H2. rewrite (rep_det _ _ _ _ H2 Hry) in Lx.
      by eexists.
    + rewrite (rep_det _ _ _ _ Hrx H1) in Lx. rewrite (rep_det _ _ _ _ Hry H2) in Ly.
      rewrite decide_True in Lx by done. rewrite decide_False in Ly by done. by exists rb.
    + rewrite (rep_det _ _ _ _ Hrx H1) in Lx. rewrite (rep_det _ _ _ _ Hry H2) in Ly.
      rewrite decide_True in Ly by done. rewrite decide_False in Lx by done. by exists rb.
Qed.
End link.

(** ** Counting components *)

Definition is_root (p : UnionFind) (x : nat) : bool := bool_decide (p !! x = Some x).
Definition roots (p : UnionFind) : nat := length (List.filter (is_root p) (seq 0 (length p))).

Lemma roots_same p p' : same_roots p p' → roots p' = roots p.
Proof.
  intros [Hl Hr]. unfold roots. rewrite Hl. f_equal. apply List.filter_ext. intros x.
  unfold is_root. apply bool_decide_ext. by rewrite !rep_root_iff, Hr.
Qed.

Lemma filter_remove_length {A} (q1 q2 : A → bool) l z :
  NoDup l → z ∈ l → q2 z = true → q1 z = false → (∀ y, y ≠ z → q1 y = q2 y) →
  length (List.filter q2 l) = S (length (List.filter q1 l)).
Proof.
  intros Hnd Hz H2 H1 Hq. induction l as [|y l IH]; [by apply not_elem_of_nil in Hz|].
  apply NoDup_cons in Hnd as [Hy Hnd]. cbn. apply elem_of_cons in Hz as [<-|Hz].
  - rewrite H1, H2. cbn. do 2 f_equal. apply List.filter_ext_in.
    intros x Hx%list_elem_of_In. symmetry. apply Hq. by intros ->.
  - rewrite (Hq y) by (by intros ->). specialize (IH Hnd Hz). by case_match; cbn; rewrite IH.
Qed.

Lemma roots_link p ra rb :
  p !! ra = Some ra → ra ≠ rb → roots p = S (roots (<[ra := rb]> p)).
Proof.
  intros Hra Hne. unfold roots. rewrite length_insert. apply (filter_remove_length _ _ _ ra).
  - apply NoDup_seq.
  - apply elem_of_seq. apply lookup_lt_Some in Hra. lia.
  - by apply bool_decide_eq_true.
  - apply bool_decide_eq_false. rewrite list_lookup_insert_eq by (by eapply lookup_lt_Some). congruence.
  - intros y Hy. unfold is_root. by rewrite list_lookup_insert_ne.
Qed.

Lemma uf_union_ok p a b :
  forest p → (a < length p)%nat → (b < length p)%nat →
  ∃ p', uf_union p a b = Ok p' ∧ forest p' ∧ length p' = length p
    ∧ (∀ x y, (x < length p)%nat → (y < length p)%nat →
         together p' x y ↔ together p x y ∨ (together p x a ∧ together p b y)
                           ∨ (together p x b ∧ together p a y))
    ∧ (¬ together p a b → roots p = S (roots p')).
Proof.
  intros Hf Ha Hb. unfold uf_union.
  destruct (uf_find_ok p a Hf Ha) as (ra & p1 & -> & Hra & Hf1 & Hs1). cbn [obind].
  destruct (uf_find_ok p1 b Hf1) as (rb & p2 & -> & Hrb & Hf2 & Hs2).
  { by rewrite (proj1 Hs1). }
  cbn [obind]. assert (same_roots p p2) as Hs by by etrans.
  assert (rep p b rb) as Hrb0 by by apply Hs1.
  assert (∀ x, rep p x ra ↔ together p x a) as Ea.
  { intros x. split; [by intros; exists ra|]. intros (r & Hx & Har). by rewrite (rep_det _ _ _ _ Hra Har). }
  assert (∀ x, rep p x rb ↔ together p x b) as Eb.
  { intros x. split; [by intros; exists rb|]. intros (r & Hx & Hbr). by rewrite (rep_det _ _ _ _ Hrb0 Hbr). }
  assert (∀ x y, together p x y ↔ together p y x) as Hsym.
  { intros x y. split; intros (r & ? & ?); by exists r. }
  destruct (ra =? rb)%nat eqn:E.
  - apply Nat.eqb_eq in E. subst rb. exists p2.
    split_and!; [done|done|apply Hs| |].
    + intros x y _ _. rewrite (same_roots_together p p2) by done.
      split; [by left|]. intros [?|[[H1 H2]|[H1 H2]]]; [done|exists ra..]; split.
      * by apply Ea.
      * by apply Eb, Hsym.
      * by apply Eb.
      * by apply Ea, Hsym.
    + intros Hn. destruct Hn. by exists ra.
  - apply Nat.eqb_neq in E. exists (<[ra := rb]> p2).
    assert (p2 !! ra = Some ra) as Hra2.
    { apply rep_root_iff, Hs, rep_root_iff. by eapply rep_of_root. }
    assert (p2 !! rb = Some rb) as Hrb2.
    { apply rep_root_iff, Hs, rep_root_iff. by eapply rep_of_root. }
    split_and!; [done|by apply link_forest|rewrite length_insert; apply Hs| |].
    + intros x y Hx Hy. rewrite link_together by (done || by rewrite (proj1 Hs)).
      rewrite (same_roots_together p p2) by done. rewrite !(proj2 Hs), !Ea, !Eb.
      by rewrite (Hsym b y), (Hsym a y).
    + intros _. rewrite <- (roots_same _ _ Hs). by apply roots_link.
Qed.

(** ** Graphs *)

(** There is a path between two nodes. *)
Definition connected (edges : list (nat * nat)) : nat → nat → Prop :=
  rtsc (λ a b, (a, b) ∈ edges).

Definition in_range (n : nat) (edges : list (nat * nat)) : Prop :=
  Forall (λ e : nat * nat, (e.1 < n)%nat ∧ (e.2 < n)%nat) edges.

Lemma connected_mono es es' x y : es ⊆ es' → connected es x y → connected es' x y.
Proof.
  intros Hsub. unfold connected, rtsc. apply rtc_subrel. intros a b [?|?]; [left|right]; by apply Hsub.
Qed.

Lemma connected_edge es a b : (a, b) ∈ es → connected es a b.
Proof. intros Hin. apply rtc_once. by left. Qed.

Lemma connected_sym es x y : connected es x y → connected es y x.
Proof. intros Hxy. unfold connected in *. by symmetry. Qed.

Lemma connected_trans es x y z : connected es x y → connected es y z → connected es x z.
Proof. unfold connected. intros. by etrans. Qed.

Lemma connected_add es a b x y :
  connected (es ++ [(a, b)]) x y
  ↔ connected es x y ∨ (connected es x a ∧ connected es b y) ∨ (connected es x b ∧ connected es a y).
Proof.
  split.
  - induction 1 as [x|x z y Hxz _ IH]; [left; apply rtc_refl|].
    assert ((connected es x z ∨ (x = a ∧ z = b) ∨ (x = b ∧ z = a))) as Hstep.
    { destruct Hxz as [Hin|Hin]; apply elem_of_app in Hin as [Hin|Hin%list_elem_of_singleton].
      - left. by apply connected_edge.
      - simplify_eq. by right; left.
      - left. by apply connected_sym, connected_edge.
      - simplify_eq. by right; right. }
    assert (∀ w, connected es w w) as Hrefl by (intros; apply rtc_refl).
    destruct Hstep as [Hs|[[-> ->]|[-> ->]]].
    + destruct IH as [IH|[[? ?]|[? ?]]]; [left|right; left|right; right];
        repeat split; try done; by eapply connected_trans.
    + destruct IH as [IH|[[? ?]|[? ?]]]; [by right; left|by right; left|by left].
    + destruct IH as [IH|[[? ?]|[? ?]]]; [by right; right|by left|by right; right].
  - assert (∀ u v, connected es u v → connected (es ++ [(a, b)]) u v) as Hm.
    { intros u v. apply connected_mono. intros e He. apply elem_of_app. by left. }
    assert (connected (es ++ [(a, b)]) a b) as Hab.
    { apply connected_edge, elem_of_app. right. apply list_elem_of_here. }
    intros [Hc|[[H1 H2]|[H1 H2]]]; [by apply Hm|..].
    + eapply connected_trans; [by apply Hm|]. eapply connected_trans; [exact Hab|by apply Hm].
    + eapply connected_trans; [by apply Hm|].
      eapply connected_trans; [exact (connected_sym _ _ _ Hab)|by apply Hm].
Qed.

(** A union-find that has seen the edges of a graph. *)
Record tracks (n : nat) (edges : list (nat * nat)) (p : UnionFind) : Prop := {
  tr_forest : forest p;
  tr_length : length p = n;
  tr_together x y : (x < n)%nat → (y < n)%nat → together p x y ↔ connected edges x y;
}.

Lemma tracks_same n edges p p' : forest p' → same_roots p p' → tracks n edges p → tracks n edges p'.
Proof.
  intros Hf Hs [_ Hl Ht]. split; [done|by rewrite (proj1 Hs)|].
  intros x y Hx Hy. rewrite (same_roots_together p p') by done. by apply Ht.
Qed.

Lemma tracks_new n : tracks n [] (UnionFind_new n).
Proof.
  split.
  - exists (λ x, 0%nat). split; intros x y Hx; apply lookup_seq in Hx as [-> Hx].
    + unfold UnionFind_new. rewrite length_seq. done.
    + by intros [].
  - apply length_seq.
  - intros x y Hx Hy. unfold together. setoid_rewrite rep_of_new. split.
    + intros (r & [-> _] & [-> _]). apply rtc_refl.
    + intros Hc. exists x. split; [done|]. split; [|done].
      induction Hc as [|x z y [Hz|Hz] _ _]; [done|by apply not_elem_of_nil in Hz..].
Qed.

Lemma tracks_union n edges p a b :
  tracks n edges p → (a < n)%nat → (b < n)%nat →
  ∃ p', uf_union p a b = Ok p' ∧ tracks n (edges ++ [(a, b)]) p'
        ∧ (¬ connected edges a b → roots p = S (roots p')).
Proof.
  intros [Hf Hl Ht] Ha Hb. destruct (uf_union_ok p a b Hf) as (p' & E & Hf' & Hl' & Ht' & Hr);
    [by rewrite Hl..|].
  exists p'. split; [done|]. split.
  - split; [done|congruence|]. intros x y Hx Hy. rewrite Ht' by by rewrite Hl.
    rewrite connected_add, !Ht by done. done.
  - intros Hn. apply Hr. by rewrite Ht.
Qed.

Lemma uf_unions_ok n es : ∀ edges p,
  tracks n edges p → in_range n es → ∃ p', uf_unions p es = Ok p' ∧ tracks n (edges ++ es) p'.
Proof.
  induction es as [|[a b] es IH]; intros edges p Ht Hin.
  - exists p. by rewrite app_nil_r.
  - apply Forall_cons in Hin as [[Ha Hb] Hin]. cbn [uf_unions].
    destruct (tracks_union n edges p a b Ht Ha Hb) as (p' & -> & Ht' & _). cbn [obind].
    destruct (IH _ p' Ht' Hin) as (p'' & E & Ht''). exists p''. split; [done|].
    by rewrite <- app_assoc in Ht''.
Qed.

(** ** The bridges *)

Lemma elem_of_pairs n i j : (i, j) ∈ pairs n ↔ (i < j < n)%nat.
Proof.
  unfold pairs. rewrite list_elem_of_In, in_concat. split.
  - intros (l & Hl & Hin). apply list_elem_of_In, elem_of_map_list in Hl as (a & Ha & ->).
    apply list_elem_of_In, elem_of_map_list in Hin as (b & Hb & [= -> ->]).
    apply elem_of_seq in Ha, Hb. lia.
  - intros Hij. exists (map (λ j, (i, j)) (seq (i + 1) (n - (i + 1)))).
    split; apply list_elem_of_In, elem_of_map_list.
    + exists i. split; [apply elem_of_seq; lia|done].
    + exists j. split; [apply elem_of_seq; lia|done].
Qed.

Lemma roots_le p : (roots p ≤ length p)%nat.
Proof. unfold roots. etrans; [apply List.filter_length_le|]. by rewrite length_seq. Qed.

Lemma pairs_in_range n : in_range n (pairs n).
Proof. apply Forall_forall. intros [i j] Hij%elem_of_pairs. cbn. lia. Qed.

Section bridging.
Context (n : nat) (pos : list (f64 * f64)) (Hpos : length pos = n).

Lemma dist2_ok i j : (i < n)%nat → (j < n)%nat → ∃ d, dist2 pos i j = Ok d.
Proof using Hpos.
  intros Hi Hj. unfold dist2.
  destruct (lookup_lt_is_Some_2 pos i) as [p ->]; [by rewrite Hpos|].
  destruct (lookup_lt_is_Some_2 pos j) as [q ->]; [by rewrite Hpos|]. cbn. by eexists.
Qed.

(** What the search knows after the pairs [ps]: nothing yet, when they all are connected; else a
    pair that is not, with no closer one. *)
Definition searched (edges ps : list (nat * nat)) (best : candidate) : Prop :=
  match best with
  | None => ∀ k l, (k, l) ∈ ps → connected edges k l
  | Some (d, (i, j)) =>
      (i, j) ∈ ps ∧ ¬ connected edges i j ∧ dist2 pos i j = Ok d
      ∧ ∀ k l d', (k, l) ∈ ps → ¬ connected edges k l → dist2 pos k l = Ok d' → f64_lt d' d = false
  end.

Lemma closest_ok edges ps : ∀ done uf best,
  tracks n edges uf → searched edges done best → in_range n ps →
  ∃ uf' best', closest pos (uf, best) ps = Ok (uf', best') ∧ tracks n edges uf'
    ∧ same_roots uf uf' ∧ searched edges (done ++ ps) best'.
Proof using Hpos.
  induction ps as [|[k l] ps IH]; intros don uf best Ht Hs Hin.
  { exists uf, best. by rewrite app_nil_r. }
  apply Forall_cons in Hin as [[Hk Hl] Hin]. cbn in Hk, Hl. cbn [closest closest_step fst snd].
  destruct (uf_find_ok uf k) as (rk & p1 & -> & Hrk & Hf1 & Hs1); [apply Ht|by rewrite (tr_length _ _ _ Ht)|].
  cbn [obind]. destruct (uf_find_ok p1 l) as (rl & p2 & -> & Hrl & Hf2 & Hs2); [done| |].
  { by rewrite (proj1 Hs1), (tr_length _ _ _ Ht). }
  cbn [obind]. assert (same_roots uf p2) as Hs12 by by etrans.
  pose proof (tracks_same _ _ _ _ Hf2 Hs12 Ht) as Ht2. apply Hs1 in Hrl.
  assert (connected edges k l ↔ rk = rl) as Hkl.
  { rewrite <- (tr_together _ _ _ Ht) by done. split.
    - intros (r & H1 & H2). by rewrite (rep_det _ _ _ _ Hrk H1), (rep_det _ _ _ _ Hrl H2).
    - intros ->. by exists rl. }
  assert (∀ p best1, p = p2 → searched edges (don ++ [(k, l)]) best1 →
    ∃ uf' best', closest pos (p, best1) ps = Ok (uf', best') ∧ tracks n edges uf'
      ∧ same_roots uf uf' ∧ searched edges (don ++ (k, l) :: ps) best') as Hgo.
  { intros p best1 -> Hb. destruct (IH _ p2 best1 Ht2 Hb Hin) as (uf' & best' & E & Ht' & Hs' & Hb').
    exists uf', best'. rewrite <- app_assoc in Hb'. split_and!; [done|done|by etrans|done]. }
  destruct (rk =? rl)%nat eqn:E.
  - apply Nat.eqb_eq, Hkl in E. apply Hgo; [done|].
    destruct best as [[d [i j]]|]; cbn in Hs |- *.
    + destruct Hs as (H1 & H2 & H3 & H4). split_and!; [apply elem_of_app; by left|done|done|].
      intros k' l' d' [Hin'|[= -> ->]%list_elem_of_singleton]%elem_of_app Hn; [by apply H4|done].
    + intros k' l' [Hin'|[= -> ->]%list_elem_of_singleton]%elem_of_app; [by apply Hs|done].
  - apply Nat.eqb_neq in E. destruct (dist2_ok k l Hk Hl) as [d Ed]. rewrite Ed. cbn [obind].
    assert (¬ connected edges k l) as Hn by by rewrite Hkl.
    apply Hgo; [done|]. destruct best as [[bd [i j]]|]; cbn in Hs.
    + destruct Hs as (H1 & H2 & H3 & H4). destruct (f64_lt d bd) eqn:Elt; cbn.
      * split_and!; [apply elem_of_app; right; apply list_elem_of_here|done|done|].
        intros k' l' d' [Hin'|[= -> ->]%list_elem_of_singleton]%elem_of_app Hn' Ed'.
        -- destruct (f64_lt d' d) eqn:E'; [|done]. pose proof (f64_lt_trans _ _ _ E' Elt) as Hc.
           by rewrite (H4 _ _ _ Hin' Hn' Ed') in Hc.
        -- rewrite Ed in Ed'. injection Ed' as <-. apply f64_lt_irrefl.
      * split_and!; [apply elem_of_app; by left|done|done|].
        intros k' l' d' [Hin'|[= -> ->]%list_elem_of_singleton]%elem_of_app Hn' Ed'; [by eapply H4|].
        rewrite Ed in Ed'. by injection Ed' as <-.
    + cbn. split_and!; [apply elem_of_app; right; apply list_elem_of_here|done|done|].
      intros k' l' d' [Hin'|[= -> ->]%list_elem_of_singleton]%elem_of_app Hn' Ed'.
      * by destruct (Hn' (Hs _ _ Hin')).
      * rewrite Ed in Ed'. injection Ed' as <-. apply f64_lt_irrefl.
Qed.

(** A bridge: the closest pair that is not yet connected. *)
Definition bridges (edges : list (nat * nat)) (i j : nat) : Prop :=
  (i < j < n)%nat ∧ ¬ connected edges i j
  ∧ ∀ k l d d', (k < l < n)%nat → ¬ connected edges k l →
                dist2 pos i j = Ok d → dist2 pos k l = Ok d' → f64_lt d' d = false.

Fixpoint all_bridges (edges extra : list (nat * nat)) : Prop :=
  match extra with
  | [] => True
  | (i, j) :: extra => bridges edges i j ∧ all_bridges (edges ++ [(i, j)]) extra
  end.

Lemma bridge_ok fuel : ∀ edges uf,
  tracks n edges uf → (roots uf < fuel)%nat →
  ∃ extra, bridge fuel n pos edges uf = Ok (edges ++ extra) ∧ all_bridges edges extra
    ∧ (length extra ≤ roots uf)%nat
    ∧ ∀ x y, (x < n)%nat → (y < n)%nat → connected (edges ++ extra) x y.
Proof using Hpos.
  induction fuel as [|fuel IH]; intros edges uf Ht Hfuel; [lia|]. cbn [bridge].
  destruct (closest_ok edges (pairs n) [] uf None Ht) as (uf' & best & -> & Ht' & Hs & Hb).
  { intros k l Hkl. by apply not_elem_of_nil in Hkl. }
  { apply pairs_in_range. }
  cbn [obind app] in *. destruct best as [[d [i j]]|].
  - destruct Hb as (Hij & Hn & Ed & Hclose). apply elem_of_pairs in Hij.
    destruct (tracks_union n edges uf' i j Ht') as (p & -> & Htp & Hr); [lia..|]. cbn [obind].
    specialize (Hr Hn). rewrite (roots_same _ _ Hs) in Hr.
    destruct (IH (edges ++ [(i, j)]) p Htp) as (extra & -> & Hall & Hlen & Hconn); [lia|].
    exists ((i, j) :: extra). rewrite <- app_assoc in Hconn. rewrite <- app_assoc.
    split_and!; [done| |cbn; lia|done]. cbn. split; [|done]. split_and!; [lia..|done|].
    intros k l d0 d' Hkl Hnkl Ed0 Ed'. rewrite Ed in Ed0. injection Ed0 as <-.
    by apply (Hclose k l); [apply elem_of_pairs| |].
  - exists []. rewrite app_nil_r. split_and!; [done|done|cbn; lia|]. intros x y Hx Hy.
    destruct (Nat.lt_trichotomy x y) as [Hlt|[->|Hgt]].
    + apply Hb, elem_of_pairs. lia.
    + apply rtc_refl.
    + apply connected_sym, Hb, elem_of_pairs. lia.
Qed.

Lemma connect_components_ok edges :
  in_range n edges →
  ∃ extra, connect_components n edges pos = Ok (edges ++ extra) ∧ all_bridges edges extra
    ∧ ∀ x y, (x < n)%nat → (y < n)%nat → connected (edges ++ extra) x y.
Proof using Hpos.
  intros Hin. unfold connect_components.
  destruct (uf_unions_ok n edges [] _ (tracks_new n) Hin) as (uf & -> & Ht). cbn [obind app] in *.
  destruct (bridge_ok (S n) edges uf Ht) as (extra & -> & Hall & _ & Hc).
  - pose proof (roots_le uf). rewrite (tr_length _ _ _ Ht) in *. lia.
  - by exists extra.
Qed.

Lemma within_radius_ok r2 ps :
  in_range n ps → ∃ es, within_radius pos r2 ps = Ok es ∧ in_range n es
    ∧ ∀ i j, (i, j) ∈ es ↔ (i, j) ∈ ps ∧ ∃ d, dist2 pos i j = Ok d ∧ f64_le d r2 = true.
Proof using Hpos.
  induction ps as [|[i j] ps IH]; intros Hin.
  { exists []. split_and!; [done|by constructor|]. intros i j. rewrite elem_of_nil. tauto. }
  apply Forall_cons in Hin as [[Hi Hj] Hin]. cbn [within_radius].
  destruct (dist2_ok i j Hi Hj) as [d Ed]. rewrite Ed. cbn [obind].
  destruct (IH Hin) as (es & -> & Hes & Hiff). cbn [obind].
  eexists. split; [done|]. split; [case_match; [by constructor|done]|]. intros a b.
  destruct (f64_le d r2) eqn:E; rewrite ?elem_of_cons, Hiff.
  - split; [|naive_solver]. intros [[= -> ->]|[? ?]]; [|naive_solver]. split; [by left|]. by exists d.
  - split; [naive_solver|]. intros [[[= -> ->]|?] (d' & Ed' & Hd')]; [|naive_solver].
    rewrite Ed in Ed'. injection Ed' as <-. congruence.
Qed.
End bridging.

(** The union-find of the simulator is one. On any forest, finding the root of a node
    terminates within as many rounds as there are nodes, without an index out of range, and
    compressing the path moves no node under another root; uniting two nodes joins their classes
    and touches no other; and what uniting preserves is a forest again. *)
Theorem union_find_correct p a b :
  forest p → (a < length p)%nat → (b < length p)%nat →
  (∃ r p', uf_find p a = Ok (r, p') ∧ rep p a r ∧ p !! r = Some r ∧ forest p' ∧ same_roots p p')
  ∧ (∃ p', uf_union p a b = Ok p' ∧ forest p' ∧ length p' = length p
       ∧ ∀ x y, (x < length p)%nat → (y < length p)%nat →
           together p' x y ↔ together p x y ∨ (together p x a ∧ together p b y)
                             ∨ (together p x b ∧ together p a y)).
Proof.
  intros Hf Ha Hb. split.
  - destruct (uf_find_ok p a Hf Ha) as (r & p' & E & Hr & Hf' & Hs). exists r, p'.
    split_and!; [done|done|by eapply rep_of_root|done|apply Hs..].
  - destruct (uf_union_ok p a b Hf Ha Hb) as (p' & E & Hf' & Hl & Ht & _). by exists p'.
Qed.

Lemma length_random_positions `{Rand} n rng : length (random_positions n rng) = n.
Proof.
  revert rng. induction n as [|n IH]; intros rng; [done|]. cbn [random_positions].
  destruct (gen_f64 rng) as [x r1], (gen_f64 r1) as [y r2]. cbn. by rewrite IH.
Qed.

Lemma geometric_ok `{Rand} n seed deg :
  ∃ pos near extra,
    geometric n seed deg = Ok (mkGraph n (near ++ extra) pos) ∧ length pos = n
    ∧ (∀ x y, (x < n)%nat → (y < n)%nat → connected (near ++ extra) x y)
    ∧ all_bridges n pos near extra
    ∧ ∃ r2, ∀ i j, (i, j) ∈ near ↔ (i < j < n)%nat ∧ ∃ d, dist2 pos i j = Ok d ∧ f64_le d r2 = true.
Proof.
  unfold geometric. set (pos := random_positions n _).
  assert (length pos = n) as Hpos by apply length_random_positions.
  set (r2 := f64_mul _ _). clearbody r2.
  destruct (within_radius_ok n pos Hpos r2 (pairs n) (pairs_in_range n)) as (near & -> & Hin & Hiff).
  cbn [obind]. destruct (connect_components_ok n pos Hpos near Hin) as (extra & -> & Hall & Hc).
  exists pos, near, extra. cbn [obind]. split_and!; [done..|]. exists r2. intros i j.
  by rewrite Hiff, elem_of_pairs.
Qed.

Lemma geometric_in_range `{Rand} n seed deg :
  ∃ g, geometric n seed deg = Ok g ∧ in_range n (g_edges g).
Proof.
  destruct (geometric_ok n seed deg) as (pos & near & extra & -> & _ & _ & Hall & r2 & Hnear).
  eexists. split; [done|]. cbn [g_edges]. apply Forall_app. split.
  - apply Forall_forall. intros [i j] Hij%Hnear. cbn. lia.
  - clear Hnear. revert near Hall. induction extra as [|[i j] extra IH]; intros near; [done|].
    cbn [all_bridges]. intros [[Hij _] Hall]. constructor; [cbn; lia|by eapply IH].
Qed.

(** C33: building a crowd terminates and the crowd hangs together. For any number of nodes, seed
    and degree, [geometric] returns a graph on these nodes - no loop runs forever and no index is
    out of range - in which every node reaches every other. Its edges are those within the radius,
    followed by bridges: each is the closest pair of nodes that was not connected before it, so
    none is redundant. *)
Theorem geometric_connected `{Rand} n seed deg :
  ∃ pos near extra,
    geometric n seed deg = Ok (mkGraph n (near ++ extra) pos) ∧ length pos = n
    ∧ (∀ x y, (x < n)%nat → (y < n)%nat → connected (near ++ extra) x y)
    ∧ all_bridges n pos near extra
    ∧ ∃ r2, ∀ i j, (i, j) ∈ near ↔ (i < j < n)%nat ∧ ∃ d, dist2 pos i j = Ok d ∧ f64_le d r2 = true.
Proof. apply geometric_ok. Qed.

(** ** Witnesses *)

Lemma union_find_correct_witness :
  (∃ r p', uf_find [1; 2; 2; 3]%nat 0 = Ok (r, p') ∧ rep [1; 2; 2; 3]%nat 0 r
     ∧ [1; 2; 2; 3]%nat !! r = Some r ∧ forest p' ∧ same_roots [1; 2; 2; 3]%nat p')
  ∧ (∃ p', uf_union [1; 2; 2; 3]%nat 0 3 = Ok p' ∧ forest p' ∧ length p' = 4%nat
       ∧ ∀ x y, (x < 4)%nat → (y < 4)%nat →
           together p' x y ↔ together [1; 2; 2; 3]%nat x y
             ∨ (together [1; 2; 2; 3]%nat x 0 ∧ together [1; 2; 2; 3]%nat 3 y)
             ∨ (together [1; 2; 2; 3]%nat x 3 ∧ together [1; 2; 2; 3]%nat 0 y)).
Proof.
  apply (union_find_correct [1; 2; 2; 3]%nat 0 3); [|cbn; lia..].
  exists (λ x, 3 - x)%nat. split; intros [|[|[|[|x]]]] y Hx; cbn in *; simplify_eq; lia.
Defined.
