(* ===== verification/Sim.v ===== *)
(** * Sim: the deterministic mesh simulator ([sim/src/lib.rs])

    A world of real nodes over the in-memory store, joined by radio links with a latency and a
    loss probability, in virtual time. The operations answer with an outcome: [Panic] is an index
    out of range, [Err tt] a loop that has used up its fuel. The two buffers a node's transport
    fills, frames to send and links to close, are the two parts of the node's log of calls; the
    shared clock is the [now] of every node. *)
From stdpp Require Import strings pretty gmap.
From S2P Require Import Prelude Errors F64 Utf8 Clock External Transport Wire Config Frag Compress.
From S2P Require Import Relay Channels Store Identity Noise Payloads Node.

(** One undirected radio link; its index in the world's list is its [LinkId] at both ends. *)
Record Edge := mkEdge {
  edge_a : nat;
  edge_b : nat;
  latency_ms : Millis;
  loss : f64;
  edge_mtu : Z;
  up : bool;
}.

Record InFlight := mkInFlight {
  deliver_at : Millis;
  dest : nat;
  if_link : LinkId;
  if_frame : bytes;
}.

#[export] Instance Edge_eq_dec : EqDecision Edge.
Proof. solve_decision. Defined.

#[export] Instance InFlight_eq_dec : EqDecision InFlight.
Proof. solve_decision. Defined.

Definition set_up (e : Edge) (x : bool) : Edge :=
  mkEdge (edge_a e) (edge_b e) (latency_ms e) (loss e) (edge_mtu e) x.

(** [format!("node{i}")]. *)
Definition node_name (i : nat) : rstring :=
  String.list_byte_of_string ("node" +:+ pretty i).

(** The seed of a node's identity: its index, then a marker. *)
Definition node_seed (i : nat) : bytes :=
  le_bytes 8 (Z.of_nat i) ++ [Byte.xc0] ++ zeroes 23.

Section sim.
Context `{Sha256, Ed25519, X25519, Snow, Lz4, Rand, HashIter, UnicodeCase}.

#[local] Abbreviation SimMeshNode := (MeshNode (S:=MemoryStore)).

Record SimNode := mkSimNode {
  sim_node : SimMeshNode;
  sim_events : list MeshEvent;
}.

Record World := mkWorld {
  nodes : list SimNode;
  edges : list Edge;
  inflight : list InFlight;
  world_rng : StdRng;
  step_ms : Millis;
  world_now : Millis;
  tx_frames : Z;
}.

Implicit Types w : World.

Definition set_nodes w x : World :=
  mkWorld x (edges w) (inflight w) (world_rng w) (step_ms w) (world_now w) (tx_frames w).
Definition set_edges w x : World :=
  mkWorld (nodes w) x (inflight w) (world_rng w) (step_ms w) (world_now w) (tx_frames w).
Definition set_inflight w x : World :=
  mkWorld (nodes w) (edges w) x (world_rng w) (step_ms w) (world_now w) (tx_frames w).
Definition set_world_rng w x : World :=
  mkWorld (nodes w) (edges w) (inflight w) x (step_ms w) (world_now w) (tx_frames w).
Definition set_tx_frames w x : World :=
  mkWorld (nodes w) (edges w) (inflight w) (world_rng w) (step_ms w) (world_now w) x.

(** ** The transport's buffers *)

Definition is_close (c : transport_call) : bool :=
  match c with Close _ => true | Send _ _ => false end.

(** [self.nodes[i].outbox]: the frames not yet routed. *)
Definition outbox (n : SimMeshNode) : list (LinkId * bytes) :=
  omap (λ c, match c with Send l f => Some (l, f) | Close _ => None end) (sent n).

(** [self.nodes[i].closed]: the links the node asked to close. *)
Definition closed (n : SimMeshNode) : list LinkId :=
  omap (λ c, match c with Close l => Some l | Send _ _ => None end) (sent n).

(** [.borrow_mut().drain(..)]. *)
Definition drain_outbox (n : SimMeshNode) : SimMeshNode := set_sent n (List.filter is_close (sent n)).
Definition drain_closed (n : SimMeshNode) : SimMeshNode :=
  set_sent n (List.filter (λ c, negb (is_close c)) (sent n)).

(** ** Building a world *)

Definition new_node (cfg : Tunables) (seed : Z) (i : nat) : SimNode := {|
  sim_node := MeshNode_new (from_seed (node_seed i)) cfg 0
    (MemoryStore_new (channel_history_max_msgs cfg) (channel_history_ms cfg)
       (envelope_ttl_ms cfg) (envelope_max_per_peer cfg))
    (node_name i) (Z.lxor seed (wrap 64 (Z.of_nat i * 0x9E3779B97F4A7C15)));
  sim_events := [];
|}.

Definition World_new (n : nat) (cfg : Tunables) (seed : Z) : World := {|
  nodes := map (new_node cfg seed) (seq 0 n);
  edges := [];
  inflight := [];
  world_rng := seed_from_u64 (Z.lxor seed 0xA5A5);
  step_ms := 10;
  world_now := 0;
  tx_frames := 0;
|}.

Definition node_count w : nat := length (nodes w).

Definition set_step_ms w (step : Millis) : World :=
  mkWorld (nodes w) (edges w) (inflight w) (world_rng w) (Z.max step 1) (world_now w) (tx_frames w).

Definition link w (a b : nat) (latency : Millis) (loss : f64) (mtu : Z) : LinkId * World :=
  (zlen (edges w), set_edges w (edges w ++ [mkEdge a b latency loss mtu true])).

(** [self.nodes[i].node.f()], which panics out of range. *)
Definition on_node w (i : nat) (f : SimMeshNode → SimMeshNode) : outcome unit World :=
  let* sn := expect (nodes w !! i) in
  Ok (set_nodes w (<[i := mkSimNode (f (sim_node sn)) (sim_events sn)]> (nodes w))).

(** The same event at both ends of a link, [a] first. *)
Definition on_both w (a b : nat) (ev : TransportEvent) : outcome unit World :=
  let* w := on_node w a (λ n, on_transport_event n ev) in
  on_node w b (λ n, on_transport_event n ev).

(** ** Routing *)

(** The coin is tossed for a lossy link only. *)
Definition toss w (loss : f64) : bool * World :=
  if f64_lt (f64_of_int 0) loss then
    let '(x, rng) := gen_f64 (world_rng w) in (f64_lt x loss, set_world_rng w rng)
  else (false, w).

Definition route_frame (i : nat) w (lf : LinkId * bytes) : outcome unit World :=
  let* e := expect (index lf.1 (edges w)) in
  if negb (up e) then Ok w else
  let w := set_tx_frames w (wrap 64 (tx_frames w + 1)) in
  let '(dropped, w) := toss w (loss e) in
  if dropped then Ok w else
  let d := if (edge_a e =? i)%nat then edge_b e else edge_a e in
  Ok (set_inflight w (inflight w ++ [mkInFlight (wrap 64 (world_now w + latency_ms e)) d lf.1 lf.2])).

Definition collect_node w (i : nat) : outcome unit World :=
  let* sn := expect (nodes w !! i) in
  let '(evs, n) := take_events (sim_node sn) in
  let w := set_nodes w (<[i := mkSimNode (drain_outbox n) (sim_events sn ++ evs)]> (nodes w)) in
  ofold (route_frame i) w (outbox n).

Definition collect_and_route w : outcome unit World :=
  ofold collect_node w (seq 0 (length (nodes w))).

(** ** Links going up and down *)

Definition connect w (a b : nat) (latency : Millis) (loss : f64) (mtu : Z)
    : outcome unit (LinkId * World) :=
  let '(id, w) := link w a b latency loss mtu in
  let* w := on_node w a (λ n, on_transport_event n (LinkUp id mtu None)) in
  let* w := on_node w b (λ n, on_transport_event n (LinkUp id mtu None)) in
  let* w := collect_and_route w in
  Ok (id, w).

Definition bootstrap w : outcome unit World :=
  let* w := ofold (λ w ie, on_both w (edge_a ie.2) (edge_b ie.2)
                             (LinkUp (Z.of_nat ie.1) (edge_mtu ie.2) None))
              w (imap pair (edges w)) in
  collect_and_route w.

Definition set_edge_up w (edge : LinkId) (x : bool) : outcome unit World :=
  match index edge (edges w) with
  | None => Ok w
  | Some e =>
      if Bool.eqb (up e) x then Ok w else
      let w := set_edges w (<[Z.to_nat edge := set_up e x]> (edges w)) in
      on_both w (edge_a e) (edge_b e) (if x then LinkUp edge (edge_mtu e) None else LinkDown edge)
  end.

(** ** Measurements *)

Definition reset_tx w : World :=
  set_nodes (set_tx_frames w 0)
    (map (λ sn, mkSimNode (reset_relays_fired (sim_node sn)) (sim_events sn)) (nodes w)).

Definition world_fingerprint w (i : nat) : outcome unit Fingerprint :=
  let* sn := expect (nodes w !! i) in Ok (node_fingerprint (sim_node sn)).

Definition world_link_count w (i : nat) : outcome unit Z :=
  let* sn := expect (nodes w !! i) in Ok (link_count (sim_node sn)).

Definition count_with_message w (digest : bytes) : Z :=
  zlen (List.filter (λ sn, has_message (store (sim_node sn)) digest) (nodes w)).

(** With no nodes at all this is the [NaN] of 0/0, as in the source. *)
Definition delivery_ratio w (digest : bytes) : f64 :=
  f64_div (f64_of_int (count_with_message w digest)) (f64_of_int (zlen (nodes w))).

Definition total_relays_fired w : Z :=
  foldl (λ s sn, wrap 64 (s + relays_fired (sim_node sn))) 0 (nodes w).

Definition world_events w (i : nat) : outcome unit (list MeshEvent) :=
  let* sn := expect (nodes w !! i) in Ok (sim_events sn).

(** ** Time *)

(** [self.now = t; self.clock.set(t)]: the clock every node reads. *)
Definition set_clock w (t : Millis) : World :=
  mkWorld (map (λ sn, mkSimNode (set_now (sim_node sn) t) (sim_events sn)) (nodes w))
    (edges w) (inflight w) (world_rng w) (step_ms w) t (tx_frames w).

Definition is_due (t : Millis) (f : InFlight) : bool := deliver_at f <=? t.

Definition deliver w (f : InFlight) : outcome unit World :=
  let* e := expect (index (if_link f) (edges w)) in
  if up e
  then on_node w (dest f) (λ n, on_transport_event n (FrameReceived (if_link f) (if_frame f)))
  else Ok w.

Definition deliver_due w : outcome unit World :=
  let ready := List.filter (is_due (world_now w)) (inflight w) in
  let remaining := List.filter (λ f, negb (is_due (world_now w) f)) (inflight w) in
  ofold deliver (set_inflight w remaining) ready.

Definition tick_all w : World :=
  set_nodes w (map (λ sn, mkSimNode (tick (sim_node sn)).2 (sim_events sn)) (nodes w)).

Definition honor_closes w (i : nat) : outcome unit World :=
  let* sn := expect (nodes w !! i) in
  let w := set_nodes w (<[i := mkSimNode (drain_closed (sim_node sn)) (sim_events sn)]> (nodes w)) in
  ofold (λ w l, set_edge_up w l false) w (closed (sim_node sn)).

Definition step w : outcome unit World :=
  let* w := deliver_due (set_clock w (wrap 64 (world_now w + step_ms w))) in
  let* w := collect_and_route (tick_all w) in
  ofold honor_closes w (seq 0 (length (nodes w))).

(** [while self.now < target { self.step(); }]. *)
Fixpoint run_until (fuel : nat) (target : Millis) w : outcome unit World :=
  if world_now w <? target then
    match fuel with
    | O => Err tt
    | S k => let* w := step w in run_until k target w
    end
  else Ok w.

(** A step takes a millisecond or more, so there are at most as many steps as milliseconds. *)
Definition run_for w (duration : Millis) : outcome unit World :=
  run_until (Z.to_nat duration) (wrap 64 (world_now w + duration)) w.

(** ** Runs *)

(** Everything a scenario does to a world; [WNode] is a method called through [node_mut]. *)
Inductive world_op :=
  | WLink (a b : nat) (latency : Millis) (loss : f64) (mtu : Z)
  | WConnect (a b : nat) (latency : Millis) (loss : f64) (mtu : Z)
  | WBootstrap
  | WSetEdgeUp (edge : LinkId) (up : bool)
  | WSetStep (step : Millis)
  | WResetTx
  | WNode (i : nat) (o : node_op)
  | WRunFor (duration : Millis).

Definition world_step w (o : world_op) : outcome unit World :=
  match o with
  | WLink a b latency loss mtu => Ok (link w a b latency loss mtu).2
  | WConnect a b latency loss mtu => let* r := connect w a b latency loss mtu in Ok r.2
  | WBootstrap => bootstrap w
  | WSetEdgeUp e x => set_edge_up w e x
  | WSetStep step => Ok (set_step_ms w step)
  | WResetTx => Ok (reset_tx w)
  | WNode i o => on_node w i (λ n, node_step n o)
  | WRunFor d => run_for w d
  end.

Definition world_run w (ops : list world_op) : outcome unit World := ofold world_step w ops.
End sim.
