(* ===== verification/SimProps.v ===== *)
(** * SimProps: what a run of the simulator guarantees

    A world that is used within its bounds never panics and always reaches its target time; a
    frame is only ever carried between the two ends of a link; and what is in flight is delivered
    by the first step at or after its time, as long as the link is up. *)
From stdpp Require Import strings gmap.
From S2P Require Import Prelude Errors F64 Utf8 Clock External Toy Transport Wire Config Frag.
From S2P Require Import Compress Relay Channels Store Identity Noise Payloads Node NodeFrame.
From S2P Require Import NodeInvariants Sim.

(** ** Outcomes that are a value with a property *)

Definition holds {A} (P : A → Prop) (m : outcome unit A) : Prop := ∃ a, m = Ok a ∧ P a.

Lemma holds_ok {A} (P : A → Prop) a : P a → holds P (Ok a : outcome unit A).
Proof. by exists a. Qed.

Lemma holds_bind {A B} (P : A → Prop) (Q : B → Prop) (m : outcome unit A) k :
  holds P m → (∀ a, P a → holds Q (k a)) → holds Q (obind m k).
Proof. intros (a & -> & Ha) Hk. by apply Hk. Qed.

Lemma holds_fold {A B} (P : A → Prop) (f : A → B → outcome unit A) l a :
  P a → (∀ a x, x ∈ l → P a → holds P (f a x)) → holds P (ofold f a l).
Proof.
  revert a. induction l as [|x l IH]; intros a Ha Hf; [by apply holds_ok|]. cbn [ofold].
  eapply holds_bind; [apply Hf; [left|exact Ha]|]. intros b Hb. apply IH; [done|].
  intros c y Hy. apply Hf. by right.
Qed.

Lemma holds_expect {A} (P : A → Prop) (o : option A) a :
  o = Some a → P a → holds P (expect o : outcome unit A).
Proof. intros -> Ha. by exists a. Qed.

Lemma holds_mono {A} (P Q : A → Prop) (m : outcome unit A) :
  (∀ a, P a → Q a) → holds P m → holds Q m.
Proof. intros HPQ (a & -> & Ha). exists a. auto. Qed.

Lemma wrap_in_width w z : (0 <=? w) = true → in_width w (wrap w z).
Proof. intros Hw%Z.leb_le. apply Z.mod_pos_bound. lia. Qed.

(** ** The ends of the links *)

Definition ends (e : Edge) : nat * nat := (edge_a e, edge_b e).

(** Node [i] is at one end of link [l]. *)
Definition touches (es : list (nat * nat)) (i : nat) (l : LinkId) : Prop :=
  ∃ ab, index l es = Some ab ∧ (ab.1 = i ∨ ab.2 = i).

Lemma index_map {A B} (f : A → B) l i : index i (map f l) = f <$> index i l.
Proof. unfold index. destruct (0 <=? i); [|done]. apply list_lookup_fmap. Qed.

Lemma touches_app es es' i l : touches es i l → touches (es ++ es') i l.
Proof. intros (ab & E & Hi). exists ab. split; [by apply index_app_l|done]. Qed.

Section props.
Context `{Sha256, Ed25519, X25519, Snow, Lz4, Rand, HashIter, UnicodeCase}.
Context `{!SnowLaws}.
#[local] Abbreviation SimMeshNode := (MeshNode (S:=MemoryStore)).

(** ** A node's calls stay on its links *)

Definition local (L : LinkId → Prop) (n : SimMeshNode) : Prop :=
  (∀ l, l ∈ dom (links n) → L l) ∧ Forall (λ c, L (call_link c)) (sent n).

Lemma local_frame L : Frame L (keeps (local L)) (λ _, keeps (local L)).
Proof.
  split; try apply _; try (by intros; intros []); try done.
  - intros n _ cs Hcs [Hl Hc]. split; [done|]. apply Forall_app. split; [done|].
    eapply Forall_impl; [exact Hcs|]. intros c [Hd|]; [by apply Hl|done].
  - intros n cs Hcs [Hl Hc]. split; [done|]. apply Forall_app. split; [done|].
    eapply Forall_impl; [exact Hcs|]. intros c [Hd|]; [by apply Hl|done].
  - intros n x Hx [Hl Hc]. split; [|done]. intros l Hin. cbn in Hin.
    destruct (Hx _ Hin) as [Hd|]; [by apply Hl|done].
Qed.

Record node_ok (L : LinkId → Prop) (n : SimMeshNode) : Prop := {
  no_alive : alive n;
  no_reassembling : reassembling n;
  no_local : local L n;
}.

Lemma node_step_ok L n o : op_links (L:=L) o → node_ok L n → node_ok L (node_step n o).
Proof.
  intros Ho [Ha Hr Hl]. split.
  - apply (node_step_all_R (alive_frame any_link)); [|apply any_op|done|done].
    split; intros; by intros ?.
  - by apply node_step_reassembling.
  - apply (node_step_all_R (local_frame L)); [|done..]. split; by intros; intros [].
Qed.

Lemma event_ok_node L n ev :
  event_links (L:=L) ev → node_ok L n → node_ok L (on_transport_event n ev).
Proof. intros Hev Hn. by apply (node_step_ok L n (OpEvent ev)). Qed.

Lemma node_ok_mono (L L' : LinkId → Prop) n : (∀ l, L l → L' l) → node_ok L n → node_ok L' n.
Proof.
  intros HL [Ha Hr [Hl Hc]]. split; [done|done|]. split; [intros l Hin; by apply HL, Hl|].
  eapply Forall_impl; [exact Hc|]. intros c. apply HL.
Qed.

Lemma node_ok_filter L n q : node_ok L n → node_ok L (set_sent n (List.filter q (sent n))).
Proof.
  intros [Ha Hr [Hl Hc]]. split; [done|done|]. split; [done|]. cbn.
  apply List.Forall_forall. intros c [Hin _]%List.filter_In.
  by apply (proj1 (List.Forall_forall _ _) Hc).
Qed.

Lemma outbox_ok L n lf : node_ok L n → lf ∈ outbox n → L lf.1.
Proof.
  intros [_ _ [_ Hc]] Hin. unfold outbox in Hin.
  apply list_elem_of_omap in Hin as (c & Hin & E). rewrite Forall_forall in Hc.
  specialize (Hc c Hin). by destruct c; simplify_eq.
Qed.

Lemma closed_ok L n l : node_ok L n → l ∈ closed n → L l.
Proof.
  intros [_ _ [_ Hc]] Hin. unfold closed in Hin.
  apply list_elem_of_omap in Hin as (c & Hin & E). rewrite Forall_forall in Hc.
  specialize (Hc c Hin). by destruct c; simplify_eq.
Qed.

(** ** The invariant of a world *)

(** [n] nodes, links between [es], steps of [st] milliseconds, the clock at [t], and [fs] among the
    frames in flight. *)
Record good (n : nat) (es : list (nat * nat)) (fs : list InFlight) (st t : Millis) (w : World)
    : Prop := {
  gd_count : length (nodes w) = n;
  gd_ends : map ends (edges w) = es;
  gd_step : step_ms w = st;
  gd_now : world_now w = t;
  gd_range : Forall (λ ab, ab.1 < n ∧ ab.2 < n)%nat es;
  gd_flight : Forall (λ f, touches es (dest f) (if_link f)) (inflight w);
  gd_kept : fs ⊆ inflight w;
  gd_tx : in_width 64 (tx_frames w);
  gd_nodes i sn : nodes w !! i = Some sn → node_ok (touches es i) (sim_node sn);
}.

Section shape.
Context (n : nat) (es : list (nat * nat)) (fs : list InFlight) (st t : Millis).
#[local] Abbreviation Good := (good n es fs st t).

Lemma touches_lt w i l : Good w → touches es i l → (i < n)%nat.
Proof.
  intros HG (ab & E & Hi). pose proof (gd_range _ _ _ _ _ _ HG) as Hr. rewrite Forall_forall in Hr.
  unfold index in E. destruct (0 <=? l); [|done]. apply list_elem_of_lookup_2 in E.
  destruct (Hr _ E). naive_solver.
Qed.

Lemma good_edge w i l : Good w → touches es i l →
  ∃ e, index l (edges w) = Some e ∧ index l es = Some (ends e) ∧ (edge_a e = i ∨ edge_b e = i).
Proof.
  intros HG (ab & E & Hi). pose proof (gd_ends _ _ _ _ _ _ HG) as Hes. rewrite <- Hes in E |- *.
  rewrite index_map in E |- *. destruct (index l (edges w)) as [e|]; [|done].
  exists e. cbn in *. simplify_eq. done.
Qed.

Lemma good_put w i sn sn' :
  Good w → nodes w !! i = Some sn → node_ok (touches es i) (sim_node sn') →
  Good (set_nodes w (<[i := sn']> (nodes w))).
Proof.
  intros [] Hi Hok. split; try done; cbn.
  - by rewrite length_insert.
  - intros j snj. rewrite list_lookup_insert_Some.
    intros [(<- & <- & _)|[_ Hj]]; [done|by eapply gd_nodes0].
Qed.

Lemma good_node w i : Good w → (i < n)%nat →
  ∃ sn, nodes w !! i = Some sn ∧ node_ok (touches es i) (sim_node sn).
Proof.
  intros HG Hi. destruct (lookup_lt_is_Some_2 (nodes w) i) as [sn Hsn].
  - by rewrite (gd_count _ _ _ _ _ _ HG).
  - exists sn. split; [done|]. by eapply gd_nodes.
Qed.

Lemma good_map w (f : SimNode → SimNode) :
  Good w → (∀ i sn, node_ok (touches es i) (sim_node sn) → node_ok (touches es i) (sim_node (f sn))) →
  Good (set_nodes w (map f (nodes w))).
Proof.
  intros [] Hf. split; try done; cbn.
  - by rewrite length_map.
  - intros i sn Hi. apply list_lookup_fmap_Some in Hi as (sn0 & -> & Hi). eauto.
Qed.

Lemma on_node_good w i f :
  Good w → (i < n)%nat →
  (∀ x, node_ok (touches es i) x → node_ok (touches es i) (f x)) → holds Good (on_node w i f).
Proof.
  intros HG Hi Hf. destruct (good_node w i HG Hi) as (sn & Hsn & Hok).
  unfold on_node. rewrite Hsn. apply holds_ok. eapply good_put; [done..|]. by apply Hf.
Qed.

Lemma on_event_good w i ev :
  Good w → (i < n)%nat → event_links (L:=touches es i) ev →
  holds Good (on_node w i (λ x, on_transport_event x ev)).
Proof. intros HG Hi Hev. apply on_node_good; [done..|]. intros x. by apply event_ok_node. Qed.

(** Both ends may be told of the link they share. *)
Lemma on_both_good w l e ev :
  Good w → index l es = Some (ends e) →
  match ev with LinkUp k _ _ => k = l | LinkDown _ => True | _ => False end →
  holds Good (on_both w (edge_a e) (edge_b e) ev).
Proof.
  intros HG El Hev. assert (touches es (edge_a e) l ∧ touches es (edge_b e) l) as [Ha Hb].
  { split; exists (ends e); split; cbn; auto. }
  unfold on_both. eapply holds_bind; [apply on_event_good; [exact HG|by eapply touches_lt|]|].
  - destruct ev; cbn; naive_solver.
  - intros w' HG'. apply on_event_good; [exact HG'|by eapply touches_lt|].
    destruct ev; cbn; naive_solver.
Qed.

(** ** Routing *)

Lemma good_set_tx w x : in_width 64 x → Good w → Good (set_tx_frames w x).
Proof. intros Hx []. by split. Qed.

Lemma good_flight w x :
  Forall (λ f, touches es (dest f) (if_link f)) x → fs ⊆ x → Good w → Good (set_inflight w x).
Proof. intros Hx Hfs []. by split. Qed.

Lemma toss_good w p : Good w → Good (toss w p).2.
Proof.
  intros HG. unfold toss. destruct (f64_lt _ _); [|done].
  destruct (gen_f64 _) as [x r]. cbn. by destruct HG; split.
Qed.

Lemma route_frame_good w i lf : Good w → touches es i lf.1 → holds Good (route_frame i w lf).
Proof.
  intros HG Hl. destruct (good_edge w i _ HG Hl) as (e & E & Ees & Hi). unfold route_frame.
  eapply holds_bind; [by eapply (holds_expect (λ e', e' = e))|]. intros ? ->.
  destruct (up e); cbn [negb]; [|by apply holds_ok]. cbv zeta.
  pose proof (toss_good _ (loss e) (good_set_tx w _ (wrap_in_width 64 (tx_frames w + 1) eq_refl) HG)) as Ht.
  destruct (toss _ _) as [[] w1]; apply holds_ok; cbn [snd] in Ht; [done|].
  apply good_flight; [| |done].
  - apply Forall_app. split; [by eapply gd_flight|].
    repeat constructor. exists (ends e). split; [done|]. cbn. case_match; naive_solver.
  - pose proof (gd_kept _ _ _ _ _ _ Ht). set_solver.
Qed.

Lemma collect_node_good w i : Good w → (i < n)%nat → holds Good (collect_node w i).
Proof.
  intros HG Hi. destruct (good_node w i HG Hi) as (sn & Hsn & Hok). unfold collect_node.
  eapply holds_bind; [by eapply (holds_expect (λ x, x = sn))|]. intros ? ->.
  destruct (take_events (sim_node sn)) as [evs m] eqn:Em. injection Em as _ <-.
  assert (node_ok (touches es i) (set_events (sim_node sn) [])) as Hok'.
  { by destruct Hok as [? ? []]; split. }
  apply holds_fold.
  - eapply good_put; [done..|]. cbn [sim_node]. unfold drain_outbox. by apply node_ok_filter.
  - intros w' lf Hlf HG'. apply route_frame_good; [done|]. by eapply outbox_ok.
Qed.

Lemma all_nodes_good w f :
  Good w → (∀ w i, (i < n)%nat → Good w → holds Good (f w i)) →
  holds Good (ofold f w (seq 0 (length (nodes w)))).
Proof.
  intros HG Hf. apply holds_fold; [done|]. intros w' i Hi. apply Hf.
  rewrite (gd_count _ _ _ _ _ _ HG) in Hi. apply elem_of_seq in Hi. lia.
Qed.

Lemma collect_and_route_good w : Good w → holds Good (collect_and_route w).
Proof. intros HG. apply all_nodes_good; [done|]. intros w' i Hi HG'. by apply collect_node_good. Qed.

(** ** Links going up and down *)

Lemma set_edge_up_good w l x : Good w → holds Good (set_edge_up w l x).
Proof.
  intros HG. unfold set_edge_up. destruct (index l (edges w)) as [e|] eqn:E; [|by apply holds_ok].
  destruct (Bool.eqb (up e) x); [by apply holds_ok|]. cbv zeta.
  apply (on_both_good _ l); [|by rewrite <- (gd_ends _ _ _ _ _ _ HG), index_map, E|by destruct x].
  pose proof HG as []. split; try done. cbn. rewrite list_fmap_insert, <- gd_ends0.
  apply list_insert_id. rewrite list_lookup_fmap. unfold index in E.
  destruct (0 <=? l); [|done]. by rewrite E.
Qed.

Lemma honor_closes_good w i : Good w → (i < n)%nat → holds Good (honor_closes w i).
Proof.
  intros HG Hi. destruct (good_node w i HG Hi) as (sn & Hsn & Hok). unfold honor_closes.
  eapply holds_bind; [by eapply (holds_expect (λ x, x = sn))|]. intros ? ->.
  apply holds_fold.
  - eapply good_put; [done..|]. cbn [sim_node]. by apply node_ok_filter.
  - intros w' l _ HG'. by apply set_edge_up_good.
Qed.

Lemma bootstrap_good w : Good w → holds Good (bootstrap w).
Proof.
  intros HG. unfold bootstrap. eapply holds_bind; [|apply collect_and_route_good].
  apply holds_fold; [done|]. intros w' ie Hin HG'.
  apply list_elem_of_lookup in Hin as [k Hk]. rewrite list_lookup_imap in Hk.
  apply fmap_Some in Hk as (e & Hk & ->). cbn [fst snd].
  apply (on_both_good _ (Z.of_nat k)); [done| |done].
  rewrite <- (gd_ends _ _ _ _ _ _ HG), index_map. unfold index.
  rewrite (proj2 (Z.leb_le 0 (Z.of_nat k))) by lia. by rewrite Nat2Z.id, Hk.
Qed.

(** ** One step *)

Lemma deliver_good w f : Good w → touches es (dest f) (if_link f) → holds Good (deliver w f).
Proof.
  intros HG Hf. destruct (good_edge w _ _ HG Hf) as (e & E & _). unfold deliver.
  eapply holds_bind; [by eapply (holds_expect (λ e', e' = e))|]. intros ? ->.
  destruct (up e); [|by apply holds_ok]. apply on_event_good; [done| |done].
  by eapply touches_lt.
Qed.

Lemma deliver_due_good w :
  Forall (λ f, t < deliver_at f) fs → Good w → holds Good (deliver_due w).
Proof.
  intros Hlate HG. pose proof (gd_flight _ _ _ _ _ _ HG) as Hf. rewrite Forall_forall in Hf.
  unfold deliver_due. apply holds_fold.
  - apply good_flight; [| |done].
    + apply Forall_forall. intros f [Hin _]%elem_of_filter_list. by apply Hf.
    + intros f Hin. apply elem_of_filter_list. split; [by apply (gd_kept _ _ _ _ _ _ HG)|].
      rewrite Forall_forall in Hlate. specialize (Hlate _ Hin). unfold is_due.
      rewrite (gd_now _ _ _ _ _ _ HG). apply negb_true_iff, Z.leb_gt. lia.
  - intros w' f [Hin _]%elem_of_filter_list HG'. apply deliver_good; [done|]. by apply Hf.
Qed.

Lemma tick_all_good w : Good w → Good (tick_all w).
Proof.
  intros HG. apply good_map; [done|]. intros i sn Hok. by apply (node_step_ok _ _ OpTick).
Qed.

Lemma reset_tx_good w : Good w → Good (reset_tx w).
Proof.
  intros HG. apply (good_map (set_tx_frames w 0)); [by apply good_set_tx|]. intros i sn Hok.
  by apply (node_step_ok _ _ OpResetRelays).
Qed.
End shape.

Lemma set_clock_good n es fs st t t' w : good n es fs st t w → good n es fs st t' (set_clock w t').
Proof.
  intros []. split; try done; cbn; [by rewrite length_map|].
  intros i sn Hi. apply list_lookup_fmap_Some in Hi as (sn0 & -> & Hi).
  destruct (gd_nodes0 _ _ Hi). by split.
Qed.

Lemma step_good n es fs st t w :
  Forall (λ f, wrap 64 (t + st) < deliver_at f) fs →
  good n es fs st t w → holds (good n es fs st (wrap 64 (t + st))) (step w).
Proof.
  intros Hlate HG. unfold step. rewrite (gd_now _ _ _ _ _ _ HG), (gd_step _ _ _ _ _ _ HG).
  eapply holds_bind.
  - eapply deliver_due_good; [exact Hlate|]. eapply set_clock_good, HG.
  - intros w1 HG1. eapply holds_bind; [by apply collect_and_route_good, tick_all_good|].
    intros w2 HG2. apply (all_nodes_good n es fs); [done|]. intros w' i Hi HG'.
    by apply (honor_closes_good n es fs).
Qed.

(** ** Running to a target *)

Lemma run_until_good n es st fuel target t w :
  good n es [] st t w → 1 <= st → 0 <= t → target + st <= 2 ^ 64 → target - t <= Z.of_nat fuel →
  holds (λ w', ∃ t', good n es [] st t' w' ∧ (t' = t ∨ t' < target + st) ∧ target <= t' ∧ t <= t')
    (run_until fuel target w).
Proof.
  intros HG Hst Ht Htop. revert t w HG Ht.
  induction fuel as [|fuel IH]; intros t w HG Ht Hf; cbn [run_until];
    rewrite (gd_now _ _ _ _ _ _ HG); destruct (Z.ltb_spec t target) as [Et|Et]; try lia;
    try (apply holds_ok; exists t; split_and!; [done|by left|lia|lia]).
  assert (wrap 64 (t + st) = t + st) as Ew by (unfold wrap; apply Z.mod_small; lia).
  eapply holds_bind; [by eapply step_good|]. intros w1 HG1. cbn beta in HG1. rewrite Ew in HG1.
  eapply holds_mono; [|apply (IH (t + st)); [done|lia|lia]].
  intros w' (t' & HG' & Hor & Hge & Hle). exists t'. split_and!; [done| |done|lia]. destruct Hor; [right; lia|by right].
Qed.

Lemma run_for_good n es st t w d :
  good n es [] st t w → 1 <= st → 0 <= t → 0 <= d → t + d + st <= 2 ^ 64 →
  holds (λ w', ∃ t', good n es [] st t' w' ∧ t + d <= t' < t + d + st) (run_for w d).
Proof.
  intros HG Hst Ht Hd Htop. unfold run_for. rewrite (gd_now _ _ _ _ _ _ HG).
  assert (wrap 64 (t + d) = t + d) as -> by (unfold wrap; apply Z.mod_small; lia).
  eapply holds_mono; [|eapply run_until_good; [done|done|done|lia|lia]].
  intros w' (t' & HG' & Hor & Hge & Hle). exists t'. split; [done|]. lia.
Qed.

(** ** Every operation of a world *)

(** What an operation needs: nodes that exist, links the node is an end of, and a target the
    64-bit clock can reach. *)
Definition fits (w : World) (o : world_op) : Prop :=
  match o with
  | WLink a b _ _ _ | WConnect a b _ _ _ => (a < node_count w)%nat ∧ (b < node_count w)%nat
  | WNode i o => (i < node_count w)%nat ∧ op_links (L:=touches (map ends (edges w)) i) o
                 ∧ ∀ d, o ≠ OpClock d
  | WRunFor d => 0 <= d ∧ world_now w + d + step_ms w <= 2 ^ 64
  | _ => True
  end.

(** How the clock moves. *)
Definition on_time (w : World) (o : world_op) (w' : World) : Prop :=
  match o with
  | WRunFor d => world_now w + d <= world_now w' < world_now w + d + step_ms w
  | _ => world_now w' = world_now w
  end.

Definition world_ok (n : nat) (w : World) : Prop :=
  good n (map ends (edges w)) [] (step_ms w) (world_now w) w ∧ 1 <= step_ms w ∧ 0 <= world_now w.

Lemma good_world_ok n es st t w : good n es [] st t w → 1 <= st → 0 <= t → world_ok n w.
Proof. intros [] ? ?. subst. by split; [split|split]. Qed.

Lemma link_good n es st t w a b lat p m :
  good n es [] st t w → (a < n)%nat → (b < n)%nat →
  good n (es ++ [(a, b)]) [] st t (link w a b lat p m).2.
Proof.
  intros [] Ha Hb. split; try done; cbn.
  - by rewrite map_app, gd_ends0.
  - apply Forall_app. split; [done|]. by repeat constructor.
  - eapply Forall_impl; [done|]. intros f. apply touches_app.
  - intros i sn Hi. eapply node_ok_mono; [|by apply gd_nodes0]. intros l. apply touches_app.
Qed.

Lemma connect_good n es st t w a b lat p m :
  good n es [] st t w → (a < n)%nat → (b < n)%nat →
  holds (λ r, good n (es ++ [(a, b)]) [] st t r.2) (connect w a b lat p m).
Proof.
  intros HG Ha Hb. unfold connect. destruct (link w a b lat p m) as [id w1] eqn:El.
  pose proof (link_good n es st t w a b lat p m HG Ha Hb) as HG1. rewrite El in HG1.
  cbn [snd] in HG1. injection El as Eid _.
  assert (∀ i, i = a ∨ i = b → touches (es ++ [(a, b)]) i id) as Hid.
  { intros i Hi. exists (a, b). split; [|naive_solver]. subst id. unfold index, zlen.
    rewrite <- (gd_ends _ _ _ _ _ _ HG), (proj2 (Z.leb_le 0 _)) by lia. rewrite Nat2Z.id.
    rewrite lookup_app_r; rewrite length_map; [by rewrite Nat.sub_diag|lia]. }
  eapply holds_bind; [by apply on_event_good; [exact HG1|done|apply Hid; left]|].
  intros w2 HG2. eapply holds_bind; [by apply on_event_good; [exact HG2|done|apply Hid; right]|].
  intros w3 HG3. eapply holds_bind; [by apply collect_and_route_good|].
  intros w4 HG4. by apply holds_ok.
Qed.

Lemma world_step_ok n w o :
  world_ok n w → fits w o → holds (λ w', world_ok n w' ∧ on_time w o w') (world_step w o).
Proof.
  intros (HG & Hst & Ht) Ho. assert (Hn := gd_count _ _ _ _ _ _ HG).
  assert (∀ es w', good n es [] (step_ms w) (world_now w) w' →
            world_ok n w' ∧ world_now w' = world_now w) as Hback.
  { intros es w' HG'. split; [by eapply good_world_ok|by destruct HG']. }
  destruct o; cbn [world_step fits on_time] in *; unfold node_count in *; rewrite ?Hn in Ho.
  - apply holds_ok. eapply Hback, link_good; [exact HG|apply Ho|apply Ho].
  - eapply holds_bind; [eapply connect_good; [exact HG|apply Ho|apply Ho]|].
    intros r Hr. apply holds_ok. exact (Hback _ _ Hr).
  - apply (holds_mono _ _ _ (Hback (map ends (edges w)))), bootstrap_good, HG.
  - apply (holds_mono _ _ _ (Hback (map ends (edges w)))), set_edge_up_good, HG.
  - apply holds_ok. split; [|done]. eapply (good_world_ok n _ (Z.max step 1)); [|lia|done].
    by destruct HG; split.
  - apply holds_ok. eapply Hback, reset_tx_good, HG.
  - apply (holds_mono _ _ _ (Hback (map ends (edges w)))), on_node_good; [exact HG|apply Ho|].
    intros x. apply node_step_ok, Ho.
  - destruct Ho as [Hd Htop]. eapply holds_mono; [|by eapply run_for_good].
    intros w' (t' & HG' & Ht'). split; [eapply good_world_ok; [exact HG'|lia..]|].
    destruct HG'. lia.
Qed.

(** ** Reachable worlds *)

Inductive reachable (n : nat) (cfg : Tunables) (seed : Z) : World → Prop :=
  | reach_new : reachable n cfg seed (World_new n cfg seed)
  | reach_step w o w' :
      reachable n cfg seed w → fits w o → world_step w o = Ok w' → reachable n cfg seed w'.

Lemma World_new_ok n cfg seed : world_ok n (World_new n cfg seed).
Proof.
  split; [|by cbn]. split; cbn; try done.
  - by rewrite length_map, length_seq.
  - intros i sn Hi. apply list_lookup_fmap_Some in Hi as (k & -> & _). split.
    + done.
    + apply MeshNode_new_reassembling.
    + split; [|constructor]. intros l Hl. cbn in Hl. set_solver.
Qed.

Lemma reachable_ok n cfg seed w : reachable n cfg seed w → world_ok n w.
Proof.
  induction 1 as [|w o w' _ IH Ho E]; [apply World_new_ok|].
  destruct (world_step_ok n w o IH Ho) as (w1 & E1 & Hok & _). congruence.
Qed.

(** C15: in every world a scenario can build, every operation within its bounds succeeds: no index
    is out of range, no node panics, no closing link is unknown, and [run_for] ends, less than one
    step after its target. *)
Theorem world_runs n cfg seed w o :
  reachable n cfg seed w → fits w o →
  ∃ w', world_step w o = Ok w' ∧ on_time w o w' ∧ node_count w' = n
        ∧ Forall (λ sn, panicked (sim_node sn) = false) (nodes w').
Proof.
  intros Hw Ho. destruct (world_step_ok n w o (reachable_ok _ _ _ _ Hw) Ho) as (w' & E & Hok & Ht).
  exists w'. destruct Hok as [HG _]. split_and!; [done|done|by destruct HG|].
  apply Forall_lookup. intros i sn Hi. by destruct (gd_nodes _ _ _ _ _ _ HG i sn Hi).
Qed.

(** C26: the references of a reachable world are well formed: links join existing nodes, a frame
    in flight is on an existing link and addressed to one of its ends, and a node holds links, and
    has frames and closings pending, only for links it is an end of itself. *)
Theorem world_well_formed n cfg seed w :
  reachable n cfg seed w →
  let at_end i l := ∃ e, index l (edges w) = Some e ∧ (edge_a e = i ∨ edge_b e = i) in
  (∀ e, e ∈ edges w → edge_a e < node_count w ∧ edge_b e < node_count w)%nat
  ∧ (∀ f, f ∈ inflight w → at_end (dest f) (if_link f))
  ∧ ∀ i sn, nodes w !! i = Some sn →
      (∀ l, l ∈ dom (links (sim_node sn)) → at_end i l)
      ∧ ∀ c, c ∈ sent (sim_node sn) → at_end i (call_link c).
Proof.
  intros Hw at_end. destruct (reachable_ok _ _ _ _ Hw) as [HG _].
  assert (∀ i l, touches (map ends (edges w)) i l → at_end i l) as Hend.
  { intros i l Hl. destruct (good_edge _ _ _ _ _ w i l HG Hl) as (e & E & _ & Hi). by exists e. }
  split_and!.
  - intros e He. pose proof (gd_range _ _ _ _ _ _ HG) as Hr. rewrite Forall_forall in Hr.
    unfold node_count. rewrite (gd_count _ _ _ _ _ _ HG). apply (Hr (ends e)).
    by apply list_elem_of_fmap_2.
  - intros f Hf. apply Hend. pose proof (gd_flight _ _ _ _ _ _ HG) as Hall.
    rewrite Forall_forall in Hall. by apply Hall.
  - intros i sn Hi. destruct (gd_nodes _ _ _ _ _ _ HG i sn Hi) as [_ _ [Hl Hc]].
    split; [intros l Hin; by apply Hend, Hl|]. intros c Hin. rewrite Forall_forall in Hc.
    by apply Hend, Hc.
Qed.
End props.

(** ** Witnesses: two nodes on one link *)

Definition demo_world : World := (link (World_new 2 Tunables_default 7) 0 1 15 (f64_of_int 0) 182).2.

Lemma demo_world_reachable : reachable 2 Tunables_default 7 demo_world.
Proof.
  eapply (reach_step _ _ _ _ (WLink 0 1 15 (f64_of_int 0) 182)); [apply reach_new| |reflexivity].
  cbn. lia.
Qed.

(** The world after both ends came up: announces are in flight. *)
Definition demo_up : World :=
  match bootstrap demo_world with Ok w => w | _ => demo_world end.

Lemma demo_up_eq : bootstrap demo_world = Ok demo_up.
Proof.
  assert (is_ok (bootstrap demo_world) = true) as Hok by by vm_compute.
  unfold demo_up. by destruct (bootstrap demo_world).
Qed.

Lemma demo_up_reachable : reachable 2 Tunables_default 7 demo_up.
Proof. eapply (reach_step _ _ _ _ WBootstrap); [apply demo_world_reachable|done|exact demo_up_eq]. Qed.

Lemma demo_up_clock : world_now demo_up = 0 ∧ step_ms demo_up = 10.
Proof. by vm_compute. Qed.

Lemma world_runs_witness :
  ∃ w', run_for demo_up 1000 = Ok w' ∧ 1000 <= world_now w' < 1010
        ∧ Forall (λ sn, panicked (sim_node sn) = false) (nodes w').
Proof.
  destruct (world_runs 2 Tunables_default 7 demo_up (WRunFor 1000)) as (w' & E & Ht & _ & Hp).
  - exact demo_up_reachable.
  - vm_compute. split; congruence.
  - exists w'. split; [exact E|]. split; [|exact Hp].
    destruct demo_up_clock as [E1 E2]. cbn [on_time] in Ht. rewrite E1, E2 in Ht. exact Ht.
Defined.

Lemma world_well_formed_witness :
  inflight demo_up ≠ [] ∧ ∀ f, f ∈ inflight demo_up →
    ∃ e, index (if_link f) (edges demo_up) = Some e ∧ (edge_a e = dest f ∨ edge_b e = dest f).
Proof.
  split; [by vm_compute|].
  exact (proj1 (proj2 (world_well_formed 2 Tunables_default 7 demo_up demo_up_reachable))).
Defined.
