(* ===== verification/SimDelivery.v ===== *)
(** * SimDelivery: what the radio carries

    The exact effect of a delivery phase on every node, the exact effect of routing over links
    without loss, and the liveness of the radio: no frame in flight is forgotten. *)
From stdpp Require Import strings gmap.
From S2P Require Import Prelude Errors F64 Utf8 Clock External Toy Transport Wire Config Frag.
From S2P Require Import Compress Relay Channels Store Identity Noise Payloads Node NodeFrame.
From S2P Require Import NodeInvariants Sim SimProps.

Section delivery.
Context `{Sha256, Ed25519, X25519, Snow, Lz4, Rand, HashIter, UnicodeCase}.
Context `{!SnowLaws}.

(** ** Delivery *)

Definition link_up (w : World) (l : LinkId) : bool :=
  match index l (edges w) with Some e => up e | None => false end.

(** What [fs] brings to node [i]: the frames addressed to it over links that are up, in order. *)
Definition arrivals (w : World) (fs : list InFlight) (i : nat) : list TransportEvent :=
  map (λ f, FrameReceived (if_link f) (if_frame f))
    (List.filter (λ f, (dest f =? i)%nat && link_up w (if_link f)) fs).

Definition hear (evs : list TransportEvent) (sn : SimNode) : SimNode :=
  mkSimNode (foldl on_transport_event (sim_node sn) evs) (sim_events sn).

Lemma hear_nothing sn : hear [] sn = sn.
Proof. by destruct sn. Qed.

Lemma set_nodes_twice w x y : set_nodes (set_nodes w x) y = set_nodes w y.
Proof. done. Qed.

Lemma nodes_set_nodes w x : nodes (set_nodes w x) = x.
Proof. done. Qed.

Lemma arrivals_set_nodes w x fs i : arrivals (set_nodes w x) fs i = arrivals w fs i.
Proof. done. Qed.

Lemma deliver_list n es gs st t w fs :
  good n es gs st t w → Forall (λ f, touches es (dest f) (if_link f)) fs →
  ofold deliver w fs = Ok (set_nodes w (imap (λ i, hear (arrivals w fs i)) (nodes w))).
Proof.
  intros HG Hfs. revert w HG. induction Hfs as [|f fs Hf Hfs IH]; intros w HG; cbn [ofold].
  - rewrite (imap_ext _ (λ _ sn, sn)) by (intros; apply hear_nothing).
    assert (imap (λ _ sn, sn) (nodes w) = nodes w) as ->; [|by destruct w].
    apply list_eq. intros i. rewrite list_lookup_imap. by destruct (nodes w !! i).
  - destruct (deliver_good _ _ _ _ _ w f HG Hf) as (w1 & E1 & HG1). rewrite E1. cbn [obind].
    destruct (good_edge _ _ _ _ _ w _ _ HG Hf) as (e & E & _). unfold deliver in E1.
    rewrite E in E1. cbn [expect obind] in E1.
    assert (∀ i, arrivals w (f :: fs) i =
      (if (dest f =? i)%nat && up e then [FrameReceived (if_link f) (if_frame f)] else [])
        ++ arrivals w fs i) as Hcons.
    { intros i. unfold arrivals at 1. cbn [List.filter]. unfold link_up at 1. rewrite E.
      by destruct (_ && _). }
    rewrite IH by exact HG1. destruct (up e).
    + unfold on_node in E1. destruct (nodes w !! dest f) as [sn|] eqn:Esn; [|done].
      cbn [expect obind] in E1. injection E1 as <-. f_equal.
      rewrite set_nodes_twice. f_equal. apply list_eq. intros i.
      rewrite !list_lookup_imap, Hcons, andb_true_r, nodes_set_nodes, arrivals_set_nodes.
      destruct (decide (dest f = i)) as [<-|Hne].
      * rewrite Nat.eqb_refl, list_lookup_insert_eq, Esn; [done|by eapply lookup_lt_Some].
      * rewrite list_lookup_insert_ne, (proj2 (Nat.eqb_neq _ _)) by done. done.
    + injection E1 as <-. do 2 f_equal. apply imap_ext. intros i sn _.
      by rewrite Hcons, andb_false_r.
Qed.

(** A delivery phase hands every node the due frames addressed to it over links that are up, in
    the order they were sent, and leaves the others in flight. *)
Lemma deliver_due_spec n es gs st t w :
  good n es gs st t w →
  let due := List.filter (is_due (world_now w)) (inflight w) in
  let rest := List.filter (λ f, negb (is_due (world_now w) f)) (inflight w) in
  deliver_due w = Ok (set_inflight (set_nodes w (imap (λ i, hear (arrivals w due i)) (nodes w))) rest).
Proof.
  intros HG due rest. pose proof (gd_flight _ _ _ _ _ _ HG) as Hf. rewrite Forall_forall in Hf.
  unfold deliver_due. fold due rest.
  assert (Forall (λ f, touches es (dest f) (if_link f)) rest) as Hrest.
  { apply Forall_forall. intros f [Hin _]%elem_of_filter_list. by apply Hf. }
  apply (deliver_list n es [] st t).
  - apply good_flight; [done|set_solver|]. destruct HG. split; try done. set_solver.
  - apply Forall_forall. intros f [Hin _]%elem_of_filter_list. by apply Hf.
Qed.

(** ** Routing without loss *)

Definition lossless (e : Edge) : Prop := f64_lt (f64_of_int 0) (loss e) = false.

Definition other_end (e : Edge) (i : nat) : nat := if (edge_a e =? i)%nat then edge_b e else edge_a e.

(** A frame that node [i] sends: on its way to the other end of a link that is up. *)
Definition routed (w : World) (i : nat) (lf : LinkId * bytes) : option InFlight :=
  e ← index lf.1 (edges w);
  if up e then Some (mkInFlight (wrap 64 (world_now w + latency_ms e)) (other_end e i) lf.1 lf.2)
  else None.

(** Everything node [i] has to send. *)
Definition sent_by (w : World) (i : nat) : list InFlight :=
  match nodes w !! i with
  | Some sn => omap (routed w i) (outbox (sim_node sn))
  | None => []
  end.

(** The node after its buffers were emptied. *)
Definition collected (sn : SimNode) : SimNode :=
  mkSimNode (drain_outbox (take_events (sim_node sn)).2) (sim_events sn ++ events (sim_node sn)).

(** [fs] put on the air. *)
Definition aired (w : World) (fs : list InFlight) : World :=
  set_inflight (set_tx_frames w (wrap 64 (tx_frames w + zlen fs))) (inflight w ++ fs).

Lemma aired_nil w : in_width 64 (tx_frames w) → aired w [] = w.
Proof.
  intros Hw. unfold aired, wrap. rewrite app_nil_r, zlen_nil, Z.add_0_r, Z.mod_small by done.
  by destruct w.
Qed.

Lemma aired_app w fs gs : aired (aired w fs) gs = aired w (fs ++ gs).
Proof.
  unfold aired. cbn. unfold set_inflight, set_tx_frames. cbn. rewrite <- app_assoc. f_equal.
  unfold wrap. rewrite zlen_app, Zplus_mod_idemp_l. f_equal. lia.
Qed.

Lemma route_list n es gs st t w i out :
  good n es gs st t w → Forall lossless (edges w) → Forall (λ lf, touches es i lf.1) out →
  ofold (route_frame i) w out = Ok (aired w (omap (routed w i) out)).
Proof.
  intros HG Hl Hout. revert w HG Hl. induction Hout as [|lf out Hlf Hout IH]; intros w HG Hl.
  { cbn. by rewrite aired_nil by by destruct HG. }
  cbn [ofold omap list_omap]. destruct (route_frame_good _ _ _ _ _ w i lf HG Hlf) as (w1 & E1 & HG1).
  rewrite E1. cbn [obind]. destruct (good_edge _ _ _ _ _ w _ _ HG Hlf) as (e & E & _).
  unfold route_frame in E1. unfold routed at 1. rewrite E in E1 |- *. cbn [expect obind mbind option_bind] in *.
  assert (lossless e) as Hle.
  { rewrite Forall_forall in Hl. apply Hl. unfold index in E. destruct (0 <=? lf.1); [|done].
    by apply list_elem_of_lookup_2 in E. }
  destruct (up e); cbn [negb] in E1; [|injection E1 as <-; by apply IH].
  unfold toss in E1. rewrite Hle in E1. cbv zeta beta iota in E1.
  set (x := mkInFlight _ _ _ _) in E1 |- *. assert (w1 = aired w [x]) as ->.
  { injection E1 as <-. done. }
  rewrite IH; [|done|done]. change (routed (aired w [x]) i) with (routed w i).
  by rewrite aired_app.
Qed.

Lemma collect_node_spec n es gs st t w i sn :
  good n es gs st t w → Forall lossless (edges w) → nodes w !! i = Some sn →
  collect_node w i = Ok (aired (set_nodes w (<[i := collected sn]> (nodes w))) (sent_by w i)).
Proof.
  intros HG Hl Hi. unfold collect_node, sent_by. rewrite Hi. cbn [expect obind].
  pose proof (gd_nodes _ _ _ _ _ _ HG i sn Hi) as Hok. unfold take_events at 1.
  change (outbox (set_events (sim_node sn) [])) with (outbox (sim_node sn)).
  rewrite (route_list n es gs st t); [done| |done|].
  - eapply good_put; [done..|]. cbn [sim_node]. apply node_ok_filter.
    by destruct Hok as [? ? []]; split.
  - apply Forall_forall. intros lf. by apply outbox_ok.
Qed.

Lemma collect_nodes n es gs st t w js :
  good n es gs st t w → Forall lossless (edges w) → NoDup js → Forall (λ i, (i < n)%nat) js →
  ofold collect_node w js =
    Ok (aired (set_nodes w (imap (λ i sn, if bool_decide (i ∈ js) then collected sn else sn) (nodes w)))
          (concat (map (sent_by w) js))).
Proof.
  intros HG Hl Hnd His. revert w HG Hl Hnd. induction His as [|i js Hi His IH]; intros w HG Hl Hnd.
  { cbn [ofold map concat]. rewrite aired_nil by by destruct HG.
    assert (imap (λ i sn, if bool_decide (i ∈ []) then collected sn else sn) (nodes w) = nodes w) as ->.
    { apply list_eq. intros j. rewrite list_lookup_imap. by destruct (nodes w !! j). }
    by destruct w. }
  apply NoDup_cons in Hnd as [Hfresh Hnd]. cbn [ofold map concat].
  destruct (good_node _ _ _ _ _ w i HG Hi) as (sn & Esn & _).
  destruct (collect_node_good _ _ _ _ _ w i HG Hi) as (w1 & E1 & HG1). rewrite E1. cbn [obind].
  rewrite (collect_node_spec n es gs st t w i sn HG Hl Esn) in E1. injection E1 as <-.
  rewrite IH; [|done|exact Hl|done].
  set (fs := sent_by w i). set (w2 := set_nodes w (<[i := collected sn]> (nodes w))).
  assert (map (sent_by (aired w2 fs)) js = map (sent_by w) js) as ->.
  { apply map_ext_in. intros j Hj%list_elem_of_In. unfold sent_by. cbn [nodes aired w2 set_nodes].
    change (nodes (aired w2 fs)) with (<[i := collected sn]> (nodes w)).
    rewrite list_lookup_insert_ne by (intros ->; done). done. }
  rewrite <- aired_app. f_equal. f_equal. unfold aired, set_nodes, set_inflight, set_tx_frames, w2.
  cbn. f_equal. apply list_eq. intros j. rewrite !list_lookup_imap.
  destruct (decide (i = j)) as [<-|Hne].
  - rewrite list_lookup_insert_eq, Esn by by eapply lookup_lt_Some. cbn.
    rewrite bool_decide_eq_false_2, bool_decide_eq_true_2; [done|left|done].
  - rewrite list_lookup_insert_ne by done. destruct (nodes w !! j) as [sj|]; [|done]. cbn. f_equal.
    by rewrite (bool_decide_ext (j ∈ i :: js) (j ∈ js)) by set_solver.
Qed.

(** Over links without loss, routing puts every frame the nodes have sent on links that are up
    in flight to the other end, node by node in order, for the link's latency; it counts exactly
    those, and leaves the nodes with empty outboxes and their events handed over. *)
Theorem lossless_routing n cfg seed w :
  reachable n cfg seed w → Forall lossless (edges w) →
  ∃ w', collect_and_route w = Ok w'
    ∧ inflight w' = inflight w ++ concat (map (sent_by w) (seq 0 n))
    ∧ tx_frames w' = wrap 64 (tx_frames w + zlen (concat (map (sent_by w) (seq 0 n))))
    ∧ nodes w' = map collected (nodes w)
    ∧ edges w' = edges w ∧ world_rng w' = world_rng w.
Proof.
  intros Hw Hl. destruct (reachable_ok _ _ _ _ Hw) as (HG & _).
  eexists. unfold collect_and_route. rewrite (gd_count _ _ _ _ _ _ HG). split_and!.
  - eapply collect_nodes; [exact HG|done|apply NoDup_seq|].
    apply Forall_forall. intros i Hi%elem_of_seq. lia.
  - done.
  - done.
  - cbn. apply list_eq. intros j. rewrite list_lookup_imap, list_lookup_fmap.
    destruct (nodes w !! j) as [sj|] eqn:Ej; [|done]. cbn. f_equal.
    rewrite bool_decide_eq_true_2; [done|]. apply elem_of_seq.
    pose proof (lookup_lt_Some _ _ _ Ej). pose proof (gd_count _ _ _ _ _ _ HG). lia.
  - done.
  - done.
Qed.

(** ** Liveness *)

Fixpoint steps (k : nat) (w : World) : outcome unit World :=
  match k with
  | O => Ok w
  | S k => let* w := step w in steps k w
  end.

Lemma due_in_some_step n es f k st t w :
  good n es [f] st t w → 1 <= st → 0 <= t → deliver_at f + st <= 2 ^ 64 →
  deliver_at f - t <= Z.of_nat k →
  ∃ j w' t', (j ≤ k)%nat ∧ steps j w = Ok w' ∧ good n es [f] st t' w' ∧ t' = t + Z.of_nat j * st
    ∧ (j = O ∨ t' < deliver_at f) ∧ deliver_at f <= t' + st.
Proof.
  intros HG Hst Ht Htop. revert t w HG Ht. induction k as [|k IH]; intros t w HG Ht Hk.
  { exists O, w, t. split_and!; auto; lia. }
  destruct (Z.leb_spec (deliver_at f) (t + st)) as [Hle|Hlt].
  { exists O, w, t. split_and!; auto; lia. }
  assert (wrap 64 (t + st) = t + st) as Ew by (unfold wrap; apply Z.mod_small; lia).
  destruct (step_good n es [f] st t w) as (w1 & E1 & HG1); [|exact HG|].
  { rewrite Ew. by repeat constructor. }
  rewrite Ew in HG1. destruct (IH (t + st) w1 HG1) as (j & w' & t' & Hj & E & HG' & -> & Hor & Hd);
    [lia|lia|].
  exists (S j), w', (t + st + Z.of_nat j * st). cbn [steps]. rewrite E1. split_and!; try done; [lia|lia|].
  right. destruct Hor as [->|]; [|done]. cbn in E. injection E as <-.
  pose proof (gd_now _ _ _ _ _ _ HG'). pose proof (gd_now _ _ _ _ _ _ HG1). lia.
Qed.

(** The frames that are due for node [j] at time [t], over links that are up, in the order they
    went on the air. *)
Definition due_for (w : World) (t : Millis) (j : nat) : list InFlight :=
  List.filter (λ f, is_due t f && ((dest f =? j)%nat && link_up w (if_link f))) (inflight w).

(** Delivery, for every node at once. *)
Lemma deliver_due_nodes n es gs st t w :
  good n es gs st t w →
  ∃ w', deliver_due w = Ok w' ∧ world_now w' = world_now w ∧ edges w' = edges w
    ∧ inflight w' = List.filter (λ f, negb (is_due (world_now w) f)) (inflight w)
    ∧ ∀ j, nodes w' !! j = (λ sn, mkSimNode
        (foldl on_transport_event (sim_node sn)
           (map (λ f, FrameReceived (if_link f) (if_frame f)) (due_for w (world_now w) j)))
        (sim_events sn)) <$> nodes w !! j.
Proof.
  intros HG. eexists. split; [exact (deliver_due_spec _ _ _ _ _ _ HG)|]. split_and!; [done..|].
  intros j. cbn [nodes set_inflight set_nodes]. rewrite list_lookup_imap.
  destruct (nodes w !! j) as [sn|]; [|done]. cbn. unfold hear, arrivals, due_for. by rewrite filter_filter_and.
Qed.

(** C16: liveness of the radio. For every frame in flight there is a number of steps, at most the
    milliseconds that remain, after which the next step is the first whose time is at or past the
    frame's. The delivery phase of that step takes off the air exactly the frames that are due, and
    every node handles those that are due for it over links that are up, each once, in the order
    they went on the air, and nothing else; the frame is one of them if its link is then up. *)
Theorem frames_are_delivered n cfg seed w f :
  reachable n cfg seed w → f ∈ inflight w →
  Z.max (world_now w) (deliver_at f) + step_ms w < 2 ^ 64 →
  ∃ k w1 w2, let t := world_now w + Z.of_nat (S k) * step_ms w in
    Z.of_nat k <= Z.max 0 (deliver_at f - world_now w) ∧ steps k w = Ok w1
    ∧ (k = O ∨ world_now w1 < deliver_at f) ∧ deliver_at f <= t
    ∧ world_now w1 = world_now w + Z.of_nat k * step_ms w ∧ f ∈ inflight w1
    ∧ deliver_due (set_clock w1 t) = Ok w2 ∧ world_now w2 = t ∧ edges w2 = edges w1
    ∧ inflight w2 = List.filter (λ g, negb (is_due t g)) (inflight w1)
    ∧ (∀ j, nodes w2 !! j = (λ sn, mkSimNode
         (foldl on_transport_event (set_now (sim_node sn) t)
            (map (λ g, FrameReceived (if_link g) (if_frame g)) (due_for w1 t j)))
         (sim_events sn)) <$> nodes w1 !! j)
    ∧ f ∉ inflight w2 ∧ (link_up w1 (if_link f) = true → f ∈ due_for w1 t (dest f)).
Proof.
  intros Hw Hf Htop. destruct (reachable_ok _ _ _ _ Hw) as (HG & Hst & Ht).
  assert (good n (map ends (edges w)) [f] (step_ms w) (world_now w) w) as HGf.
  { destruct HG. split; try done. by intros x ->%list_elem_of_singleton. }
  destruct (due_in_some_step _ _ f (Z.to_nat (deliver_at f - world_now w)) _ _ w HGf)
    as (k & w1 & t1 & Hk & Ek & HG1 & Et1 & Hor & Hdue); [done|done|lia|lia|].
  pose proof (gd_now _ _ _ _ _ _ HG1) as En. pose proof (gd_step _ _ _ _ _ _ HG1) as Es.
  assert (f ∈ inflight w1) as Hf1 by (apply (gd_kept _ _ _ _ _ _ HG1); set_solver).
  assert (world_now w + Z.of_nat (S k) * step_ms w = t1 + step_ms w) as Et by lia.
  destruct (deliver_due_nodes _ _ _ _ _ _ (set_clock_good _ _ _ _ _ (t1 + step_ms w) _ HG1))
    as (w2 & E2 & Hn2 & He2 & Hi2 & Hnodes).
  exists k, w1, w2. cbv zeta. rewrite Et.
  assert (is_due (t1 + step_ms w) f = true) as Hd by (by apply Z.leb_le).
  split_and!; [lia|done|by rewrite En|done|by rewrite En|done|exact E2|exact Hn2|exact He2|exact Hi2| | |].
  - intros j. rewrite Hnodes. cbn [nodes set_clock]. rewrite list_lookup_fmap. by destruct (nodes w1 !! j).
  - rewrite Hi2. intros [_ Hn]%elem_of_filter_list. cbn [world_now set_clock] in Hn. by rewrite Hd in Hn.
  - intros Hup. unfold due_for. apply elem_of_filter_list. by rewrite Hd, Nat.eqb_refl, Hup.
Qed.
End delivery.

(** ** Witnesses *)

Lemma lossless_routing_witness :
  ∃ w', collect_and_route demo_up = Ok w' ∧ edges w' = edges demo_up.
Proof.
  destruct (lossless_routing 2 Tunables_default 7 demo_up demo_up_reachable)
    as (w' & E & _ & _ & _ & He & _).
  - apply List.Forall_forall. vm_compute. intros e [<-|[]]. reflexivity.
  - exists w'. split; [exact E|exact He].
Defined.

(** The first announce on the air. *)
Definition first_frame : InFlight := default (mkInFlight 0 0 0 []) (head (inflight demo_up)).

Lemma first_frame_due : deliver_at first_frame = 15.
Proof. by vm_compute. Qed.

Lemma first_frame_in_flight : first_frame ∈ inflight demo_up.
Proof.
  assert (bool_decide (inflight demo_up = []) = false) as He by by vm_compute.
  apply bool_decide_eq_false in He. unfold first_frame.
  destruct (inflight demo_up) as [|f l]; [done|]. apply list_elem_of_here.
Qed.

Lemma frames_are_delivered_witness :
  ∃ w1 w2 sn, steps 1 demo_up = Ok w1 ∧ world_now w1 = 10
    ∧ deliver_due (set_clock w1 20) = Ok w2 ∧ nodes w1 !! dest first_frame = Some sn
    ∧ first_frame ∈ due_for w1 20 (dest first_frame)
    ∧ nodes w2 !! dest first_frame = Some (mkSimNode
        (foldl on_transport_event (set_now (sim_node sn) 20)
           (map (λ g, FrameReceived (if_link g) (if_frame g)) (due_for w1 20 (dest first_frame))))
        (sim_events sn)).
Proof.
  destruct demo_up_clock as [E2 E3]. pose proof first_frame_due as E1.
  destruct (frames_are_delivered 2 Tunables_default 7 demo_up first_frame)
    as (k & w1 & w2 & Hk & Ek & Hor & Hd & Hnow & _ & Ew2 & _ & _ & _ & Hnodes & _ & Hin).
  - exact demo_up_reachable.
  - exact first_frame_in_flight.
  - rewrite E1, E2, E3. reflexivity.
  - rewrite E2, E3 in Hd, Hnow, Ew2, Hnodes, Hin. rewrite E1 in Hd, Hor.
    assert (k = 1%nat) as -> by (clear -Hd Hor Hnow; lia).
    change (0 + Z.of_nat 2 * 10) with 20 in *. change (0 + Z.of_nat 1 * 10) with 10 in Hnow.
    assert (match steps 1 demo_up with Ok w => link_up w (if_link first_frame) | _ => false end = true) as Hup
      by (by vm_compute).
    assert (match steps 1 demo_up with Ok w => (dest first_frame <? length (nodes w))%nat | _ => false end = true)
      as Hlen by (by vm_compute).
    rewrite Ek in Hup, Hlen. apply Nat.ltb_lt, lookup_lt_is_Some in Hlen as [sn Hsn].
    exists w1, w2, sn. split; [exact Ek|]. split; [exact Hnow|]. split; [exact Ew2|]. split; [exact Hsn|].
    split; [exact (Hin Hup)|]. by rewrite Hnodes, Hsn.
Defined.
