(* ===== verification/Scenarios.v ===== *)
(** * Scenarios: the simulator's scenario runners ([sim/src/scenarios.rs])

    Each runner builds a world, drives it and measures; the answers are outcomes because a world's
    operations are. The examples at the end evaluate the runners over the toy libraries. *)
From stdpp Require Import strings pretty gmap.
From S2P Require Import Prelude Errors F64 Utf8 Clock External Toy Transport Wire Config Frag.
From S2P Require Import Compress Relay Channels Store Identity Noise Payloads Node Topology Sim.

Definition MTU : Z := 182.
Definition LINK_LATENCY_MS : Millis := 15.

(** Every TTL lifted, and a high rebroadcast probability. *)
Definition crowd_cfg : Tunables :=
  let d := Tunables_default in {|
  default_mtu := default_mtu d;
  reassembly_slots := reassembly_slots d;
  reassembly_timeout_ms := reassembly_timeout_ms d;
  reassembly_max_bytes := reassembly_max_bytes d;
  ttl_announce := 24;
  ttl_announce_dense := 24;
  ttl_channel := 24;
  ttl_channel_dense := 24;
  ttl_dm := 24;
  ttl_dm_dense := 24;
  dense_degree := dense_degree d;
  jitter_min_ms := jitter_min_ms d;
  jitter_max_ms := jitter_max_ms d;
  suppression_threshold := suppression_threshold d;
  relay_prob_sparse := f64_of_int 1;
  relay_prob_mid := f64_of_int 1;
  relay_prob_dense := f64_ratio 85 100;
  relay_sparse_max := relay_sparse_max d;
  relay_mid_max := relay_mid_max d;
  seen_cache_capacity := seen_cache_capacity d;
  seen_cache_ttl_ms := seen_cache_ttl_ms d;
  rate_burst := rate_burst d;
  rate_sustained_per_min := rate_sustained_per_min d;
  greylist_ms := greylist_ms d;
  pow_bits := pow_bits d;
  compress_min_bytes := compress_min_bytes d;
  decompress_max_bytes := decompress_max_bytes d;
  channel_history_ms := channel_history_ms d;
  channel_history_max_msgs := channel_history_max_msgs d;
  envelope_ttl_ms := envelope_ttl_ms d;
  envelope_max_per_peer := envelope_max_per_peer d;
|}.

Definition CROWD_DEGREE : f64 := f64_of_int 12.

Definition str (s : string) : rstring := String.list_byte_of_string s.

Definition GENERAL : rstring := str "#general".
Definition SPAM : rstring := str "#spam".

Section scenarios.
Context `{Sha256, Ed25519, X25519, Snow, Lz4, Rand, HashIter, UnicodeCase}.
Implicit Types w : World.

(** A link of the scenarios: no loss. *)
Definition wire_up w (ab : nat * nat) : World :=
  (link w ab.1 ab.2 LINK_LATENCY_MS (f64_of_int 0) MTU).2.

Definition wire_all w (es : list (nat * nat)) : World := foldl wire_up w es.

(** [world.node_mut(i).send_channel_message(..)]. *)
Definition say w (i : nat) (channel text : rstring) : outcome unit (bytes * World) :=
  let* sn := expect (nodes w !! i) in
  let '(dg, n) := send_channel_message (sim_node sn) channel text in
  Ok (dg, set_nodes w (<[i := mkSimNode n (sim_events sn)]> (nodes w))).

(** [world.node_mut(i).send_dm(..)]. *)
Definition whisper w (i : nat) (fp : Fingerprint) (text : rstring) : outcome unit World :=
  on_node w i (λ n, send_dm n fp text).

(** [world.node_mut(i).store().has_message(&digest)]. *)
Definition holds_message w (i : nat) (digest : bytes) : outcome unit bool :=
  let* sn := expect (nodes w !! i) in
  Ok (has_message (store (sim_node sn)) digest).

(** The texts of the direct messages node [i] has shown. *)
Definition received w (i : nat) : outcome unit (list rstring) :=
  let* evs := world_events w i in
  Ok (omap (λ e, match e with DmReceived _ _ text _ => Some text | _ => None end) evs).

Record BroadcastResult := mkBroadcastResult {
  br_nodes : nat;
  br_delivery_ratio : f64;
  br_tx_frames : Z;
  br_relays_fired : Z;
  br_relays_per_node : f64;
}.

Definition broadcast (n : nat) (seed : Z) : outcome unit BroadcastResult :=
  let* g := geometric n seed CROWD_DEGREE in
  let w := wire_all (World_new n crowd_cfg seed) (g_edges g) in
  let* w := bootstrap w in
  let* w := run_for w 2000 in
  let* (digest, w) := say (reset_tx w) 0 GENERAL (str "hello mesh") in
  let* w := run_for w 6000 in
  let fired := total_relays_fired w in
  Ok (mkBroadcastResult n (delivery_ratio w digest) (tx_frames w) fired
        (f64_div (f64_of_int fired) (f64_of_int (Z.of_nat n)))).

Definition two_nodes_hello (seed : Z) : outcome unit bool :=
  let w := wire_up (World_new 2 crowd_cfg seed) (0, 1)%nat in
  let* w := bootstrap w in
  let* w := run_for w 1000 in
  let* (digest, w) := say w 0 GENERAL (str "hi B") in
  let* w := run_for w 1000 in
  Ok (count_with_message w digest =? 2).

Record RelayResult := mkRelayResult { reached_far_end : bool; hops : nat }.

Definition line_relay (hops : nat) (seed : Z) : outcome unit RelayResult :=
  let n := (hops + 1)%nat in
  let w := wire_all (World_new n crowd_cfg seed) (g_edges (Topology.line n)) in
  let* w := bootstrap w in
  let* w := run_for w 1000 in
  let* (digest, w) := say w 0 GENERAL (str "relay me") in
  let* w := run_for w 3000 in
  let* reached := holds_message w (n - 1) digest in
  Ok (mkRelayResult reached hops).

Record PartitionResult := mkPartitionResult { converged : bool; duplicate_ui_events : nat }.

(** How many of the message events repeat an earlier sender and timestamp. *)
Fixpoint duplicates (seen : list (EphId * Millis)) (evs : list MeshEvent) : nat :=
  match evs with
  | [] => 0
  | MessageReceived _ sender _ timestamp_ms _ :: evs =>
      if bool_decide ((sender, timestamp_ms) ∈ seen)
      then S (duplicates seen evs) else duplicates ((sender, timestamp_ms) :: seen) evs
  | _ :: evs => duplicates seen evs
  end.

Definition partition_heal (seed : Z) : outcome unit PartitionResult :=
  let w := wire_all (World_new 6 crowd_cfg seed)
             [(0, 1); (1, 2); (0, 2); (3, 4); (4, 5); (3, 5)]%nat in
  let '(door, w) := link w 2 3 LINK_LATENCY_MS (f64_of_int 0) MTU in
  let* w := bootstrap w in
  let* w := run_for w 1000 in
  let* w := set_edge_up w door false in
  let* (d_a, w) := say w 0 GENERAL (str "from room A") in
  let* (d_b, w) := say w 5 GENERAL (str "from room B") in
  let* w := run_for w 2000 in
  let* w := set_edge_up w door true in
  let* w := run_for w 4000 in
  let has i := let* a := holds_message w i d_a in let* b := holds_message w i d_b in Ok (a && b) in
  let* all := ofold (λ acc i, let* b := has i in Ok (acc && b)) true (seq 0 6) in
  let* dups := ofold (λ acc i, let* evs := world_events w i in Ok (acc + duplicates [] evs)%nat)
                 0%nat (seq 0 6) in
  Ok (mkPartitionResult all dups).

Record StormResult := mkStormResult { storm_delivered : bool; relay_tx : Z }.

Definition duplicate_storm (seed : Z) : outcome unit StormResult :=
  let n := 8%nat in
  let w := wire_all (World_new n crowd_cfg seed) (map (λ i, (0, i)%nat) (seq 1 (n - 1))) in
  let* w := bootstrap w in
  let* w := run_for w 1000 in
  let* (digest, w) := say (reset_tx w) 1 GENERAL (str "storm") in
  let* w := run_for w 3000 in
  Ok (mkStormResult (count_with_message w digest =? Z.of_nat n) (tx_frames w)).

Record DmResult := mkDmResult { dm_delivered : bool; text_ok : bool; eavesdropper_blind : bool }.

Definition direct_message (seed : Z) : outcome unit DmResult :=
  let w := wire_all (World_new 3 crowd_cfg seed) [(0, 1); (1, 2)]%nat in
  let* w := bootstrap w in
  let* w := run_for w 2500 in
  let* b_fp := world_fingerprint w 2 in
  let* w := whisper w 0 b_fp (str "meet at the safehouse") in
  let* w := run_for w 5000 in
  let* b_msgs := received w 2 in
  let* eve := received w 1 in
  Ok (mkDmResult (negb (bool_decide (b_msgs = [])))
        (bool_decide (str "meet at the safehouse" ∈ b_msgs)) (bool_decide (eve = []))).

(** Five redundant links between two nodes. *)
Definition redundant_pair (seed : Z) : World :=
  wire_all (World_new 2 crowd_cfg seed) (replicate 5 (0, 1)%nat).

Definition dm_over_redundant_links (seed : Z) : outcome unit bool :=
  let* w := bootstrap (redundant_pair seed) in
  let* w := run_for w 3000 in
  let* b_fp := world_fingerprint w 1 in
  let* w := whisper w 0 b_fp (str "north gate clear") in
  let* w := run_for w 5000 in
  let* msgs := received w 1 in
  Ok (bool_decide (str "north gate clear" ∈ msgs)).

Record DedupResult := mkDedupResult { links_after : Z; dedup_delivered : bool }.

Definition link_dedup (seed : Z) : outcome unit DedupResult :=
  let* w := bootstrap (redundant_pair seed) in
  let* w := run_for w 3000 in
  let* links_after := world_link_count w 0 in
  let* (digest, w) := say w 0 GENERAL (str "still works") in
  let* w := run_for w 1500 in
  Ok (mkDedupResult links_after (count_with_message w digest =? 2)).

Record SafResult := mkSafResult { not_before : bool; delivered_after : bool }.

Definition store_and_forward (seed : Z) : outcome unit SafResult :=
  let w := World_new 2 crowd_cfg seed in
  let* b_fp := world_fingerprint w 1 in
  let* w := whisper w 0 b_fp (str "held for you") in
  let* w := run_for w 1000 in
  let* before := received w 1 in
  let* (_, w) := connect w 0 1 LINK_LATENCY_MS (f64_of_int 0) MTU in
  let* w := run_for w 5000 in
  let* after := received w 1 in
  Ok (mkSafResult (bool_decide (before = [])) (bool_decide (str "held for you" ∈ after))).

Record FloodResult := mkFloodResult {
  honest_delivered : bool;
  attacker_greylisted_effect : bool;
}.

Definition malicious_flooder (seed : Z) : outcome unit FloodResult :=
  let w := wire_all (World_new 4 crowd_cfg seed) [(0, 1); (1, 2); (1, 3)]%nat in
  let* w := bootstrap w in
  let* w := run_for w 1000 in
  let* w := ofold (λ w k,
              let* (_, w) := say w 3 SPAM (str ("flood " +:+ pretty k)) in
              run_for w 20) w (seq 0 100) in
  let* (honest, w) := say w 0 GENERAL (str "help") in
  let* w := run_for w 3000 in
  let* ok := holds_message w 2 honest in
  let* sn := expect (nodes w !! 2%nat) in
  let spam := zlen (channel_history (store (sim_node sn)) SPAM 1000) in
  Ok (mkFloodResult ok (spam <? 50)).
End scenarios.
