(* ===== verification/ScenarioProps.v ===== *)
(** * ScenarioProps: the scenario runners end

    Every runner returns its measurements, whatever the libraries and the seed: no index is out of
    range, no node panics and no loop runs on. The examples evaluate runners, with the seeds of the
    repository's acceptance tests, over the toy libraries. *)
From stdpp Require Import strings gmap.
From S2P Require Import Prelude Errors F64 Utf8 Clock External Toy Transport Wire Config Frag.
From S2P Require Import Compress Relay Channels Store Identity Noise Payloads Node NodeFrame.
From S2P Require Import NodeInvariants Topology TopologyProps Sim SimProps Scenarios.

Section scenarios.
Context `{Sha256, Ed25519, X25519, Snow, Lz4, Rand, HashIter, UnicodeCase}.
Context `{!SnowLaws}.

(** A world of [n] nodes in steps of ten milliseconds whose clock is not past [B]. *)
Definition calm (n : nat) (B : Millis) (w : World) : Prop :=
  ∃ es t, good n es [] 10 t w ∧ 0 <= t <= B.

Lemma World_new_calm n cfg seed : calm n 0 (World_new n cfg seed).
Proof. destruct (World_new_ok n cfg seed) as [HG _]. eexists _, 0. split; [exact HG|done]. Qed.

Lemma link_calm n B w a b lat p m :
  calm n B w → (a < n)%nat → (b < n)%nat → calm n B (link w a b lat p m).2.
Proof. intros (es & t & HG & Ht) Ha Hb. eexists _, t. split; [by apply link_good|done]. Qed.

Lemma wire_all_calm n B w es : calm n B w → in_range n es → calm n B (wire_all w es).
Proof.
  intros Hw Hes. revert w Hw. induction Hes as [|[a b] es [Ha Hb] Hes IH]; intros w Hw; [done|].
  apply IH. by apply link_calm.
Qed.

(** From the invariant with exact parameters to [calm]. *)
Lemma calm_of n B es t (m : outcome unit World) :
  0 <= t <= B → holds (good n es [] 10 t) m → holds (calm n B) m.
Proof. intros Ht. apply holds_mono. intros w HG. by exists es, t. Qed.

Lemma bootstrap_calm n B w : calm n B w → holds (calm n B) (bootstrap w).
Proof. intros (es & t & HG & Ht). eapply calm_of; [exact Ht|]. by apply bootstrap_good. Qed.

Lemma run_for_calm n B w d :
  calm n B w → 0 <= d → B + d + 10 <= 2 ^ 64 → holds (calm n (B + d + 10)) (run_for w d).
Proof.
  intros (es & t & HG & Ht) Hd HB. eapply holds_mono; [|eapply run_for_good; [exact HG|lia..]].
  intros w' (t' & HG' & Ht'). exists es, t'. split; [done|lia].
Qed.

Lemma reset_tx_calm n B w : calm n B w → calm n B (reset_tx w).
Proof. intros (es & t & HG & Ht). exists es, t. split; [by apply reset_tx_good|done]. Qed.

Lemma set_edge_up_calm n B w e x : calm n B w → holds (calm n B) (set_edge_up w e x).
Proof. intros (es & t & HG & Ht). eapply calm_of; [exact Ht|]. by apply set_edge_up_good. Qed.

Lemma connect_calm n B w a b lat p m :
  calm n B w → (a < n)%nat → (b < n)%nat →
  holds (λ r, calm n B r.2) (connect w a b lat p m).
Proof.
  intros (es & t & HG & Ht) Ha Hb. eapply holds_mono; [|by eapply connect_good].
  intros r HG'. by exists (es ++ [(a, b)]), t.
Qed.

Lemma calm_node n B w i : calm n B w → (i < n)%nat → is_Some (nodes w !! i).
Proof.
  intros (es & t & HG & _) Hi. destruct (good_node _ _ _ _ _ w i HG Hi) as (sn & E & _). by exists sn.
Qed.

(** Looking at a node that exists. *)
Lemma look_calm {A} n B w i (f : SimNode → A) :
  calm n B w → (i < n)%nat →
  holds (λ _, True) (let* sn := expect (nodes w !! i) in Ok (f sn) : outcome unit A).
Proof. intros Hw Hi. destruct (calm_node n B w i Hw Hi) as [sn ->]. by exists (f sn). Qed.

Lemma received_calm n B w i : calm n B w → (i < n)%nat → holds (λ _, True) (received w i).
Proof.
  intros Hw Hi. unfold received. eapply holds_bind; [by eapply look_calm|].
  intros evs _. by apply holds_ok.
Qed.

Lemma say_calm n B w i c t :
  calm n B w → (i < n)%nat → holds (λ r, calm n B r.2) (say w i c t).
Proof.
  intros (es & tm & HG & Ht) Hi. destruct (good_node _ _ _ _ _ w i HG Hi) as (sn & E & Hok).
  unfold say. rewrite E. cbn [expect obind].
  pose proof (node_step_ok _ _ (OpSendChannel c t) I Hok) as Hok'. cbn [node_step] in Hok'.
  destruct (send_channel_message (sim_node sn) c t) as [dg x]. apply holds_ok.
  exists es, tm. split; [|done]. by eapply good_put.
Qed.

Lemma whisper_calm n B w i fp t :
  calm n B w → (i < n)%nat → holds (calm n B) (whisper w i fp t).
Proof.
  intros (es & tm & HG & Ht) Hi. eapply calm_of; [exact Ht|].
  apply on_node_good; [done..|]. intros x. by apply (node_step_ok _ _ (OpSendDm fp t)).
Qed.

Lemma calm_le n B B' w : calm n B w → B <= B' → calm n B' w.
Proof. intros (es & t & HG & Ht) HB. exists es, t. split; [done|lia]. Qed.

(** The next call of a runner. *)
Ltac ends_step :=
  cbv zeta;
  lazymatch goal with
  | |- holds _ (obind (bootstrap ?w) _) =>
      eapply holds_bind; [apply bootstrap_calm; eassumption|]; intros ? ?
  | |- holds _ (obind (run_for ?w _) _) =>
      eapply holds_bind; [apply run_for_calm; [eassumption|lia|lia]|]; intros ? ?
  | |- holds _ (obind (set_edge_up _ _ _) _) =>
      eapply holds_bind; [apply set_edge_up_calm; eassumption|]; intros ? ?
  | |- holds _ (obind (say _ _ _ _) _) =>
      eapply holds_bind; [eapply say_calm; [eauto using reset_tx_calm|lia]|]; intros [? ?] ?;
      cbn [snd] in *
  | |- holds _ (obind (whisper _ _ _ _) _) =>
      eapply holds_bind; [apply whisper_calm; [eassumption|lia]|]; intros ? ?
  | |- holds _ (obind (connect _ _ _ _ _ _) _) =>
      eapply holds_bind; [eapply connect_calm; [eassumption|lia|lia]|]; intros [? ?] ?;
      cbn [snd] in *
  | |- holds _ (obind (received _ _) _) =>
      eapply holds_bind; [eapply received_calm; [eassumption|lia]|]; intros ? _
  | |- holds _ (obind _ _) =>
      eapply holds_bind; [eapply look_calm; [eassumption|lia]|]; intros ? _
  | |- holds _ (Ok _) => by apply holds_ok
  end.

Lemma holds_is_ok {A} (P : A → Prop) (m : outcome unit A) : holds P m → is_ok m = true.
Proof. by intros (a & -> & _). Qed.

Lemma broadcast_ends n seed : (0 < n)%nat → is_ok (broadcast n seed) = true.
Proof.
  intros Hn. apply (holds_is_ok (λ _, True)). unfold broadcast.
  destruct (geometric_in_range n seed CROWD_DEGREE) as (g & -> & Hg). cbn [obind].
  pose proof (wire_all_calm n 0 _ _ (World_new_calm n crowd_cfg seed) Hg) as Hw.
  repeat ends_step.
Qed.

Lemma in_range_ok n es : forallb (λ ab, (ab.1 <? n) && (ab.2 <? n))%nat es = true → in_range n es.
Proof.
  rewrite forallb_forall. intros Hall. apply List.Forall_forall. intros ab Hin.
  specialize (Hall ab Hin). apply andb_true_iff in Hall as [Ha%Nat.ltb_lt Hb%Nat.ltb_lt]. done.
Qed.

(** A world wired up from a fixed list of links. *)
Lemma wired n seed es :
  forallb (λ ab, (ab.1 <? n) && (ab.2 <? n))%nat es = true →
  calm n 0 (wire_all (World_new n crowd_cfg seed) es).
Proof. intros Hes. apply wire_all_calm; [apply World_new_calm|by apply in_range_ok]. Qed.

Lemma two_nodes_hello_ends seed : is_ok (two_nodes_hello seed) = true.
Proof.
  apply (holds_is_ok (λ _, True)). unfold two_nodes_hello.
  pose proof (wired 2 seed [(0, 1)%nat] eq_refl) as Hw. cbn [wire_all foldl] in Hw.
  repeat ends_step.
Qed.

Lemma line_relay_ends hops seed : is_ok (line_relay hops seed) = true.
Proof.
  apply (holds_is_ok (λ _, True)). unfold line_relay. cbv zeta.
  assert (calm (hops + 1) 0 (wire_all (World_new (hops + 1) crowd_cfg seed)
            (g_edges (Topology.line (hops + 1))))) as Hw.
  { apply wire_all_calm; [apply World_new_calm|]. apply Forall_forall. intros ab Hin.
    apply list_elem_of_fmap in Hin as (i & -> & Hi%elem_of_seq). cbn. lia. }
  repeat ends_step.
Qed.

Lemma partition_heal_ends seed : is_ok (partition_heal seed) = true.
Proof.
  apply (holds_is_ok (λ _, True)). unfold partition_heal. cbv zeta.
  pose proof (wired 6 seed [(0, 1); (1, 2); (0, 2); (3, 4); (4, 5); (3, 5)]%nat eq_refl) as Hw.
  set (w := wire_all _ _) in *. apply (link_calm 6 0 w 2 3 LINK_LATENCY_MS (f64_of_int 0) MTU) in Hw;
    [|lia..].
  destruct (link w 2 3 LINK_LATENCY_MS (f64_of_int 0) MTU) as [door w1]. cbn [snd] in Hw.
  do 8 ends_step.
  eapply holds_bind; [apply (holds_fold (λ _, True)); [done|]|].
  { intros acc i Hi%elem_of_seq _.
    eapply (holds_bind (λ _, True)); [|intros ? _; by apply holds_ok]. repeat ends_step. }
  intros all _. eapply holds_bind; [apply (holds_fold (λ _, True)); [done|]|].
  { intros acc i Hi%elem_of_seq _. repeat ends_step. }
  intros dups _. by apply holds_ok.
Qed.

Lemma duplicate_storm_ends seed : is_ok (duplicate_storm seed) = true.
Proof.
  apply (holds_is_ok (λ _, True)). unfold duplicate_storm. cbv zeta.
  pose proof (wired 8 seed (map (λ i, (0, i)%nat) (seq 1 7)) eq_refl) as Hw.
  repeat ends_step.
Qed.

Lemma direct_message_ends seed : is_ok (direct_message seed) = true.
Proof.
  apply (holds_is_ok (λ _, True)). unfold direct_message. cbv zeta.
  pose proof (wired 3 seed [(0, 1); (1, 2)]%nat eq_refl) as Hw. repeat ends_step.
Qed.

Lemma redundant_pair_calm seed : calm 2 0 (redundant_pair seed).
Proof. by apply wired. Qed.

Lemma dm_over_redundant_links_ends seed : is_ok (dm_over_redundant_links seed) = true.
Proof.
  apply (holds_is_ok (λ _, True)). unfold dm_over_redundant_links.
  pose proof (redundant_pair_calm seed) as Hw. repeat ends_step.
Qed.

Lemma link_dedup_ends seed : is_ok (link_dedup seed) = true.
Proof.
  apply (holds_is_ok (λ _, True)). unfold link_dedup.
  pose proof (redundant_pair_calm seed) as Hw. repeat ends_step.
Qed.

Lemma store_and_forward_ends seed : is_ok (store_and_forward seed) = true.
Proof.
  apply (holds_is_ok (λ _, True)). unfold store_and_forward. cbv zeta.
  pose proof (World_new_calm 2 crowd_cfg seed) as Hw. repeat ends_step.
Qed.

(** The flood itself: each message takes the clock thirty milliseconds at most. *)
Lemma flood_calm w B l :
  calm 4 B w → B + 30 * zlen l <= 2 ^ 64 →
  holds (calm 4 (B + 30 * zlen l))
    (ofold (λ w k, let* (_, w) := say w 3 SPAM (str ("flood " +:+ pretty.pretty k)) in run_for w 20)
       w (l : list nat)).
Proof.
  revert w B. induction l as [|k l IH]; intros w B Hw HB; cbn [ofold].
  { apply holds_ok. eapply calm_le; [exact Hw|]. unfold zlen. cbn. lia. }
  rewrite zlen_cons in *. assert (0 <= zlen l) by (unfold zlen; lia).
  eapply (holds_bind (calm 4 (B + 20 + 10))).
  { ends_step. apply run_for_calm; [eassumption|lia|lia]. }
  intros w1 Hw1. eapply holds_mono; [|apply (IH w1 (B + 20 + 10)); [exact Hw1|lia]].
  intros w2 Hw2. eapply calm_le; [exact Hw2|lia].
Qed.

Lemma malicious_flooder_ends seed : is_ok (malicious_flooder seed) = true.
Proof.
  apply (holds_is_ok (λ _, True)). unfold malicious_flooder. cbv zeta.
  pose proof (wired 4 seed [(0, 1); (1, 2); (1, 3)]%nat eq_refl) as Hw. do 2 ends_step.
  eapply holds_bind; [eapply flood_calm; [eassumption|vm_compute; congruence]|]. intros w' Hw'.
  change (zlen (seq 0 100)) with 100 in Hw'. do 3 ends_step.
  eapply (holds_bind (λ _, True)); [|intros ? _; by apply holds_ok].
  match goal with Hw : calm 4 _ ?w |- holds _ (expect (nodes ?w !! _)) =>
    destruct (calm_node 4 _ w 2 Hw) as [sn ->]; [lia|by apply holds_ok] end.
Qed.

(** C35: every scenario ends with its measurements, whatever the libraries compute and whatever the
    seed: no index is out of range, no node panics and no loop runs on. *)
Theorem scenarios_end n hops seed :
  (0 < n)%nat →
  is_ok (broadcast n seed) = true ∧ is_ok (two_nodes_hello seed) = true
  ∧ is_ok (line_relay hops seed) = true ∧ is_ok (partition_heal seed) = true
  ∧ is_ok (duplicate_storm seed) = true ∧ is_ok (direct_message seed) = true
  ∧ is_ok (dm_over_redundant_links seed) = true ∧ is_ok (link_dedup seed) = true
  ∧ is_ok (store_and_forward seed) = true ∧ is_ok (malicious_flooder seed) = true.
Proof.
  intros Hn. split_and!.
  - by apply broadcast_ends.
  - apply two_nodes_hello_ends.
  - apply line_relay_ends.
  - apply partition_heal_ends.
  - apply duplicate_storm_ends.
  - apply direct_message_ends.
  - apply dm_over_redundant_links_ends.
  - apply link_dedup_ends.
  - apply store_and_forward_ends.
  - apply malicious_flooder_ends.
Qed.
End scenarios.

(** ** Runs of the scenarios *)

Example hello_arrives : two_nodes_hello 1 = Ok true.
Proof. by vm_compute. Qed.

Example redundant_links_collapse_to_one : link_dedup 1 = Ok (mkDedupResult 1 true).
Proof. by vm_compute. Qed.

Example eavesdropper_is_blind : direct_message 7 = Ok (mkDmResult true true true).
Proof. by vm_compute. Qed.

Example held_until_the_peer_returns : store_and_forward 1 = Ok (mkSafResult true true).
Proof. by vm_compute. Qed.

Example relayed_over_six_hops : line_relay 6 3 = Ok (mkRelayResult true 6).
Proof. by vm_compute. Qed.

Example dm_survives_redundant_links : dm_over_redundant_links 1 = Ok true.
Proof. by vm_compute. Qed.

Example rooms_converge_once_the_door_opens : partition_heal 5 = Ok (mkPartitionResult true 0).
Proof. by vm_compute. Qed.

Lemma scenarios_end_witness :
  is_ok (broadcast 5 7) = true ∧ is_ok (malicious_flooder 11) = true.
Proof.
  destruct (scenarios_end 5 6 7) as (Hb & _); [lia|].
  destruct (scenarios_end 1 6 11) as (_ & _ & _ & _ & _ & _ & _ & _ & _ & Hf); [lia|].
  split; [exact Hb|exact Hf].
Defined.
