(* ===== verification/SimHop.v ===== *)
(** * SimHop: a packet crosses a link of a world

    The composition of routing, the radio and reassembly: what a node broadcasts in a world is
    handled, as one packet, by the neighbour at the other end of a lossless link, in the first
    delivery phase after the link's latency. *)
From stdpp Require Import strings gmap.
From S2P Require Import Prelude Errors F64 Utf8 Clock External Toy Transport Wire Config Frag.
From S2P Require Import Compress Relay Channels Store Identity Noise Payloads Node NodeFrame.
From S2P Require Import NodeInvariants NodeRelay Sim SimProps SimDelivery.

(** ** Lists *)

Lemma filter_concat {A B} (p : B → bool) (g : A → list B) l :
  List.filter p (concat (map g l)) = concat (map (λ x, List.filter p (g x)) l).
Proof. induction l as [|x l IH]; [done|]. cbn. by rewrite List.filter_app, IH. Qed.

Lemma filter_nothing {A} (p : A → bool) l : (∀ x, x ∈ l → p x = false) → List.filter p l = [].
Proof.
  induction l as [|x l IH]; intros Hp; [done|]. cbn.
  rewrite (Hp x (list_elem_of_here _ _)). apply IH. intros y Hy. apply Hp. by right.
Qed.

Lemma concat_nil {A B} (g : A → list B) l : (∀ k, k ∈ l → g k = []) → concat (map g l) = [].
Proof.
  induction l as [|x l IH]; intros Hg; [done|]. cbn.
  rewrite (Hg x (list_elem_of_here _ _)). apply IH. intros k Hk. apply Hg. by right.
Qed.

(** Of a concatenation only one part is not empty. *)
Lemma concat_single {A B} (g : A → list B) l i :
  NoDup l → i ∈ l → (∀ k, k ∈ l → k ≠ i → g k = []) → concat (map g l) = g i.
Proof.
  induction 1 as [|x l Hx Hnd IH]; intros Hi Hg; [by apply not_elem_of_nil in Hi|].
  cbn [map concat]. apply elem_of_cons in Hi as [->|Hi].
  - rewrite concat_nil; [by rewrite app_nil_r|]. intros k Hk. apply Hg; [by right|by intros ->].
  - rewrite (Hg x (list_elem_of_here _ _)); [|by intros ->]. apply IH; [done|].
    intros k Hk. apply Hg. by right.
Qed.

Section hop.
Context `{Sha256, Ed25519, X25519, Snow, Lz4, Rand, HashIter, UnicodeCase}.
Context `{!SnowLaws, !Sha256Laws}.
#[local] Abbreviation SimMeshNode := (MeshNode (S:=MemoryStore)).

(** ** Frames in the order they were cut *)

Lemma split_NoDup bs d m frames : length d = 8%nat → split bs d m = Ok frames → NoDup frames.
Proof.
  intros Hd (_ & [[_ ->]|(cs & _ & Hn & _ & ->)])%split_Ok; [by repeat constructor; set_solver|].
  apply NoDup_alt. intros i j f Hi Hj. rewrite list_lookup_imap in Hi, Hj.
  apply fmap_Some in Hi as (c & Hi & ->). apply fmap_Some in Hj as (c' & Hj & E).
  by apply (fragment_frame_inj d cs i j c c' Hd (proj2 Hn) Hi Hj).
Qed.

Lemma last_of_frames frames pre f :
  NoDup frames → frames = pre ++ [f] → last_missing frames pre f.
Proof.
  intros Hnd ->. apply NoDup_app in Hnd as (_ & Hd & _). split_and!.
  - set_solver.
  - set_solver.
  - intros g. rewrite elem_of_app, list_elem_of_singleton. intros Hg. split.
    + intros Hp ->. by apply (Hd f Hp), list_elem_of_singleton.
    + intros Hne. by destruct Hg.
Qed.

Lemma on_frames_in_order (n : SimMeshNode) link pkt m :
  packet_canonical pkt → frames_for pkt m ≠ [] →
  ready_for (reassembler n) (digest pkt) (zlen (encode pkt)) →
  on_frames n link (frames_for pkt m) = on_packet n link pkt.
Proof.
  intros Hc Hne Hr. unfold frames_for in *. destruct (split _ _ _) as [frames| |] eqn:Es; [|done..].
  destruct (exists_last Hne) as (pre & f & E). rewrite E.
  eapply frames_delivered; [exact Hr|apply digest_length|exact Es| |by apply encode_complete].
  apply last_of_frames; [|exact E]. eapply split_NoDup; [apply digest_length|exact Es].
Qed.

Lemma hear_frames (n : SimMeshNode) l fs :
  foldl on_transport_event n (map (FrameReceived l) fs) = on_frames n l fs.
Proof. revert n. induction fs as [|f fs IH]; intros n; [done|]. apply IH. Qed.

(** ** What reaches a node whose only link is [l] *)

Section one_link.
Context (n : nat) (es : list (nat * nat)) (gs : list InFlight) (st t : Millis) (w : World).
Context (HG : good n es gs st t w).
Context (i j : nat) (l : LinkId) (e : Edge).
Context (Hij : i ≠ j) (He : index l (edges w) = Some e) (Hup : up e = true).
Context (Hends : ends e = (i, j) ∨ ends e = (j, i)).
Context (Honly : ∀ k e', index k (edges w) = Some e' → edge_a e' = j ∨ edge_b e' = j → k = l).

#[local] Abbreviation on_air f := (mkInFlight (wrap 64 (world_now w + latency_ms e)) j l f).

Lemma other_ends : other_end e i = j ∧ other_end e j = i.
Proof using Hij Hends.
  unfold other_end. destruct Hends as [E|E]; injection E as -> ->;
    rewrite Nat.eqb_refl; [rewrite (proj2 (Nat.eqb_neq i j) Hij)|
    rewrite (proj2 (Nat.eqb_neq j i) (not_eq_sym Hij))]; done.
Qed.

(** A frame routed to [j] comes from [i] over [l]. *)
Lemma routed_to_j k lf f :
  touches es k lf.1 → routed w k lf = Some f → dest f = j → k = i ∧ lf.1 = l ∧ f = on_air lf.2.
Proof using HG Hij He Hends Honly.
  intros Hk Hr Hd. destruct (good_edge _ _ _ _ _ w k _ HG Hk) as (e' & E & _ & Hend).
  unfold routed in Hr. rewrite E in Hr. cbn in Hr. destruct (up e'); [|done].
  injection Hr as <-. cbn in Hd.
  assert (lf.1 = l) as El.
  { apply (Honly _ e' E). unfold other_end in Hd. case_match; [by right|by left]. }
  rewrite El, He in E. injection E as <-. destruct other_ends as [Oi Oj].
  assert (k = i) as ->.
  { assert (k = i ∨ k = j) as [->| ->]; [|done|congruence].
    destruct Hends as [Ee|Ee]; injection Ee as Ea Eb; rewrite Ea, Eb in Hend; naive_solver. }
  by rewrite El, Oi.
Qed.

Lemma sent_to_j k sn :
  nodes w !! k = Some sn →
  List.filter (λ f, (dest f =? j)%nat) (sent_by w k) =
  if decide (k = i) then map (λ f, on_air f) (sent_on l (sim_node sn)) else [].
Proof using HG Hij He Hup Hends Honly.
  intros Hk. unfold sent_by. rewrite Hk.
  assert (∀ lf, lf ∈ outbox (sim_node sn) → touches es k lf.1) as Hout.
  { intros lf. apply outbox_ok. by eapply gd_nodes. }
  unfold outbox, sent_on in *. revert Hout.
  induction (sent (sim_node sn)) as [|[l' f|l'] cs IH]; intros Hout; cbn.
  - by case_decide.
  - specialize (IH ltac:(intros lf Hlf; apply Hout; by right)).
    pose proof (Hout (l', f) (list_elem_of_here _ _)) as Ht.
    destruct (routed w k (l', f)) as [x|] eqn:Er; cbn.
    + destruct (dest x =? j)%nat eqn:Ed.
      * apply Nat.eqb_eq in Ed. destruct (routed_to_j _ _ _ Ht Er Ed) as (-> & El & ->).
        cbn in El. subst l'. rewrite IH. by rewrite !decide_True.
      * rewrite IH. case_decide as Hki; [|done]. subst k. rewrite decide_False; [done|].
        intros ->. unfold routed in Er. cbn [fst] in Er. rewrite He in Er. cbn [mbind option_bind] in Er.
        rewrite Hup in Er.
        injection Er as <-. cbn [dest] in Ed. by rewrite (proj1 other_ends), Nat.eqb_refl in Ed.
    + rewrite IH. case_decide as Hki; [|done]. subst k. rewrite decide_False; [done|].
      intros ->. unfold routed in Er. cbn [fst] in Er. rewrite He in Er. cbn [mbind option_bind] in Er.
      by rewrite Hup in Er.
  - apply IH. exact Hout.
Qed.
End one_link.

Lemma broadcast_ok L (n : SimMeshNode) pkt x : node_ok L n → node_ok L (broadcast n pkt x).
Proof.
  intros [Ha Hr Hl]. split.
  - by apply (broadcast_R (alive_frame L) n pkt x).
  - by apply (broadcast_R (reassembling_frame L) n pkt x).
  - by apply (broadcast_R (local_frame L) n pkt x).
Qed.

(** Frames that are all on the air to [j] over [l] arrive there in order. *)
Lemma arrivals_on_air w t0 j l fs all :
  List.filter (λ f, (dest f =? j)%nat) all = map (λ f, mkInFlight t0 j l f) fs →
  link_up w l = true → t0 <= world_now w →
  arrivals w (List.filter (is_due (world_now w)) all) j = map (FrameReceived l) fs.
Proof.
  intros Hall Hup Ht. unfold arrivals. rewrite filter_filter_and.
  assert (List.filter (λ f, is_due (world_now w) f && ((dest f =? j)%nat && link_up w (if_link f))) all
          = map (λ f, mkInFlight t0 j l f) fs) as ->; [|by rewrite map_map].
  rewrite <- Hall. assert (∀ f, f ∈ all → dest f = j → if_link f = l ∧ deliver_at f = t0) as Hf.
  { intros f Hin Hd. assert (f ∈ map (λ f, mkInFlight t0 j l f) fs) as Hm.
    { rewrite <- Hall. apply elem_of_filter_list. by rewrite Hd, Nat.eqb_refl. }
    by apply list_elem_of_fmap in Hm as (x & -> & _). }
  apply filter_ext_in. intros f Hin%list_elem_of_In. destruct (dest f =? j)%nat eqn:Ed.
  - apply Nat.eqb_eq in Ed. destruct (Hf f Hin Ed) as [-> Et]. rewrite Hup. unfold is_due.
    rewrite Et. by rewrite (proj2 (Z.leb_le _ _) Ht).
  - by rewrite andb_false_r.
Qed.

(** Before anything of it is due nothing arrives. *)
Lemma nothing_due w t0 j l fs all :
  List.filter (λ f, (dest f =? j)%nat) all = map (λ f, mkInFlight t0 j l f) fs →
  world_now w < t0 → arrivals w (List.filter (is_due (world_now w)) all) j = [].
Proof.
  intros Hall Ht. unfold arrivals. rewrite filter_nothing; [done|].
  intros f [Hin Hd]%elem_of_filter_list. destruct (dest f =? j)%nat eqn:Ed; [|done].
  assert (f ∈ map (λ f, mkInFlight t0 j l f) fs) as Hm.
  { rewrite <- Hall. by apply elem_of_filter_list. }
  apply list_elem_of_fmap in Hm as (x & -> & _). unfold is_due in Hd. cbn in Hd. lia.
Qed.

(** After routing, the packet's frames are the only ones on the air to [j]. *)
Lemma routed_world n cfg seed w i j l e st sni snj pkt :
  reachable n cfg seed w → Forall lossless (edges w) →
  index l (edges w) = Some e → up e = true → i ≠ j → ends e = (i, j) ∨ ends e = (j, i) →
  (∀ k e', index k (edges w) = Some e' → edge_a e' = j ∨ edge_b e' = j → k = l) →
  (∀ f, f ∈ inflight w → dest f ≠ j) →
  nodes w !! i = Some sni → nodes w !! j = Some snj →
  links (sim_node sni) !! l = Some st → sent_on l (sim_node sni) = [] →
  let w1 := set_nodes w
    (<[i := mkSimNode (broadcast (sim_node sni) pkt None) (sim_events sni)]> (nodes w)) in
  ∃ w2 gs, collect_and_route w1 = Ok w2 ∧ good n (map ends (edges w)) gs (step_ms w) (world_now w) w2
    ∧ edges w2 = edges w ∧ nodes w2 !! j = Some (collected snj)
    ∧ List.filter (λ f, (dest f =? j)%nat) (inflight w2)
      = map (λ f, mkInFlight (wrap 64 (world_now w + latency_ms e)) j l f) (frames_for pkt (mtu st)).
Proof.
  intros Hw Hless He Hup Hij Hends Honly Hquiet Hi Hj Hlink Hsent w1.
  destruct (reachable_ok _ _ _ _ Hw) as (HG & Hst & Hnow).
  assert (good n (map ends (edges w)) [] (step_ms w) (world_now w) w1) as HG1.
  { eapply good_put; [exact HG|exact Hi|]. apply broadcast_ok. by eapply gd_nodes. }
  assert (Forall (λ i, (i < n)%nat) (seq 0 n)) as Hseq.
  { apply Forall_forall. intros k Hk%elem_of_seq. lia. }
  pose proof (collect_nodes n _ _ _ _ w1 (seq 0 n) HG1 Hless (NoDup_seq 0 n) Hseq) as E2.
  destruct (collect_and_route_good _ _ _ _ _ w1 HG1) as (w2 & E & HG2). exists w2.
  unfold collect_and_route in *. rewrite (gd_count _ _ _ _ _ _ HG1), E2 in *. injection E as Ew2.
  eexists. split; [by rewrite <- Ew2|]. split; [exact HG2|]. split; [by rewrite <- Ew2|]. split.
  { rewrite <- Ew2. cbn. rewrite list_lookup_imap, list_lookup_insert_ne, Hj by done. cbn.
    rewrite bool_decide_eq_true_2; [done|]. apply elem_of_seq.
    pose proof (lookup_lt_Some _ _ _ Hj). pose proof (gd_count _ _ _ _ _ _ HG). lia. }
  rewrite <- Ew2. cbn [inflight aired set_inflight]. rewrite List.filter_app, filter_nothing, app_nil_l.
  2: { intros f Hf. apply Nat.eqb_neq. by apply Hquiet. }
  rewrite filter_concat, (concat_single _ _ i).
  - rewrite (sent_to_j n _ _ _ _ w1 HG1 i j l e Hij He Hup Hends Honly i
      (mkSimNode (broadcast (sim_node sni) pkt None) (sim_events sni))).
    + rewrite decide_True by done. cbn [sim_node]. rewrite sent_on_broadcast, Hsent, Hlink.
      by rewrite bool_decide_eq_false_2.
    + apply list_lookup_insert_eq. by eapply lookup_lt_Some.
  - apply NoDup_seq.
  - apply elem_of_seq. pose proof (lookup_lt_Some _ _ _ Hi). pose proof (gd_count _ _ _ _ _ _ HG). lia.
  - intros k Hk%elem_of_seq Hki. destruct (good_node _ _ _ _ _ w1 k HG1) as (sn & Hsn & _); [lia|].
    rewrite (sent_to_j n _ _ _ _ w1 HG1 i j l e Hij He Hup Hends Honly k sn Hsn).
    by rewrite decide_False.
Qed.

End hop.

(** ** Witness: the two nodes of [demo_up], once the first exchange is over *)

Definition demo_quiet : World := match run_for demo_up 1000 with Ok w => w | _ => demo_up end.

Lemma demo_quiet_reachable : reachable 2 Tunables_default 7 demo_quiet.
Proof.
  apply (reach_step _ _ _ demo_up (WRunFor 1000)).
  - apply demo_up_reachable.
  - vm_compute. split; congruence.
  - assert (is_ok (run_for demo_up 1000) = true) as Hok by by vm_compute.
    cbn [world_step]. unfold demo_quiet. by destruct (run_for demo_up 1000).
Qed.

(** The facts about it that the theorem needs, in decidable form. *)
Definition quiet_pair (w : World) (pkt : Packet) : bool :=
  match edges w, nodes w with
  | [e], [a; b] =>
      bool_decide (e = mkEdge 0 1 15 (f64_of_int 0) 182 true) && bool_decide (inflight w = [])
      && bool_decide (mtu <$> links (sim_node a) !! 0 = Some 182)
      && bool_decide (sent_on 0 (sim_node a) = [])
      && bool_decide (slots (reassembler (sim_node b)) !! digest pkt = None)
      && (msize (slots (reassembler (sim_node b))) <? reassembly_slots (Frag.cfg (reassembler (sim_node b))))
      && (zlen (encode pkt) <=? reassembly_max_bytes (Frag.cfg (reassembler (sim_node b))))
      && (world_now w + 15 <? 2 ^ 64)
  | _, _ => false
  end.
Lemma quiet_pair_fits (w : World) pkt :
  quiet_pair w pkt = true → reachable 2 Tunables_default 7 w →
  ∃ e sna snb st, edges w = [e] ∧ lossless e ∧ up e = true ∧ ends e = (0, 1)%nat
    ∧ inflight w = [] ∧ nodes w = [sna; snb]
    ∧ links (sim_node sna) !! 0 = Some st ∧ mtu st = 182 ∧ sent_on 0 (sim_node sna) = []
    ∧ ready_for (reassembler (sim_node snb)) (digest pkt) (zlen (encode pkt))
    ∧ latency_ms e = 15 ∧ world_now w + 15 < 2 ^ 64.
Proof.
  unfold quiet_pair. intros Hq Hw. destruct (reachable_ok _ _ _ _ Hw) as [HG _].
  destruct (edges w) as [|e [|]]; [done| |done].
  destruct (nodes w) as [|a [|b [|]]] eqn:En; [done..| |done].
  rewrite !andb_true_iff, !bool_decide_eq_true in Hq.
  destruct Hq as [[[[[[[-> Hf] Hm] Hs] Hd] Hr] Hc] Ht].
  destruct (links (sim_node a) !! 0) as [st|] eqn:El; [|done]. injection Hm as Hm.
  eexists _, a, b, st. split_and!; try done.
  - split; [|done|by apply Z.ltb_lt|by apply Z.leb_le].
    apply (no_reassembling _ _ (gd_nodes _ _ _ _ _ _ HG 1%nat b ltac:(by rewrite En))).
  - by apply Z.ltb_lt.
Qed.

Lemma demo_quiet_fits : quiet_pair demo_quiet (demo_packet 300) = true.
Proof. by vm_compute. Qed.

