(* ===== verification/Cli.v ===== *)
(** * Cli: the simulator's command line ([sim/src/main.rs])

    The argument loop, the choice of a scenario and the exit codes. What is printed is the record of
    values the format strings take; the decimal rendering of a [f64] is not modelled. *)
From Stdlib Require Import SpecFloat.
From stdpp Require Import strings pretty gmap.
From S2P Require Import Prelude Errors F64 Utf8 Clock External Toy Transport Wire Config Frag.
From S2P Require Import Compress Relay Channels Store Identity Noise Payloads Node NodeFrame.
From S2P Require Import NodeInvariants Topology TopologyProps Sim SimProps Scenarios ScenarioProps.

(** ** The arguments *)

Record Options := mkOptions {
  opt_nodes : Z;
  opt_scenario : rstring;
  opt_seed : Z;
}.

Definition default_options : Options := mkOptions 200 (str "broadcast") 7.

(** What the loop over the arguments ends with. *)
Inductive Parsed :=
  | Selected (o : Options)
  | HelpAsked
  | UnknownArgument (arg : rstring).

(** [args.get(i + 1).and_then(|s| s.parse().ok()).unwrap_or(old)]. *)
Definition number_or (old : Z) (v : option rstring) : Z := default old (v ≫= from_str_radix 10 64).

Fixpoint parse_args (args : list rstring) (o : Options) : Parsed :=
  match args with
  | [] => Selected o
  | arg :: rest =>
      if bool_decide (arg = str "--nodes") then
        let o := mkOptions (number_or (opt_nodes o) (head rest)) (opt_scenario o) (opt_seed o) in
        match rest with [] => Selected o | _ :: rest => parse_args rest o end
      else if bool_decide (arg = str "--scenario") then
        let o := mkOptions (opt_nodes o) (default (opt_scenario o) (head rest)) (opt_seed o) in
        match rest with [] => Selected o | _ :: rest => parse_args rest o end
      else if bool_decide (arg = str "--seed") then
        let o := mkOptions (opt_nodes o) (opt_scenario o) (number_or (opt_seed o) (head rest)) in
        match rest with [] => Selected o | _ :: rest => parse_args rest o end
      else if bool_decide (arg = str "-h") || bool_decide (arg = str "--help") then HelpAsked
      else UnknownArgument arg
  end.

(** ** The scenarios *)

(** [x.round() as usize]: half away from zero, saturating, zero for a NaN. *)
Definition f64_round_usize (x : f64) : Z :=
  match x with
  | S754_finite false m e =>
      Z.min (2 ^ 64 - 1)
        (if 0 <=? e then Zpos m * 2 ^ e else (Zpos m * 2 + 2 ^ (- e)) / 2 ^ (1 - e))
  | S754_infinity false => 2 ^ 64 - 1
  | _ => 0
  end.

(** [(r.delivery_ratio * nodes as f64).round() as usize]. *)
Definition delivered_count (ratio : f64) (nodes : Z) : Z :=
  f64_round_usize (f64_mul ratio (f64_of_int nodes)).

(** What a run prints. *)
Inductive Report :=
  | BroadcastReport (nodes seed : Z) (r : BroadcastResult) (delivered : Z)
  | TwoReport (ok : bool)
  | RelayReport (r : RelayResult)
  | PartitionReport (r : PartitionResult)
  | StormReport (r : StormResult)
  | FloodReport (r : FloodResult).

(** How the process ends: a report and exit code 0, or the usage text and a code. *)
Inductive Exit :=
  | Printed (r : Report)
  | Usage (code : Z).

Section cli.
Context `{Sha256, Ed25519, X25519, Snow, Lz4, Rand, HashIter, UnicodeCase}.

Definition run_scenario (o : Options) : outcome unit Exit :=
  let seed := opt_seed o in
  if bool_decide (opt_scenario o = str "broadcast") then
    let* r := broadcast (Z.to_nat (opt_nodes o)) seed in
    Ok (Printed (BroadcastReport (opt_nodes o) seed r
                   (delivered_count (br_delivery_ratio r) (opt_nodes o))))
  else if bool_decide (opt_scenario o = str "two") then
    let* b := two_nodes_hello seed in Ok (Printed (TwoReport b))
  else if bool_decide (opt_scenario o = str "relay") then
    let* r := line_relay 6 seed in Ok (Printed (RelayReport r))
  else if bool_decide (opt_scenario o = str "partition") then
    let* r := partition_heal seed in Ok (Printed (PartitionReport r))
  else if bool_decide (opt_scenario o = str "storm") then
    let* r := duplicate_storm seed in Ok (Printed (StormReport r))
  else if bool_decide (opt_scenario o = str "flooder") then
    let* r := malicious_flooder seed in Ok (Printed (FloodReport r))
  else Ok (Usage 2).

(** [main], given [std::env::args]: the first is the program's name. *)
Definition main (args : list rstring) : outcome unit Exit :=
  match parse_args (drop 1 args) default_options with
  | HelpAsked => Ok (Usage 0)
  | UnknownArgument _ => Ok (Usage 2)
  | Selected o => run_scenario o
  end.
End cli.

(** ** Numbers *)

(** Decimal notation, and that parsing inverts it. *)
Definition decimal (z : Z) : rstring := str (pretty (Z.to_N z)).

Lemma pretty_char_digit x : (x < 10)%N → ∃ b, str (String.String (pretty_N_char x) "") = [b]
  ∧ to_digit 10 b = Some (Z.of_N x).
Proof.
  intros Hx. assert (x = 0 ∨ x = 1 ∨ x = 2 ∨ x = 3 ∨ x = 4 ∨ x = 5 ∨ x = 6 ∨ x = 7 ∨ x = 8 ∨ x = 9)%N as Hc
    by lia.
  destruct Hc as [->|[->|[->|[->|[->|[->|[->|[->|[->| ->]]]]]]]]]; by eexists.
Qed.

Lemma str_cons c s : str (String.String c s) = str (String.String c "") ++ str s.
Proof. reflexivity. Qed.

Lemma pretty_go_digits x s :
  ∃ ds, str (pretty_N_go x s) = ds ++ str s ∧ Forall (is_digit 10) ds ∧ (0 < x → ds ≠ [])%N
    ∧ ∀ acc, digits_value 10 acc ds = acc * 10 ^ zlen ds + Z.of_N x.
Proof.
  revert s. induction (N.lt_wf_0 x) as [x _ IH]. intros s.
  destruct (decide (x = 0)%N) as [->|Hx].
  { exists []. rewrite pretty_N_go_0. split_and!; [done..|]. intros acc. cbn [digits_value foldl].
    change (zlen (A:=byte) []) with 0. change (Z.of_N 0) with 0. rewrite Z.pow_0_r. lia. }
  rewrite pretty_N_go_step by lia.
  destruct (IH (x `div` 10)%N ltac:(apply N.div_lt; lia) (String.String (pretty_N_char (x `mod` 10)) s))
    as (ds & E & Hd & _ & Hv).
  destruct (pretty_char_digit (x `mod` 10)) as (b & Eb & Hb); [by apply N.mod_lt|].
  exists (ds ++ [b]). rewrite E, str_cons, Eb, <- app_assoc. split_and!; [done| | |].
  - apply Forall_app. split; [done|]. apply Forall_singleton. by eexists.
  - intros _. by destruct ds.
  - intros acc. unfold digits_value in *. rewrite foldl_app, Hv, zlen_app. cbn [foldl]. rewrite Hb. cbn [default from_option id].
    change (zlen [b]) with 1. rewrite Z.pow_add_r by (unfold zlen; lia).
    rewrite N2Z.inj_mod, N2Z.inj_div. change (Z.of_N 10) with 10.
    pose proof (Z.div_mod (Z.of_N x) 10 ltac:(done)). rewrite Z.pow_1_r, Z.mul_assoc. lia.
Qed.

Lemma decimal_digits z :
  0 <= z → decimal z ≠ [] ∧ Forall (is_digit 10) (decimal z) ∧ digits_value 10 0 (decimal z) = z.
Proof.
  intros Hz. unfold decimal. unfold pretty, pretty_N. case_decide as E.
  - assert (z = 0) as -> by lia. split; [done|]. split; [|done]. apply Forall_singleton. by eexists.
  - destruct (pretty_go_digits (Z.to_N z) "") as (ds & -> & Hd & Hn & Hv).
    change (str "") with ([] : rstring). rewrite app_nil_r.
    split; [apply Hn; lia|]. split; [done|]. rewrite Hv. lia.
Qed.

Lemma parse_decimal w z : in_width w z → 0 <= w → from_str_radix 10 w (decimal z) = Some z.
Proof.
  intros Hz Hw. destruct (decimal_digits z) as (Hn & Hd & Hv); [unfold in_width in Hz; lia|].
  rewrite <- Hv at 2. apply from_str_radix_digits; [done..|]. unfold in_width in Hz. lia.
Qed.

(** ** Theorems *)

(** The flags that ask for given options. *)
Definition option_args (o : Options) : list rstring :=
  [str "--nodes"; decimal (opt_nodes o); str "--scenario"; opt_scenario o;
   str "--seed"; decimal (opt_seed o)].

(** The argument loop reads back what is written: flags spelled out for any options give just
    these options whatever was set before, and the loop goes on behind them, so that of repeated
    flags the last one counts. A scenario name is taken as it is, even one that looks like a flag. *)
Theorem cli_roundtrip (o d : Options) (more : list rstring) :
  in_width 64 (opt_nodes o) → in_width 64 (opt_seed o) →
  parse_args (option_args o ++ more) d = parse_args more o
  ∧ parse_args (option_args o) d = Selected o.
Proof.
  intros Hn Hs.
  assert (∀ more, parse_args (option_args o ++ more) d = parse_args more o) as E.
  { intros l. cbn [option_args app parse_args]. unfold number_or. cbn [head mbind option_bind].
    rewrite !parse_decimal by done. by destruct o. }
  split; [apply E|]. rewrite <- (app_nil_r (option_args o)). apply E.
Qed.

(** ** Runs *)

Definition SCENARIOS : list rstring :=
  map str ["broadcast"; "two"; "relay"; "partition"; "storm"; "flooder"]%string.

Section runs.
Context `{Sha256, Ed25519, X25519, Snow, Lz4, Rand, HashIter, UnicodeCase}.
Context `{!SnowLaws}.

(** A crowd of nobody: the origin of the message does not exist. *)
Lemma broadcast_empty seed : broadcast 0 seed = Panic.
Proof.
  unfold broadcast. destruct (geometric_in_range 0 seed CROWD_DEGREE) as (g & -> & Hg). cbn [obind].
  pose proof (wire_all_calm 0 0 _ _ (World_new_calm 0 crowd_cfg seed) Hg) as Hw.
  destruct (bootstrap_calm _ _ _ Hw) as (w1 & -> & Hw1). cbn [obind].
  destruct (run_for_calm _ _ w1 2000 Hw1) as (w2 & -> & Hw2); [lia..|]. cbn [obind].
  apply reset_tx_calm in Hw2. destruct Hw2 as (es & t & HG & _).
  pose proof (gd_count _ _ _ _ _ _ HG) as Hlen. unfold say.
  by destruct (nodes (reset_tx w2)) as [|sn l] eqn:E.
Qed.

Lemma bind_printed {A} (m : outcome unit A) (f : A → Report) :
  is_ok m = true → ∃ r, (let* x := m in Ok (Printed (f x)) : outcome unit Exit) = Ok (Printed r).
Proof. destruct m as [a| |]; [by exists (f a)|done..]. Qed.

(** The one run of a scenario that does not end in a report. *)
Definition nobody (o : Options) : Prop := opt_scenario o = str "broadcast" ∧ opt_nodes o = 0.

Lemma run_known o :
  in_width 64 (opt_nodes o) → opt_scenario o ∈ SCENARIOS → ¬ nobody o →
  ∃ r, run_scenario o = Ok (Printed r).
Proof.
  unfold nobody. destruct o as [k c sd]. cbn [opt_nodes opt_scenario]. intros Hw Hc Hno.
  unfold SCENARIOS in Hc. cbn [map] in Hc. rewrite !elem_of_cons in Hc.
  destruct Hc as [->|[->|[->|[->|[->|[->|Hc]]]]]]; [..|by apply not_elem_of_nil in Hc].
  - assert (0 < Z.to_nat k)%nat as Hk by (unfold in_width in Hw; destruct (decide (k = 0)); [naive_solver|lia]).
    exact (bind_printed _ (λ r, BroadcastReport k sd r (delivered_count (br_delivery_ratio r) k))
      (broadcast_ends (Z.to_nat k) sd Hk)).
  - exact (bind_printed _ TwoReport (two_nodes_hello_ends sd)).
  - exact (bind_printed _ RelayReport (line_relay_ends 6 sd)).
  - exact (bind_printed _ PartitionReport (partition_heal_ends sd)).
  - exact (bind_printed _ StormReport (duplicate_storm_ends sd)).
  - exact (bind_printed _ FloodReport (malicious_flooder_ends sd)).
Qed.

Lemma run_unknown o : opt_scenario o ∉ SCENARIOS → run_scenario o = Ok (Usage 2).
Proof.
  intros Hc. unfold run_scenario. cbv zeta.
  repeat (case_bool_decide as E; [exfalso; apply Hc; rewrite E; unfold SCENARIOS; cbn [map]; set_solver|clear E]).
  done.
Qed.

Lemma run_nobody o : nobody o → run_scenario o = Panic.
Proof.
  intros [Hc Hk]. unfold run_scenario. rewrite Hc, Hk, bool_decide_eq_true_2 by done.
  change (Z.to_nat 0) with 0%nat. by rewrite broadcast_empty.
Qed.

Lemma number_or_width old v : in_width 64 old → in_width 64 (number_or old v).
Proof.
  intros Hold. unfold number_or. destruct v as [s|]; [|done]. cbn [mbind option_bind].
  destruct (from_str_radix 10 64 s) as [z|] eqn:E; [|done]. by apply from_str_radix_width in E.
Qed.

Lemma parse_args_width args o o' :
  parse_args args o = Selected o' → in_width 64 (opt_nodes o) → in_width 64 (opt_nodes o').
Proof.
  remember (length args) as k eqn:Hk. revert args Hk o. induction (lt_wf k) as [k _ IH].
  intros [|arg rest] -> o; cbn [parse_args]; [by intros [= <-]|].
  repeat case_bool_decide; cbn [orb]; try done;
    (destruct rest as [|v rest]; [intros [= <-]|intros E Ho; eapply (IH (length rest)); [cbn; lia|done|exact E|]]);
    cbn [opt_nodes head]; try done; intros; by apply number_or_width.
Qed.

(** C36: every run of the command line ends, and how it ends is decided by the arguments: with the
    usage text and code 0 when help is asked for before anything unknown; with the usage text and
    code 2 at an unknown argument or for a scenario that has no name; with a panic exactly for a
    broadcast among no nodes; and with a report in all other cases. *)
Theorem main_exits (args : list rstring) :
  let p := parse_args (drop 1 args) default_options in
  (main args = Ok (Usage 0) ↔ p = HelpAsked)
  ∧ (main args = Ok (Usage 2) ↔
       (∃ a, p = UnknownArgument a) ∨ ∃ o, p = Selected o ∧ opt_scenario o ∉ SCENARIOS)
  ∧ (main args = Panic ↔ ∃ o, p = Selected o ∧ nobody o)
  ∧ ((∃ r, main args = Ok (Printed r)) ↔
       ∃ o, p = Selected o ∧ opt_scenario o ∈ SCENARIOS ∧ ¬ nobody o).
Proof.
  cbv zeta. unfold main.
  destruct (parse_args (drop 1 args) default_options) as [o| |a] eqn:Ep; [|naive_solver..].
  apply parse_args_width in Ep; [|done].
  destruct (decide (opt_scenario o ∈ SCENARIOS)) as [Hc|Hc].
  2: { rewrite run_unknown by done. assert (¬ nobody o) as Hno.
       { intros [E _]. apply Hc. rewrite E. unfold SCENARIOS. cbn [map]. set_solver. }
       naive_solver. }
  assert (Decision (nobody o)) as [Hno|Hno] by (unfold nobody; apply _).
  - rewrite run_nobody by done. naive_solver.
  - destruct (run_known o Ep Hc Hno) as [r ->]. naive_solver.
Qed.
End runs.

Example main_two : main [str "sim"; str "--scenario"; str "two"; str "--seed"; str "+1"]
  = Ok (Printed (TwoReport true)).
Proof. by vm_compute. Qed.

Example parse_edges :
  from_str_radix 10 64 (str "18446744073709551615") = Some (2 ^ 64 - 1)
  ∧ from_str_radix 10 64 (str "18446744073709551616") = None
  ∧ from_str_radix 10 64 (str "+") = None ∧ from_str_radix 10 64 (str "-1") = None
  ∧ from_str_radix 10 64 (str "") = None ∧ from_str_radix 10 64 (str "007") = Some 7.
Proof. by vm_compute. Qed.

(** The count printed from the ratio is the number of nodes reached, for the default crowd. *)
Example counts_survive_the_ratio :
  forallb (λ k, delivered_count (f64_div (f64_of_int (Z.of_nat k)) (f64_of_int 200)) 200 =? Z.of_nat k)
    (seq 0 201) = true.
Proof. by vm_compute. Qed.

(** ** Witnesses *)

Lemma cli_roundtrip_witness :
  let o := mkOptions 12 (str "--seed") (2 ^ 64 - 1) in
  parse_args (option_args o ++ [str "--nodes"; str "x"]) default_options = Selected o.
Proof.
  cbv zeta. destruct (cli_roundtrip (mkOptions 12 (str "--seed") (2 ^ 64 - 1)) default_options
    [str "--nodes"; str "x"]) as [E _]; [done|done|]. exact E.
Defined.

Lemma main_exits_witness :
  main [str "sim"; str "--nodes"; str "0"] = Panic
  ∧ ∃ r, main [str "sim"; str "--scenario"; str "storm"] = Ok (Printed r).
Proof.
  split.
  - apply (main_exits [str "sim"; str "--nodes"; str "0"]). by eexists.
  - apply (main_exits [str "sim"; str "--scenario"; str "storm"]). eexists.
    split; [reflexivity|]. split; [unfold SCENARIOS; cbn; set_solver|by intros [? _]].
Defined.
